(* ===== verification/_CoqProject ===== *)
-Q . S2P
Prelude.v
Errors.v
RustStr.v
Proxy.v
Proto.v
Wire.v
Codec.v
Discovery.v
Connection.v
Driver.v
Ledger.v
Typing.v
HashOrder.v
Budget.v
Dial.v
Session.v
Friends.v
Persona.v
Pool.v
Totp.v
SignIn.v
Redaction.v
Gc.v
GcSystem.v
GcRequest.v
GcClock.v
Host.v
Programs.v
EndToEnd.v
Login.v
Secrecy.v
Crates.v
TestsCore.v
TestsAuth.v
TestsSession.v
TestsClients.v
TestsOffline.v
TestsGc.v
Conformance.v
