(* ===== verification/Prelude.v ===== *)
(** * steamroids: a verification development

    steamroids is a Rust client of the Steam network.  It signs an account in over the Web
    API, opens a WebSocket to one of Steam's connection managers (CMs), optionally through
    a SOCKS5 or HTTP proxy, keeps the session alive in a background task, and offers
    friends, persona and game-coordinator (GC) calls on top of it.  This library models
    those parts as executable definitions and proves what makes them correct.

    ** The parts, and the files that model them

    Foundations
    - Prelude.v (this file): [Result] as a monad, machine integers as [Z] with their width
      written out, bytes, slices that can panic, formatting, tactics, hint databases and
      the generic lemmas.  [panicking A] is [option A]: [None] is a Rust panic (or, for a
      function with fuel, exhausted fuel), and the totality theorems rule it out.
    - Errors.v: src/error.rs, the error enumeration, its Display texts, EResult codes.
    - Proto.v and Wire.v: the prost interface.  The message types are generated at build
      time, so their codec is a parameter: the class [Message] with the laws [MessageLaws]
      (decoding undoes encoding, the announced length is the real one).  Wire.v is a
      concrete codec that satisfies the laws; the witnesses run on it.
    - RustStr.v: the parts of Rust's [str] the sources use (splitting, trimming, integer
      parsing, lossy UTF-8), on byte lists.

    The CM session
    - Codec.v: src/codec.rs, framing and unframing of messages.
    - Discovery.v: src/session/discovery.rs, the CM directory.
    - Connection.v: src/session/connection.rs.  A socket is the list of items its reader
      will yield; [poll] tells a pending read from a finished one.  Frames, [Multi]
      batches (gzip, nesting), [recv], [logon], and [establish] over several servers.
    - Driver.v: src/session/driver.rs and src/session/state.rs.  The background task is a
      state machine on [World]: the phase the task is in (connected, backing off,
      attempting, closing, stopped), the driver's own state, the clock and whether handles
      remain.  Each arm of each [select!] is a definition; [step] executes one event
      (arrivals, time, calls, dropped receivers, the arm that won), [step_rel] is the same
      as rules, [reachable] what a spawned session can get to.  Oneshot channels are slots
      in a map, so who is answered, and with what, is part of the state.
    - Ledger.v: the driver of Driver.v watched by a ledger of the requests it has put on the
      wire, which no step reads.
    - Typing.v: the widths of the driver's integers, from the decoded bytes to the channels.
    - HashOrder.v: the driver's two walks over a [HashMap], entry by entry in any order.
    - Budget.v: the connect path with its clock, its timers and its sleeps.
    - Dial.v: one dial (direct, HTTP CONNECT or SOCKS5, then TLS and WebSocket) with the timer
      of every step, the same functions as Proxy.v in a monad that counts the time, and a
      connect attempt on top of it.
    - Session.v: the [SessionHandle] as its clients use it, the class [SessionOps] with the
      laws [SessionLaws], and the instance that runs the driver of Driver.v under a script
      of what the scheduler and the network do, a call waiting for room in the command queue
      included, and between two statements of a caller too ([so_preempt]).
    - Friends.v, Persona.v: src/friends.rs and src/persona.rs, proved against that
      interface.

    Reaching Steam
    - Proxy.v: src/transport/mod.rs, proxy.rs, websocket.rs and src/http.rs: proxy URLs,
      percent decoding, HTTP CONNECT and SOCKS5 tunnels, the dial order, the HTTP client.
    - Pool.v: src/pool.rs, the rotating proxy pool.

    Signing in
    - Totp.v: src/auth/totp.rs, Steam Guard codes.
    - SignIn.v: src/auth/{jwt,rsa_pw,credentials,token_store,webapi,signin}.rs: the password
      flow with its guard and polling, the offline refresh-token flow, and both on top of
      a token store (the class [TokenStore] with [TokenStoreLaws]).
    - Redaction.v: the [Debug] implementations that keep secrets out of logs, as the calls
      they make on their formatter, and the [SignIn] builder.

    The game coordinator
    - Gc.v: src/gc/*.rs and src/cs2.rs: the relay envelope, the pump as a state machine,
      readiness, requests matched by a filter, and CS2 profile requests.
    - GcSystem.v: [GameCoordinator::attach]: the pump and the announcing caller running
      beside the driver, connected by its broadcasts (a receiver of bounded capacity), its
      published states (a [watch] receiver that coalesces) and its command queue.
    - GcRequest.v: a GC request and its answer through all of these layers.
    - GcClock.v: the timers of [wait_ready], [request_matching] and the profile request.

    The example programs
    - Host.v: what a program runs on: environment, terminal, files, exit statuses and one
      session, as a state monad [io] whose runs end, fail, exit, panic or hang; the rules for
      invariants of runs ([preserves]) and for two runs side by side ([same]), and the
      relations a session's users cannot see through ([Indistinguishable]).
    - Programs.v: examples/01, 04, 05, 07, 08, 09, 10 and 11, from the environment variables
      to the exit status, over a record [Steam] of the library's operations.
    - EndToEnd.v: [drives], what makes a [Steam] one of driver sessions, and [driver_steam],
      which builds it from Connection.v, Driver.v, Session.v and GcClock.v.
    - Login.v: the programs with the sign-in of SignIn.v, from the password to the logon frame.
    - Secrecy.v: driver sessions that differ in their refresh token run in lockstep, and
      sign-ins that differ in their secrets come to the same but for the tokens.

    The repository's own tests
    - Crates.v: concrete stand-ins for the crates the tests run on: SHA-1 and HMAC, base64,
      hexadecimal numbers, URLs and JSON.
    - TestsCore.v, TestsAuth.v, TestsSession.v, TestsClients.v, TestsOffline.v, TestsGc.v:
      every unit test of src/ and every offline integration test of tests/ as a boolean on
      the model, under its Rust name.
    - Conformance.v: they all hold.

    ** What the theorems show

    - Frames: [unframe] accepts exactly the documented layout, encoding round-trips, and no
      input makes the decoders panic; [Multi] trees of any admissible shape flatten to their
      leaves in order, and [recv] hands out exactly the stream's messages in order.
    - Logon: the first decisive message decides, refusals are sorted by code, [establish]
      always answers, stops at its first decisive server and tries at most five; the initial
      connect gives up within 527 seconds.
    - The driver: it handles every event it is ready for; every caller is answered once the
      task has stopped; nothing is in flight while it is down; the published state is
      truthful; job ids are fresh; a request meets its reply end to end, with nothing else
      touched, and replies are never swapped, however many requests are in flight; the sweep,
      the watchdog, the backoff schedule (counted along the session's history) and the initial
      connect are exact, whatever order the hash map iterates in; every integer stays within
      its Rust type; a logoff ends the session and answers everybody, and so does dropping
      every handle, five seconds later at most even on a socket that never flushes the
      goodbye.
    - Time: a dial is decided within 45 seconds directly and 75 through a proxy, and comes to
      what its timers say; a failed connect blames the attempt, the TCP connect or a handshake
      with the server, never a timer of the proxy; lists wait ten seconds and requests thirty,
      once they are queued, each edit of a batch on its own, while a notification waits for
      its write under no timer; a GC request hands its message over by its deadline or not at
      all, and overruns the deadline by the time of its send only.
    - Clients: the post-login lists are never missed although the push races the call, before,
      between and after its subscription and its look at the cache; group edits stop at the first refusal; adding a friend and persona
      summaries report exactly what Steam answered for the account asked about.
    - Proxies: the port rule, percent round trips, the tunnel starts behind the proxy's
      reply; the pool hands out healthy proxies, fairly, and retires them on schedule.
    - Sign-in: it terminates, with at most 120 polls that all begin within the budget; success
      is genuine, stored tokens are used exactly when they
      are good, and the store holds what was returned; guard codes never index out of range;
      [Debug] output reveals exactly the public part of a sign-in and of its outcome.
    - GC: the envelope round-trips, the pump refines its readiness signal and requests get
      the first reply they accept.  Attached to a session, every interleaving projects to a
      run of the driver and a run of the pump that heard what the driver broadcast, so its
      subscribers get this app's messages and no others, from the subscription on; the hellos
      keep to their budget; the pump ends with the session; readiness is current if broadcasts are read before resets, and a
      concrete run shows that it can go stale otherwise.  A GC request and its answer meet end
      to end, byte for byte.
    - Programs: a session is logged on, over every reconnect, with the account of the
      environment and a token the Web API sent, or the one the token file held; a first login
      serves the later runs; the account dump gets through all its sections whatever fails;
      what they print does not depend on the password, the shared secret or the tokens, with
      the sign-in of SignIn.v and over driver sessions, unless the library refuses the secrets
      in different words (a base64 error names a byte of a malformed shared secret); a program
      that succeeds leaves no session running.
    - Errors: a list that is not cached times out on a stopped session, ten seconds after the
      call.
    - Conformance: 195 unit tests and 29 offline integration tests hold of the model.

    ** Bounds and fuel

    Loops over finite data recurse on it.  The others carry fuel, with a proof that the fuel
    given is enough: [decode_multi] six levels (the depth guard rejects the sixth),
    [read_message] one round per socket item and two more, [split_messages] one round per
    byte, [percent_decode] the length of its input, the poll loop of the sign-in 121 rounds
    (one per second of its 120 s budget, the interval being at least one second), and
    [logon]'s loop the messages its connection still holds.  Job ids are fresh for the first 2^64 - 2
    commands of a session, after which the counter wraps to 1.

    ** Parameters and what is left out

    Parameters (code outside the repository): prost's message codecs, flate2's decoder,
    tungstenite and TCP (their results), the url crate's parser, reqwest, serde_json,
    base64, HMAC-SHA1 and RSA.  tokio is modelled by its documented behaviour: channels as
    queues and slots, timers as instants on a clock in milliseconds, [select!] as the
    choice of the next event.  A socket write that never completes is a run in
    which the driver takes no further event; a write that completes takes no time, so the
    timers of the driver's other arms are not delayed by one.  Left out: the code generated
    from the .proto files, TLS setup, logging (the [tracing] events, which are no part of the
    lines a program prints in Programs.v), accessors that return a field, examples/02 and
    03 (a request to httpbin.org and an echo over a tunnel or a socket of Proxy.v and Dial.v:
    what remains is the network's), the bench (it measures time), the tests against the live
    service, and five tests that are about other code only (named in Conformance.v and
    TestsOffline.v).

    A system of GcSystem.v has one coordinator.  Others on the same session only reach it
    through the driver, as calls and broadcasts, which its runs allow at any point.

    The programs of Programs.v hold one session each and make their calls one after the other;
    what other tasks do in the meantime, the coordinator's pump among them, is in the script
    of the session (Session.v), and what the pump makes of it is a parameter of
    [driver_steam]: GcSystem.v has the pump itself. *)

From Stdlib Require Export Strings.Byte Strings.Ascii Strings.String.
From stdpp Require Export base gmap list strings pretty numbers relations option.
#[local] Set Default Goal Selector "!".

Open Scope Z_scope.

(** ** Results: Rust's [Result<T, E>]

    [result E A] is [std::result::Result] with the error type first, so that
    [result E] is a monad and [x ← m; k] reads as Rust's [let x = m?; k]. *)
Inductive result (E A : Type) : Type :=
  | Ok (a : A)
  | Err (e : E).
Arguments Ok {E A} a.
Arguments Err {E A} e.

#[export] Instance result_ret E : MRet (result E) := fun _ a => Ok a.
#[export] Instance result_bind E : MBind (result E) := fun _ _ f m =>
  match m with Ok a => f a | Err e => Err e end.
#[export] Instance result_fmap E : FMap (result E) := fun _ _ f m =>
  match m with Ok a => Ok (f a) | Err e => Err e end.
#[export] Instance result_eq_dec E A `{EqDecision E, EqDecision A} :
  EqDecision (result E A).
Proof. solve_decision. Defined.

(** [Result::map_err], [Option::ok_or] and [Result::is_ok]. *)
Definition map_err {E F A} (f : E → F) (m : result E A) : result F A :=
  match m with Ok a => Ok a | Err e => Err (f e) end.
Definition ok_or {E A} (o : option A) (e : E) : result E A :=
  match o with Some a => Ok a | None => Err e end.
Definition is_ok {E A} (m : result E A) : bool :=
  match m with Ok _ => true | Err _ => false end.
Definition result_ok {E A} (m : result E A) : option A :=
  match m with Ok a => Some a | Err _ => None end.

(** [Option::unwrap_or] and [Option::filter] (with a boolean predicate). *)
Definition unwrap_or {A} (o : option A) (d : A) : A :=
  match o with Some a => a | None => d end.
Definition opt_filter {A} (p : A → bool) (o : option A) : option A :=
  match o with Some a => if p a then Some a else None | None => None end.

(** ** Machine integers

    A [w]-bit integer is a [Z]; [in_u w] says it is a value of that width, and
    [wrap_u w] is the truncating cast [as uN]. *)
Definition in_u (w : Z) (z : Z) : Prop := 0 ≤ z < 2 ^ w.
Definition in_i (w : Z) (z : Z) : Prop := - 2 ^ (w - 1) ≤ z < 2 ^ (w - 1).
Definition wrap_u (w : Z) (z : Z) : Z := z mod 2 ^ w.
Abbreviation u32_max := (2 ^ 32 - 1).
Abbreviation u64_max := (2 ^ 64 - 1).

(** [checked_add], [saturating_add], [saturating_sub] and bitwise [!] at a
    width. *)
Definition checked_add (w a b : Z) : option Z :=
  if decide (a + b < 2 ^ w) then Some (a + b) else None.
Definition saturating_add (w a b : Z) : Z := Z.min (a + b) (2 ^ w - 1).
Definition saturating_sub (a b : Z) : Z := Z.max 0 (a - b).
Definition not_u (w a : Z) : Z := Z.lxor a (2 ^ w - 1).

#[export] Instance in_u_dec w z : Decision (in_u w z).
Proof. unfold in_u. apply _. Defined.
#[export] Instance in_i_dec w z : Decision (in_i w z).
Proof. unfold in_i. apply _. Defined.

(** ** Bytes and byte order

    A [u8] is [Byte.byte], so a [&[u8]] is a [list byte] with no side
    condition; [to_le_bytes] and [from_le_bytes] follow the standard library. *)
Abbreviation byte := Byte.byte.
Definition byte_Z (b : byte) : Z := Z.of_N (Byte.to_N b).
Definition Z_byte (z : Z) : byte :=
  match Byte.of_N (Z.to_N (z mod 256)) with Some b => b | None => x00 end.

#[export] Instance byte_eq_dec : EqDecision byte := Byte.byte_eq_dec.

Fixpoint to_le_bytes (n : nat) (z : Z) : list byte :=
  match n with
  | O => []
  | S n => Z_byte z :: to_le_bytes n (z / 256)
  end.
Fixpoint from_le_bytes (bs : list byte) : Z :=
  match bs with
  | [] => 0
  | b :: bs => byte_Z b + 256 * from_le_bytes bs
  end.
Definition to_be_bytes (n : nat) (z : Z) : list byte := rev (to_le_bytes n z).
Definition from_be_bytes (bs : list byte) : Z := from_le_bytes (rev bs).

(** [str::as_bytes]; a Rust [String] is a [string] of its UTF-8 bytes. *)
Abbreviation as_bytes := list_byte_of_string.

(** ** Slices and panics

    A slice index out of range panics in Rust.  Code whose slicing matters is
    written in the option monad, where [None] is a panic, so that "this input
    cannot panic" is a theorem; [len] is [slice::len]. *)
Abbreviation panicking A := (option A).
Definition len {A} (l : list A) : Z := Z.of_nat (length l).
Definition slice_to {A} (l : list A) (n : Z) : panicking (list A) :=
  if decide (0 ≤ n ≤ len l) then Some (take (Z.to_nat n) l) else None.
Definition slice_from {A} (l : list A) (n : Z) : panicking (list A) :=
  if decide (0 ≤ n ≤ len l) then Some (drop (Z.to_nat n) l) else None.
Definition slice {A} (l : list A) (a b : Z) : panicking (list A) :=
  if decide (0 ≤ a ≤ b ∧ b ≤ len l)
  then Some (take (Z.to_nat (b - a)) (drop (Z.to_nat a) l)) else None.
(** [u32::from_le_bytes(bs.try_into().unwrap())]. *)
Definition u32_from_le (bs : list byte) : panicking Z :=
  if decide (length bs = 4%nat) then Some (from_le_bytes bs) else None.

(** ** Formatting: [{}] and [{:0nx}] *)
Definition hex_digit (z : Z) : ascii :=
  ascii_of_N (Z.to_N (if decide (z < 10) then 48 + z else 87 + z)).
Fixpoint hex_fixed (n : nat) (z : Z) : string :=
  match n with
  | O => ""
  | S n => hex_fixed n (z / 16) +:+ String (hex_digit (z mod 16)) EmptyString
  end.

(** ** The development's hint databases *)
Create HintDb steam discriminated.
Create Rewrite HintDb steam_simpl.
Create HintDb steam_arith discriminated.

(** ** Automation *)

(** Case split on the innermost scrutinee of a [match] or [if] in the goal or
    a hypothesis, keeping the equation. *)
Ltac split_match :=
  match goal with
  | |- context [match ?x with _ => _ end] => destruct x eqn:?
  | H : context [match ?x with _ => _ end] |- _ => destruct x eqn:?
  end.

(** Run a result-valued hypothesis to its successful end: unfold the monad,
    split every scrutinee and discard the contradictory branches. *)
Ltac run_result :=
  repeat (unfold mbind, mret, result_bind, result_ret, ok_or, map_err in *;
          simplify_eq/=; try split_match; simplify_eq/=; try done).

(** Boolean tests to propositions. *)
Ltac bool_props :=
  repeat match goal with
  | H : (_ && _)%bool = true |- _ => apply andb_true_iff in H as [? ?]
  | H : (_ || _)%bool = false |- _ => apply orb_false_iff in H as [? ?]
  | H : negb _ = true |- _ => apply negb_true_iff in H
  | H : negb _ = false |- _ => apply negb_false_iff in H
  | H : (_ =? _) = true |- _ => apply Z.eqb_eq in H
  | H : (_ =? _) = false |- _ => apply Z.eqb_neq in H
  | H : (_ <? _) = true |- _ => apply Z.ltb_lt in H
  | H : (_ <? _) = false |- _ => apply Z.ltb_ge in H
  | H : (_ <=? _) = true |- _ => apply Z.leb_le in H
  | H : (_ <=? _) = false |- _ => apply Z.leb_gt in H
  end.

(** ** Generic lemmas *)

(** *** Results *)
Lemma bind_ok {E A B} (m : result E A) (f : A → result E B) b :
  (a ← m; f a) = Ok b ↔ ∃ a, m = Ok a ∧ f a = Ok b.
Proof. split; [destruct m; [by eauto|done] | by intros (a & -> & ?)]. Qed.

Lemma bind_err {E A B} (m : result E A) (f : A → result E B) e :
  (a ← m; f a) = Err e ↔ m = Err e ∨ ∃ a, m = Ok a ∧ f a = Err e.
Proof.
  split; [destruct m; simpl; [by eauto|intros [= ->]; by left]|].
  by intros [->|(a & -> & ?)].
Qed.

Lemma map_err_ok {E F A} (g : E → F) (m : result E A) a :
  map_err g m = Ok a ↔ m = Ok a.
Proof. destruct m; split; by intros [= ->]. Qed.

(** *** Bytes *)
Lemma byte_Z_bound b : 0 ≤ byte_Z b < 256.
Proof. unfold byte_Z. pose proof (Byte.to_N_bounded b). lia. Qed.

Lemma byte_Z_Z_byte z : byte_Z (Z_byte z) = z mod 256.
Proof.
  unfold byte_Z, Z_byte.
  pose proof (Z.mod_pos_bound z 256 eq_refl) as Hz.
  destruct (Byte.of_N (Z.to_N (z mod 256))) as [b|] eqn:Hb.
  - apply Byte.to_of_N in Hb. rewrite Hb. lia.
  - apply Byte.of_N_None_iff in Hb. lia.
Qed.

Lemma Z_byte_byte_Z b : Z_byte (byte_Z b) = b.
Proof.
  unfold Z_byte, byte_Z. pose proof (Byte.to_N_bounded b).
  rewrite Z.mod_small by lia. by rewrite N2Z.id, Byte.of_to_N.
Qed.

#[export] Instance byte_Z_inj : Inj (=) (=) byte_Z.
Proof. intros a b Hab. by rewrite <-(Z_byte_byte_Z a), Hab, Z_byte_byte_Z. Qed.

Lemma Z_byte_add b z : Z_byte (byte_Z b + 256 * z) = b.
Proof.
  apply (inj byte_Z). rewrite byte_Z_Z_byte.
  rewrite Z.mul_comm, Z.mod_add by lia. by rewrite Z.mod_small by apply byte_Z_bound.
Qed.

Lemma length_to_le_bytes n z : length (to_le_bytes n z) = n.
Proof. revert z. induction n as [|n IH]; intros z; [done|]. simpl. by rewrite IH. Qed.

Lemma from_le_bytes_bound bs : 0 ≤ from_le_bytes bs < 256 ^ Z.of_nat (length bs).
Proof.
  induction bs as [|b bs IH]; cbn [from_le_bytes length]; [lia|].
  rewrite Nat2Z.inj_succ, Z.pow_succ_r by lia. pose proof (byte_Z_bound b). nia.
Qed.

Lemma from_to_le_bytes n z :
  from_le_bytes (to_le_bytes n z) = z mod 256 ^ Z.of_nat n.
Proof.
  revert z. induction n as [|n IH]; intros z; cbn [from_le_bytes to_le_bytes].
  - by rewrite Z.mod_1_r.
  - rewrite IH, byte_Z_Z_byte, Nat2Z.inj_succ, Z.pow_succ_r by lia.
    pose proof (Z.pow_pos_nonneg 256 (Z.of_nat n)).
    rewrite (Z.rem_mul_r z 256 (256 ^ Z.of_nat n)) by lia. lia.
Qed.

Lemma to_from_le_bytes bs : to_le_bytes (length bs) (from_le_bytes bs) = bs.
Proof.
  induction bs as [|b bs IH]; cbn [from_le_bytes to_le_bytes length]; [done|].
  rewrite Z_byte_add. f_equal.
  replace ((byte_Z b + 256 * from_le_bytes bs) / 256) with (from_le_bytes bs);
    [done|].
  pose proof (byte_Z_bound b). rewrite Z.mul_comm, Z.div_add by lia.
  by rewrite (Z.div_small (byte_Z b)) by lia.
Qed.

Lemma from_to_le_bytes_small n z :
  0 ≤ z < 256 ^ Z.of_nat n → from_le_bytes (to_le_bytes n z) = z.
Proof. intros. rewrite from_to_le_bytes. by apply Z.mod_small. Qed.

#[export] Hint Rewrite length_to_le_bytes : steam_simpl.
#[export] Hint Resolve byte_Z_bound from_le_bytes_bound : steam_arith.

(** *** Bit masks: [a & (2^k - 1)] and [a | 2^k] *)
Lemma land_ones_mod a k : 0 ≤ k → Z.land a (2 ^ k - 1) = a mod 2 ^ k.
Proof. intros. rewrite <-Z.land_ones by done. f_equal. rewrite Z.ones_equiv. lia. Qed.

Lemma land_pow2_small a k : 0 ≤ k → 0 ≤ a < 2 ^ k → Z.land a (2 ^ k) = 0.
Proof.
  intros Hk Ha. apply Z.bits_inj'. intros i Hi.
  rewrite Z.land_spec, Z.bits_0, Z.pow2_bits_eqb by lia.
  destruct (Z.eqb_spec k i) as [->|]; [|apply andb_false_r].
  rewrite Z.testbit_eqb, Z.div_small by lia. done.
Qed.

Lemma lor_pow2 a k : 0 ≤ k → 0 ≤ a < 2 ^ k → Z.lor a (2 ^ k) = a + 2 ^ k.
Proof. intros. symmetry. apply Z.add_nocarry_lor, land_pow2_small; lia. Qed.

(** The high bit of an [(k+1)]-bit word: [a & 2^k == 0] iff [a < 2^k]. *)
Lemma land_pow2_top a k :
  0 ≤ k → 0 ≤ a < 2 ^ (k + 1) → Z.land a (2 ^ k) = 0 ↔ a < 2 ^ k.
Proof.
  intros Hk Ha. rewrite Z.pow_add_r, Z.pow_1_r in Ha by lia. split.
  - intros H0. destruct (decide (a < 2 ^ k)) as [|Hge]; [done|exfalso].
    assert (Z.testbit (Z.land a (2 ^ k)) k = false) as Hb by by rewrite H0, Z.bits_0.
    rewrite Z.land_spec, Z.pow2_bits_true, andb_true_r in Hb by lia.
    rewrite Z.testbit_eqb in Hb by lia.
    assert (a / 2 ^ k = 1) as Hdiv by (symmetry; apply (Z.div_unique _ _ _ (a - 2 ^ k)); lia).
    by rewrite Hdiv in Hb.
  - intros. apply land_pow2_small; lia.
Qed.

(** *** Slices *)
Lemma len_nonneg {A} (l : list A) : 0 ≤ len l.
Proof. unfold len. lia. Qed.

Lemma len_app {A} (l k : list A) : len (l ++ k) = len l + len k.
Proof. unfold len. rewrite length_app. lia. Qed.

Lemma slice_to_Some {A} (l : list A) n :
  0 ≤ n ≤ len l → slice_to l n = Some (take (Z.to_nat n) l).
Proof. intros. unfold slice_to. by rewrite decide_True by done. Qed.

Lemma slice_from_Some {A} (l : list A) n :
  0 ≤ n ≤ len l → slice_from l n = Some (drop (Z.to_nat n) l).
Proof. intros. unfold slice_from. by rewrite decide_True by done. Qed.

Lemma u32_from_le_Some bs : length bs = 4%nat → u32_from_le bs = Some (from_le_bytes bs).
Proof. intros. unfold u32_from_le. by rewrite decide_True by done. Qed.

Lemma take_drop_app_eq {A} (l1 l2 : list A) n :
  length l1 = n → take n (l1 ++ l2) = l1 ∧ drop n (l1 ++ l2) = l2.
Proof. intros <-. by rewrite take_app_length, drop_app_length. Qed.

#[global] Arguments to_le_bytes : simpl never.
#[global] Arguments from_le_bytes : simpl never.
