(* ===== verification/Errors.v ===== *)
(** * [src/error.rs]: Steam's [EResult] codes and the crate's error type

    The constants of [mod eresult], the [Error] enum with the source's
    constructors (a third-party error payload is its [Display] string), and the
    [Display] text [thiserror] derives from the [#[error("...")]] attributes. *)
From S2P Require Import Prelude.
#[local] Set Default Goal Selector "!".

(** ** [mod eresult] *)
Module eresult.
Definition OK : Z := 1.
Definition FAIL : Z := 2.
Definition NO_CONNECTION : Z := 3.
Definition INVALID_PASSWORD : Z := 5.
Definition BUSY : Z := 10.
Definition TIMEOUT : Z := 16.
Definition SERVICE_UNAVAILABLE : Z := 20.
Definition DUPLICATE_REQUEST : Z := 29.
Definition TRY_ANOTHER_CM : Z := 48.
Definition ACCOUNT_LOGON_DENIED : Z := 63.
Definition RATE_LIMIT_EXCEEDED : Z := 84.
Definition ACCOUNT_LOGIN_DENIED_NEED_TWO_FACTOR : Z := 85.
Definition ACCOUNT_LOGIN_DENIED_THROTTLE : Z := 87.
Definition TWO_FACTOR_CODE_MISMATCH : Z := 88.
End eresult.

(** ** [enum Error] *)
Inductive Error : Type :=
  | Io (e : string)
  | InvalidUrl (s : string)
  | UrlParse (e : string)
  | InvalidConfig (s : string)
  | Socks5 (s : string)
  | HttpConnect (s : string)
  | Tls (s : string)
  | WebSocket (s : string)
  | Codec (s : string)
  | Base64 (e : string)
  | HmacKey
  | Network (s : string)
  | AuthRejected (s : string)
  | LogonRetryable (s : string)
  | Remote (s : string)
  | AuthRateLimited (s : string)
  | TokenStore (s : string)
  | InvalidState (expected actual : string)
  | Timeout (s : string)
  | NotImplemented (s : string).

#[export] Instance Error_eq_dec : EqDecision Error.
Proof. solve_decision. Defined.

(** The crate's [Result<T>] alias ([src/lib.rs]). *)
Abbreviation Result := (result Error).

(** [Display for Error] ([e.to_string()]). *)
Definition error_to_string (e : Error) : string :=
  match e with
  | Io s => "io: " +:+ s
  | InvalidUrl s => "invalid url: " +:+ s
  | UrlParse s => "url parse: " +:+ s
  | InvalidConfig s => "invalid config: " +:+ s
  | Socks5 s => "socks5: " +:+ s
  | HttpConnect s => "http connect: " +:+ s
  | Tls s => "tls: " +:+ s
  | WebSocket s => "websocket: " +:+ s
  | Codec s => "codec: " +:+ s
  | Base64 s => "base64: " +:+ s
  | HmacKey => "hmac: invalid key length"
  | Network s => "network: " +:+ s
  | AuthRejected s => "auth rejected: " +:+ s
  | LogonRetryable s => "cm logon retryable: " +:+ s
  | Remote s => "steam request failed: " +:+ s
  | AuthRateLimited s => "auth rate-limited: " +:+ s
  | TokenStore s => "token store: " +:+ s
  | InvalidState ex ac =>
      "invalid session state: expected " +:+ ex +:+ ", was " +:+ ac
  | Timeout s => "timeout: " +:+ s
  | NotImplemented s => "not implemented yet: " +:+ s
  end.

(** Patterns the code matches on. *)
Definition is_codec (e : Error) : bool := match e with Codec _ => true | _ => false end.
Definition is_auth_rejected (e : Error) : bool :=
  match e with AuthRejected _ => true | _ => false end.
Definition is_logon_retryable (e : Error) : bool :=
  match e with LogonRetryable _ => true | _ => false end.
