(* ===== verification/RustStr.v ===== *)
(** * The parts of [std]'s [str] API the crate uses

    A [&str] is the list of its UTF-8 bytes.  Separators and patterns are ASCII,
    so searching bytes is searching characters; whitespace follows the Unicode
    [White_Space] property as [char::is_whitespace] does. *)
From S2P Require Import Prelude.
#[local] Set Default Goal Selector "!".

Abbreviation bstr := (list byte).

(** ** Splitting and stripping *)
Fixpoint split_once (c : byte) (l : bstr) : option (bstr * bstr) :=
  match l with
  | [] => None
  | x :: l => if decide (x = c) then Some ([], l)
              else '(a, b) ← split_once c l; Some (x :: a, b)
  end.
Definition rsplit_once (c : byte) (l : bstr) : option (bstr * bstr) :=
  '(a, b) ← split_once c (rev l); Some (rev b, rev a).

Fixpoint strip_prefix (pat l : bstr) : option bstr :=
  match pat, l with
  | [], _ => Some l
  | p :: pat, x :: l => if decide (p = x) then strip_prefix pat l else None
  | _ :: _, [] => None
  end.
Definition strip_suffix (pat l : bstr) : option bstr :=
  r ← strip_prefix (rev pat) (rev l); Some (rev r).

Fixpoint split_once_str (pat l : bstr) : option (bstr * bstr) :=
  match strip_prefix pat l with
  | Some r => Some ([], r)
  | None => match l with
            | [] => None
            | x :: l => '(a, b) ← split_once_str pat l; Some (x :: a, b)
            end
  end.

(** [s.split(chars).next()]: everything before the first separator. *)
Fixpoint before_any (seps l : bstr) : bstr :=
  match l with
  | [] => []
  | x :: l => if decide (x ∈ seps) then [] else x :: before_any seps l
  end.

(** [s.split(c)]: always at least one piece. *)
Fixpoint split_char (c : byte) (l : bstr) : list bstr :=
  match l with
  | [] => [[]]
  | x :: l => if decide (x = c) then [] :: split_char c l
              else match split_char c l with
                   | p :: ps => (x :: p) :: ps
                   | [] => [[x]]
                   end
  end.

Definition is_ascii_digit (b : byte) : bool := (48 <=? byte_Z b) && (byte_Z b <=? 57).

(** ** Whitespace *)

(** Length of the whitespace character at the head, 0 if there is none. *)
Definition ws_len (l : bstr) : nat :=
  match l with
  | (x09 | x0a | x0b | x0c | x0d | x20) :: _ => 1
  | xc2 :: (x85 | xa0) :: _ => 2
  | xe1 :: x9a :: x80 :: _ => 3
  | xe2 :: x80 :: b :: _ =>
      if ((byte_Z b <=? 0x8a) && (0x80 <=? byte_Z b))%Z then 3
      else match b with xa8 | xa9 | xaf => 3 | _ => 0 end
  | xe2 :: x81 :: x9f :: _ => 3
  | xe3 :: x80 :: x80 :: _ => 3
  | _ => 0
  end%nat.

(** [trim_end]: [held] is the whitespace seen since the last other character. *)
Fixpoint trim_end_go (skip : nat) (held l : bstr) : bstr :=
  match l with
  | [] => []
  | x :: rest =>
      match skip with
      | S skip => trim_end_go skip (held ++ [x]) rest
      | O => match ws_len l with
             | S k => trim_end_go k (held ++ [x]) rest
             | O => held ++ x :: trim_end_go 0 [] rest
             end
      end
  end.
Definition trim_end (l : bstr) : bstr := trim_end_go 0 [] l.

(** [trim_start] and [trim]. *)
Fixpoint trim_start_go (skip : nat) (l : bstr) : bstr :=
  match l with
  | [] => []
  | x :: rest =>
      match skip with
      | S skip => trim_start_go skip rest
      | O => match ws_len l with
             | S k => trim_start_go k rest
             | O => l
             end
      end
  end.
Definition trim (l : bstr) : bstr := trim_end (trim_start_go 0 l).

(** [split_whitespace]: the non-empty pieces; [cur] is the piece being read. *)
Definition push_piece (cur : bstr) (ps : list bstr) : list bstr :=
  match cur with [] => ps | _ => cur :: ps end.
Fixpoint split_ws_go (skip : nat) (cur l : bstr) : list bstr :=
  match l with
  | [] => push_piece cur []
  | x :: rest =>
      match skip with
      | S skip => split_ws_go skip cur rest
      | O => match ws_len l with
             | S k => push_piece cur (split_ws_go k [] rest)
             | O => split_ws_go 0 (cur ++ [x]) rest
             end
      end
  end.
Definition split_whitespace (l : bstr) : list bstr := split_ws_go 0 [] l.

(** ** Integers: [str::parse]

    [from_str_radix] in base 10: an optional sign ([-] only for signed types), then
    digits folded left to right with overflow checks.  [Err] is the [Display] of
    [ParseIntError]. *)
Definition digit (b : byte) : option Z :=
  if is_ascii_digit b then Some (byte_Z b - 48) else None.
Fixpoint parse_digits (neg : bool) (lo hi : Z) (acc : Z) (l : bstr) : result string Z :=
  match l with
  | [] => Ok acc
  | b :: l =>
      x ← ok_or (digit b) "invalid digit found in string"%string;
      let acc := if neg then 10 * acc - x else 10 * acc + x in
      if decide (acc < lo) then Err "number too small to fit in target type"%string
      else if decide (hi < acc) then Err "number too large to fit in target type"%string
      else parse_digits neg lo hi acc l
  end.
Definition parse_int (signed : bool) (lo hi : Z) (l : bstr) : result string Z :=
  match l with
  | [] => Err "cannot parse integer from empty string"%string
  | [x2b] | [x2d] => Err "invalid digit found in string"%string
  | x2b :: l => parse_digits false lo hi 0 l
  | x2d :: l' => if signed then parse_digits true lo hi 0 l'
                 else parse_digits false lo hi 0 l
  | _ => parse_digits false lo hi 0 l
  end.
Definition parse_u64 (l : bstr) : result string Z := parse_int false 0 u64_max l.
Definition parse_i32 (l : bstr) : result string Z := parse_int true (- 2 ^ 31) (2 ^ 31 - 1) l.

(** ** UTF-8: [String::from_utf8_lossy] *)
Definition in_range (lo hi : Z) (b : byte) : bool := (lo <=? byte_Z b) && (byte_Z b <=? hi).
Definition cont (b : byte) : bool := in_range 0x80 0xbf b.

(** The width the first byte announces (0: not a first byte), and whether the
    second byte may follow it. *)
Definition utf8_width (b : byte) : nat :=
  (if byte_Z b <? 0x80 then 1%nat
   else if in_range 0xc2 0xdf b then 2%nat
   else if in_range 0xe0 0xef b then 3%nat
   else if in_range 0xf0 0xf4 b then 4%nat
   else 0%nat).
Definition second_ok (b b2 : byte) : bool :=
  if decide (byte_Z b = 0xe0) then in_range 0xa0 0xbf b2
  else if decide (byte_Z b = 0xed) then in_range 0x80 0x9f b2
  else if decide (byte_Z b = 0xf0) then in_range 0x90 0xbf b2
  else if decide (byte_Z b = 0xf4) then in_range 0x80 0x8f b2
  else cont b2.

(** The chunk at the head: [(n, true)] a character of [n] bytes, [(n, false)] an
    ill-formed sequence of [n] bytes (its maximal prefix), as [Utf8Chunks] finds
    them. *)
Definition utf8_chunk (b : byte) (rest : bstr) : nat * bool :=
  match utf8_width b with
  | 1 => (1, true)
  | 2 => match rest with b2 :: _ => if second_ok b b2 then (2, true) else (1, false)
                       | _ => (1, false) end
  | 3 => match rest with
         | b2 :: rest => if second_ok b b2
                         then match rest with b3 :: _ => if cont b3 then (3, true) else (2, false)
                                            | _ => (2, false) end
                         else (1, false)
         | _ => (1, false) end
  | 4 => match rest with
         | b2 :: rest =>
             if second_ok b b2
             then match rest with
                  | b3 :: rest => if cont b3
                      then match rest with b4 :: _ => if cont b4 then (4, true) else (3, false)
                                         | _ => (3, false) end
                      else (2, false)
                  | _ => (2, false) end
             else (1, false)
         | _ => (1, false) end
  | _ => (1, false)
  end%nat.

Definition REPLACEMENT : bstr := [xef; xbf; xbd].
(** [skip] bytes of the current chunk remain; [copy] says whether to keep them. *)
Fixpoint utf8_lossy_go (skip : nat) (copy : bool) (l : bstr) : bstr :=
  match l with
  | [] => []
  | b :: rest =>
      match skip with
      | S skip => if copy then b :: utf8_lossy_go skip copy rest else utf8_lossy_go skip copy rest
      | O => match utf8_chunk b rest with
             | (n, true) => b :: utf8_lossy_go (pred n) true rest
             | (n, false) => REPLACEMENT ++ utf8_lossy_go (pred n) false rest
             end
      end
  end.
Definition from_utf8_lossy (l : bstr) : bstr := utf8_lossy_go 0 true l.

(** [str::from_utf8(..).is_ok()]. *)
Fixpoint utf8_valid_go (skip : nat) (l : bstr) : bool :=
  match l with
  | [] => true
  | b :: rest =>
      match skip with
      | S skip => utf8_valid_go skip rest
      | O => match utf8_chunk b rest with
             | (n, true) => utf8_valid_go (pred n) rest
             | (_, false) => false
             end
      end
  end.
Definition utf8_valid (l : bstr) : bool := utf8_valid_go 0 l.

(** ** Lemmas *)
Lemma split_once_Some c l a b :
  split_once c l = Some (a, b) ↔ l = a ++ c :: b ∧ c ∉ a.
Proof.
  revert a b. induction l as [|x l IH]; intros a b; cbn.
  { split; [done|]. by intros [? _]; destruct a. }
  case_decide as Hx.
  - subst. split; [intros [= <- <-]; set_solver|].
    intros [He Hn]. destruct a as [|y a]; simplify_eq/=; [done|set_solver].
  - split.
    + destruct (split_once c l) as [[a' b']|] eqn:Hs; [|done]. cbn. intros [= <- <-].
      destruct (proj1 (IH a' b') eq_refl) as [-> ?]. set_solver.
    + intros [He Hn]. destruct a as [|y a]; simplify_eq/=.
      rewrite (proj2 (IH a b)) by set_solver. done.
Qed.

Lemma split_once_None c l : split_once c l = None ↔ c ∉ l.
Proof.
  induction l as [|x l IH]; cbn; [set_solver|]. case_decide; [set_solver|].
  destruct (split_once c l) as [[]|]; cbn; set_solver.
Qed.

Lemma elem_of_rev (x : byte) l : x ∈ rev l ↔ x ∈ l.
Proof. by rewrite !list_elem_of_In, <-in_rev. Qed.

Lemma rsplit_once_Some c l a b :
  l = a ++ c :: b → c ∉ b → rsplit_once c l = Some (a, b).
Proof.
  intros -> Hn. unfold rsplit_once.
  rewrite (proj2 (split_once_Some c _ (rev b) (rev a))).
  - cbn. by rewrite !rev_involutive.
  - split; [|by rewrite elem_of_rev]. rewrite rev_app_distr. cbn. by rewrite <-app_assoc.
Qed.

Lemma rsplit_once_None c l : c ∉ l → rsplit_once c l = None.
Proof.
  intros Hn. unfold rsplit_once. by rewrite (proj2 (split_once_None c (rev l))) by by rewrite elem_of_rev.
Qed.

Lemma strip_prefix_app pat l : strip_prefix pat (pat ++ l) = Some l.
Proof. induction pat as [|p pat IH]; cbn; [done|]. by rewrite decide_True. Qed.

Lemma before_any_app seps a b :
  (∀ x, x ∈ a → x ∉ seps) → (b = [] ∨ ∃ x r, b = x :: r ∧ x ∈ seps) → before_any seps (a ++ b) = a.
Proof.
  intros Ha Hb. induction a as [|x a IH]; cbn.
  - destruct Hb as [->|(x & r & -> & Hx)]; [done|]. cbn. by rewrite decide_True.
  - rewrite decide_False by (apply Ha; set_solver). f_equal. apply IH. set_solver.
Qed.

(** The first occurrence of a pattern whose head cannot occur before it. *)
Lemma split_once_str_first p pat a b :
  p ∉ a → split_once_str (p :: pat) (a ++ p :: pat ++ b) = Some (a, b).
Proof.
  intros Hn. pose proof (strip_prefix_app (p :: pat) b) as Hs. cbn [app] in Hs.
  induction a as [|x a IH]; cbn [app split_once_str]; [by rewrite Hs|].
  cbn [strip_prefix]. rewrite decide_False by set_solver. by rewrite IH by set_solver.
Qed.

(** Valid text is its own lossy decoding. *)
Lemma utf8_lossy_valid_go skip l :
  utf8_valid_go skip l = true → utf8_lossy_go skip true l = l.
Proof.
  revert skip. induction l as [|b l IH]; intros skip; [done|]. cbn.
  destruct skip as [|skip]; [|intros; f_equal; auto].
  destruct (utf8_chunk b l) as [n []]; [|done]. intros. f_equal. auto.
Qed.

Lemma from_utf8_lossy_valid l : utf8_valid l = true → from_utf8_lossy l = l.
Proof. apply utf8_lossy_valid_go. Qed.

(** ** Parsing a printed number *)
Lemma parse_digits_range neg lo hi acc l n :
  lo ≤ acc ≤ hi → parse_digits neg lo hi acc l = Ok n → lo ≤ n ≤ hi.
Proof.
  revert acc. induction l as [|b l IH]; intros acc Ha; cbn [parse_digits]; [by intros [= <-]|].
  intros (x & _ & Hp)%bind_ok. revert Hp. case_decide; [done|]. case_decide; [done|].
  intros Hp. eapply IH; [|done]. lia.
Qed.

Lemma parse_u64_range l n : parse_u64 l = Ok n → in_u 64 n.
Proof.
  assert (∀ l n, parse_digits false 0 u64_max 0 l = Ok n → in_u 64 n) as Hr.
  { intros l' n' H. apply parse_digits_range in H; [|lia]. unfold in_u. lia. }
  unfold parse_u64, parse_int. repeat case_match; try done; apply Hr.
Qed.

Lemma split_char_join c l : c ∉ l → split_char c l = [l].
Proof.
  induction l as [|x l IH]; intros Hn; [done|]. cbn. rewrite decide_False by set_solver.
  by rewrite IH by set_solver.
Qed.

Lemma split_char_app c a l : c ∉ a → split_char c (a ++ c :: l) = a :: split_char c l.
Proof.
  induction a as [|x a IH]; intros Hn; cbn; [by rewrite decide_True|].
  rewrite decide_False by set_solver. by rewrite IH by set_solver.
Qed.

(** ** Decimal numbers *)
Definition decimal (acc : Z) (ds : bstr) : Z := foldl (λ a b, 10 * a + (byte_Z b - 48)) acc ds.

Lemma is_ascii_digit_value b : is_ascii_digit b = true → 0 ≤ byte_Z b - 48 ≤ 9.
Proof. unfold is_ascii_digit. rewrite andb_true_iff, !Z.leb_le. lia. Qed.

Lemma decimal_mono ds acc :
  0 ≤ acc → Forall (λ b, is_ascii_digit b = true) ds → acc ≤ decimal acc ds.
Proof.
  intros Ha Hd. revert acc Ha. induction Hd as [|b ds Hb _ IH]; intros acc Ha; [done|]. cbn.
  apply is_ascii_digit_value in Hb. etransitivity; [|apply IH; lia]. lia.
Qed.

(** Parsing digits gives their value, or an overflow error when it does not fit. *)
Lemma parse_digits_decimal hi ds acc :
  0 ≤ acc → acc ≤ hi → Forall (λ b, is_ascii_digit b = true) ds →
  result_ok (parse_digits false 0 hi acc ds) =
    if decide (decimal acc ds ≤ hi) then Some (decimal acc ds) else None.
Proof.
  intros Ha Hh Hd. revert acc Ha Hh.
  induction Hd as [|b ds Hb Hd IH]; intros acc Ha Hh; cbn [parse_digits].
  { cbn. by rewrite decide_True. }
  pose proof (is_ascii_digit_value _ Hb). unfold digit. rewrite Hb. cbn [ok_or mbind result_bind].
  rewrite (decide_False (P := _ < 0)) by lia. case_decide as Ho; [|apply IH; lia].
  rewrite decide_False; [done|]. cbn. pose proof (decimal_mono ds (10 * acc + (byte_Z b - 48))) as Hm.
  unfold decimal in Hm |- *. specialize (Hm ltac:(lia) Hd). lia.
Qed.

Lemma parse_u64_decimal ds :
  ds ≠ [] → Forall (λ b, is_ascii_digit b = true) ds →
  result_ok (parse_u64 ds) = if decide (decimal 0 ds ≤ u64_max) then Some (decimal 0 ds) else None.
Proof.
  intros Hn Hd. rewrite <-parse_digits_decimal by (done || lia). unfold parse_u64, parse_int.
  destruct Hd as [|b ds Hb _]; [done|]. f_equal. by destruct b.
Qed.

(** ** Trimming ASCII whitespace around a number *)
Definition is_ascii_ws (b : byte) : bool := bool_decide (b ∈ [x09; x0a; x0b; x0c; x0d; x20]).

Lemma ws_len_digit b l : is_ascii_digit b = true → ws_len (b :: l) = 0%nat.
Proof. by destruct b. Qed.
Lemma ws_len_ws b l : is_ascii_ws b = true → ws_len (b :: l) = 1%nat.
Proof. unfold is_ascii_ws. intros Hb%bool_decide_eq_true. set_solver. Qed.

Lemma trim_end_ws ws held : Forall (λ b, is_ascii_ws b = true) ws → trim_end_go 0 held ws = [].
Proof.
  intros Hw. revert held. induction Hw as [|b ws Hb _ IH]; intros held; [done|].
  cbn [trim_end_go]. by rewrite ws_len_ws.
Qed.

Lemma trim_number w1 ds w2 :
  Forall (λ b, is_ascii_ws b = true) w1 → Forall (λ b, is_ascii_ws b = true) w2 → ds ≠ [] →
  Forall (λ b, is_ascii_digit b = true) ds → trim (w1 ++ ds ++ w2) = ds.
Proof.
  intros Hw1 Hw2 Hn Hd. unfold trim, trim_end.
  replace (trim_start_go 0 (w1 ++ ds ++ w2)) with (ds ++ w2).
  2:{ induction Hw1 as [|b w1 Hb _ IH]; cbn [app trim_start_go]; [|by rewrite ws_len_ws].
      destruct Hd as [|b ds Hb]; [done|]. cbn [app trim_start_go]. by rewrite ws_len_digit. }
  clear Hn. induction Hd as [|b ds Hb _ IH]; [by apply trim_end_ws|].
  cbn [app trim_end_go]. rewrite ws_len_digit by done. cbn [app]. by rewrite IH.
Qed.

(** The first occurrence of a pattern. *)
Lemma split_once_str_at pat a b :
  (∀ k, (k < length a)%nat → strip_prefix pat (drop k (a ++ pat ++ b)) = None) →
  split_once_str pat (a ++ pat ++ b) = Some (a, b).
Proof.
  induction a as [|x a IH]; intros Hk.
  - cbn [app]. pose proof (strip_prefix_app pat b) as Hs. destruct (pat ++ b); cbn [split_once_str];
      by rewrite Hs.
  - cbn [app split_once_str]. specialize (Hk 0%nat) as H0. cbn [drop app length] in H0.
    rewrite H0 by lia. rewrite IH; [done|]. intros k Hl. apply (Hk (S k)). cbn. lia.
Qed.
