(* ===== verification/Proxy.v ===== *)
(** * [src/transport/]: proxies and the WebSocket dial, and [src/http.rs]

    The [url] crate is a parameter (a parsed URL is what its accessors return);
    so are base64, the TCP, TLS, SOCKS5 and WebSocket handshakes, as their
    outcomes.  What a proxy answers to [CONNECT] is the byte stream it sends. *)
From S2P Require Import Prelude Errors RustStr.
#[local] Set Default Goal Selector "!".

(** ** Constants *)
Definition MAX_CONNECT_HEADERS : nat := 64.

(** ** [transport/mod.rs] *)
Definition unbracket (host : bstr) : bstr :=
  unwrap_or (h ← strip_prefix (as_bytes "[") host; strip_suffix (as_bytes "]") h) host.
Definition authority (host : bstr) (port : Z) : bstr :=
  if decide (x3a ∈ host)
  then as_bytes "[" ++ host ++ as_bytes "]:" ++ as_bytes (pretty port)
  else host ++ as_bytes ":" ++ as_bytes (pretty port).

(** ** [ProxyConfig] *)
Inductive ProxyKind := Socks5Proxy | HttpConnectProxy.

Record ProxyCredentials := {
  pc_username : bstr;
  pc_password : bstr
}.

Record ProxyConfig := {
  px_kind : ProxyKind;
  px_host : bstr;
  px_port : Z;
  px_credentials : option ProxyCredentials;
  px_tls_to_proxy : bool
}.

(** A [url::Url], as its accessors report it. *)
Record Url := {
  u_scheme : string;
  u_host_str : option bstr;
  u_port : option Z;
  u_port_or_known_default : option Z;
  u_username : bstr;
  u_password : option bstr
}.

Definition hex_nibble (b : byte) : option Z :=
  let z := byte_Z b in
  if (48 <=? z) && (z <=? 57) then Some (z - 48)
  else if (97 <=? z) && (z <=? 102) then Some (z - 97 + 10)
  else if (65 <=? z) && (z <=? 70) then Some (z - 65 + 10)
  else None.

(** The escape at the head of [l], if [l] starts with one. *)
Definition escape_at (l : bstr) : option (byte * bstr) :=
  match l with
  | x25 :: b1 :: b2 :: rest =>
      h ← hex_nibble b1; l ← hex_nibble b2; Some (Z_byte (Z.lor (Z.shiftl h 4) l), rest)
  | _ => None
  end.
(** The [while i < bytes.len()] loop; [fuel] bounds the remaining bytes. *)
Fixpoint percent_decode_loop (fuel : nat) (l : bstr) : bstr :=
  match fuel with
  | O => []
  | S fuel =>
      match escape_at l with
      | Some (b, rest) => b :: percent_decode_loop fuel rest
      | None => match l with
                | [] => []
                | b :: rest => b :: percent_decode_loop fuel rest
                end
      end
  end.
Definition percent_decode (input : bstr) : bstr :=
  from_utf8_lossy (percent_decode_loop (length input) input).

Definition has_explicit_port (raw : bstr) : bool :=
  match split_once_str (as_bytes "://") raw with
  | None => false
  | Some (_, rest) =>
      let authority := before_any (as_bytes "/?#") rest in
      let host_port := match rsplit_once x40 authority with Some (_, h) => h | None => authority end in
      let tail := match rsplit_once x5d host_port with Some (_, t) => t | None => host_port end in
      match split_once x3a tail with
      | None => false
      | Some (_, port) => bool_decide (port ≠ []) && forallb is_ascii_digit port
      end
  end.

Definition is_socks_scheme (s : string) : bool := bool_decide (s ∈ ["socks5"; "socks5h"]%string).

Definition resolve_port (url : Url) (raw : bstr) : Result Z :=
  match u_port url with
  | Some port => Ok port
  | None =>
      let port :=
        if has_explicit_port raw then u_port_or_known_default url
        else if is_socks_scheme (u_scheme url) then Some 1080
        else if bool_decide (u_scheme url = "http"%string) then Some 8080
        else if bool_decide (u_scheme url = "https"%string) then Some 443
        else None in
      ok_or port (InvalidUrl "proxy URL missing port")
  end.

Section parsing.
(** [url::Url::parse]. *)
Context (url_parse : bstr → result string Url).

Definition parse (url_str : bstr) : Result ProxyConfig :=
  url ← map_err UrlParse (url_parse url_str);
  kind ← (if is_socks_scheme (u_scheme url) then Ok Socks5Proxy
          else if bool_decide (u_scheme url ∈ ["http"; "https"]%string) then Ok HttpConnectProxy
          else Err (InvalidConfig ("unsupported proxy scheme: " +:+ u_scheme url)));
  host ← ok_or (u_host_str url) (InvalidUrl "proxy URL missing host");
  let host := unbracket host in
  port ← resolve_port url url_str;
  let username := percent_decode (u_username url) in
  let password := percent_decode (unwrap_or (u_password url) []) in
  let credentials :=
    if bool_decide (username = []) && bool_decide (password = []) then None
    else Some {| pc_username := username; pc_password := password |} in
  Ok {| px_kind := kind; px_host := host; px_port := port; px_credentials := credentials;
        px_tls_to_proxy := bool_decide (u_scheme url = "https"%string) |}.
End parsing.

Definition scheme_label (p : ProxyConfig) : bstr :=
  match px_kind p with
  | Socks5Proxy => as_bytes "socks5"
  | HttpConnectProxy => if px_tls_to_proxy p then as_bytes "https" else as_bytes "http"
  end.
Definition display (p : ProxyConfig) : bstr :=
  scheme_label p ++ as_bytes "://" ++ authority (px_host p) (px_port p).

(** ** The CONNECT handshake *)
Definition is_ok_status (status_line : bstr) : bool :=
  match split_whitespace status_line !! 1%nat with
  | Some code => bool_decide (code = as_bytes "200")
  | None => false
  end.

(** An awaited operation under a timer: [None] when the timer fired, otherwise
    the operation's own outcome. *)
Abbreviation timed A := (option (result string A)).
Definition timeout {A} (what : string) (conv : string → Error) (r : timed A) : Result A :=
  match r with
  | None => Err (Timeout what)
  | Some r => map_err conv r
  end.

(** [read_line]: up to and including the first line feed, or all that is left;
    bytes that are not UTF-8 are an I/O error. *)
Fixpoint take_line (l : bstr) : bstr * bstr :=
  match l with
  | [] => ([], [])
  | x :: l => if decide (x = x0a) then ([x], l) else let '(a, b) := take_line l in (x :: a, b)
  end.
Definition read_line (stream : bstr) : result string (bstr * bstr) :=
  let '(line, rest) := take_line stream in
  if utf8_valid line then Ok (line, rest) else Err "stream did not contain valid UTF-8"%string.

Definition ends_headers (line : bstr) : bool :=
  bool_decide (line = []) || bool_decide (line = [x0d; x0a]) || bool_decide (line = [x0a]).

(** The [for _ in 0..MAX_CONNECT_HEADERS] loop; [reads] read calls finish before
    the deadline.  The value is what the reader still holds: the tunnel. *)
Fixpoint drain_headers (n reads : nat) (stream : bstr) : Result bstr :=
  match n with
  | O => Err (HttpConnect "proxy sent too many CONNECT response headers")
  | S n =>
      match reads with
      | O => Err (Timeout "http connect read headers")
      | S reads =>
          '(line, rest) ← map_err Io (read_line stream);
          if ends_headers line then Ok rest else drain_headers n reads rest
      end
  end.

Definition read_response (reads : nat) (stream : bstr) : Result bstr :=
  match reads with
  | O => Err (Timeout "http connect read status")
  | S reads =>
      '(line, rest) ← map_err Io (read_line stream);
      let status_line := trim_end line in
      if is_ok_status status_line then drain_headers MAX_CONNECT_HEADERS reads rest
      else Err (HttpConnect ("proxy refused: " +:+ string_of_list_byte status_line))
  end.

Section connecting.
(** [base64::engine::general_purpose::STANDARD]. *)
Context (b64 : bstr → bstr).

Definition crlf : bstr := [x0d; x0a].
Definition connect_request (proxy : ProxyConfig) (target_host : bstr) (target_port : Z) : bstr :=
  let auth := match px_credentials proxy with
              | Some c => as_bytes "Proxy-Authorization: Basic "
                          ++ b64 (pc_username c ++ as_bytes ":" ++ pc_password c) ++ crlf
              | None => []
              end in
  let target := authority target_host target_port in
  as_bytes "CONNECT " ++ target ++ as_bytes " HTTP/1.1" ++ crlf ++ as_bytes "Host: " ++ target
  ++ crlf ++ auth ++ crlf.

(** What the network does during a connect. *)
Record NetEnv := {
  ne_tcp : bstr → timed unit;
  ne_sni : bstr → result string unit;
  ne_tls : timed unit;
  ne_write : bstr → timed unit;
  ne_response : bstr;
  ne_reads : nat;
  ne_socks5 : bstr * Z → bstr → option ProxyCredentials → timed unit
}.

Definition connect_http (env : NetEnv) (proxy : ProxyConfig) (target_host : bstr) (target_port : Z) :
    Result bstr :=
  _ ← timeout "http connect tcp" Io (ne_tcp env (authority (px_host proxy) (px_port proxy)));
  _ ← (if px_tls_to_proxy proxy then
         _ ← map_err (λ e, Tls ("invalid proxy sni: " +:+ e)) (ne_sni env (px_host proxy));
         timeout "proxy tls handshake" Tls (ne_tls env)
       else Ok tt);
  _ ← timeout "http connect write" Io
        (ne_write env (connect_request proxy target_host target_port));
  read_response (ne_reads env) (ne_response env).

Definition connect_socks5 (env : NetEnv) (proxy : ProxyConfig) (target_host : bstr)
    (target_port : Z) : Result bstr :=
  _ ← timeout "socks5 handshake" Socks5
        (ne_socks5 env (px_host proxy, px_port proxy) (authority target_host target_port)
           (px_credentials proxy));
  Ok (ne_response env).

Definition connect_via_proxy (env : NetEnv) (proxy : ProxyConfig) (target_host : bstr)
    (target_port : Z) : Result bstr :=
  match px_kind proxy with
  | Socks5Proxy => connect_socks5 env proxy target_host target_port
  | HttpConnectProxy => connect_http env proxy target_host target_port
  end.

(** ** [transport/websocket.rs] *)
Record WsEnv := {
  we_net : NetEnv;
  we_proxy_timer : bool;
  we_sni : bstr → result string unit;
  we_tls : timed unit;
  we_request : result string unit;
  we_handshake : timed unit
}.

(** The opened socket is represented by the bytes already waiting on it. *)
Definition connect_ws (url_parse : bstr → result string Url) (env : WsEnv) (url : bstr)
    (proxy : option ProxyConfig) : Result bstr :=
  parsed ← map_err UrlParse (url_parse url);
  host ← ok_or (u_host_str parsed) (InvalidUrl "ws url missing host");
  let host := unbracket host in
  port ← ok_or (u_port_or_known_default parsed) (InvalidUrl "ws url missing port");
  is_wss ← (if bool_decide (u_scheme parsed = "wss"%string) then Ok true
            else if bool_decide (u_scheme parsed = "ws"%string) then Ok false
            else Err (InvalidUrl ("unsupported ws scheme: " +:+ u_scheme parsed)));
  tcp ← match proxy with
        | Some p =>
            if we_proxy_timer env then Err (Timeout "proxy connect")
            else connect_via_proxy (we_net env) p host port
        | None =>
            _ ← timeout "tcp connect" Io (ne_tcp (we_net env) (authority host port));
            Ok (ne_response (we_net env))
        end;
  _ ← (if (is_wss : bool) then
         _ ← map_err (λ e, Tls ("invalid sni: " +:+ e)) (we_sni env host);
         timeout "tls handshake" Tls (we_tls env)
       else Ok tt);
  _ ← map_err (λ e, WebSocket ("bad request: " +:+ e)) (we_request env);
  _ ← timeout "ws handshake" WebSocket (we_handshake env);
  Ok tcp.

(** ** [src/http.rs] *)

(** The proxy handed to [reqwest]: its URL and basic-auth pair. *)
Definition build_proxy (proxy_all : bstr → result string unit) (cfg : ProxyConfig) :
    Result (bstr * option ProxyCredentials) :=
  let scheme := match px_kind cfg with
                | Socks5Proxy => as_bytes "socks5h"
                | HttpConnectProxy => if px_tls_to_proxy cfg then as_bytes "https" else as_bytes "http"
                end in
  let url := scheme ++ as_bytes "://" ++ authority (px_host cfg) (px_port cfg) in
  _ ← map_err (λ e, InvalidConfig ("proxy: " +:+ e)) (proxy_all url);
  Ok (url, px_credentials cfg).
Definition client (proxy_all : bstr → result string unit) (build : result string unit)
    (proxy : option ProxyConfig) : Result (option (bstr * option ProxyCredentials)) :=
  p ← match proxy with
      | Some p => q ← build_proxy proxy_all p; Ok (Some q)
      | None => Ok None
      end;
  _ ← map_err (λ e, InvalidConfig ("reqwest client: " +:+ e)) build;
  Ok p.
End connecting.

(** ** Percent-encoding *)
Definition hex_upper (n : Z) : byte := Z_byte (if decide (n < 10) then 48 + n else 55 + n).
(** An encoder: bytes outside [keep] are escaped. *)
Definition percent_encode (keep : byte → bool) (s : bstr) : bstr :=
  concat ((λ b, if keep b then [b] else [x25; hex_upper (byte_Z b / 16); hex_upper (byte_Z b mod 16)])
            <$> s).

Lemma escape_at_escaped b rest :
  escape_at (x25 :: hex_upper (byte_Z b / 16) :: hex_upper (byte_Z b mod 16) :: rest) =
    Some (b, rest).
Proof. destruct b; reflexivity. Qed.

Lemma escape_at_literal b rest : b ≠ x25 → escape_at (b :: rest) = None.
Proof. by destruct b. Qed.

Lemma percent_decode_loop_encode keep s fuel :
  keep x25 = false → (length (percent_encode keep s) ≤ fuel)%nat →
  percent_decode_loop fuel (percent_encode keep s) = s.
Proof.
  intros Hk. revert fuel. induction s as [|b s IH]; intros fuel Hf; [by destruct fuel|].
  unfold percent_encode in *. rewrite fmap_cons in *. cbn [concat] in *.
  destruct (keep b) eqn:Hb; rewrite length_app in Hf; cbn [length app] in *;
    (destruct fuel as [|fuel]; [lia|]); cbn [percent_decode_loop].
  - rewrite escape_at_literal by (intros ->; congruence). f_equal. apply IH. lia.
  - rewrite escape_at_escaped. f_equal. apply IH. lia.
Qed.

(** Credentials survive the URL: decoding a percent-encoded user name or password
    gives it back, for every text and every choice of which bytes (other than the
    percent sign) the encoder leaves alone. *)
Theorem percent_round_trip keep s :
  keep x25 = false → utf8_valid s = true → percent_decode (percent_encode keep s) = s.
Proof.
  intros Hk Hv. unfold percent_decode. rewrite percent_decode_loop_encode by done.
  by apply from_utf8_lossy_valid.
Qed.

(** ** Ports *)

(** A host as it is written in a URL: a name or IPv4 address, or a bracketed IPv6
    literal. *)
Definition host_written (host : bstr) : Prop :=
  (∀ b, b ∈ host → b ∉ as_bytes "/?#@:]") ∨
  ∃ v6, host = x5b :: v6 ++ [x5d] ∧ ∀ b, b ∈ v6 → b ∉ as_bytes "/?#@]".
Definition port_suffix (port : option bstr) : bstr :=
  match port with Some p => x3a :: p | None => [] end.
(** [scheme://[userinfo@]host[:port]tail]. *)
Definition written_url (scheme : bstr) (userinfo : option bstr) (host : bstr) (port : option bstr)
    (tail : bstr) : bstr :=
  scheme ++ as_bytes "://" ++
  ((match userinfo with Some u => u ++ [x40] | None => [] end) ++ host ++ port_suffix port) ++ tail.
Definition url_written (scheme : bstr) (userinfo : option bstr) (host : bstr) (port : option bstr)
    (tail : bstr) : Prop :=
  x3a ∉ scheme ∧ host_written host ∧
  (∀ u, userinfo = Some u → ∀ b, b ∈ u → b ∉ as_bytes "/?#") ∧
  (∀ p, port = Some p → p ≠ [] ∧ forallb is_ascii_digit p = true) ∧
  (tail = [] ∨ ∃ x r, tail = x :: r ∧ x ∈ as_bytes "/?#").

Lemma digit_plain b : is_ascii_digit b = true → b ∉ as_bytes "/?#@:]".
Proof. intros Hd Hin. vm_compute in Hin. destruct b; try done; exfalso; set_solver. Qed.

Lemma digits_plain p b : forallb is_ascii_digit p = true → b ∈ p → b ∉ as_bytes "/?#@:]".
Proof.
  intros Hp Hb. rewrite forallb_forall in Hp. by apply digit_plain, Hp, list_elem_of_In.
Qed.

(** Membership in the literal separator strings. *)
Ltac seps := vm_compute as_bytes in *; set_solver.

Lemma port_suffix_plain port b :
  (∀ p, port = Some p → p ≠ [] ∧ forallb is_ascii_digit p = true) →
  b ∈ port_suffix port → b ∉ as_bytes "/?#@]".
Proof.
  intros Hp Hb. destruct port as [p|]; cbn in Hb; [|set_solver].
  destruct (Hp p eq_refl) as [_ Hd]. apply elem_of_cons in Hb as [->|Hb]; [seps|].
  pose proof (digits_plain p b Hd Hb). seps.
Qed.

Lemma host_plain host b : host_written host → b ∈ host → b ∉ as_bytes "/?#@".
Proof.
  intros [Hh|(v6 & -> & Hv)] Hb.
  - specialize (Hh b Hb). seps.
  - apply elem_of_cons in Hb as [->|[Hb|Hb%list_elem_of_singleton]%elem_of_app]; [seps| |subst; seps].
    specialize (Hv b Hb). seps.
Qed.

(** What is left of [host[:port]] after skipping an IPv6 literal has the port's
    colon as its first one. *)
Lemma port_after_host host port :
  host_written host → (∀ p, port = Some p → p ≠ [] ∧ forallb is_ascii_digit p = true) →
  match split_once x3a (match rsplit_once x5d (host ++ port_suffix port) with
                        | Some (_, t) => t | None => host ++ port_suffix port end) with
  | None => false
  | Some (_, p) => bool_decide (p ≠ []) && forallb is_ascii_digit p
  end = bool_decide (is_Some port).
Proof.
  intros Hh Hp.
  assert (∃ pre, x3a ∉ pre ∧ match rsplit_once x5d (host ++ port_suffix port) with
    | Some (_, t) => t | None => host ++ port_suffix port end = pre ++ port_suffix port)
    as (pre & Hpre & ->).
  { destruct Hh as [Hh|(v6 & -> & Hv)].
    - exists host. split; [intros Hin; specialize (Hh _ Hin); seps|].
      rewrite rsplit_once_None; [done|]. intros [Hin|Hin]%elem_of_app.
      + specialize (Hh _ Hin). seps.
      + pose proof (port_suffix_plain _ _ Hp Hin). seps.
    - exists []. split; [set_solver|].
      rewrite (rsplit_once_Some x5d _ (x5b :: v6) (port_suffix port)); [done| |].
      + cbn. by rewrite <-app_assoc.
      + intros Hin. pose proof (port_suffix_plain _ _ Hp Hin). seps. }
  destruct port as [p|]; cbn [port_suffix].
  - destruct (Hp p eq_refl) as [Hne Hd].
    rewrite (proj2 (split_once_Some x3a _ pre p)) by done. rewrite Hd.
    by rewrite !bool_decide_true by done.
  - rewrite app_nil_r. by rewrite (proj2 (split_once_None x3a pre)).
Qed.

Lemma has_explicit_port_spec scheme userinfo host port tail :
  url_written scheme userinfo host port tail →
  has_explicit_port (written_url scheme userinfo host port tail) = bool_decide (is_Some port).
Proof.
  intros (Hs & Hh & Hu & Hp & Ht). unfold has_explicit_port, written_url.
  set (auth := _ ++ host ++ port_suffix port).
  change (as_bytes "://" ++ auth ++ tail) with (x3a :: [x2f; x2f] ++ auth ++ tail).
  change (as_bytes "://") with (x3a :: [x2f; x2f]).
  rewrite split_once_str_first by done.
  assert (∀ b, b ∈ host ++ port_suffix port → b ∉ as_bytes "/?#@") as Hhp.
  { intros b [Hb|Hb]%elem_of_app; [by eapply host_plain|].
    pose proof (port_suffix_plain _ _ Hp Hb). seps. }
  rewrite (before_any_app _ auth tail); [|subst auth; intros b [Hb|Hb]%elem_of_app|done].
  - replace (match rsplit_once x40 auth with Some (_, h) => h | None => auth end)
      with (host ++ port_suffix port); [by apply port_after_host|].
    destruct userinfo as [u|].
    + rewrite (rsplit_once_Some x40 auth u (host ++ port_suffix port)); [done| |].
      * subst auth. by rewrite <-!app_assoc.
      * intros Hin. specialize (Hhp _ Hin). seps.
    + rewrite rsplit_once_None; [done|]. intros Hin. specialize (Hhp _ Hin). seps.
  - destruct userinfo as [u|]; [|set_solver].
    apply elem_of_app in Hb as [Hb|Hb]; [by apply (Hu u)|].
    apply list_elem_of_singleton in Hb as ->. seps.
  - specialize (Hhp _ Hb). seps.
Qed.

(** A port written in a proxy URL is the port used, the scheme's own default
    included ([http://host:80] stays 80 although [Url::port] hides it), and an omitted
    one becomes 1080, 8080 or 443 by scheme; user info and IPv6 brackets never confuse
    the two. *)
Theorem proxy_port_resolution url scheme userinfo host port tail p :
  url_written scheme userinfo host port tail →
  (u_port url = Some p ∨ u_port url = None ∧ u_port_or_known_default url = Some p) →
  resolve_port url (written_url scheme userinfo host port tail) =
    match port with
    | Some _ => Ok p
    | None => match u_port url with
              | Some p => Ok p
              | None => if is_socks_scheme (u_scheme url) then Ok 1080
                        else if bool_decide (u_scheme url = "http"%string) then Ok 8080
                        else if bool_decide (u_scheme url = "https"%string) then Ok 443
                        else Err (InvalidUrl "proxy URL missing port")
              end
    end.
Proof.
  intros Hw Hurl. unfold resolve_port. rewrite (has_explicit_port_spec _ _ _ _ _ Hw).
  destruct Hurl as [->|[-> Hd]]; [by destruct port|]. destruct port as [q|].
  - by rewrite bool_decide_true, Hd by done.
  - rewrite bool_decide_false by (by intros [? ?]). repeat case_match; done.
Qed.

(** ** Hosts *)
Lemma unbracket_literal v6 : unbracket (x5b :: v6 ++ [x5d]) = v6.
Proof.
  unfold unbracket. cbn. rewrite decide_True by done. cbn. rewrite rev_app_distr. cbn.
  rewrite decide_True by done. cbn. by rewrite rev_involutive.
Qed.

Lemma unbracket_plain host : x5b ∉ host → unbracket host = host.
Proof.
  intros Hn. unfold unbracket. destruct host as [|b host]; [done|]. cbn.
  case_decide; [subst; set_solver|done].
Qed.

(** [authority] undoes [unbracket]: whichever way a host is written in a URL, the
    [host:port] rebuilt from the stored bare host is the one the URL had. *)
Theorem authority_unbracket host port :
  (x5b ∉ host) ∧ (x3a ∉ host) ∨ (∃ v6, host = x5b :: v6 ++ [x5d] ∧ x3a ∈ v6) →
  authority (unbracket host) port = host ++ x3a :: as_bytes (pretty port).
Proof.
  intros [[Hb Hc]|(v6 & -> & Hc)]; unfold authority.
  - rewrite unbracket_plain by done. by rewrite decide_False.
  - rewrite unbracket_literal, decide_True by done. cbn. by rewrite <-app_assoc.
Qed.

(** ** The CONNECT reply *)

(** A line as the proxy sends it: one line feed, at its end, and text. *)
Definition header_line (l : bstr) : Prop :=
  ∃ body, l = body ++ [x0a] ∧ (x0a ∉ body) ∧ utf8_valid l = true ∧ ends_headers l = false.

Lemma take_line_app body rest : x0a ∉ body → take_line (body ++ x0a :: rest) = (body ++ [x0a], rest).
Proof.
  intros Hn. induction body as [|b body IH]; [done|]. cbn. rewrite decide_False by set_solver.
  by rewrite IH by set_solver.
Qed.

Lemma read_line_app l rest :
  (∃ body, l = body ++ [x0a] ∧ (x0a ∉ body)) → utf8_valid l = true →
  read_line (l ++ rest) = Ok (l, rest).
Proof.
  intros (body & -> & Hn) Hv. unfold read_line. rewrite <-app_assoc. cbn [app].
  rewrite take_line_app by done. by rewrite Hv.
Qed.

Lemma drain_headers_spec headers blank rest n reads :
  Forall header_line headers → (blank = crlf ∨ blank = [x0a]) →
  (Nat.min n (S (length headers)) ≤ reads)%nat →
  drain_headers n reads (concat headers ++ blank ++ rest) =
    if decide (length headers < n)%nat then Ok rest
    else Err (HttpConnect "proxy sent too many CONNECT response headers").
Proof.
  intros Hh Hb.
  assert ((∃ body, blank = body ++ [x0a] ∧ (x0a ∉ body)) ∧ utf8_valid blank = true ∧
          ends_headers blank = true) as (Hbl & Hbv & Hbe).
  { destruct Hb as [-> | ->]; (split; [|done]).
    - exists [x0d]. split; [done|set_solver].
    - exists []. split; [done|set_solver]. }
  revert n reads. induction Hh as [|h hs Hl _ IH]; intros [|n] reads Hr; try done.
  - destruct reads as [|reads]; [cbn in Hr; lia|]. cbn [concat app drain_headers].
    rewrite read_line_app by done. cbn [map_err mbind result_bind length].
    rewrite Hbe. by rewrite decide_True by lia.
  - destruct reads as [|reads]; [cbn in Hr; lia|]. cbn [concat length drain_headers].
    destruct Hl as (body & Heq & Hn & Hv & He). rewrite <-app_assoc.
    rewrite read_line_app by eauto. cbn [map_err mbind result_bind]. rewrite He.
    rewrite IH by (cbn in Hr; lia). by apply decide_ext; lia.
Qed.

(** After a [200] status the tunnel begins exactly behind the blank line: the proxy's
    headers (at most 63 of them, more are refused) are consumed and not one byte the
    upstream already sent is lost. *)
Theorem connect_reply_consumed status headers blank rest reads :
  (∃ body, status = body ++ [x0a] ∧ (x0a ∉ body)) → utf8_valid status = true →
  is_ok_status (trim_end status) = true →
  Forall header_line headers → (blank = crlf ∨ blank = [x0a]) →
  (length headers + 2 ≤ reads)%nat →
  read_response reads (status ++ concat headers ++ blank ++ rest) =
    if decide (length headers ≤ 63)%nat then Ok rest
    else Err (HttpConnect "proxy sent too many CONNECT response headers").
Proof.
  intros Hs Hv Hok Hh Hb Hr. destruct reads as [|reads]; [lia|]. cbn [read_response].
  rewrite read_line_app by done. cbn [map_err mbind result_bind]. rewrite Hok.
  rewrite drain_headers_spec by (done || lia). apply decide_ext. unfold MAX_CONNECT_HEADERS. lia.
Qed.

(** A proxy that does not answer [200] never becomes a tunnel, and a reply of any
    length and content is judged after reading at most 65 lines of it. *)
Theorem connect_reply_refused reads stream rest :
  read_response reads stream = Ok rest →
  ∃ line, (take_line stream).1 = line ∧ is_ok_status (trim_end line) = true ∧
    read_response 65 stream = Ok rest.
Proof.
  destruct reads as [|reads]; [done|]. cbn [read_response].
  intros ([line r] & Hl & Hd)%bind_ok. apply map_err_ok in Hl.
  unfold read_line in *. destruct (take_line stream) as [line' r'] eqn:Ht.
  destruct (utf8_valid line'); [|done]. simplify_eq.
  destruct (is_ok_status (trim_end line)) eqn:Hok; [|done].
  exists line. split; [done|]. split; [done|]. cbn [map_err mbind result_bind]. rewrite Hok.
  assert (∀ n reads s rest, drain_headers n reads s = Ok rest → drain_headers n n s = Ok rest) as Hmono.
  { clear. intros n. induction n as [|n IH]; intros reads s rest Hd; [done|].
    destruct reads as [|reads]; [done|]. cbn [drain_headers] in *.
    destruct (map_err Io (read_line s)) as [[l r]|]; [|done]. cbn [mbind result_bind] in *.
    destruct (ends_headers l); [done|]. by eapply IH. }
  change 64%nat with MAX_CONNECT_HEADERS. by eapply Hmono.
Qed.

(** ** [ProxyConfig::parse] *)

(** An accepted proxy URL has one of the four schemes and yields a config that speaks
    the matching protocol, encrypts the proxy leg exactly for [https], and carries
    credentials exactly when the user info is not empty. *)
Theorem parse_config_sound url_parse s c :
  parse url_parse s = Ok c →
  ∃ url, url_parse s = Ok url ∧
    (px_kind c = Socks5Proxy ↔ is_socks_scheme (u_scheme url) = true) ∧
    (px_tls_to_proxy c = true ↔ u_scheme url = "https"%string) ∧
    u_scheme url ∈ ["socks5"; "socks5h"; "http"; "https"]%string ∧
    (px_credentials c = None ↔ percent_decode (u_username url) = [] ∧
                               percent_decode (unwrap_or (u_password url) []) = []).
Proof.
  unfold parse. intros (url & Hu%map_err_ok & H)%bind_ok. apply bind_ok in H as (kind & Hk & H).
  apply bind_ok in H as (host & _ & H). apply bind_ok in H as (port & _ & H).
  injection H as <-. cbn. exists url. split; [done|]. rewrite bool_decide_eq_true.
  assert (u_scheme url ∈ ["socks5"; "socks5h"; "http"; "https"]%string ∧
    (kind = Socks5Proxy ↔ is_socks_scheme (u_scheme url) = true)) as [Hs Hkk].
  { destruct (is_socks_scheme (u_scheme url)) eqn:Hi.
    - unfold is_socks_scheme in Hi. apply bool_decide_eq_true in Hi. injection Hk as <-. set_solver.
    - case_bool_decide; [|done]. injection Hk as <-. set_solver. }
  split; [done|]. split; [done|]. split; [done|].
  repeat case_bool_decide; cbn; naive_solver.
Qed.

(** Where the scan of the raw text and the URL parser part ways: [url] reads a
    backslash in an [http] URL as a slash, the scan does not, so a written [:80] is
    taken for an omitted port and replaced by 8080. *)
Lemma backslash_hides_written_port :
  has_explicit_port (as_bytes "http://proxy.example:80\path") = false ∧
  resolve_port {| u_scheme := "http"; u_host_str := Some (as_bytes "proxy.example"); u_port := None;
                  u_port_or_known_default := Some 80; u_username := []; u_password := None |}
    (as_bytes "http://proxy.example:80\path") = Ok 8080.
Proof. split; by vm_compute. Qed.

(** ** Concrete runs *)
Definition sample_url : Url :=
  {| u_scheme := "http"; u_host_str := Some (as_bytes "[2001:db8::1]"); u_port := None;
     u_port_or_known_default := Some 80; u_username := as_bytes "bot"; u_password := Some (as_bytes "p%40ss") |}.

Lemma percent_round_trip_witness :
  percent_decode (percent_encode is_ascii_digit (as_bytes "p@ss:1%")) = as_bytes "p@ss:1%".
Proof. apply percent_round_trip; by vm_compute. Defined.

Lemma proxy_port_resolution_witness :
  resolve_port sample_url (written_url (as_bytes "http") (Some (as_bytes "bot:p%40ss"))
    (as_bytes "[2001:db8::1]") (Some (as_bytes "80")) (as_bytes "/")) = Ok 80.
Proof.
  apply (proxy_port_resolution sample_url _ _ _ (Some (as_bytes "80")) _ 80).
  - repeat split.
    + seps.
    + right. exists (as_bytes "2001:db8::1"). split; [done|]. intros b Hb. seps.
    + intros u [= <-] b Hb. seps.
    + by injection H as <-.
    + by injection H as <-.
    + right. exists x2f, []. split; [done|seps].
  - right. by vm_compute.
Defined.

Lemma authority_unbracket_witness :
  authority (unbracket (as_bytes "[::1]")) 1080 = as_bytes "[::1]:1080".
Proof.
  rewrite authority_unbracket; [by vm_compute|].
  right. exists (as_bytes "::1"). split; [done|seps].
Defined.

Definition sample_status : bstr := as_bytes "HTTP/1.1 200 OK" ++ crlf.
Definition sample_header_line : bstr := as_bytes "Via: 1.1 proxy" ++ crlf.

Lemma sample_lines :
  (∃ body, sample_status = body ++ [x0a] ∧ (x0a ∉ body)) ∧ header_line sample_header_line.
Proof.
  split.
  - exists (as_bytes "HTTP/1.1 200 OK" ++ [x0d]). split; [done|seps].
  - exists (as_bytes "Via: 1.1 proxy" ++ [x0d]).
    split; [done|]. split; [seps|]. by vm_compute.
Qed.

Lemma connect_reply_consumed_witness :
  read_response 5 (sample_status ++ concat [sample_header_line] ++ crlf ++ as_bytes "tls") =
    Ok (as_bytes "tls").
Proof.
  apply (connect_reply_consumed sample_status [sample_header_line] crlf (as_bytes "tls") 5);
    [apply sample_lines|by vm_compute..| |by left|cbn; lia].
  constructor; [apply sample_lines|constructor].
Defined.

Lemma connect_reply_refused_witness :
  ∃ line, (take_line (sample_status ++ crlf)).1 = line ∧ is_ok_status (trim_end line) = true ∧
    read_response 65 (sample_status ++ crlf) = Ok [].
Proof. apply (connect_reply_refused 2 (sample_status ++ crlf) []). by vm_compute. Defined.

Definition sample_config_px : ProxyConfig :=
  {| px_kind := HttpConnectProxy; px_host := as_bytes "2001:db8::1"; px_port := 8080;
     px_credentials := Some {| pc_username := as_bytes "bot"; pc_password := as_bytes "p@ss" |};
     px_tls_to_proxy := false |}.
Lemma parse_config_sound_witness :
  parse (λ _, Ok sample_url) (as_bytes "http://bot:p%40ss@[2001:db8::1]") = Ok sample_config_px ∧
  ∃ url : Url, u_scheme url ∈ ["socks5"; "socks5h"; "http"; "https"]%string.
Proof.
  split; [by vm_compute|].
  destruct (parse_config_sound (λ _, Ok sample_url) (as_bytes "http://bot:p%40ss@[2001:db8::1]")
    sample_config_px) as (url & _ & _ & _ & Hs & _); [by vm_compute|]. by exists url.
Defined.
