(* ===== verification/Proto.v ===== *)
(** * The protobuf layer: [crate::proto] and the [prost] interface

    The message types are generated at build time from [protos/*.proto] and
    their encoders come from the [prost] crate, so the codec is a parameter: the
    class [Message] is what the crate calls ([encode_to_vec], [encoded_len],
    [decode]) and [MessageLaws] is the documented behaviour it relies on.  A
    record keeps the fields the crate reads or writes; [*_rest] stands for the
    wire form of every other field (empty in [Default::default()]). *)
From S2P Require Import Prelude.
#[local] Set Default Goal Selector "!".

(** ** The [prost::Message] interface *)
Class Message (M : Type) := {
  encode_to_vec : M → list byte;
  encoded_len : M → Z;
  (** [Err] carries the [Display] text of [prost::DecodeError]. *)
  msg_decode : list byte → result string M
}.

(** The Rust value exists: every integer field is within its width. *)
Class MsgWf (M : Type) := msg_wf : M → Prop.

Class MessageLaws (M : Type) `{Message M, MsgWf M} := {
  decode_encode : ∀ m, msg_wf m → msg_decode (encode_to_vec m) = Ok m;
  encoded_len_spec : ∀ m, encoded_len m = Z.of_nat (length (encode_to_vec m))
}.

(** A decoded Rust value is a Rust value. *)
Class DecodeWf (M : Type) `{Message M, MsgWf M} :=
  decode_wf : ∀ bs m, msg_decode bs = Ok m → msg_wf m.

(** ** Records *)

(** [CMsgProtoBufHeader] (steammessages_base.proto): the CM routing header. *)
Record CMsgProtoBufHeader := {
  h_steamid : option Z;
  h_client_sessionid : option Z;
  h_jobid_source : option Z;
  h_jobid_target : option Z;
  h_eresult : option Z;
  h_error_message : option string;
  h_rest : list byte
}.

Definition header_default : CMsgProtoBufHeader :=
  {| h_steamid := None; h_client_sessionid := None; h_jobid_source := None;
     h_jobid_target := None; h_eresult := None; h_error_message := None;
     h_rest := [] |}.

(** [CMsgMulti]: a batch of frames, gzip-compressed when [size_unzipped > 0]. *)
Record CMsgMulti := {
  mu_size_unzipped : option Z;
  mu_message_body : option (list byte)
}.

(** [CMsgClientLoggedOff]. *)
Record CMsgClientLoggedOff := { lo_eresult : option Z }.

(** [CMsgClientLogon]: the fields [CmConnection::logon] fills. *)
Record CMsgClientLogon := {
  lg_protocol_version : option Z;
  lg_client_package_version : option Z;
  lg_client_language : option string;
  lg_client_os_type : option Z;
  lg_should_remember_password : option bool;
  lg_account_name : option string;
  lg_access_token : option string;
  lg_supports_rate_limit_response : option bool;
  lg_rest : list byte
}.

(** [CMsgClientLogonResponse]. *)
Record CMsgClientLogonResponse := {
  lr_eresult : option Z;
  lr_heartbeat_seconds : option Z;
  lr_rest : list byte
}.

(** [CMsgGCClient]: the relay envelope. *)
Record CMsgGcClient := {
  gcc_appid : option Z;
  gcc_msgtype : option Z;
  gcc_payload : option (list byte);
  gcc_rest : list byte
}.

(** The GC's own [CMsgProtoBufHeader] (csgo/steammessages.proto). *)
Record GcHeader := {
  gh_job_id_source : option Z;
  gh_job_id_target : option Z;
  gh_rest : list byte
}.

Definition gc_header_default : GcHeader :=
  {| gh_job_id_source := None; gh_job_id_target := None; gh_rest := [] |}.

(** Width conditions of the integer fields. *)
Definition opt_u (w : Z) (o : option Z) : Prop := from_option (in_u w) True o.
Definition opt_i (w : Z) (o : option Z) : Prop := from_option (in_i w) True o.

#[export] Instance header_wf : MsgWf CMsgProtoBufHeader := fun h =>
  opt_u 64 (h_steamid h) ∧ opt_i 32 (h_client_sessionid h) ∧
  opt_u 64 (h_jobid_source h) ∧ opt_u 64 (h_jobid_target h) ∧
  opt_i 32 (h_eresult h).
#[export] Instance multi_wf : MsgWf CMsgMulti := fun m => opt_u 32 (mu_size_unzipped m).
#[export] Instance logged_off_wf : MsgWf CMsgClientLoggedOff := fun m =>
  opt_i 32 (lo_eresult m).
#[export] Instance logon_response_wf : MsgWf CMsgClientLogonResponse := fun m =>
  opt_i 32 (lr_eresult m) ∧ opt_i 32 (lr_heartbeat_seconds m).
#[export] Instance gc_client_wf : MsgWf CMsgGcClient := fun m =>
  opt_u 32 (gcc_appid m) ∧ opt_u 32 (gcc_msgtype m).
#[export] Instance gc_header_wf : MsgWf GcHeader := fun h =>
  opt_u 64 (gh_job_id_source h) ∧ opt_u 64 (gh_job_id_target h).

#[export] Instance opt_u_dec w o : Decision (opt_u w o).
Proof. destruct o; simpl; apply _. Defined.
#[export] Instance opt_i_dec w o : Decision (opt_i w o).
Proof. destruct o; simpl; apply _. Defined.
#[export] Instance header_eq_dec : EqDecision CMsgProtoBufHeader.
Proof. solve_decision. Defined.
#[export] Instance gc_header_eq_dec : EqDecision GcHeader.
Proof. solve_decision. Defined.
