(* ===== verification/Wire.v ===== *)
(** * A concrete message codec

    The theorems are stated for any [prost]-like codec ([Proto.MessageLaws]).
    This file gives one that satisfies the laws, built from self-delimiting
    combinators, so that every theorem can be run on concrete messages. *)
From S2P Require Import Prelude Proto.
#[local] Set Default Goal Selector "!".

(** ** Combinators *)
Record wire (A : Type) := Wire {
  w_enc : A → list byte;
  w_dec : list byte → option (A * list byte);
  w_ok : A → Prop
}.
Arguments Wire {A}.
Arguments w_enc {A} w _.
Arguments w_dec {A} w _.
Arguments w_ok {A} w _.

Class WireOk {A} (w : wire A) :=
  wire_ok : ∀ a r, w_ok w a → w_dec w (w_enc w a ++ r) = Some (a, r).

(** An unsigned integer on [n] bytes. *)
Definition w_uint (n : nat) : wire Z :=
  Wire (to_le_bytes n)
       (λ bs, Some (from_le_bytes (take n bs), drop n bs))
       (in_u (8 * Z.of_nat n)).
(** A signed integer on [n] bytes, offset by half the range. *)
Definition w_int (n : nat) : wire Z :=
  let half := 2 ^ (8 * Z.of_nat n - 1) in
  Wire (λ z, to_le_bytes n (z + half))
       (λ bs, Some (from_le_bytes (take n bs) - half, drop n bs))
       (λ z, in_u (8 * Z.of_nat n) (z + half)).
Definition w_byte : wire byte :=
  Wire (λ b, [b]) (λ bs, match bs with b :: r => Some (b, r) | [] => None end)
       (λ _, True).
Definition w_bool : wire bool :=
  Wire (λ b : bool, [if b then x01 else x00])
       (λ bs, match bs with b :: r => Some (bool_decide (b = x01), r) | [] => None end)
       (λ _, True).
Definition w_option {A} (w : wire A) : wire (option A) :=
  Wire (λ o, match o with Some a => x01 :: w_enc w a | None => [x00] end)
       (λ bs, match bs with
              | x01 :: r => '(a, r) ← w_dec w r; Some (Some a, r)
              | x00 :: r => Some (None, r)
              | _ => None
              end)
       (λ o, from_option (w_ok w) True o).
Definition w_pair {A B} (wa : wire A) (wb : wire B) : wire (A * B) :=
  Wire (λ ab, w_enc wa ab.1 ++ w_enc wb ab.2)
       (λ bs, '(a, r) ← w_dec wa bs; '(b, r) ← w_dec wb r; Some ((a, b), r))
       (λ ab, w_ok wa ab.1 ∧ w_ok wb ab.2).
Fixpoint list_enc {A} (w : wire A) (l : list A) : list byte :=
  match l with [] => [x00] | a :: l => x01 :: w_enc w a ++ list_enc w l end.
Fixpoint list_dec {A} (w : wire A) (fuel : nat) (bs : list byte) : option (list A * list byte) :=
  match fuel, bs with
  | S fuel, x01 :: r => '(a, r) ← w_dec w r; '(l, r) ← list_dec w fuel r; Some (a :: l, r)
  | S _, x00 :: r => Some ([], r)
  | _, _ => None
  end.
(** Every element is announced by a tag byte, so [length bs] bounds the count. *)
Definition w_list {A} (w : wire A) : wire (list A) :=
  Wire (list_enc w) (λ bs, list_dec w (length bs) bs) (Forall (w_ok w)).
(** Transport along a bijection. *)
Definition w_iso {A B} (f : A → B) (g : B → A) (w : wire A) : wire B :=
  Wire (λ b, w_enc w (g b)) (λ bs, '(a, r) ← w_dec w bs; Some (f a, r)) (λ b, w_ok w (g b)).
Definition w_bytes : wire (list byte) := w_list w_byte.
Definition w_string : wire string := w_iso string_of_list_byte as_bytes w_bytes.

(** A message codec from a wire format. *)
Definition wire_message {A} (w : wire A) : Message A :=
  {| encode_to_vec := w_enc w;
     encoded_len := λ a, Z.of_nat (length (w_enc w a));
     msg_decode := λ bs, match w_dec w bs with
                         | Some (a, []) => Ok a
                         | _ => Err "malformed message"%string
                         end |}.

(** ** The formats of the records the crate exchanges *)
Definition w_header : wire CMsgProtoBufHeader :=
  w_iso (λ '(a, b, c, d, e, f, g), Build_CMsgProtoBufHeader a b c d e f g)
    (λ h, (h_steamid h, h_client_sessionid h, h_jobid_source h, h_jobid_target h,
           h_eresult h, h_error_message h, h_rest h))
    (w_pair (w_pair (w_pair (w_pair (w_pair (w_pair
      (w_option (w_uint 8)) (w_option (w_int 4))) (w_option (w_uint 8)))
      (w_option (w_uint 8))) (w_option (w_int 4))) (w_option w_string)) w_bytes).
Definition w_multi : wire CMsgMulti :=
  w_iso (λ '(a, b), Build_CMsgMulti a b) (λ m, (mu_size_unzipped m, mu_message_body m))
    (w_pair (w_option (w_uint 4)) (w_option w_bytes)).
Definition w_logged_off : wire CMsgClientLoggedOff :=
  w_iso Build_CMsgClientLoggedOff lo_eresult (w_option (w_int 4)).
Definition w_logon_response : wire CMsgClientLogonResponse :=
  w_iso (λ '(a, b, c), Build_CMsgClientLogonResponse a b c)
    (λ m, (lr_eresult m, lr_heartbeat_seconds m, lr_rest m))
    (w_pair (w_pair (w_option (w_int 4)) (w_option (w_int 4))) w_bytes).
Definition w_gc_client : wire CMsgGcClient :=
  w_iso (λ '(a, b, c, d), Build_CMsgGcClient a b c d)
    (λ m, (gcc_appid m, gcc_msgtype m, gcc_payload m, gcc_rest m))
    (w_pair (w_pair (w_pair (w_option (w_uint 4)) (w_option (w_uint 4))) (w_option w_bytes)) w_bytes).
Definition w_gc_header : wire GcHeader :=
  w_iso (λ '(a, b, c), Build_GcHeader a b c)
    (λ m, (gh_job_id_source m, gh_job_id_target m, gh_rest m))
    (w_pair (w_pair (w_option (w_uint 8)) (w_option (w_uint 8))) w_bytes).
Definition w_logon : wire CMsgClientLogon :=
  w_iso (λ '(a, b, c, d, e, f, g, h, i), Build_CMsgClientLogon a b c d e f g h i)
    (λ m, (lg_protocol_version m, lg_client_package_version m, lg_client_language m,
           lg_client_os_type m, lg_should_remember_password m, lg_account_name m,
           lg_access_token m, lg_supports_rate_limit_response m, lg_rest m))
    (w_pair (w_pair (w_pair (w_pair (w_pair (w_pair (w_pair (w_pair
      (w_option (w_uint 4)) (w_option (w_uint 4))) (w_option w_string)) (w_option (w_uint 4)))
      (w_option w_bool)) (w_option w_string)) (w_option w_string)) (w_option w_bool)) w_bytes).

Module Instances.
#[export] Instance logon_message : Message CMsgClientLogon := wire_message w_logon.
#[export] Instance header_message : Message CMsgProtoBufHeader := wire_message w_header.
#[export] Instance multi_message : Message CMsgMulti := wire_message w_multi.
#[export] Instance logged_off_message : Message CMsgClientLoggedOff := wire_message w_logged_off.
#[export] Instance logon_response_message : Message CMsgClientLogonResponse :=
  wire_message w_logon_response.
#[export] Instance gc_client_message : Message CMsgGcClient := wire_message w_gc_client.
#[export] Instance gc_header_message : Message GcHeader := wire_message w_gc_header.
End Instances.

(** ** The combinators round-trip *)
Lemma pow_256 n : 256 ^ Z.of_nat n = 2 ^ (8 * Z.of_nat n).
Proof. rewrite Z.pow_mul_r by lia. done. Qed.

#[export] Instance w_uint_ok n : WireOk (w_uint n).
Proof.
  intros z r Hz; simpl in *.
  destruct (take_drop_app_eq (to_le_bytes n z) r n) as [-> ->];
    [apply length_to_le_bytes|].
  by rewrite from_to_le_bytes_small by (rewrite pow_256; apply Hz).
Qed.

#[export] Instance w_int_ok n : WireOk (w_int n).
Proof.
  intros z r Hz; cbn [w_dec w_enc w_ok w_int] in *.
  destruct (take_drop_app_eq (to_le_bytes n (z + 2 ^ (8 * Z.of_nat n - 1))) r n)
    as [-> ->]; [apply length_to_le_bytes|].
  rewrite from_to_le_bytes_small by (rewrite pow_256; apply Hz).
  by rewrite Z.add_simpl_r.
Qed.

#[export] Instance w_byte_ok : WireOk w_byte.
Proof. by intros b r _. Qed.

#[export] Instance w_bool_ok : WireOk w_bool.
Proof. by intros [] r _. Qed.

#[export] Instance w_option_ok {A} (w : wire A) `{!WireOk w} : WireOk (w_option w).
Proof. intros [a|] r Ha; simpl in *; [by rewrite wire_ok|done]. Qed.

#[export] Instance w_pair_ok {A B} (wa : wire A) (wb : wire B) `{!WireOk wa, !WireOk wb} :
  WireOk (w_pair wa wb).
Proof.
  intros [a b] r [Ha Hb]; simpl in *.
  rewrite <-app_assoc, wire_ok by done. simpl. by rewrite (wire_ok b) by done.
Qed.

Lemma list_dec_enc {A} (w : wire A) `{!WireOk w} l r fuel :
  Forall (w_ok w) l → (length l < fuel)%nat →
  list_dec w fuel (list_enc w l ++ r) = Some (l, r).
Proof.
  intros Hl. revert fuel. induction Hl as [|a l Ha _ IH]; intros [|fuel] Hf; simpl in *; try lia.
  { done. }
  rewrite <-app_assoc, wire_ok by done. simpl. by rewrite IH by lia.
Qed.

Lemma length_list_enc {A} (w : wire A) l : (length l < length (list_enc w l))%nat.
Proof. induction l as [|a l IH]; simpl; [lia|]. rewrite length_app. lia. Qed.

#[export] Instance w_list_ok {A} (w : wire A) `{!WireOk w} : WireOk (w_list w).
Proof.
  intros l r Hl. apply list_dec_enc; [apply _|done|]. simpl.
  rewrite length_app. pose proof (length_list_enc w l). lia.
Qed.

Lemma w_iso_ok {A B} (f : A → B) (g : B → A) (w : wire A) `{!WireOk w} :
  (∀ b, f (g b) = b) → WireOk (w_iso f g w).
Proof. intros Hfg b r Hb; simpl in *. rewrite wire_ok by done. simpl. by rewrite Hfg. Qed.

#[export] Instance w_string_ok : WireOk w_string.
Proof. apply w_iso_ok; [apply _|]. apply string_of_list_byte_of_string. Qed.

Lemma w_bytes_total l : w_ok w_bytes l.
Proof. by induction l; constructor. Qed.

Lemma w_opt_bytes_total o : from_option (w_ok w_bytes) True o.
Proof. destruct o; [apply w_bytes_total|done]. Qed.

Lemma w_opt_string_total o : from_option (w_ok w_string) True o.
Proof. destruct o as [s|]; [apply (w_bytes_total (as_bytes s))|done]. Qed.

Lemma wire_message_laws {A} (w : wire A) `{!MsgWf A, !WireOk w} :
  (∀ a, msg_wf a → w_ok w a) → @MessageLaws A (wire_message w) _.
Proof.
  intros Hok. split; [|done]. intros m Hm. simpl.
  rewrite <-(app_nil_r (w_enc w m)), wire_ok by auto. done.
Qed.

(** ** What they decode is in range *)
Class WireTyped {A} (w : wire A) :=
  wire_typed : ∀ bs a r, w_dec w bs = Some (a, r) → w_ok w a.

Lemma take_bound n bs : in_u (8 * Z.of_nat n) (from_le_bytes (take n bs)).
Proof.
  pose proof (from_le_bytes_bound (take n bs)) as [Hlo Hhi]. split; [done|].
  rewrite <-pow_256. eapply Z.lt_le_trans; [done|]. apply Z.pow_le_mono_r; [lia|].
  rewrite length_take. lia.
Qed.
#[export] Instance w_uint_typed n : WireTyped (w_uint n).
Proof. intros bs a r [= <- _]. apply take_bound. Qed.
#[export] Instance w_int_typed n : WireTyped (w_int n).
Proof.
  intros bs a r Ha. cbn [w_dec w_int] in Ha. injection Ha as <- _. cbn [w_ok w_int].
  rewrite Z.sub_simpl_r. apply take_bound.
Qed.
#[export] Instance w_option_typed {A} (w : wire A) `{!WireTyped w} : WireTyped (w_option w).
Proof.
  intros [|b bs] a r; cbn; [done|]. destruct b; try done; [by intros [= <- _]|].
  intros ([x r'] & Hx & Ha)%bind_Some. simplify_eq. by eapply wire_typed.
Qed.
#[export] Instance w_pair_typed {A B} (wa : wire A) (wb : wire B)
  `{!WireTyped wa, !WireTyped wb} : WireTyped (w_pair wa wb).
Proof.
  intros bs [a b] r. cbn. intros ([x r1] & Hx & Hr)%bind_Some.
  apply bind_Some in Hr as ([y r2] & Hy & Hr). simplify_eq. split; by eapply wire_typed.
Qed.
Lemma w_iso_typed {A B} (f : A → B) (g : B → A) (w : wire A) `{!WireTyped w} :
  (∀ a, g (f a) = a) → WireTyped (w_iso f g w).
Proof.
  intros Hgf bs b r. cbn. intros ([x r1] & Hx & Hr)%bind_Some. simplify_eq. rewrite Hgf.
  by eapply wire_typed.
Qed.
#[export] Instance w_bytes_typed : WireTyped w_bytes.
Proof. intros bs a r _. apply w_bytes_total. Qed.
#[export] Instance w_string_typed : WireTyped w_string.
Proof. intros bs a r _. apply (w_bytes_total (as_bytes a)). Qed.

Lemma wire_decode_wf {A} (w : wire A) `{!MsgWf A, !WireTyped w} :
  (∀ a, w_ok w a → msg_wf a) → @DecodeWf A (wire_message w) _.
Proof.
  intros Hok bs m. cbn. destruct (w_dec w bs) as [[a [|]]|] eqn:Hd; [|done..]. intros [= <-].
  by eapply Hok, wire_typed.
Qed.

Section laws.
Import Instances.

Local Lemma wire_opt_i n o :
  (0 < n)%nat → from_option (w_ok (w_int n)) True o → opt_i (8 * Z.of_nat n) o.
Proof.
  destruct o as [z|]; [|done]. simpl. unfold in_i, in_u. intros Hn.
  replace (2 ^ (8 * Z.of_nat n)) with (2 * 2 ^ (8 * Z.of_nat n - 1)); [lia|].
  rewrite <-Z.pow_succ_r by lia. f_equal. lia.
Qed.
Lemma header_decode_wf : DecodeWf CMsgProtoBufHeader.
Proof.
  apply wire_decode_wf; [apply w_iso_typed; [apply _|by intros [[[[[[]]]]]]]|].
  intros m Hm. cbn [w_ok w_header w_iso w_pair w_option fst snd] in Hm. destruct_and? Hm.
  split_and!; try done; by apply (wire_opt_i 4); [lia|].
Qed.
Lemma logon_response_decode_wf : DecodeWf CMsgClientLogonResponse.
Proof.
  apply wire_decode_wf; [apply w_iso_typed; [apply _|by intros [[]]]|].
  intros m Hm. cbn [w_ok w_logon_response w_iso w_pair w_option fst snd] in Hm. destruct_and? Hm.
  split; by apply (wire_opt_i 4); [lia|].
Qed.

(** The width conditions of a Rust value are the ones the formats need. *)
Local Lemma opt_u_wire n o : opt_u (8 * Z.of_nat n) o → from_option (w_ok (w_uint n)) True o.
Proof. by destruct o. Qed.

Local Lemma opt_i_wire n o :
  (0 < n)%nat → opt_i (8 * Z.of_nat n) o → from_option (w_ok (w_int n)) True o.
Proof.
  destruct o as [z|]; [|done]. simpl. unfold in_i, in_u. intros Hn Hz.
  replace (2 ^ (8 * Z.of_nat n)) with (2 * 2 ^ (8 * Z.of_nat n - 1)); [lia|].
  rewrite <-Z.pow_succ_r by lia. f_equal. lia.
Qed.

Local Ltac wire_laws :=
  apply wire_message_laws; [apply _|]; intros m; unfold msg_wf, header_wf, multi_wf, logged_off_wf,
    logon_response_wf, gc_client_wf, gc_header_wf; intros Hm; simpl; destruct_and?;
  repeat split; first [by apply w_bytes_total | by apply w_opt_bytes_total
                      | by apply w_opt_string_total | by apply (opt_u_wire 8) | by apply (opt_u_wire 4)
                      | by apply (opt_i_wire 4); [lia|]].

Local Instance w_header_ok : WireOk w_header.
Proof. apply w_iso_ok; [apply _|by intros []]. Qed.
Local Instance w_multi_ok : WireOk w_multi.
Proof. apply w_iso_ok; [apply _|by intros []]. Qed.
Local Instance w_logged_off_ok : WireOk w_logged_off.
Proof. apply w_iso_ok; [apply _|by intros []]. Qed.
Local Instance w_logon_response_ok : WireOk w_logon_response.
Proof. apply w_iso_ok; [apply _|by intros []]. Qed.
Local Instance w_gc_client_ok : WireOk w_gc_client.
Proof. apply w_iso_ok; [apply _|by intros []]. Qed.
Local Instance w_gc_header_ok : WireOk w_gc_header.
Proof. apply w_iso_ok; [apply _|by intros []]. Qed.

Lemma header_message_laws : MessageLaws CMsgProtoBufHeader.
Proof. wire_laws. Qed.
Lemma multi_message_laws : MessageLaws CMsgMulti.
Proof. wire_laws. Qed.
Lemma logged_off_message_laws : MessageLaws CMsgClientLoggedOff.
Proof. wire_laws. Qed.
Lemma logon_response_message_laws : MessageLaws CMsgClientLogonResponse.
Proof. wire_laws. Qed.
Lemma gc_client_message_laws : MessageLaws CMsgGcClient.
Proof. wire_laws. Qed.
Lemma gc_header_message_laws : MessageLaws GcHeader.
Proof. wire_laws. Qed.
End laws.
