(* ===== verification/Codec.v ===== *)
(** * [src/codec.rs]: CM frame codec

    A frame is [msg | PROTO_MASK] and the header length, both little-endian
    [u32], then the encoded header and the body.  [unframe] and [decode] index
    slices, so they are written with explicit panics ([None]). *)
From S2P Require Import Prelude Errors Proto Wire.
#[local] Set Default Goal Selector "!".

(** ** Definitions *)
Definition PROTO_MASK : Z := 0x80000000.
Definition EMSG_MASK : Z := not_u 32 PROTO_MASK.
Definition PREFIX_LEN : Z := 8.

Record SteamMessage := {
  sm_emsg : Z;
  sm_header : CMsgProtoBufHeader;
  sm_body : list byte
}.

#[export] Instance SteamMessage_eq_dec : EqDecision SteamMessage.
Proof. solve_decision. Defined.

Definition put_prefix (out : list byte) (msg_type header_len : Z) : list byte :=
  let out := out ++ to_le_bytes 4 (Z.lor (Z.land msg_type EMSG_MASK) PROTO_MASK) in
  out ++ to_le_bytes 4 (wrap_u 32 header_len).

Definition encode_into {M} `{Message M} (out : list byte) (msg : M) : list byte :=
  out ++ encode_to_vec msg.

Definition encode {H M} `{Message H, Message M} (emsg : Z) (header : H) (body : M) :
    list byte :=
  let header_len := encoded_len header in
  let out := put_prefix [] emsg header_len in
  let out := encode_into out header in
  encode_into out body.

Definition encode_raw {H} `{Message H} (emsg : Z) (header : H) (body : list byte) :
    list byte :=
  let header_len := encoded_len header in
  let out := put_prefix [] emsg header_len in
  let out := encode_into out header in
  out ++ body.

Record FrameParts := {
  fp_msg_type : Z;
  fp_header : list byte;
  fp_body : list byte
}.

Definition unframe (bytes : list byte) : panicking (Result (option FrameParts)) :=
  if decide (len bytes < PREFIX_LEN) then
    Some (Err (Codec "frame shorter than 8-byte prefix"))
  else
    w ← slice_to bytes 4; raw_msg ← u32_from_le w;
    if decide (Z.land raw_msg PROTO_MASK = 0) then Some (Ok None)
    else
      w ← slice bytes 4 PREFIX_LEN; header_len ← u32_from_le w;
      rest ← slice_from bytes PREFIX_LEN;
      if decide (len rest < header_len) then
        Some (Err (Codec ("header length " +:+ pretty header_len +:+ " exceeds "
                          +:+ pretty (len rest) +:+ " remaining bytes")))
      else
        header ← slice_to rest header_len;
        body ← slice_from rest header_len;
        Some (Ok (Some {| fp_msg_type := Z.land raw_msg EMSG_MASK;
                          fp_header := header; fp_body := body |})).

Section decoding.
Context `{Message CMsgProtoBufHeader}.

Definition try_decode (bytes : list byte) : panicking (Result (option SteamMessage)) :=
  parts ← unframe bytes;
  Some (parts ← parts;
        match parts with
        | None => Ok None
        | Some parts =>
            header ← map_err (λ e, Codec ("decode header: " +:+ e))
                             (msg_decode (fp_header parts));
            Ok (Some {| sm_emsg := fp_msg_type parts; sm_header := header;
                        sm_body := fp_body parts |})
        end).

Definition decode (bytes : list byte) : panicking (Result SteamMessage) :=
  r ← try_decode bytes;
  match r with
  | Err e => Some (Err e)
  | Ok (Some m) => Some (Ok m)
  | Ok None =>
      w ← slice_to bytes 4; raw_msg ← u32_from_le w;
      Some (Err (Codec ("non-protobuf message (raw type 0x" +:+ hex_fixed 8 raw_msg
                        +:+ ") not supported")))
  end.
End decoding.

(** ** The frame format as a specification

    [frame_of p] is the layout drawn in the module documentation. *)
Definition frame_of (p : FrameParts) : list byte :=
  to_le_bytes 4 (fp_msg_type p + 2 ^ 31) ++ to_le_bytes 4 (len (fp_header p)) ++
  fp_header p ++ fp_body p.

Definition parts_wf (p : FrameParts) : Prop :=
  in_u 31 (fp_msg_type p) ∧ len (fp_header p) < 2 ^ 32.

(** ** Masks *)
Lemma EMSG_MASK_eq : EMSG_MASK = 2 ^ 31 - 1.
Proof. reflexivity. Qed.
Lemma PROTO_MASK_eq : PROTO_MASK = 2 ^ 31.
Proof. reflexivity. Qed.

Lemma emsg_masked e : Z.land e EMSG_MASK = e mod 2 ^ 31.
Proof. rewrite EMSG_MASK_eq. by apply land_ones_mod. Qed.

Lemma proto_word e : Z.lor (Z.land e EMSG_MASK) PROTO_MASK = e mod 2 ^ 31 + 2 ^ 31.
Proof.
  rewrite emsg_masked, PROTO_MASK_eq. apply lor_pow2; [lia|].
  by apply Z.mod_pos_bound.
Qed.

Lemma proto_clear_iff raw : in_u 32 raw → Z.land raw PROTO_MASK = 0 ↔ raw < 2 ^ 31.
Proof. intros Hr. rewrite PROTO_MASK_eq. apply land_pow2_top; [lia|apply Hr]. Qed.

Lemma add_proto_mod t : in_u 31 t → (t + 2 ^ 31) mod 2 ^ 31 = t.
Proof.
  intros Ht. rewrite <-(Z.mul_1_l (2 ^ 31)) at 1.
  rewrite Z.mod_add by lia. by apply Z.mod_small.
Qed.

(** ** [unframe] *)

(** The prefix words of a byte string of at least eight bytes. *)
Definition word0 (bs : list byte) : Z := from_le_bytes (take 4 bs).
Definition word1 (bs : list byte) : Z := from_le_bytes (take 4 (drop 4 bs)).

Lemma word_bound k (bs : list byte) : in_u 32 (from_le_bytes (take 4 (drop k bs))).
Proof.
  pose proof (from_le_bytes_bound (take 4 (drop k bs))) as Hb.
  split; [lia|]. eapply Z.lt_le_trans; [apply Hb|].
  change (2 ^ 32) with (256 ^ 4). apply Z.pow_le_mono_r; [lia|].
  rewrite length_take. lia.
Qed.

(** [unframe] without the slicing: the reference decision tree. *)
Lemma unframe_eq bs :
  unframe bs =
    Some (if decide (len bs < 8) then Err (Codec "frame shorter than 8-byte prefix")
          else if decide (word0 bs < 2 ^ 31) then Ok None
          else if decide (len bs - 8 < word1 bs) then
            Err (Codec ("header length " +:+ pretty (word1 bs) +:+ " exceeds "
                        +:+ pretty (len bs - 8) +:+ " remaining bytes"))
          else Ok (Some {| fp_msg_type := word0 bs mod 2 ^ 31;
                           fp_header := take (Z.to_nat (word1 bs)) (drop 8 bs);
                           fp_body := drop (Z.to_nat (word1 bs)) (drop 8 bs) |})).
Proof.
  unfold unframe, PREFIX_LEN. case_decide as Hlen; [done|].
  pose proof (word_bound 0 bs) as H0. pose proof (word_bound 4 bs) as H1.
  rewrite drop_0 in H0. fold (word0 bs) in H0. fold (word1 bs) in H1.
  unfold len in Hlen.
  rewrite slice_to_Some by (unfold len; lia). simpl.
  rewrite u32_from_le_Some by (rewrite length_take; lia). simpl.
  change (from_le_bytes (take (Z.to_nat 4) bs)) with (word0 bs).
  pose proof (proto_clear_iff _ H0) as Hclear.
  destruct (decide (word0 bs < 2 ^ 31)); [by rewrite decide_True by tauto|].
  rewrite decide_False by tauto.
  unfold slice. rewrite decide_True by (unfold len; lia). simpl.
  rewrite u32_from_le_Some by (rewrite length_take, length_drop; lia). simpl.
  change (from_le_bytes (take (Z.to_nat (8 - 4)) (drop (Z.to_nat 4) bs))) with (word1 bs).
  rewrite slice_from_Some by (unfold len; lia). simpl.
  assert (len (drop 8 bs) = len bs - 8) as Hrest
    by (unfold len; rewrite length_drop; lia).
  change (Z.to_nat 8) with 8%nat. rewrite Hrest. case_decide; [done|].
  rewrite slice_to_Some, slice_from_Some by (destruct H1; lia). simpl.
  by rewrite emsg_masked.
Qed.

(** The prefix words of a well-formed frame are its type and header length. *)
Lemma frame_words p :
  parts_wf p →
  word0 (frame_of p) = fp_msg_type p + 2 ^ 31 ∧ word1 (frame_of p) = len (fp_header p) ∧
  drop 8 (frame_of p) = fp_header p ++ fp_body p ∧
  len (frame_of p) = 8 + len (fp_header p) + len (fp_body p).
Proof.
  intros [Ht Hh]. destruct Ht. pose proof (len_nonneg (fp_header p)).
  unfold frame_of, word0, word1.
  destruct (take_drop_app_eq (to_le_bytes 4 (fp_msg_type p + 2 ^ 31))
    (to_le_bytes 4 (len (fp_header p)) ++ fp_header p ++ fp_body p) 4) as [-> Hd];
    [apply length_to_le_bytes|].
  rewrite Hd. destruct (take_drop_app_eq (to_le_bytes 4 (len (fp_header p)))
    (fp_header p ++ fp_body p) 4) as [-> Hd']; [apply length_to_le_bytes|].
  split; [|split; [|split]].
  - apply from_to_le_bytes_small. change (256 ^ Z.of_nat 4) with (2 ^ 32). lia.
  - apply from_to_le_bytes_small. change (256 ^ Z.of_nat 4) with (2 ^ 32). lia.
  - change 8%nat with (4 + 4)%nat. by rewrite <-drop_drop, Hd, Hd'.
  - unfold len. rewrite !length_app, !length_to_le_bytes. lia.
Qed.

(** Framing then unframing gives the parts back. *)
Lemma unframe_frame_of p : parts_wf p → unframe (frame_of p) = Some (Ok (Some p)).
Proof.
  intros Hwf. destruct (frame_words p Hwf) as (H0 & H1 & Hd & Hl). destruct Hwf as [Ht Hh].
  pose proof (len_nonneg (fp_header p)). pose proof (len_nonneg (fp_body p)).
  rewrite unframe_eq, H0, H1, Hd, Hl.
  rewrite !decide_False by (destruct Ht; lia). rewrite add_proto_mod by done.
  destruct (take_drop_app_eq (fp_header p) (fp_body p) (Z.to_nat (len (fp_header p))))
    as [-> ->]; [unfold len; lia|].
  by destruct p.
Qed.

Lemma to_le_word (k : nat) bs :
  (4 ≤ length (drop k bs))%nat → to_le_bytes 4 (from_le_bytes (take 4 (drop k bs))) = take 4 (drop k bs).
Proof.
  intros Hk. rewrite <-(to_from_le_bytes (take 4 (drop k bs))) at 2.
  rewrite length_take. by replace (4 `min` length (drop k bs))%nat with 4%nat by lia.
Qed.

(** An accepted frame is the framing of the parts it yields. *)
Lemma unframe_inv bs p :
  unframe bs = Some (Ok (Some p)) → parts_wf p ∧ bs = frame_of p.
Proof.
  rewrite unframe_eq. case_decide as Hl; [done|]. case_decide as Hp; [done|].
  case_decide as Hh; [done|]. intros [= <-].
  pose proof (word_bound 0 bs) as H0. pose proof (word_bound 4 bs) as H1.
  rewrite drop_0 in H0. fold (word0 bs) in H0. fold (word1 bs) in H1.
  destruct H0, H1.
  assert (len (take (Z.to_nat (word1 bs)) (drop 8 bs)) = word1 bs) as Hlen.
  { unfold len in *. rewrite length_take, length_drop. lia. }
  unfold len in Hl, Hh.
  split; unfold parts_wf, frame_of; cbn [fp_msg_type fp_header fp_body].
  { rewrite Hlen. split; [|done]. by apply Z.mod_pos_bound. }
  rewrite Hlen, take_drop.
  replace (word0 bs mod 2 ^ 31 + 2 ^ 31) with (word0 bs).
  2:{ rewrite (Z.mod_eq (word0 bs)) by lia.
      replace (word0 bs `div` 2 ^ 31) with 1; [lia|].
      apply (Z.div_unique _ _ _ (word0 bs - 2 ^ 31)); lia. }
  pose proof (to_le_word 0 bs) as E0. pose proof (to_le_word 4 bs) as E1.
  rewrite drop_0 in E0. unfold word0, word1.
  rewrite E0 by lia. rewrite E1 by (rewrite length_drop; lia).
  change 8%nat with (4 + 4)%nat. by rewrite <-drop_drop, !take_drop.
Qed.

(** ** [encode], [encode_raw] and the decoders *)
Lemma encode_raw_frame {H} `{MessageLaws H} e (h : H) b :
  encoded_len h < 2 ^ 32 →
  encode_raw e h b =
    frame_of {| fp_msg_type := e mod 2 ^ 31; fp_header := encode_to_vec h; fp_body := b |}.
Proof.
  intros Hlen. unfold encode_raw, encode_into, put_prefix, frame_of.
  cbn [fp_msg_type fp_header fp_body]. rewrite app_nil_l.
  rewrite proto_word. pose proof (encoded_len_spec h) as Hs. fold (len (encode_to_vec h)) in Hs.
  unfold wrap_u. rewrite (Z.mod_small (encoded_len h)) by (pose proof (len_nonneg (encode_to_vec h)); lia).
  by rewrite Hs, <-!app_assoc.
Qed.

Lemma encode_raw_parts_wf {H} `{MessageLaws H} e (h : H) b :
  encoded_len h < 2 ^ 32 →
  parts_wf {| fp_msg_type := e mod 2 ^ 31; fp_header := encode_to_vec h; fp_body := b |}.
Proof.
  intros Hlen. split; simpl.
  - by apply Z.mod_pos_bound.
  - unfold len. by rewrite <-encoded_len_spec.
Qed.

Lemma encode_eq {H M} `{Message H, Message M} e (h : H) (m : M) :
  encode e h m = encode_raw e h (encode_to_vec m).
Proof. done. Qed.

Lemma unframe_total bs : ∃ r, unframe bs = Some r.
Proof. rewrite unframe_eq. eauto. Qed.

Lemma unframe_err bs e : unframe bs = Some (Err e) → is_codec e = true.
Proof. rewrite unframe_eq. repeat case_decide; by intros [= <-]. Qed.

Section decoding_lemmas.
Context `{MessageLaws CMsgProtoBufHeader}.

Lemma try_decode_total bs : ∃ r, try_decode bs = Some r.
Proof. unfold try_decode. destruct (unframe_total bs) as [r ->]. simpl. eauto. Qed.

Lemma try_decode_err bs e : try_decode bs = Some (Err e) → is_codec e = true.
Proof.
  unfold try_decode. destruct (unframe bs) as [[[p|]|e']|] eqn:Hu; simpl; [..|done].
  - by destruct (msg_decode (fp_header p)); intros [= <-].
  - done.
  - intros [= <-]. by eapply unframe_err.
Qed.

Lemma try_decode_encode_raw e (h : CMsgProtoBufHeader) b :
  msg_wf h → encoded_len h < 2 ^ 32 →
  try_decode (encode_raw e h b) =
    Some (Ok (Some {| sm_emsg := e mod 2 ^ 31; sm_header := h; sm_body := b |})).
Proof.
  intros Hh Hlen. unfold try_decode. rewrite encode_raw_frame by done.
  rewrite unframe_frame_of by by apply encode_raw_parts_wf.
  simpl. by rewrite decode_encode.
Qed.

Lemma try_decode_emsg bs m : try_decode bs = Some (Ok (Some m)) → in_u 31 (sm_emsg m).
Proof.
  unfold try_decode. destruct (unframe bs) as [[[p|]|e']|] eqn:Hu; simpl; try done.
  apply unframe_inv in Hu as [[Ht _] _].
  destruct (msg_decode (fp_header p)); simpl; [|done]. by intros [= <-].
Qed.

(** C7: Decoding a frame written by [encode] gives back the message type with the
    protobuf flag stripped, the header and the body bytes, for every header and
    every protobuf body. *)
Theorem codec_round_trip {M} `{Message M} e (h : CMsgProtoBufHeader) (m : M) :
  in_u 31 e → msg_wf h → encoded_len h < 2 ^ 32 →
  decode (encode e h m) =
    Some (Ok {| sm_emsg := e; sm_header := h; sm_body := encode_to_vec m |}).
Proof.
  intros He Hh Hlen. unfold decode. rewrite encode_eq, try_decode_encode_raw by done.
  simpl. by rewrite Z.mod_small.
Qed.

(** No input makes the frame decoder panic: every byte string yields a message
    or an [Error::Codec]. *)
Theorem decode_never_panics bs :
  (∃ m, decode bs = Some (Ok m)) ∨ (∃ s, decode bs = Some (Err (Codec s))).
Proof.
  unfold decode. destruct (try_decode_total bs) as [r Hr]. rewrite Hr. simpl.
  destruct r as [[m|]|e].
  - eauto.
  - right. unfold try_decode in Hr. rewrite unframe_eq in Hr.
    assert (4 ≤ len bs) as Hlen by (destruct (decide (len bs < 8)); [by simplify_eq/=|lia]).
    unfold len in Hlen. rewrite slice_to_Some by (unfold len; lia). simpl.
    rewrite u32_from_le_Some by (rewrite length_take; lia). simpl. eauto.
  - right. apply try_decode_err in Hr. destruct e; by eauto.
Qed.
End decoding_lemmas.

(** C6: [unframe] accepts exactly the byte strings of the documented layout: it
    returns parts [p] iff the input is the frame of [p], so no two frames share
    their parts and no part of a frame is lost. *)
Theorem unframe_exact bs p :
  unframe bs = Some (Ok (Some p)) ↔ parts_wf p ∧ bs = frame_of p.
Proof.
  split; [apply unframe_inv|]. intros [Hwf ->]. by apply unframe_frame_of.
Qed.

(** ** A concrete run: a logon frame for session 42 *)
Section witnesses.
Import Wire.Instances.
#[local] Existing Instance header_message_laws.

Definition sample_header : CMsgProtoBufHeader :=
  {| h_steamid := Some 76561198000000000; h_client_sessionid := Some 42;
     h_jobid_source := None; h_jobid_target := None; h_eresult := None;
     h_error_message := None; h_rest := [] |}.

Lemma codec_round_trip_witness :
  decode (encode 5514 sample_header header_default) =
    Some (Ok {| sm_emsg := 5514; sm_header := sample_header;
                sm_body := encode_to_vec header_default |}).
Proof.
  apply codec_round_trip.
  - split; lia.
  - unfold msg_wf, header_wf. repeat split; simpl; lia.
  - vm_compute. done.
Defined.
End witnesses.
