(* ===== verification/Discovery.v ===== *)
(** * [src/session/discovery.rs]: CM server discovery

    The HTTPS round trip ([reqwest]) and the JSON parser ([serde_json]) are
    parameters; the model covers what the crate does with their answers. *)
From Stdlib Require Export Floats.SpecFloat.
From S2P Require Import Prelude Errors.
#[local] Set Default Goal Selector "!".

(** An [f32] as its IEEE-754 value. *)
Abbreviation f32 := spec_float.

Definition DIRECTORY_URL : string :=
  "https://api.steampowered.com/ISteamDirectory/GetCMListForConnect/v1/".

Record CmServer := {
  cs_endpoint : string;
  cs_datacenter : option string;
  cs_load : option f32
}.

Definition ws_url (s : CmServer) : string :=
  "wss://" +:+ cs_endpoint s +:+ "/cmsocket/".

(** The JSON shape of the directory answer; [response.serverlist] is flattened
    ([DirectoryResponse { response: ServerList { serverlist } }]). *)
Record ServerEntry := {
  se_endpoint : string;
  se_kind : option string;
  se_dc : option string;
  se_load : option f32
}.

(** An HTTP answer as [reqwest] reports it: the status code and the body text,
    or a failure while reading the body. *)
Record HttpResponse := {
  hr_status : Z;
  hr_text : result string string
}.
Definition is_success (status : Z) : bool := (200 <=? status) && (status <? 300).

Section discovery.
(** [serde_json::from_str::<DirectoryResponse>]: [Err] is its [Display]. *)
Context (from_json : string → result string (list ServerEntry)).
(** [StatusCode]'s [Display]. *)
Context (status_to_string : Z → string).

Definition keep_entry (e : ServerEntry) : bool :=
  match se_kind e with None => true | Some k => bool_decide (k = "websockets"%string) end.

Definition parse_servers (body : string) : Result (list CmServer) :=
  parsed ← map_err (λ e, Network ("GetCMListForConnect: unparseable response: " +:+ e))
                   (from_json body);
  let servers :=
    (λ e, {| cs_endpoint := se_endpoint e; cs_datacenter := se_dc e;
             cs_load := se_load e |}) <$> List.filter keep_entry parsed in
  match servers with
  | [] => Err (Network "GetCMListForConnect returned no websocket servers")
  | _ => Ok servers
  end.

(** [discover_cm_servers]: [client] is the outcome of [http::client(proxy)] and
    [get] the GET of a URL with a query string. *)
Definition discover_cm_servers (client : Result unit)
    (get : string → list (string * string) → result string HttpResponse) :
    Result (list CmServer) :=
  _ ← client;
  response ← map_err (λ e, Network ("GetCMListForConnect: " +:+ e))
    (get DIRECTORY_URL [("cmtype", "websockets"); ("format", "json"); ("cellid", "0")]%string);
  body ← map_err (λ e, Network ("GetCMListForConnect body: " +:+ e)) (hr_text response);
  if is_success (hr_status response) then parse_servers body
  else Err (Network ("GetCMListForConnect: HTTP " +:+ status_to_string (hr_status response))).
End discovery.

(** Every server handed out came from the directory, in its order, and the list
    is never empty. *)
Lemma parse_servers_ok from_json body servers :
  parse_servers from_json body = Ok servers →
  servers ≠ [] ∧ ∃ entries, from_json body = Ok entries ∧
    cs_endpoint <$> servers = se_endpoint <$> List.filter keep_entry entries.
Proof.
  unfold parse_servers. destruct (from_json body) as [entries|e]; [|done]. simpl.
  destruct (List.filter keep_entry entries) as [|e es] eqn:Hf; [done|]. intros [= <-].
  split; [done|]. exists entries. split; [done|]. rewrite Hf. simpl. f_equal.
  rewrite <-list_fmap_compose. done.
Qed.

Lemma discover_nonempty from_json st client get servers :
  discover_cm_servers from_json st client get = Ok servers → servers ≠ [].
Proof.
  unfold discover_cm_servers. intros H. apply bind_ok in H as (_ & _ & H).
  apply bind_ok in H as (r & _ & H). apply bind_ok in H as (b & _ & H).
  destruct (is_success (hr_status r)); [|done]. by apply parse_servers_ok in H as [? _].
Qed.
