(* ===== verification/Connection.v ===== *)
(** * [src/session/connection.rs]: one CM socket

    The WebSocket ([tokio-tungstenite]) is its two ends: the list of items that
    have arrived and not been read, and the log of frames written.  [Pending]
    is a read that has consumed everything that arrived and would wait.  The
    gzip decoder ([flate2]) is a parameter. *)
From S2P Require Import Prelude Errors Proto Wire Codec Discovery.
#[local] Set Default Goal Selector "!".

(** ** Constants *)
Definition EMSG_MULTI : Z := 1.
Definition EMSG_CLIENT_HEARTBEAT : Z := 703.
Definition EMSG_CLIENT_LOGON : Z := 5514.
Definition EMSG_CLIENT_LOGON_RESPONSE : Z := 751.
Definition EMSG_CLIENT_LOGGED_OFF : Z := 757.
Definition PROTOCOL_VERSION : Z := 65580.
Definition CLIENT_PACKAGE_VERSION : Z := 1771.
Definition CLIENT_OS_WINDOWS_10 : Z := 16.
Definition DEFAULT_HEARTBEAT_SECS : Z := 9.
Definition MAX_MULTI_UNZIPPED : Z := 8 * 1024 * 1024.
Definition MAX_MULTI_DEPTH : Z := 4.
Definition MAX_CONNECT_ATTEMPTS : nat := 5.
Definition LOGON_HEADER_STEAMID : Z := 0x0110000100000000.

(** ** The socket *)
Inductive WsMessage :=
  | WsText (s : string)
  | WsBinary (data : list byte)
  | WsPing (data : list byte)
  | WsPong (data : list byte)
  | WsClose
  | WsFrame.

(** What [read.next()] resolves to: [None] is the end of the stream, an inner
    [Err] a tungstenite error (its [Display] text). *)
Abbreviation WsItem := (option (result string WsMessage)).

Inductive poll (A : Type) := Pending | Ready (a : A).
Arguments Pending {A}.
Arguments Ready {A} a.

(** [Liveness]: the instant of the last inbound frame, in milliseconds. *)
Abbreviation Instant := Z.
Definition touch (now : Instant) : Instant := now.
Definition idle_for (liveness now : Instant) : Z := now - liveness.

(** [LoggedOn]; the heartbeat interval is a [Duration] in milliseconds. *)
Record LoggedOn := {
  ln_steam_id : Z;
  ln_session_id : Z;
  ln_heartbeat_interval : Z
}.
Definition from_secs (s : Z) : Z := 1000 * s.

(** [CmConnection]: [cc_read] / [cc_wire] are the two ends of [ws]. *)
Record CmConnection := {
  cc_read : list WsItem;
  cc_wire : list WsMessage;
  cc_steam_id : Z;
  cc_session_id : Z;
  cc_inbox : list SteamMessage;
  cc_liveness : Instant
}.

(** ** Rejection classes *)
Definition logon_eresult_retryable (code : Z) : bool :=
  bool_decide (code ∈ [eresult.NO_CONNECTION; eresult.BUSY; eresult.TIMEOUT;
                       eresult.SERVICE_UNAVAILABLE; eresult.TRY_ANOTHER_CM;
                       eresult.RATE_LIMIT_EXCEEDED]).

Definition logon_rejection (er : Z) (reason : string) : Error :=
  if logon_eresult_retryable er then LogonRetryable reason else AuthRejected reason.

(** ** Reading frames *)
Fixpoint read_frame (now : Instant) (read : list WsItem) (liveness : Instant) :
    poll (Result (list byte)) * list WsItem * Instant :=
  match read with
  | [] => (Pending, [], liveness)
  | None :: rest => (Ready (Err (WebSocket "connection closed")), rest, liveness)
  | Some (Err e) :: rest => (Ready (Err (WebSocket e)), rest, liveness)
  | Some (Ok ws_msg) :: rest =>
      let liveness := touch now in
      match ws_msg with
      | WsBinary data => (Ready (Ok data), rest, liveness)
      | WsClose => (Ready (Err (WebSocket "server closed the connection")), rest, liveness)
      | WsPing _ | WsPong _ | WsFrame => read_frame now rest liveness
      | WsText _ => (Ready (Err (WebSocket "unexpected text frame from CM")), rest, liveness)
      end
  end.

Section connection.
Context `{Message CMsgProtoBufHeader, Message CMsgMulti, Message CMsgClientLoggedOff,
          Message CMsgClientLogon, Message CMsgClientLogonResponse}.
(** [flate2::read::GzDecoder]: the bytes the stream produces, and the error it
    ends with, if any. *)
Context (GzDecoder : list byte → list byte * option string).

(** ** [Multi] batches *)

(** [read_to_end] over [take(MAX + 1)]: once the limit is reached the decoder is
    not polled again, so a later stream error is never seen. *)
Definition gunzip (data : list byte) (expected_len : Z) : Result (list byte) :=
  let '(produced, stream_err) := GzDecoder data in
  buf ← (if decide (MAX_MULTI_UNZIPPED + 1 ≤ len produced)
         then Ok (take (Z.to_nat (MAX_MULTI_UNZIPPED + 1)) produced)
         else match stream_err with
              | Some e => Err (Codec ("gunzip Multi: " +:+ e))
              | None => Ok produced
              end);
  if decide (MAX_MULTI_UNZIPPED < len buf) then
    Err (Codec ("Multi inflated past " +:+ pretty MAX_MULTI_UNZIPPED +:+ " cap"))
  else Ok buf.

(** The [while cur.len() >= 4] loop; [nested] is the recursive call on an
    embedded [Multi].  [None] is a slice panic or exhausted fuel. *)
Fixpoint split_messages (nested : list byte → panicking (Result (list SteamMessage)))
    (fuel : nat) (cur : list byte) (out : list SteamMessage) :
    panicking (Result (list SteamMessage)) :=
  match fuel with
  | O => None
  | S fuel =>
      if decide (4 ≤ len cur) then
        w ← slice_to cur 4; n ← u32_from_le w;
        cur ← slice_from cur 4;
        if decide (len cur < n) then Some (Err (Codec "truncated message inside Multi"))
        else
          frame ← slice_to cur n;
          sub ← try_decode frame;
          match sub with
          | Err e => Some (Err e)
          | Ok (Some sub) =>
              if decide (sm_emsg sub = EMSG_MULTI) then
                inner ← nested (sm_body sub);
                match inner with
                | Err e => Some (Err e)
                | Ok msgs => cur ← slice_from cur n; split_messages nested fuel cur (out ++ msgs)
                end
              else cur ← slice_from cur n; split_messages nested fuel cur (out ++ [sub])
          | Ok None => cur ← slice_from cur n; split_messages nested fuel cur out
          end
      else Some (Ok out)
  end.

(** The bytes a [Multi] carries, decompressed when [size_unzipped] says so. *)
Definition multi_payload (multi : CMsgMulti) : Result (list byte) :=
  let raw := unwrap_or (mu_message_body multi) [] in
  let size := unwrap_or (mu_size_unzipped multi) 0 in
  if decide (size = 0) then Ok raw
  else if decide (MAX_MULTI_UNZIPPED < size) then
    Err (Codec ("Multi size_unzipped " +:+ pretty size +:+ " over "
                +:+ pretty MAX_MULTI_UNZIPPED +:+ " cap"))
  else gunzip raw size.

(** [decode_multi]; the recursion is on the nesting level, bounded by the depth
    check, so [fuel] levels suffice from depth [6 - fuel]. *)
Fixpoint decode_multi_fuel (fuel : nat) (body : list byte) (depth : Z) :
    panicking (Result (list SteamMessage)) :=
  match fuel with
  | O => None
  | S fuel =>
      if decide (MAX_MULTI_DEPTH < depth) then
        Some (Err (Codec ("Multi nested deeper than " +:+ pretty MAX_MULTI_DEPTH)))
      else
        match map_err (λ e, Codec ("decode Multi: " +:+ e)) (msg_decode body) with
        | Err e => Some (Err e)
        | Ok multi =>
            match multi_payload multi with
            | Err e => Some (Err e)
            | Ok payload =>
                split_messages (λ b, decode_multi_fuel fuel b (depth + 1))
                  (S (length payload)) payload []
            end
        end
  end.
Definition decode_multi (body : list byte) : panicking (Result (list SteamMessage)) :=
  decode_multi_fuel 6 body 0.

(** ** Reading messages *)
Fixpoint read_message_fuel (fuel : nat) (now : Instant) (read : list WsItem)
    (inbox : list SteamMessage) (liveness : Instant) :
    panicking (poll (Result SteamMessage) * list WsItem * list SteamMessage * Instant) :=
  match fuel with
  | O => None
  | S fuel =>
      match inbox with
      | msg :: inbox => Some (Ready (Ok msg), read, inbox, liveness)
      | [] =>
          match read_frame now read liveness with
          | (Pending, read, liveness) => Some (Pending, read, [], liveness)
          | (Ready (Err e), read, liveness) => Some (Ready (Err e), read, [], liveness)
          | (Ready (Ok frame), read, liveness) =>
              decoded ← try_decode frame;
              match decoded with
              | Err e => Some (Ready (Err e), read, [], liveness)
              | Ok (Some msg) =>
                  if decide (sm_emsg msg = EMSG_MULTI) then
                    unpacked ← decode_multi (sm_body msg);
                    match unpacked with
                    | Err e => Some (Ready (Err e), read, [], liveness)
                    | Ok msgs => read_message_fuel fuel now read msgs liveness
                    end
                  else Some (Ready (Ok msg), read, [], liveness)
              | Ok None => read_message_fuel fuel now read [] liveness
              end
          end
      end
  end.
(** Every iteration after the first consumes a frame or returns a buffered
    message, so two more than the arrived items suffice. *)
Definition read_message (now : Instant) (read : list WsItem) (inbox : list SteamMessage)
    (liveness : Instant) :=
  read_message_fuel (S (S (length read))) now read inbox liveness.

(** ** Writing *)

(** The outcome of a socket write: [None], or the tungstenite error text. *)
Definition write_frame (write : list WsMessage) (frame : list byte) (outcome : option string) :
    list WsMessage * Result unit :=
  match outcome with
  | None => (write ++ [WsBinary frame], Ok tt)
  | Some e => (write, Err (WebSocket e))
  end.

Definition write_ping (write : list WsMessage) (outcome : option string) :
    list WsMessage * Result unit :=
  match outcome with
  | None => (write ++ [WsPing []], Ok tt)
  | Some e => (write, Err (WebSocket e))
  end.

(** The routing header every outgoing message carries. *)
Definition session_header (steam_id session_id : Z) (jobid_source : option Z) :
    CMsgProtoBufHeader :=
  {| h_steamid := Some steam_id; h_client_sessionid := Some session_id;
     h_jobid_source := jobid_source; h_jobid_target := None; h_eresult := None;
     h_error_message := None; h_rest := [] |}.

(** ** [CmConnection] *)

(** [CmConnection::connect] after [connect_ws] opened the socket at [now]. *)
Definition connect (now : Instant) (ws : Result (list WsItem)) : Result CmConnection :=
  ws ← ws;
  Ok {| cc_read := ws; cc_wire := []; cc_steam_id := LOGON_HEADER_STEAMID;
        cc_session_id := 0; cc_inbox := []; cc_liveness := now |}.

Definition send {M} `{Message M} (c : CmConnection) (emsg : Z) (body : M)
    (outcome : option string) : CmConnection * Result unit :=
  let header := session_header (cc_steam_id c) (cc_session_id c) None in
  let frame := encode emsg header body in
  let '(wire, r) := write_frame (cc_wire c) frame outcome in
  ({| cc_read := cc_read c; cc_wire := wire; cc_steam_id := cc_steam_id c;
      cc_session_id := cc_session_id c; cc_inbox := cc_inbox c;
      cc_liveness := cc_liveness c |}, r).

Definition recv (now : Instant) (c : CmConnection) :
    panicking (poll (Result SteamMessage) * CmConnection) :=
  '(r, read, inbox, liveness) ← read_message now (cc_read c) (cc_inbox c) (cc_liveness c);
  Some (r, {| cc_read := read; cc_wire := cc_wire c; cc_steam_id := cc_steam_id c;
              cc_session_id := cc_session_id c; cc_inbox := inbox;
              cc_liveness := liveness |}).

(** *** What a connection still holds

    The abstract content of a socket; its length bounds the rounds of [logon]'s loop. *)

(** The messages one binary frame stands for. *)
Definition frame_messages (frame : list byte) : panicking (Result (list SteamMessage)) :=
  r ← try_decode frame;
  match r with
  | Err e => Some (Err e)
  | Ok None => Some (Ok [])
  | Ok (Some msg) =>
      if decide (sm_emsg msg = EMSG_MULTI) then decode_multi (sm_body msg)
      else Some (Ok [msg])
  end.

(** What a socket delivers: every message of every frame that arrived, in order,
    up to the first item that ends the connection, and how it ends ([Pending]:
    nothing more has arrived yet). *)
Fixpoint stream_messages (read : list WsItem) : list SteamMessage * poll Error :=
  match read with
  | [] => ([], Pending)
  | None :: _ => ([], Ready (WebSocket "connection closed"))
  | Some (Err e) :: _ => ([], Ready (WebSocket e))
  | Some (Ok WsClose) :: _ => ([], Ready (WebSocket "server closed the connection"))
  | Some (Ok (WsText _)) :: _ => ([], Ready (WebSocket "unexpected text frame from CM"))
  | Some (Ok (WsBinary data)) :: rest =>
      match frame_messages data with
      | Some (Ok ms) => let '(l, e) := stream_messages rest in (ms ++ l, e)
      | Some (Err e) => ([], Ready e)
      | None => ([], Pending)
      end
  | Some (Ok _) :: rest => stream_messages rest
  end.
Abbreviation stream_msgs read := (stream_messages read).1.
Abbreviation stream_end read := (stream_messages read).2.

(** [logon]. *)
Definition logon_request (account_name refresh_token : string) : CMsgClientLogon :=
  {| lg_protocol_version := Some PROTOCOL_VERSION;
     lg_client_package_version := Some CLIENT_PACKAGE_VERSION;
     lg_client_language := Some "english"%string;
     lg_client_os_type := Some CLIENT_OS_WINDOWS_10;
     lg_should_remember_password := Some true;
     lg_account_name := Some account_name;
     lg_access_token := Some refresh_token;
     lg_supports_rate_limit_response := Some true;
     lg_rest := [] |}.

(** The [match msg.emsg] of the logon loop: [None] ignores the message and keeps
    waiting. *)
Definition logon_on_message (c : CmConnection) (msg : SteamMessage) :
    option (Result LoggedOn * CmConnection) :=
  if decide (sm_emsg msg = EMSG_CLIENT_LOGON_RESPONSE) then
    match map_err (λ e, Codec ("decode logon response: " +:+ e)) (msg_decode (sm_body msg)) with
    | Err e => Some (Err e, c)
    | Ok resp =>
        let er := unwrap_or (lr_eresult resp) eresult.FAIL in
        if decide (er ≠ eresult.OK) then
          Some (Err (logon_rejection er ("CM logon eresult " +:+ pretty er)), c)
        else
          let c := {| cc_read := cc_read c; cc_wire := cc_wire c;
                      cc_steam_id := unwrap_or (h_steamid (sm_header msg)) (cc_steam_id c);
                      cc_session_id :=
                        unwrap_or (h_client_sessionid (sm_header msg)) (cc_session_id c);
                      cc_inbox := cc_inbox c; cc_liveness := cc_liveness c |} in
          let hb := Z.max (unwrap_or (lr_heartbeat_seconds resp) DEFAULT_HEARTBEAT_SECS) 1 in
          Some (Ok {| ln_steam_id := cc_steam_id c; ln_session_id := cc_session_id c;
                      ln_heartbeat_interval := from_secs hb |}, c)
    end
  else if decide (sm_emsg msg = EMSG_CLIENT_LOGGED_OFF) then
    let er := match msg_decode (sm_body msg) with
              | Ok m => unwrap_or (lo_eresult m) eresult.FAIL
              | Err _ => eresult.FAIL
              end in
    Some (Err (logon_rejection er
      ("CM logged us off during logon (eresult " +:+ pretty er +:+ ")")), c)
  else None.

Fixpoint logon_loop (fuel : nat) (now : Instant) (c : CmConnection) :
    panicking (poll (Result LoggedOn) * CmConnection) :=
  match fuel with
  | O => None
  | S fuel =>
      '(r, c) ← recv now c;
      match r with
      | Pending => Some (Pending, c)
      | Ready (Err e) => Some (Ready (Err e), c)
      | Ready (Ok msg) =>
          match logon_on_message c msg with
          | Some (r, c) => Some (Ready r, c)
          | None => logon_loop fuel now c
          end
      end
  end.

(** One round per message the connection still holds, and one for its end. *)
Definition logon (now : Instant) (c : CmConnection)
    (account_name refresh_token : string) (outcome : option string) :
    panicking (poll (Result LoggedOn) * CmConnection) :=
  match send c EMSG_CLIENT_LOGON (logon_request account_name refresh_token) outcome with
  | (c, Err e) => Some (Ready (Err e), c)
  | (c, Ok _) => logon_loop (S (length (cc_inbox c ++ stream_msgs (cc_read c)))) now c
  end.

(** ** [CmConnection::establish] *)

(** What the network does with the [i]-th server attempt: the opened socket and
    everything it will deliver, the outcome of the logon write, and whether the
    attempt timer fires first. *)
Record ServerAttempt := {
  sa_socket : string → Result (list WsItem);
  sa_write : option string;
  sa_timeout : bool
}.

(** One attempt under [timeout(CONNECT_ATTEMPT_TIMEOUT, ...)]: inner [None] is the
    timer, which also ends an attempt whose socket goes quiet. *)
Definition server_attempt (now : Instant) (account_name refresh_token : string)
    (env : ServerAttempt) (server : CmServer) :
    panicking (option (Result (CmConnection * LoggedOn))) :=
  if sa_timeout env then Some None
  else
    match connect now (sa_socket env (ws_url server)) with
    | Err e => Some (Some (Err e))
    | Ok conn =>
        '(r, conn) ← logon now conn account_name refresh_token (sa_write env);
        Some (match r with
              | Pending => None
              | Ready (Err e) => Some (Err e)
              | Ready (Ok logged) => Some (Ok (conn, logged))
              end)
    end.

(** The [for server in ...] loop over the servers to try; [env i] is attempt [i]. *)
Fixpoint establish_loop (now : Instant) (account_name refresh_token : string)
    (env : nat → ServerAttempt) (i : nat) (servers : list CmServer) (last_err : option Error) :
    panicking (Result (CmConnection * LoggedOn)) :=
  match servers with
  | [] => Some (Err (unwrap_or last_err (Network "no CM servers to connect to")))
  | server :: servers =>
      r ← server_attempt now account_name refresh_token (env i) server;
      match r with
      | Some (Ok ok) => Some (Ok ok)
      | Some (Err (AuthRejected s)) => Some (Err (AuthRejected s))
      | Some (Err e) =>
          establish_loop now account_name refresh_token env (S i) servers (Some e)
      | None =>
          establish_loop now account_name refresh_token env (S i) servers
            (Some (Timeout "cm connect attempt"))
      end
  end.

Definition establish (now : Instant) (account_name refresh_token : string)
    (env : nat → ServerAttempt) (discovered : Result (list CmServer)) :
    panicking (Result (CmConnection * LoggedOn)) :=
  match discovered with
  | Err e => Some (Err e)
  | Ok servers =>
      establish_loop now account_name refresh_token env 0 (take MAX_CONNECT_ATTEMPTS servers) None
  end.

(** ** Specifications *)

(** [recv] called until it stops yielding messages. *)
Fixpoint drain (fuel : nat) (now : Instant) (c : CmConnection) :
    panicking (list SteamMessage * poll Error) :=
  match fuel with
  | O => None
  | S fuel =>
      '(r, c) ← recv now c;
      match r with
      | Pending => Some ([], Pending)
      | Ready (Err e) => Some ([], Ready e)
      | Ready (Ok m) => '(l, e) ← drain fuel now c; Some (m :: l, e)
      end
  end.

(** *** Batches as trees: a message, or a [Multi] of batches (compressed when
    [zip]) *)
Inductive Batch :=
  | Leaf (m : SteamMessage)
  | Sub (zip : bool) (bs : list Batch).

Definition frame_of_msg (m : SteamMessage) : list byte :=
  encode_raw (sm_emsg m) (sm_header m) (sm_body m).
Definition pack_frames (frames : list (list byte)) : list byte :=
  concat ((λ f, to_le_bytes 4 (len f) ++ f) <$> frames).
Definition pack_multi (gzip : list byte → list byte) (zip : bool) (payload : list byte) :
    CMsgMulti :=
  if zip then {| mu_size_unzipped := Some (len payload); mu_message_body := Some (gzip payload) |}
  else {| mu_size_unzipped := None; mu_message_body := Some payload |}.

Fixpoint batch_frame (gzip : list byte → list byte) (b : Batch) : list byte :=
  match b with
  | Leaf m => frame_of_msg m
  | Sub zip bs =>
      encode EMSG_MULTI header_default
        (pack_multi gzip zip (pack_frames (batch_frame gzip <$> bs)))
  end.
Fixpoint leaves (b : Batch) : list SteamMessage :=
  match b with
  | Leaf m => [m]
  | Sub _ bs => concat (leaves <$> bs)
  end.
Fixpoint batch_depth (b : Batch) : nat :=
  match b with
  | Leaf _ => 0
  | Sub _ bs => S (max_list (batch_depth <$> bs))
  end.

(** The tree fits the wire format: lengths within [u32], compressed payloads
    non-empty and within the cap. *)
Fixpoint batch_wf (gzip : list byte → list byte) (b : Batch) : Prop :=
  match b with
  | Leaf m => in_u 31 (sm_emsg m) ∧ sm_emsg m ≠ EMSG_MULTI ∧ msg_wf (sm_header m) ∧
              encoded_len (sm_header m) < 2 ^ 32
  | Sub zip bs =>
      encoded_len header_default < 2 ^ 32 ∧
      foldr and True (batch_wf gzip <$> bs) ∧
      Forall (λ b, len (batch_frame gzip b) < 2 ^ 32) bs ∧
      (if zip then 0 < len (pack_frames (batch_frame gzip <$> bs)) ≤ MAX_MULTI_UNZIPPED else True)
  end.

(** ** Splitting a payload *)

(** What one embedded frame contributes. *)
Definition sub_messages (nested : list byte → panicking (Result (list SteamMessage)))
    (frame : list byte) : panicking (Result (list SteamMessage)) :=
  r ← try_decode frame;
  match r with
  | Err e => Some (Err e)
  | Ok None => Some (Ok [])
  | Ok (Some msg) =>
      if decide (sm_emsg msg = EMSG_MULTI) then nested (sm_body msg) else Some (Ok [msg])
  end.

Lemma split_messages_done nested fuel cur out :
  len cur < 4 → split_messages nested (S fuel) cur out = Some (Ok out).
Proof. intros. simpl. by rewrite decide_False by lia. Qed.

(** One iteration of the loop, without the slicing. *)
Lemma split_messages_step nested fuel cur out :
  4 ≤ len cur →
  split_messages nested (S fuel) cur out =
    (if decide (len cur - 4 < word0 cur) then
       Some (Err (Codec "truncated message inside Multi"))
     else
       r ← sub_messages nested (take (Z.to_nat (word0 cur)) (drop 4 cur));
       match r with
       | Err e => Some (Err e)
       | Ok ms => split_messages nested fuel (drop (Z.to_nat (word0 cur)) (drop 4 cur)) (out ++ ms)
       end).
Proof.
  intros Hlen. cbn [split_messages]. rewrite decide_True by done.
  pose proof (word_bound 0 cur) as [Hw0 _]. rewrite drop_0 in Hw0. fold (word0 cur) in Hw0.
  unfold len in Hlen. rewrite slice_to_Some by (unfold len; lia). simpl.
  rewrite u32_from_le_Some by (rewrite length_take; lia). simpl.
  change (from_le_bytes (take (Z.to_nat 4) cur)) with (word0 cur).
  rewrite slice_from_Some by (unfold len; lia). simpl. change (Z.to_nat 4) with 4%nat.
  assert (len (drop 4 cur) = len cur - 4) as Hr by (unfold len; rewrite length_drop; lia).
  rewrite Hr. case_decide; [done|]. rewrite slice_to_Some, slice_from_Some by lia. simpl.
  unfold sub_messages. destruct (try_decode _) as [[[sub|]|]|]; simpl; [..|done].
  - case_decide; [|done]. by destruct (nested _) as [[]|].
  - by rewrite app_nil_r.
  - done.
Qed.

(** Every message in [ms] is an ordinary one. *)
Definition flat (ms : list SteamMessage) : Prop :=
  Forall (λ m, sm_emsg m ≠ EMSG_MULTI ∧ in_u 31 (sm_emsg m)) ms.
Definition clean (r : panicking (Result (list SteamMessage))) : Prop :=
  match r with
  | None => False
  | Some (Err e) => is_codec e = true
  | Some (Ok ms) => flat ms
  end.

Lemma sub_messages_clean nested frame :
  (∀ b, clean (nested b)) → clean (sub_messages nested frame).
Proof.
  intros Hn. unfold sub_messages. destruct (try_decode_total frame) as [r Hr]. rewrite Hr. simpl.
  destruct r as [[m|]|e]; simpl; [|by constructor|by eapply try_decode_err].
  case_decide; [apply Hn|]. constructor; [|done]. split; [done|by eapply try_decode_emsg].
Qed.

Lemma split_messages_clean nested fuel cur out :
  (∀ b, clean (nested b)) → flat out → (length cur < fuel)%nat →
  clean (split_messages nested fuel cur out).
Proof.
  intros Hn. revert cur out. induction fuel as [|fuel IH]; intros cur out Hout Hf; [lia|].
  destruct (decide (4 ≤ len cur)) as [Hlen|]; [|by rewrite split_messages_done by lia].
  rewrite split_messages_step by done. case_decide; [done|].
  pose proof (sub_messages_clean nested (take (Z.to_nat (word0 cur)) (drop 4 cur)) Hn) as Hs.
  destruct (sub_messages _ _) as [[ms|e]|]; simpl in *; [|done..].
  apply IH; [by apply Forall_app|]. rewrite !length_drop. unfold len in Hlen. lia.
Qed.

Lemma gunzip_err data n e : gunzip data n = Err e → is_codec e = true.
Proof.
  unfold gunzip. destruct (GzDecoder data) as [p [er|]]; simpl;
    repeat (case_decide; simpl); by intros [= <-].
Qed.

Lemma multi_payload_err m e : multi_payload m = Err e → is_codec e = true.
Proof. unfold multi_payload. repeat case_decide; [done|by intros [= <-]|apply gunzip_err]. Qed.

Lemma decode_multi_fuel_clean fuel body depth :
  depth ≤ MAX_MULTI_DEPTH + 1 → MAX_MULTI_DEPTH + 2 ≤ depth + Z.of_nat fuel →
  clean (decode_multi_fuel fuel body depth).
Proof.
  revert body depth. induction fuel as [|fuel IH]; intros body depth Hd Hf; [lia|].
  cbn [decode_multi_fuel]. case_decide; [done|].
  destruct (msg_decode body) as [multi|e]; cbn [map_err]; [|done].
  destruct (multi_payload multi) as [payload|e] eqn:Hp; [|by eapply multi_payload_err].
  apply split_messages_clean; [|by constructor|lia]. intros b. apply IH; lia.
Qed.

Lemma decode_multi_clean body : clean (decode_multi body).
Proof. apply decode_multi_fuel_clean; done. Qed.

Lemma frame_messages_clean frame : clean (frame_messages frame).
Proof. apply sub_messages_clean, decode_multi_clean. Qed.

(** ** Round trip of batches *)
Context `{!MessageLaws CMsgProtoBufHeader, !MessageLaws CMsgMulti}.

(** Splitting the packing of [frames] handles the frames one by one. *)
Fixpoint sub_all (nested : list byte → panicking (Result (list SteamMessage)))
    (frames : list (list byte)) (out : list SteamMessage) :
    panicking (Result (list SteamMessage)) :=
  match frames with
  | [] => Some (Ok out)
  | f :: frames =>
      r ← sub_messages nested f;
      match r with
      | Err e => Some (Err e)
      | Ok ms => sub_all nested frames (out ++ ms)
      end
  end.

Lemma word0_app n (rest : list byte) :
  0 ≤ n < 2 ^ 32 → word0 (to_le_bytes 4 n ++ rest) = n.
Proof.
  intros Hn. unfold word0.
  destruct (take_drop_app_eq (to_le_bytes 4 n) rest 4) as [-> _]; [apply length_to_le_bytes|].
  by apply from_to_le_bytes_small.
Qed.

Lemma split_pack_frames nested frames out fuel :
  Forall (λ f, len f < 2 ^ 32) frames → (length (pack_frames frames) < fuel)%nat →
  split_messages nested fuel (pack_frames frames) out = sub_all nested frames out.
Proof.
  intros Hfs. revert out fuel.
  induction Hfs as [|f fs Hlen _ IH]; intros out [|fuel] Hf; try (simpl in *; lia).
  { by apply split_messages_done. }
  change (pack_frames (f :: fs)) with ((to_le_bytes 4 (len f) ++ f) ++ pack_frames fs) in *.
  rewrite <-app_assoc in *. rewrite !length_app, length_to_le_bytes in Hf.
  pose proof (len_nonneg f).
  assert (len (to_le_bytes 4 (len f) ++ f ++ pack_frames fs) = 4 + len f + len (pack_frames fs))
    as Hl by (unfold len; rewrite !length_app, length_to_le_bytes; lia).
  pose proof (len_nonneg (pack_frames fs)).
  rewrite split_messages_step by lia. rewrite word0_app by lia. rewrite Hl.
  rewrite decide_False by lia.
  destruct (take_drop_app_eq (to_le_bytes 4 (len f)) (f ++ pack_frames fs) 4) as [_ ->];
    [apply length_to_le_bytes|].
  destruct (take_drop_app_eq f (pack_frames fs) (Z.to_nat (len f))) as [-> ->];
    [unfold len; lia|].
  cbn [sub_all]. destruct (sub_messages nested f) as [[ms|e]|]; simpl; [|done..].
  apply IH. lia.
Qed.

(** The verdict on a batch at nesting level [depth]. *)
Definition too_deep : Error := Codec ("Multi nested deeper than " +:+ pretty MAX_MULTI_DEPTH).
Definition batch_verdict (depth : Z) (b : Batch) : Result (list SteamMessage) :=
  if decide (depth + Z.of_nat (batch_depth b) ≤ MAX_MULTI_DEPTH + 1) then Ok (leaves b)
  else Err too_deep.


Section Batch_induction.
Context (P : Batch → Prop).
Context (HLeaf : ∀ m, P (Leaf m)) (HSub : ∀ zip bs, Forall P bs → P (Sub zip bs)).
Fixpoint Batch_nested_ind (b : Batch) : P b :=
  match b with
  | Leaf m => HLeaf m
  | Sub zip bs =>
      HSub zip bs ((fix go (bs : list Batch) : Forall P bs := match bs with
                                 | [] => Forall_nil_2 _
                                 | b :: bs => Forall_cons_2 _ _ _ (Batch_nested_ind b) (go bs)
                                 end) bs)
  end.
End Batch_induction.

Context (gzip : list byte → list byte).
(** Decompressing what a gzip encoder wrote gives the data back. *)
Context (gzip_decodes : ∀ data, GzDecoder (gzip data) = (data, None)).

Lemma multi_payload_pack (zip : bool) payload :
  (if zip then 0 < len payload ≤ MAX_MULTI_UNZIPPED else True) →
  multi_payload (pack_multi gzip zip payload) = Ok payload ∧ msg_wf (pack_multi gzip zip payload).
Proof.
  destruct zip; [|done]. intros [Hlo Hhi]. split.
  - unfold multi_payload. cbn [pack_multi mu_size_unzipped mu_message_body unwrap_or].
    rewrite !decide_False by lia. unfold gunzip. rewrite gzip_decodes.
    rewrite decide_False by lia. cbn. by rewrite decide_False by lia.
  - unfold msg_wf, multi_wf. simpl. unfold in_u, MAX_MULTI_UNZIPPED in *. lia.
Qed.

Lemma max_list_cons n ns : max_list (n :: ns) = (n `max` max_list ns)%nat.
Proof. done. Qed.

Lemma sub_all_batches nested d bs out :
  d ≤ MAX_MULTI_DEPTH + 1 →
  Forall (λ b, sub_messages nested (batch_frame gzip b) = Some (batch_verdict d b)) bs →
  sub_all nested (batch_frame gzip <$> bs) out =
    Some (if decide (d + Z.of_nat (max_list (batch_depth <$> bs)) ≤ MAX_MULTI_DEPTH + 1)
          then Ok (out ++ concat (leaves <$> bs)) else Err too_deep).
Proof.
  intros Hd Hbs. revert out. induction Hbs as [|b bs Hb _ IH]; intros out.
  { cbn. rewrite decide_True by lia. by rewrite app_nil_r. }
  rewrite !fmap_cons, max_list_cons. cbn [sub_all concat]. rewrite Hb. unfold batch_verdict.
  cbn [mbind option_bind].
  destruct (decide (d + Z.of_nat (batch_depth b) ≤ MAX_MULTI_DEPTH + 1)).
  - rewrite IH, <-app_assoc.
    destruct (decide (d + Z.of_nat (max_list (batch_depth <$> bs)) ≤ MAX_MULTI_DEPTH + 1)).
    + by rewrite decide_True by lia.
    + by rewrite decide_False by lia.
  - by rewrite decide_False by lia.
Qed.

Lemma batch_wf_Forall bs : foldr and True (batch_wf gzip <$> bs) ↔ Forall (batch_wf gzip) bs.
Proof.
  induction bs as [|b bs [IH1 IH2]]; [by split; constructor|]. split.
  - intros [Hb Hbs]. constructor; [apply Hb|apply IH1, Hbs].
  - intros [Hb Hbs]%Forall_cons_1. split; [apply Hb|apply IH2, Hbs].
Qed.

Lemma sub_messages_batch b : ∀ depth fuel,
  batch_wf gzip b → depth ≤ MAX_MULTI_DEPTH + 1 → MAX_MULTI_DEPTH + 2 ≤ depth + Z.of_nat fuel →
  sub_messages (λ body, decode_multi_fuel fuel body depth) (batch_frame gzip b) =
    Some (batch_verdict depth b).
Proof.
  induction b as [m|zip bs IH] using Batch_nested_ind; intros depth fuel Hwf Hd Hf;
    unfold sub_messages, batch_verdict; cbn [batch_frame batch_depth leaves].
  { destruct Hwf as (He & Hne & Hh & Hl). unfold frame_of_msg.
    rewrite try_decode_encode_raw by done. cbn. rewrite Z.mod_small by done.
    rewrite !decide_False, decide_True by (done || lia). by destruct m. }
  destruct Hwf as (Hhd & Hbs & Hlen & Hzip). rewrite batch_wf_Forall in Hbs.
  rewrite encode_eq, try_decode_encode_raw by done. cbn [mbind option_bind sm_emsg sm_body].
  rewrite decide_True by done. destruct fuel as [|fuel]; [lia|]. cbn [decode_multi_fuel].
  destruct (decide (MAX_MULTI_DEPTH < depth)); [by rewrite decide_False by lia|].
  destruct (multi_payload_pack zip _ Hzip) as [Hp Hm].
  rewrite decode_encode by done. cbn [map_err]. rewrite Hp.
  rewrite split_pack_frames by (first [lia | by apply Forall_fmap]).
  rewrite (sub_all_batches _ (depth + 1)); [|lia|].
  - by f_equal; apply decide_ext; lia.
  - apply Forall_forall. intros b Hb. rewrite Forall_forall in IH, Hbs.
    apply IH; [done|by apply Hbs|lia..].
Qed.

(** C5: A well-formed tree of [Multi] batches, compressed or not, decodes to exactly its
    messages in order when it nests at most [MAX_MULTI_DEPTH] levels below the outer
    batch, and is refused with the depth error otherwise. *)
Theorem multi_round_trip b :
  batch_wf gzip b →
  frame_messages (batch_frame gzip b) =
    Some (if decide (batch_depth b ≤ 5)%nat then Ok (leaves b) else Err too_deep).
Proof.
  intros Hwf. pose proof (sub_messages_batch b 0 6 Hwf) as Hb.
  etransitivity; [by apply Hb|]. unfold batch_verdict. f_equal.
  apply decide_ext. unfold MAX_MULTI_DEPTH. lia.
Qed.


(** No frame from the network makes the unpacking of a [Multi] panic or run
    away: every frame yields messages, none of them a [Multi] themselves, or an
    [Error::Codec]. *)
Theorem frame_messages_total frame :
  (∃ ms, frame_messages frame = Some (Ok ms) ∧ Forall (λ m, sm_emsg m ≠ EMSG_MULTI) ms) ∨
  (∃ s, frame_messages frame = Some (Err (Codec s))).
Proof.
  pose proof (frame_messages_clean frame) as Hc.
  destruct (frame_messages frame) as [[ms|e]|]; simpl in Hc; [left|right|done].
  - exists ms. split; [done|]. eapply Forall_impl; [|apply Hc]. by intros m [? _].
  - destruct e; by eauto.
Qed.

(** ** Reading the stream *)
Lemma stream_messages_read_frame now read lv :
  let '(r, read', _) := read_frame now read lv in
  match r with
  | Pending => stream_messages read = ([], Pending)
  | Ready (Err e) => stream_messages read = ([], Ready e)
  | Ready (Ok data) =>
      stream_messages read = stream_messages (Some (Ok (WsBinary data)) :: read') ∧
      (length read' < length read)%nat
  end.
Proof.
  revert lv. induction read as [|[[m|e]|] read IH]; intros lv; try done.
  destruct m; cbn [read_frame stream_messages length]; try (split; [done|lia]); try done.
  all: specialize (IH (touch now)); destruct (read_frame now read (touch now)) as [[r ?] ?];
    destruct r as [|[]]; try done; destruct IH; split; [done|lia].
Qed.

(** One call of [read_message]: the head of what is buffered or arrives. *)
Lemma read_message_fuel_spec fuel now read inbox lv :
  (S (length read) < fuel)%nat →
  match inbox ++ stream_msgs read with
  | m :: l => ∃ read' inbox' lv',
      read_message_fuel fuel now read inbox lv = Some (Ready (Ok m), read', inbox', lv') ∧
      inbox' ++ stream_msgs read' = l ∧ stream_end read' = stream_end read
  | [] => ∃ read' lv',
      read_message_fuel fuel now read inbox lv =
        Some (match stream_end read with Pending => Pending | Ready e => Ready (Err e) end,
              read', [], lv')
  end.
Proof.
  revert read inbox lv. induction fuel as [|fuel IH]; intros read inbox lv Hf; [lia|].
  destruct inbox as [|m inbox]; simpl; [|by eauto 10].
  pose proof (stream_messages_read_frame now read lv) as Hrf.
  destruct (read_frame now read lv) as [[r read'] lv']. destruct r as [|[data|e]].
  - rewrite Hrf. simpl. eauto.
  - destruct Hrf as [Hs Hlt].
    pose proof (frame_messages_clean data) as Hc. cbn [stream_messages] in Hs.
    unfold frame_messages in Hs, Hc.
    destruct (try_decode data) as [[[msg|]|e]|]; cbn [mbind option_bind] in *; [..|done].
    + case_decide.
      * destruct (decode_multi (sm_body msg)) as [[ms|e]|]; cbn [mbind option_bind] in *; [..|done].
        -- specialize (IH read' ms lv'). destruct (stream_messages read') as [l e].
           rewrite Hs. apply IH. lia.
        -- rewrite Hs. simpl. eauto.
      * destruct (stream_messages read') as [l e] eqn:Hr. rewrite Hs. simpl.
        exists read', [], lv'. by rewrite Hr.
    + specialize (IH read' [] lv'). destruct (stream_messages read') as [l e].
      rewrite Hs. apply IH. lia.
    + rewrite Hs. simpl. eauto.
  - rewrite Hrf. simpl. eauto.
Qed.

Lemma read_message_total now read inbox lv : is_Some (read_message now read inbox lv).
Proof.
  unfold read_message. pose proof (read_message_fuel_spec (S (S (length read))) now read inbox lv) as Hs.
  destruct (inbox ++ stream_msgs read).
  - by destruct Hs as (read' & lv' & ->); [lia|].
  - by destruct Hs as (read' & inbox' & lv' & -> & _); [lia|].
Qed.

Lemma recv_spec now c :
  match cc_inbox c ++ stream_msgs (cc_read c) with
  | m :: l => ∃ c', recv now c = Some (Ready (Ok m), c') ∧
      cc_inbox c' ++ stream_msgs (cc_read c') = l ∧
      stream_end (cc_read c') = stream_end (cc_read c) ∧
      cc_steam_id c' = cc_steam_id c ∧ cc_session_id c' = cc_session_id c
  | [] => ∃ c', recv now c =
      Some (match stream_end (cc_read c) with Pending => Pending | Ready e => Ready (Err e) end, c')
  end.
Proof.
  pose proof (read_message_fuel_spec (S (S (length (cc_read c)))) now (cc_read c) (cc_inbox c)
    (cc_liveness c)) as Hs. unfold recv, read_message.
  destruct (cc_inbox c ++ stream_msgs (cc_read c)).
  - destruct Hs as (read' & lv' & ->); [lia|]. simpl. eauto.
  - destruct Hs as (read' & inbox' & lv' & -> & ? & ?); [lia|]. simpl. eauto 10.
Qed.

(** C8: [recv] is a faithful FIFO: called until the connection ends or goes quiet it
    yields the messages buffered and then those of every frame that arrived, in
    arrival order, none lost, duplicated or reordered, and ends with the error that
    ended the stream; it always gets there. *)
Theorem recv_in_order now c :
  drain (S (length (cc_inbox c ++ stream_msgs (cc_read c)))) now c =
    Some (cc_inbox c ++ stream_msgs (cc_read c), stream_end (cc_read c)).
Proof.
  remember (cc_inbox c ++ stream_msgs (cc_read c)) as l eqn:Hl. revert c Hl.
  induction l as [|m l IH]; intros c Hl; pose proof (recv_spec now c) as Hr;
    rewrite <-Hl in Hr; cbn [drain length].
  - destruct Hr as [c' ->]. simpl. by destruct (stream_end (cc_read c)).
  - destruct Hr as (c' & -> & Hl' & He & _). cbn [mbind option_bind].
    specialize (IH c' (eq_sym Hl')). cbn [drain length] in IH. rewrite IH. simpl. by rewrite He.
Qed.


(** ** Logging on *)
Definition is_logon_answer (m : SteamMessage) : Prop :=
  sm_emsg m = EMSG_CLIENT_LOGON_RESPONSE ∨ sm_emsg m = EMSG_CLIENT_LOGGED_OFF.

Lemma logon_on_message_None c m : logon_on_message c m = None ↔ ¬ is_logon_answer m.
Proof.
  unfold logon_on_message, is_logon_answer. case_decide as H1'; [|case_decide as H2'].
  - split; [|tauto]. destruct (msg_decode _); cbn; [case_decide|]; done.
  - split; [done|tauto].
  - split; [intros _; tauto|done].
Qed.

(** A verdict depends on the connection only through its routing ids. *)
Lemma logon_on_message_ids c c' m :
  cc_steam_id c' = cc_steam_id c → cc_session_id c' = cc_session_id c →
  fst <$> logon_on_message c' m = fst <$> logon_on_message c m.
Proof.
  intros Hs Hn. unfold logon_on_message. rewrite Hs, Hn.
  case_decide; [|by case_decide]. destruct (msg_decode _); cbn; [by case_decide|done].
Qed.

(** The unread part of the connection is untouched by a verdict. *)
Lemma logon_on_message_rest c m r c' :
  logon_on_message c m = Some (r, c') → cc_read c' = cc_read c ∧ cc_inbox c' = cc_inbox c.
Proof.
  unfold logon_on_message. case_decide; [|case_decide; by intros [= <- <-]].
  destruct (msg_decode _); cbn; [case_decide|]; by intros [= <- <-].
Qed.

Lemma logon_loop_answer fuel now c pre m post :
  cc_inbox c ++ stream_msgs (cc_read c) = pre ++ m :: post →
  Forall (λ x, ¬ is_logon_answer x) pre → is_logon_answer m → (length pre < fuel)%nat →
  ∃ r c', logon_loop fuel now c = Some (Ready r, c') ∧
          fst <$> logon_on_message c m = Some r ∧
          cc_inbox c' ++ stream_msgs (cc_read c') = post.
Proof.
  intros Hl Hpre Hm Hf. revert fuel c Hl Hf.
  induction Hpre as [|x pre Hx _ IH]; intros [|fuel] c Hl Hf; cbn [length] in Hf; try lia;
    pose proof (recv_spec now c) as Hr; rewrite Hl in Hr; simpl in Hr;
    destruct Hr as (c1 & Hrecv & Hl1 & _ & Hs & Hn);
    cbn [logon_loop length]; rewrite Hrecv; cbn [mbind option_bind].
  - destruct (logon_on_message c1 m) as [[r c']|] eqn:Ho.
    + destruct (logon_on_message_rest _ _ _ _ Ho) as [Hrd Hib].
      exists r, c'. rewrite Hrd, Hib. split; [done|split; [|done]].
      by rewrite <-(logon_on_message_ids c c1), Ho.
    + by apply logon_on_message_None in Ho.
  - rewrite (proj2 (logon_on_message_None c1 x)) by done.
    destruct (IH fuel c1 Hl1) as (r & c' & Hrun & Hv & Hrest); [lia|].
    exists r, c'. split; [done|split; [|done]].
    by rewrite <-Hv, (logon_on_message_ids c c1).
Qed.

Lemma logon_loop_no_answer now c :
  Forall (λ x, ¬ is_logon_answer x) (cc_inbox c ++ stream_msgs (cc_read c)) →
  ∃ c', logon_loop (S (length (cc_inbox c ++ stream_msgs (cc_read c)))) now c =
    Some (match stream_end (cc_read c) with Pending => Pending | Ready e => Ready (Err e) end, c').
Proof.
  remember (cc_inbox c ++ stream_msgs (cc_read c)) as l eqn:Hl. intros Hall. revert c Hl.
  induction Hall as [|x l Hx _ IH]; intros c Hl; pose proof (recv_spec now c) as Hr;
    rewrite <-Hl in Hr; cbn [logon_loop length].
  - destruct Hr as [c' ->]. cbn [mbind option_bind]. destruct (stream_end _); eauto.
  - destruct Hr as (c' & -> & Hl' & He & _). cbn [mbind option_bind].
    rewrite (proj2 (logon_on_message_None c' x)) by done. rewrite <-He. by apply IH.
Qed.

(** [logon] once its request is written. *)
Lemma logon_sent now c acc tok :
  ∃ c1, logon now c acc tok None =
          logon_loop (S (length (cc_inbox c ++ stream_msgs (cc_read c)))) now c1 ∧
        cc_read c1 = cc_read c ∧ cc_inbox c1 = cc_inbox c ∧
        cc_steam_id c1 = cc_steam_id c ∧ cc_session_id c1 = cc_session_id c.
Proof. unfold logon, send, write_frame. by eexists. Qed.

(** C23: Logging on is decided by the first logon response or logged-off message the
    CM sends: whatever precedes it is skipped, the verdict is the one of that message,
    and everything after it stays on the connection for the session to read. *)
Theorem logon_first_answer now c acc tok pre m post :
  cc_inbox c ++ stream_msgs (cc_read c) = pre ++ m :: post →
  Forall (λ x, ¬ is_logon_answer x) pre → is_logon_answer m →
  ∃ r c', logon now c acc tok None = Some (Ready r, c') ∧
          fst <$> logon_on_message c m = Some r ∧
          cc_inbox c' ++ stream_msgs (cc_read c') = post.
Proof.
  intros Hl Hpre Hm. destruct (logon_sent now c acc tok) as (c1 & -> & Hrd & Hib & Hs & Hn).
  destruct (logon_loop_answer (S (length (cc_inbox c ++ stream_msgs (cc_read c)))) now c1 pre m post)
    as (r & c' & -> & Hv & Hrest); [by rewrite Hib, Hrd|done|done|rewrite Hl, length_app; lia|].
  exists r, c'. split; [done|]. split; [|done]. by rewrite <-Hv, (logon_on_message_ids c c1).
Qed.

(** A logon with no answer in what the socket delivers ends with the stream's own
    error, or keeps waiting when the stream is merely quiet: unrelated traffic never
    logs the account on or rejects it. *)
Theorem logon_no_answer now c acc tok :
  Forall (λ x, ¬ is_logon_answer x) (cc_inbox c ++ stream_msgs (cc_read c)) →
  ∃ c', logon now c acc tok None =
    Some (match stream_end (cc_read c) with Pending => Pending | Ready e => Ready (Err e) end, c').
Proof.
  intros Hall. destruct (logon_sent now c acc tok) as (c1 & -> & Hrd & Hib & _).
  rewrite <-Hrd, <-Hib in Hall |- *. by apply logon_loop_no_answer.
Qed.

(** An accepted logon always yields a heartbeat interval of at least one second,
    and the identity it reports is the one the connection will put on its frames. *)
Theorem logon_accepts c m lo c' :
  logon_on_message c m = Some (Ok lo, c') →
  1000 ≤ ln_heartbeat_interval lo ∧ ln_steam_id lo = cc_steam_id c' ∧
  ln_session_id lo = cc_session_id c' ∧
  ∃ resp, msg_decode (sm_body m) = Ok resp ∧ lr_eresult resp = Some eresult.OK.
Proof.
  unfold logon_on_message. case_decide; [|by case_decide].
  destruct (msg_decode _) as [resp|] eqn:Hd; cbn; [|done]. case_decide as Her; [done|].
  intros [= <- <-]. cbn. split; [unfold from_secs; lia|]. split; [done|]. split; [done|].
  exists resp. split; [done|].
  destruct (lr_eresult resp); simpl in *; [by subst|done].
Qed.

(** The result code the CM answered a logon with. *)
Definition refusal_code (m : SteamMessage) : Z :=
  if decide (sm_emsg m = EMSG_CLIENT_LOGON_RESPONSE)
  then unwrap_or (result_ok (msg_decode (sm_body m)) ≫= lr_eresult) eresult.FAIL
  else unwrap_or (result_ok (msg_decode (sm_body m)) ≫= lo_eresult) eresult.FAIL.

Lemma logon_rejection_class er reason :
  is_auth_rejected (logon_rejection er reason) = negb (logon_eresult_retryable er) ∧
  is_logon_retryable (logon_rejection er reason) = logon_eresult_retryable er.
Proof. unfold logon_rejection. by destruct (logon_eresult_retryable er). Qed.

(** The CM's refusals are sorted exactly by the code it sent: one of the six
    transient codes is [LogonRetryable], any other is [AuthRejected], and the only
    other failure is a response that does not parse ([Codec]); a refused logon leaves
    the connection as it was. *)
Theorem logon_refusals c m e c' :
  logon_on_message c m = Some (Err e, c') →
  c' = c ∧
  (is_codec e = true ∨
   is_auth_rejected e = negb (logon_eresult_retryable (refusal_code m)) ∧
   is_logon_retryable e = logon_eresult_retryable (refusal_code m)).
Proof.
  unfold logon_on_message, refusal_code. case_decide.
  - destruct (msg_decode _) as [resp|] eqn:Hd; cbn; [case_decide|]; try done; intros [= <- <-];
      (split; [done|]); [right|by left]. apply logon_rejection_class.
  - case_decide; [|done]. intros [= <- <-]. split; [done|]. right.
    destruct (msg_decode _); cbn; apply logon_rejection_class.
Qed.

(** ** Establishing *)

(** An attempt that ends the server loop: a logon, or a definitive refusal. *)
Definition decisive (r : option (Result (CmConnection * LoggedOn))) :
    option (Result (CmConnection * LoggedOn)) :=
  match r with
  | Some (Ok ok) => Some (Ok ok)
  | Some (Err (AuthRejected s)) => Some (Err (AuthRejected s))
  | _ => None
  end.
(** The error an indecisive attempt leaves behind. *)
Definition attempt_error (r : option (Result (CmConnection * LoggedOn))) : Error :=
  match r with
  | Some (Err e) => e
  | _ => Timeout "cm connect attempt"
  end.

Lemma establish_loop_retry now acc tok env i server servers last r :
  server_attempt now acc tok (env i) server = Some r → decisive r = None →
  establish_loop now acc tok env i (server :: servers) last =
    establish_loop now acc tok env (S i) servers (Some (attempt_error r)) ∧
  is_auth_rejected (attempt_error r) = false.
Proof.
  intros Hr Hd. cbn [establish_loop]. rewrite Hr. cbn [mbind option_bind].
  destruct r as [[|[]]|]; done.
Qed.

Lemma establish_loop_stop now acc tok env i server servers last r v :
  server_attempt now acc tok (env i) server = Some r → decisive r = Some v →
  establish_loop now acc tok env i (server :: servers) last = Some v.
Proof.
  intros Hr Hd. cbn [establish_loop]. rewrite Hr. cbn [mbind option_bind].
  by destruct r as [[|[]]|]; simplify_eq/=.
Qed.

(** The attempt on the server at position [i] returned without a verdict. *)
Definition tried_in_vain now acc tok env (i : nat) (server : CmServer) : Prop :=
  ∃ r, server_attempt now acc tok (env i) server = Some r ∧ decisive r = None.

Lemma establish_loop_skip now acc tok env pre servers i last :
  (∀ j server, pre !! j = Some server → tried_in_vain now acc tok env (i + j) server) →
  (∀ e, last = Some e → is_auth_rejected e = false) →
  ∃ last', establish_loop now acc tok env i (pre ++ servers) last =
             establish_loop now acc tok env (i + length pre) servers last' ∧
           (∀ e, last' = Some e → is_auth_rejected e = false).
Proof.
  revert i last. induction pre as [|s pre IH]; intros i last Hpre Hlast.
  { exists last. by rewrite Nat.add_0_r. }
  destruct (Hpre 0%nat s eq_refl) as (r & Hr & Hd). rewrite Nat.add_0_r in Hr. cbn [app].
  destruct (establish_loop_retry now acc tok env i s (pre ++ servers) last r Hr Hd) as [-> He].
  destruct (IH (S i) (Some (attempt_error r))) as (last' & Heq & Hl').
  - intros j server Hj. replace (S i + j)%nat with (i + S j)%nat by lia. by apply Hpre.
  - by intros e [= <-].
  - exists last'. split; [|done]. simpl length. by rewrite Heq, Nat.add_succ_r.
Qed.

(** Every list of messages has a first logon answer or none. *)
Lemma first_answer_cases l :
  Forall (λ x, ¬ is_logon_answer x) l ∨
  ∃ pre m post, l = pre ++ m :: post ∧ Forall (λ x, ¬ is_logon_answer x) pre ∧ is_logon_answer m.
Proof.
  induction l as [|x l IH]; [by left|].
  destruct (decide (is_logon_answer x)); [right; exists [], x, l; auto|].
  destruct IH as [?|(pre & m & post & -> & ? & ?)]; [left; by constructor|].
  right. exists (x :: pre), m, post. auto.
Qed.

Lemma logon_total now c acc tok outcome : is_Some (logon now c acc tok outcome).
Proof.
  destruct outcome as [e|]; [done|].
  destruct (logon_sent now c acc tok) as (c1 & -> & Hrd & Hib & _). rewrite <-Hrd, <-Hib.
  destruct (first_answer_cases (cc_inbox c1 ++ stream_msgs (cc_read c1)))
    as [Hn|(pre & m & post & Hl & Hpre & Hm)].
  - by destruct (logon_loop_no_answer now c1 Hn) as (c' & ->).
  - destruct (logon_loop_answer (S (length (cc_inbox c1 ++ stream_msgs (cc_read c1)))) now c1 pre m post)
      as (r & c' & -> & _); [done..|rewrite Hl, length_app; lia|done].
Qed.

Lemma server_attempt_total now acc tok env server : is_Some (server_attempt now acc tok env server).
Proof.
  unfold server_attempt. destruct (sa_timeout env); [done|]. destruct (connect _ _) as [c|]; [|done].
  by destruct (logon_total now c acc tok (sa_write env)) as [[r c'] ->].
Qed.

Lemma establish_total now acc tok env discovered : is_Some (establish now acc tok env discovered).
Proof.
  destruct discovered as [servers|e]; [|done]. unfold establish.
  generalize (take MAX_CONNECT_ATTEMPTS servers), 0%nat, (None : option Error).
  intros l. induction l as [|s l IH]; intros i last; cbn [establish_loop]; [done|].
  destruct (server_attempt_total now acc tok (env i) s) as [r ->]. cbn [mbind option_bind].
  destruct r as [[ok|[]]|]; try apply IH; done.
Qed.

(** Either every attempt is in vain or one of them is the first decisive one. *)
Lemma attempts_split now acc tok env l i :
  (∀ j s, l !! j = Some s → tried_in_vain now acc tok env (i + j) s) ∨
  ∃ pre server post r v, l = pre ++ server :: post ∧
    (∀ j s, pre !! j = Some s → tried_in_vain now acc tok env (i + j) s) ∧
    server_attempt now acc tok (env (i + length pre)%nat) server = Some r ∧ decisive r = Some v.
Proof.
  revert i. induction l as [|s l IH]; intros i; [by left|].
  destruct (server_attempt_total now acc tok (env i) s) as [r Hr].
  destruct (decisive r) as [v|] eqn:Hd.
  { right. exists [], s, l, r, v. rewrite Nat.add_0_r. by split_and!. }
  assert (∀ l', (∀ j s', l' !! j = Some s' → tried_in_vain now acc tok env (S i + j) s') →
    ∀ j s', (s :: l') !! j = Some s' → tried_in_vain now acc tok env (i + j) s') as Hcons.
  { intros l' Hl' [|j] s' Hs; cbn in Hs; [simplify_eq; rewrite Nat.add_0_r; by exists r|].
    replace (i + S j)%nat with (S i + j)%nat by lia. by apply Hl'. }
  destruct (IH (S i)) as [Hall|(pre & server & post & r' & v & -> & Hpre & Hr' & Hv)].
  - left. by apply Hcons.
  - right. exists (s :: pre), server, post, r', v. split_and!; [done|by apply Hcons| |done].
    cbn [length]. by replace (i + S (length pre))%nat with (S i + length pre)%nat by lia.
Qed.

(** [establish] always comes to an answer: that of its first decisive attempt
    among the first five servers of the list (a logon, or a definitive rejection, which
    stops it from presenting the token to any further server), or, when none is
    decisive, an error that is never [AuthRejected], so the caller may retry. *)
Theorem establish_first_decisive now acc tok env servers :
  ∃ v, establish now acc tok env (Ok servers) = Some v ∧
    ((∃ pre server post r, take MAX_CONNECT_ATTEMPTS servers = pre ++ server :: post ∧
        (∀ j s, pre !! j = Some s → tried_in_vain now acc tok env j s) ∧
        server_attempt now acc tok (env (length pre)) server = Some r ∧ decisive r = Some v) ∨
     ((∀ j s, take MAX_CONNECT_ATTEMPTS servers !! j = Some s → tried_in_vain now acc tok env j s) ∧
      ∃ e, v = Err e ∧ is_auth_rejected e = false)).
Proof.
  destruct (attempts_split now acc tok env (take MAX_CONNECT_ATTEMPTS servers) 0)
    as [Hall|(pre & server & post & r & v & Ht & Hpre & Hr & Hv)].
  - destruct (establish_loop_skip now acc tok env _ [] 0 None Hall) as (last' & Heq & Hl); [done|].
    rewrite app_nil_r in Heq. unfold establish. rewrite Heq. eexists. split; [done|]. right.
    split; [done|]. destruct last' as [e|]; cbn; eauto.
  - exists v. split; [|left; by exists pre, server, post, r]. unfold establish. rewrite Ht.
    destruct (establish_loop_skip now acc tok env pre (server :: post) 0 None Hpre)
      as (last' & -> & _); [done|]. by eapply establish_loop_stop.
Qed.

End connection.

(** ** Concrete runs *)
Section witnesses.
Import Wire.Instances.
#[local] Existing Instances header_message_laws multi_message_laws.

Definition stored (data : list byte) : list byte * option string := (data, None).
Definition sample_msg (emsg : Z) : SteamMessage :=
  {| sm_emsg := emsg; sm_header := sample_header; sm_body := [x01; x02] |}.
Definition sample_batch : Batch :=
  Sub true [Leaf (sample_msg 7); Sub false [Leaf (sample_msg 8)]; Leaf (sample_msg 9)].
Definition sample_response (eresult : Z) : SteamMessage :=
  {| sm_emsg := EMSG_CLIENT_LOGON_RESPONSE; sm_header := sample_header;
     sm_body := encode_to_vec {| lr_eresult := Some eresult; lr_heartbeat_seconds := Some 0;
                                 lr_rest := [] |} |}.
Definition sample_conn (msgs : list SteamMessage) : CmConnection :=
  {| cc_read := (λ m, Some (Ok (WsBinary (frame_of_msg m)))) <$> msgs; cc_wire := [];
     cc_steam_id := LOGON_HEADER_STEAMID; cc_session_id := 0; cc_inbox := [];
     cc_liveness := 0 |}.

Lemma multi_round_trip_witness :
  frame_messages stored (batch_frame id sample_batch) =
    Some (Ok [sample_msg 7; sample_msg 8; sample_msg 9]).
Proof.
  rewrite (multi_round_trip stored id); [by vm_compute|done|].
  cbn [batch_wf sample_batch fmap list_fmap foldr].
  repeat split; repeat constructor; try (by vm_compute); unfold MAX_MULTI_UNZIPPED; try lia.
Defined.

Lemma logon_first_answer_witness :
  ∃ r c', logon stored 0 (sample_conn [sample_msg 7; sample_response 1; sample_msg 8])
            "bot" "token" None = Some (Ready r, c') ∧
          fst <$> logon_on_message (sample_conn [sample_msg 7; sample_response 1; sample_msg 8])
                    (sample_response 1) = Some r ∧
          cc_inbox c' ++ (stream_messages stored (cc_read c')).1 = [sample_msg 8].
Proof.
  apply (logon_first_answer stored 0 _ _ _ [sample_msg 7]).
  - by vm_compute.
  - constructor; [|constructor]. intros [Hc|Hc]; by vm_compute in Hc.
  - by left.
Defined.

Lemma logon_no_answer_witness :
  ∃ c', logon stored 0 (sample_conn [sample_msg 7; sample_msg 8]) "bot" "token" None =
          Some (Pending, c').
Proof.
  refine (logon_no_answer stored 0 (sample_conn [sample_msg 7; sample_msg 8]) _ _ _).
  vm_compute (cc_inbox _ ++ _). repeat constructor; intros [Hc|Hc]; by vm_compute in Hc.
Defined.

Definition logged_on_sample : LoggedOn :=
  {| ln_steam_id := 76561198000000000; ln_session_id := 42; ln_heartbeat_interval := 1000 |}.
Definition sample_conn_on : CmConnection :=
  {| cc_read := []; cc_wire := []; cc_steam_id := 76561198000000000; cc_session_id := 42;
     cc_inbox := []; cc_liveness := 0 |}.

Lemma logon_accepts_witness : 1000 ≤ ln_heartbeat_interval logged_on_sample.
Proof.
  apply (logon_accepts (sample_conn []) (sample_response 1) logged_on_sample sample_conn_on).
  by vm_compute.
Defined.

Lemma logon_refusals_witness :
  ∃ e, logon_on_message (sample_conn []) (sample_response 5) = Some (Err e, sample_conn []) ∧
       is_auth_rejected e = true.
Proof.
  eexists. split; [by vm_compute|].
  destruct (logon_refusals (sample_conn []) (sample_response 5)
    (AuthRejected "CM logon eresult 5") (sample_conn [])) as [_ [Hc|[Ha _]]].
  - by vm_compute.
  - by vm_compute in Hc.
  - by vm_compute in Ha.
Defined.

Definition sample_server : CmServer :=
  {| cs_endpoint := "cm1.example:443"; cs_datacenter := None; cs_load := None |}.
(** Attempt 0 meets a busy server, every later one a definitive refusal. *)
Definition sample_env (i : nat) : ServerAttempt :=
  {| sa_socket := λ _, Ok [Some (Ok (WsBinary (frame_of_msg
       (sample_response (if decide (i = 0%nat) then 10 else 5)))))];
     sa_write := None; sa_timeout := false |}.

(** The second server decides. *)
Lemma establish_run :
  establish stored 0 "bot" "token" sample_env (Ok (repeat sample_server 9)) =
    Some (Err (AuthRejected "CM logon eresult 5")).
Proof. by vm_compute. Qed.
End witnesses.
