(* ===== verification/Driver.v ===== *)
(** * [src/session/driver.rs] and [src/session/state.rs]: the session driver

    The background task that owns a CM socket, correlates requests by job id and
    reconnects.  Oneshot channels live in a store of slots shared by the driver
    and its callers; the [select!] loops become events whose guards are the
    conditions under which the arm is ready, so every interleaving the scheduler
    may choose is a sequence of events. *)
From S2P Require Import Prelude Errors RustStr Proxy Proto Wire Codec Discovery Connection.
#[local] Set Default Goal Selector "!".

(** ** Constants *)
Definition COMMAND_CAPACITY : nat := 64.
Definition EVENT_CAPACITY : nat := 256.
Definition INITIAL_BACKOFF : Z := from_secs 1.
Definition MAX_BACKOFF : Z := from_secs 60.
Definition INITIAL_CONNECT_ATTEMPTS : nat := 4.
Definition EMSG_CLIENT_LOGOFF : Z := 706.
Definition DEFAULT_REQUEST_TIMEOUT : Z := from_secs 30.
Definition PENDING_SWEEP_INTERVAL : Z := from_secs 1.
Definition IDLE_PROBE_MISSES : Z := 6.
Definition MIN_IDLE_TIMEOUT : Z := from_secs 60.
Definition CLOSE_TIMEOUT : Z := from_secs 5.
Definition POST_LOGIN_SNAPSHOT_EMSGS : list Z := [767; 5553; 5587].

(** ** [SessionState] *)
Inductive SessionState :=
  | Disconnected
  | Connecting
  | Authenticating
  | StLoggedOn (steam_id : Z)
  | StLoggedOff (reason : string)
  | Failed (error : string).

#[export] Instance SessionState_eq_dec : EqDecision SessionState.
Proof. solve_decision. Defined.

Definition is_ready (s : SessionState) : bool :=
  match s with StLoggedOn _ => true | _ => false end.
Definition label (s : SessionState) : string :=
  match s with
  | Disconnected => "disconnected"
  | Authenticating => "authenticating"
  | Connecting => "connecting"
  | StLoggedOn _ => "logged_on"
  | StLoggedOff _ => "logged_off"
  | Failed _ => "failed"
  end.

(** ** Oneshot channels

    A slot is a channel as its two ends left it: no value yet, the receiver
    dropped first, a value sent, or the sender dropped without sending. *)
Inductive Answer :=
  | ARequest (r : Result SteamMessage)
  | ANotify (r : Result unit)
  | ALogoff.
Inductive Slot :=
  | SlotOpen
  | SlotClosed
  | SlotFull (v : Answer)
  | SlotDropped.
Abbreviation Slots := (gmap nat Slot).

#[export] Instance Slot_open_dec (o : option Slot) : Decision (o = Some SlotOpen).
Proof. destruct o as [[]|]; (left; done) || (right; done). Defined.

(** [Sender::send] (its result is ignored everywhere), dropping a sender, and
    [Sender::is_closed]. *)
Definition oneshot_send (slots : Slots) (s : nat) (v : Answer) : Slots :=
  if decide (slots !! s = Some SlotOpen) then <[s := SlotFull v]> slots else slots.
Definition oneshot_drop (slots : Slots) (s : nat) : Slots :=
  if decide (slots !! s = Some SlotOpen) then <[s := SlotDropped]> slots else slots.
Definition is_closed (slots : Slots) (s : nat) : bool :=
  match slots !! s with Some SlotClosed => true | _ => false end.

(** ** Data *)
Record SessionConfig := {
  sc_account_name : string;
  sc_refresh_token : string;
  sc_proxy : option ProxyConfig
}.

Inductive Command :=
  | Request (emsg : Z) (body : list byte) (deadline : Instant) (reply : nat)
  | Notify (emsg : Z) (body : list byte) (ack : nat)
  | Logoff (ack : nat).
Definition command_slot (c : Command) : nat :=
  match c with Request _ _ _ s | Notify _ _ s | Logoff s => s end.

Record PendingEntry := {
  p_reply : nat;
  p_deadline : Instant
}.

Inductive LoopExit :=
  | Shutdown
  | LoggedOffExit (reason : string)
  | DisconnectedExit.

Record SessionDriver := {
  sd_write : list WsMessage;
  sd_read : list WsItem;
  sd_inbox : list SteamMessage;
  sd_liveness : Instant;
  sd_steam_id : Z;
  sd_session_id : Z;
  sd_heartbeat : Z;
  sd_next_jobid : Z;
  sd_pending : gmap Z PendingEntry;
  sd_commands : list Command;
  sd_events : list SteamMessage;
  sd_state : SessionState;
  sd_snapshots : gmap Z (list byte);
  sd_slots : Slots;
  sd_config : SessionConfig
}.

(** Field updates. *)
Definition set_write (d : SessionDriver) x : SessionDriver :=
  {| sd_write := x; sd_read := sd_read d; sd_inbox := sd_inbox d; sd_liveness := sd_liveness d;
     sd_steam_id := sd_steam_id d; sd_session_id := sd_session_id d; sd_heartbeat := sd_heartbeat
     d; sd_next_jobid := sd_next_jobid d; sd_pending := sd_pending d; sd_commands := sd_commands
     d; sd_events := sd_events d; sd_state := sd_state d; sd_snapshots := sd_snapshots d;
     sd_slots := sd_slots d; sd_config := sd_config d |}.
Definition set_reader (d : SessionDriver) read inbox liveness : SessionDriver :=
  {| sd_write := sd_write d; sd_read := read; sd_inbox := inbox; sd_liveness := liveness;
     sd_steam_id := sd_steam_id d; sd_session_id := sd_session_id d; sd_heartbeat := sd_heartbeat
     d; sd_next_jobid := sd_next_jobid d; sd_pending := sd_pending d; sd_commands := sd_commands
     d; sd_events := sd_events d; sd_state := sd_state d; sd_snapshots := sd_snapshots d;
     sd_slots := sd_slots d; sd_config := sd_config d |}.
Definition set_next_jobid (d : SessionDriver) x : SessionDriver :=
  {| sd_write := sd_write d; sd_read := sd_read d; sd_inbox := sd_inbox d; sd_liveness :=
     sd_liveness d; sd_steam_id := sd_steam_id d; sd_session_id := sd_session_id d; sd_heartbeat
     := sd_heartbeat d; sd_next_jobid := x; sd_pending := sd_pending d; sd_commands :=
     sd_commands d; sd_events := sd_events d; sd_state := sd_state d; sd_snapshots :=
     sd_snapshots d; sd_slots := sd_slots d; sd_config := sd_config d |}.
Definition set_pending (d : SessionDriver) x : SessionDriver :=
  {| sd_write := sd_write d; sd_read := sd_read d; sd_inbox := sd_inbox d; sd_liveness :=
     sd_liveness d; sd_steam_id := sd_steam_id d; sd_session_id := sd_session_id d; sd_heartbeat
     := sd_heartbeat d; sd_next_jobid := sd_next_jobid d; sd_pending := x; sd_commands :=
     sd_commands d; sd_events := sd_events d; sd_state := sd_state d; sd_snapshots :=
     sd_snapshots d; sd_slots := sd_slots d; sd_config := sd_config d |}.
Definition set_commands (d : SessionDriver) x : SessionDriver :=
  {| sd_write := sd_write d; sd_read := sd_read d; sd_inbox := sd_inbox d; sd_liveness :=
     sd_liveness d; sd_steam_id := sd_steam_id d; sd_session_id := sd_session_id d; sd_heartbeat
     := sd_heartbeat d; sd_next_jobid := sd_next_jobid d; sd_pending := sd_pending d; sd_commands
     := x; sd_events := sd_events d; sd_state := sd_state d; sd_snapshots := sd_snapshots d;
     sd_slots := sd_slots d; sd_config := sd_config d |}.
Definition set_state (d : SessionDriver) x : SessionDriver :=
  {| sd_write := sd_write d; sd_read := sd_read d; sd_inbox := sd_inbox d; sd_liveness :=
     sd_liveness d; sd_steam_id := sd_steam_id d; sd_session_id := sd_session_id d; sd_heartbeat
     := sd_heartbeat d; sd_next_jobid := sd_next_jobid d; sd_pending := sd_pending d; sd_commands
     := sd_commands d; sd_events := sd_events d; sd_state := x; sd_snapshots := sd_snapshots d;
     sd_slots := sd_slots d; sd_config := sd_config d |}.
Definition set_snapshots (d : SessionDriver) x : SessionDriver :=
  {| sd_write := sd_write d; sd_read := sd_read d; sd_inbox := sd_inbox d; sd_liveness :=
     sd_liveness d; sd_steam_id := sd_steam_id d; sd_session_id := sd_session_id d; sd_heartbeat
     := sd_heartbeat d; sd_next_jobid := sd_next_jobid d; sd_pending := sd_pending d; sd_commands
     := sd_commands d; sd_events := sd_events d; sd_state := sd_state d; sd_snapshots := x;
     sd_slots := sd_slots d; sd_config := sd_config d |}.
Definition set_slots (d : SessionDriver) x : SessionDriver :=
  {| sd_write := sd_write d; sd_read := sd_read d; sd_inbox := sd_inbox d; sd_liveness :=
     sd_liveness d; sd_steam_id := sd_steam_id d; sd_session_id := sd_session_id d; sd_heartbeat
     := sd_heartbeat d; sd_next_jobid := sd_next_jobid d; sd_pending := sd_pending d; sd_commands
     := sd_commands d; sd_events := sd_events d; sd_state := sd_state d; sd_snapshots :=
     sd_snapshots d; sd_slots := x; sd_config := sd_config d |}.
(** The shared maps [dispatch] borrows together. *)
Definition set_routes (d : SessionDriver) pending events snapshots slots : SessionDriver :=
  {| sd_write := sd_write d; sd_read := sd_read d; sd_inbox := sd_inbox d; sd_liveness :=
     sd_liveness d; sd_steam_id := sd_steam_id d; sd_session_id := sd_session_id d; sd_heartbeat
     := sd_heartbeat d; sd_next_jobid := sd_next_jobid d; sd_pending := pending; sd_commands :=
     sd_commands d; sd_events := events; sd_state := sd_state d; sd_snapshots := snapshots;
     sd_slots := slots; sd_config := sd_config d |}.

(** ** The driver's helper functions *)
Definition idle_timeout (heartbeat : Z) : Z :=
  Z.max (heartbeat * IDLE_PROBE_MISSES) MIN_IDLE_TIMEOUT.
Definition read_idle_expired (now liveness heartbeat : Z) : bool :=
  idle_timeout heartbeat <=? idle_for liveness now.

Definition check_reply_eresult (msg : SteamMessage) : Result unit :=
  match h_eresult (sm_header msg) with
  | Some er =>
      if decide (er ≠ eresult.OK) then
        Err (Remote (match h_error_message (sm_header msg) with
                     | Some text =>
                         if decide (text ≠ ""%string) then
                           "emsg " +:+ pretty (sm_emsg msg) +:+ ": eresult " +:+ pretty er
                           +:+ ": " +:+ text
                         else "emsg " +:+ pretty (sm_emsg msg) +:+ ": eresult " +:+ pretty er
                     | None => "emsg " +:+ pretty (sm_emsg msg) +:+ ": eresult " +:+ pretty er
                     end))
      else Ok tt
  | None => Ok tt
  end.

(** [fail_all_pending]: drains [pending], so it returns the slots only. *)
Definition fail_all_pending (pending : gmap Z PendingEntry) (slots : Slots) (reason : string) :
    Slots :=
  map_fold (λ _ entry slots, oneshot_send slots (p_reply entry) (ARequest (Err (WebSocket reason))))
    slots pending.

(** [sweep_pending]: an entry whose receiver is gone is dropped, an expired one is
    answered with a timeout.  The verdicts are taken on the slots as they were;
    HashOrder.v shows that visiting the entries one by one comes to the same. *)
Definition sweep_keeps (now : Instant) (slots : Slots) (entry : PendingEntry) : bool :=
  negb (is_closed slots (p_reply entry)) && negb (p_deadline entry <=? now).
Definition sweep_slot (now : Instant) (entry : PendingEntry) (slots : Slots) : Slots :=
  if is_closed slots (p_reply entry) then slots
  else if p_deadline entry <=? now
  then oneshot_send slots (p_reply entry) (ARequest (Err (Timeout "steam request")))
  else slots.
Definition sweep_pending (now : Instant) (pending : gmap Z PendingEntry) (slots : Slots) :
    gmap Z PendingEntry * Slots :=
  (filter (λ je, sweep_keeps now slots je.2 = true) pending,
   map_fold (λ _ entry slots, sweep_slot now entry slots) slots pending).

(** [answer_while_down]: [true] when the driver must stop. *)
Definition answer_while_down (slots : Slots) (command : option Command) : Slots * bool :=
  match command with
  | None => (slots, true)
  | Some (Logoff ack) => (oneshot_send slots ack ALogoff, true)
  | Some (Request _ _ _ reply) =>
      (oneshot_send slots reply (ARequest (Err (WebSocket "session reconnecting"))), false)
  | Some (Notify _ _ ack) =>
      (oneshot_send slots ack (ANotify (Err (WebSocket "session reconnecting"))), false)
  end.

(** [dispatch]: to the waiting request, or to the snapshot cache and the
    subscribers. *)
Definition reply_target (msg : SteamMessage) : option Z :=
  opt_filter (λ j, negb (j =? 0) && negb (j =? u64_max)) (h_jobid_target (sm_header msg)).
Definition cache_snapshot (snapshots : gmap Z (list byte)) (msg : SteamMessage) :
    gmap Z (list byte) :=
  if bool_decide (sm_emsg msg ∈ POST_LOGIN_SNAPSHOT_EMSGS) then
    match snapshots !! sm_emsg msg with
    | Some _ => snapshots
    | None => <[sm_emsg msg := sm_body msg]> snapshots
    end
  else snapshots.
Definition dispatch (d : SessionDriver) (msg : SteamMessage) : SessionDriver :=
  match (jobid ← reply_target msg; entry ← sd_pending d !! jobid; Some (jobid, entry)) with
  | Some (jobid, entry) =>
      set_routes d (delete jobid (sd_pending d)) (sd_events d) (sd_snapshots d)
        (oneshot_send (sd_slots d) (p_reply entry) (ARequest (Ok msg)))
  | None =>
      set_routes d (sd_pending d) (sd_events d ++ [msg]) (cache_snapshot (sd_snapshots d) msg)
        (sd_slots d)
  end.

Section driver.
Context `{Message CMsgProtoBufHeader, Message CMsgMulti, Message CMsgClientLoggedOff,
          Message CMsgClientLogon, Message CMsgClientLogonResponse}.
Context (GzDecoder : list byte → list byte * option string).

Definition classify_logoff (msg : SteamMessage) : LoopExit :=
  match msg_decode (sm_body msg) with
  | Err _ => LoggedOffExit "logged off by Steam (undecodable body)"
  | Ok decoded =>
      let code := unwrap_or (lo_eresult decoded) eresult.FAIL in
      if bool_decide (code ∈ [eresult.NO_CONNECTION; eresult.SERVICE_UNAVAILABLE;
                              eresult.TRY_ANOTHER_CM])
      then DisconnectedExit
      else LoggedOffExit ("logged off by Steam (eresult " +:+ pretty code +:+ ")")
  end.

(** [send_frame] on the driver's own write half; [outcome] is the socket's. *)
Definition send_frame (d : SessionDriver) (emsg : Z) (jobid_source : option Z)
    (body : list byte) (outcome : option string) : SessionDriver * Result unit :=
  let header := session_header (sd_steam_id d) (sd_session_id d) jobid_source in
  let '(write, r) := write_frame (sd_write d) (encode_raw emsg header body) outcome in
  (set_write d write, r).

(** ** The arms of [run_connected]

    Each returns the driver and [Some exit] when the arm returns from the loop. *)

(** [command = self.commands.recv()], the command already taken off the queue. *)
Definition on_command (d : SessionDriver) (command : option Command) (outcome : option string) :
    SessionDriver * option LoopExit :=
  match command with
  | None => (d, Some Shutdown)
  | Some (Notify emsg body ack) =>
      let '(d, sent) := send_frame d emsg None body outcome in
      let failed := negb (is_ok sent) in
      let d := set_slots d (oneshot_send (sd_slots d) ack (ANotify sent)) in
      (d, if failed then Some DisconnectedExit else None)
  | Some (Logoff ack) =>
      let '(d, _) := send_frame d EMSG_CLIENT_LOGOFF None [] outcome in
      (set_slots d (oneshot_send (sd_slots d) ack ALogoff), Some Shutdown)
  | Some (Request emsg body deadline reply) =>
      let jobid := sd_next_jobid d in
      let d := set_next_jobid d (unwrap_or (checked_add 64 (sd_next_jobid d) 1) 1) in
      let '(d, sent) := send_frame d emsg (Some jobid) body outcome in
      if is_ok sent then
        (** [HashMap::insert] drops the sender of an entry it replaces. *)
        let slots := match sd_pending d !! jobid with
                     | Some old => oneshot_drop (sd_slots d) (p_reply old)
                     | None => sd_slots d
                     end in
        (set_slots (set_pending d
           (<[jobid := {| p_reply := reply; p_deadline := deadline |}]> (sd_pending d))) slots,
         None)
      else
        (set_slots d (oneshot_send (sd_slots d) reply
           (ARequest (Err (WebSocket "session reconnecting")))), Some DisconnectedExit)
  end.

(** [received = read_message(...)]; the outer [None] is a read that still waits
    (the arm is not ready). *)
Definition on_read (now : Instant) (d : SessionDriver) :
    option (SessionDriver * option LoopExit) :=
  '(r, read, inbox, liveness) ←
    read_message GzDecoder now (sd_read d) (sd_inbox d) (sd_liveness d);
  let d := set_reader d read inbox liveness in
  match r with
  | Pending => Some (d, None)
  | Ready (Ok msg) =>
      if decide (sm_emsg msg = EMSG_CLIENT_LOGGED_OFF) then Some (d, Some (classify_logoff msg))
      else Some (dispatch d msg, None)
  | Ready (Err _) => Some (d, Some DisconnectedExit)
  end.

(** [sleep_until(next_heartbeat)]: the heartbeat frame, then the Ping probe. *)
Definition on_heartbeat (d : SessionDriver) (outcome ping_outcome : option string) :
    SessionDriver * option LoopExit :=
  let '(d, sent) := send_frame d EMSG_CLIENT_HEARTBEAT None [] outcome in
  if is_ok sent then
    let '(write, pinged) := write_ping (sd_write d) ping_outcome in
    (set_write d write, if is_ok pinged then None else Some DisconnectedExit)
  else (d, Some DisconnectedExit).

(** [sleep_until(next_sweep)]: the read-idle watchdog, then the sweep. *)
Definition on_sweep (now : Instant) (d : SessionDriver) : SessionDriver * option LoopExit :=
  if read_idle_expired now (sd_liveness d) (sd_heartbeat d) then (d, Some DisconnectedExit)
  else
    let '(pending, slots) := sweep_pending now (sd_pending d) (sd_slots d) in
    (set_slots (set_pending d pending) slots, None).

(** ** [run] and [reconnect] as phases

    [Connected] carries the two timers of [run_connected], [Backoff] the sleep of
    [reconnect] with its wake-up time, [Attempting] the connect that follows it,
    [Closing] the [write.close()] and when [CLOSE_TIMEOUT] gives up on it, [Stopped] what the [JoinHandle]
    resolves to. *)
Inductive Phase :=
  | Connected (next_heartbeat next_sweep : Instant)
  | Backoff (backoff : Z) (wake : Instant)
  | Attempting (backoff : Z)
  | Closing (result : Result string) (close_by : Instant)
  | Stopped (result : Result unit).

Record World := {
  w_now : Instant;
  w_phase : Phase;
  w_handles : bool;
  w_driver : SessionDriver
}.

(** Entering [run_connected]. *)
Definition enter_connected (now : Instant) (handles : bool) (d : SessionDriver) : World :=
  {| w_now := now;
     w_phase := Connected (now + sd_heartbeat d) (now + PENDING_SWEEP_INTERVAL);
     w_handles := handles;
     w_driver := set_reader d (sd_read d) (sd_inbox d) (touch now) |}.

(** Leaving [run]'s loop with [result]: in-flight requests fail, the socket closes. *)
Definition leave (now : Instant) (handles : bool) (d : SessionDriver) (result : Result string) :
    World :=
  {| w_now := now; w_phase := Closing result (now + CLOSE_TIMEOUT); w_handles := handles;
     w_driver := set_slots (set_pending d ∅)
       (fail_all_pending (sd_pending d) (sd_slots d) "session driver stopped") |}.

(** [while let Some(msg) = self.inbox.pop_front() { dispatch(...) }]. *)
Definition drain_inbox (d : SessionDriver) : SessionDriver :=
  let d' := foldl dispatch d (sd_inbox d) in
  set_reader d' (sd_read d') [] (sd_liveness d').

(** The [match self.run_connected().await] of [run]. *)
Definition on_exit (now : Instant) (handles : bool) (d : SessionDriver) (exit : LoopExit) : World :=
  match exit with
  | Shutdown => leave now handles d (Ok "session closed"%string)
  | LoggedOffExit reason => leave now handles d (Ok reason)
  | DisconnectedExit =>
      let d := drain_inbox d in
      let slots := fail_all_pending (sd_pending d) (sd_slots d) "session reconnecting" in
      let d := set_slots (set_pending d ∅) slots in
      {| w_now := now; w_phase := Backoff INITIAL_BACKOFF (now + INITIAL_BACKOFF);
         w_handles := handles; w_driver := set_state d Connecting |}
  end.

(** Continue the connected loop with the given timers, or leave it. *)
Definition after_arm (now : Instant) (handles : bool) (next_heartbeat next_sweep : Instant)
    (r : SessionDriver * option LoopExit) : World :=
  match r with
  | (d, None) =>
      {| w_now := now; w_phase := Connected next_heartbeat next_sweep; w_handles := handles;
         w_driver := d |}
  | (d, Some exit) => on_exit now handles d exit
  end.

(** [self.commands.recv()]: outer [None] while it would wait. *)
Definition recv_command (handles : bool) (d : SessionDriver) :
    option (option Command * SessionDriver) :=
  match sd_commands d with
  | c :: rest => Some (Some c, set_commands d rest)
  | [] => if handles then None else Some (None, d)
  end.

(** A reconnect attempt that logged on: the socket's state is replaced whole. *)
Definition install (d : SessionDriver) (conn : CmConnection) (logged : LoggedOn) : SessionDriver :=
  {| sd_write := cc_wire conn; sd_read := cc_read conn; sd_inbox := cc_inbox conn;
     sd_liveness := cc_liveness conn; sd_steam_id := cc_steam_id conn;
     sd_session_id := cc_session_id conn; sd_heartbeat := ln_heartbeat_interval logged;
     sd_next_jobid := sd_next_jobid d; sd_pending := sd_pending d;
     sd_commands := sd_commands d; sd_events := sd_events d; sd_state := sd_state d;
     sd_snapshots := sd_snapshots d; sd_slots := sd_slots d; sd_config := sd_config d |}.

(** The end of a connect attempt in [reconnect], and [run]'s handling of it. *)
Definition on_attempt (now : Instant) (handles : bool) (d : SessionDriver) (backoff : Z)
    (outcome : Result (CmConnection * LoggedOn)) : World :=
  match outcome with
  | Ok (conn, logged) =>
      let d := set_snapshots (install d conn logged) ∅ in
      enter_connected now handles (set_state d (StLoggedOn (sd_steam_id d)))
  | Err (AuthRejected s) => leave now handles d (Err (AuthRejected s))
  | Err _ =>
      let backoff := Z.min (backoff * 2) MAX_BACKOFF in
      {| w_now := now; w_phase := Backoff backoff (now + backoff); w_handles := handles;
         w_driver := d |}
  end.

(** The end of [run]: publish the terminal state; dropping [self] drops the
    command receiver and with it every command still queued. *)
Definition on_closed (now : Instant) (handles : bool) (d : SessionDriver) (result : Result string) :
    World :=
  let d := set_state d (match result with
                        | Ok reason => StLoggedOff reason
                        | Err e => Failed (error_to_string e)
                        end) in
  let slots := foldl oneshot_drop (sd_slots d) (command_slot <$> sd_commands d) in
  {| w_now := now; w_phase := Stopped (_ ← result; Ok tt); w_handles := handles;
     w_driver := set_slots (set_commands d []) slots |}.

(** ** [SessionHandle]

    A call creates a oneshot channel [s], queues a command and waits on the
    channel. *)
Inductive Call :=
  | CallRequest (emsg : Z) (body : list byte) (timeout : Z)
  | CallNotify (emsg : Z) (body : list byte)
  | CallLogoff.
Definition call_command (now : Instant) (s : nat) (call : Call) : Command :=
  match call with
  | CallRequest emsg body timeout => Request emsg body (now + timeout) s
  | CallNotify emsg body => Notify emsg body s
  | CallLogoff => Logoff s
  end.

(** [commands.send(..).await]: waits (outer [None]) on a full queue; on a stopped
    driver the command comes back and its sender is dropped. *)
Definition submit (w : World) (s : nat) (call : Call) : option World :=
  let d := w_driver w in
  if decide (sd_slots d !! s = None ∧ w_handles w = true) then
    match w_phase w with
    | Stopped _ =>
        Some {| w_now := w_now w; w_phase := w_phase w; w_handles := w_handles w;
                w_driver := set_slots d (<[s := SlotDropped]> (sd_slots d)) |}
    | _ =>
        if decide (length (sd_commands d) < COMMAND_CAPACITY)%nat then
          Some {| w_now := w_now w; w_phase := w_phase w; w_handles := w_handles w;
                  w_driver := set_slots
                    (set_commands d (sd_commands d ++ [call_command (w_now w) s call]))
                    (<[s := SlotOpen]> (sd_slots d)) |}
        else None
    end
  else None.

(** What the caller of a request finds on its channel: [tokio::time::timeout]
    polls the channel before the timer, so an answer already there wins. *)
Definition await_reply (slot : Slot) (elapsed : bool) : poll (Result SteamMessage) :=
  match slot with
  | SlotFull (ARequest r) => Ready r
  | SlotOpen | SlotClosed => if elapsed then Ready (Err (Timeout "steam request")) else Pending
  | SlotFull _ | SlotDropped => Ready (Err (WebSocket "session driver dropped the request"))
  end.

(** The end of [dispatch_request]: optional [EResult] check, then decode. *)
Definition finish_request {Resp} `{Message Resp} (check_eresult : bool)
    (received : Result SteamMessage) : Result Resp :=
  msg ← received;
  _ ← (if check_eresult then check_reply_eresult msg else Ok tt);
  map_err (λ e, Codec ("decode response: " +:+ e)) (msg_decode (sm_body msg)).

(** The end of [notify]. *)
Definition await_notify (slot : Slot) : poll (Result unit) :=
  match slot with
  | SlotFull (ANotify r) => Ready r
  | SlotOpen | SlotClosed => Pending
  | SlotFull _ | SlotDropped => Ready (Err (WebSocket "session driver dropped the notification"))
  end.

Definition cached_snapshot (d : SessionDriver) (emsg : Z) : option (list byte) :=
  sd_snapshots d !! emsg.

(** ** [establish_resilient] and [spawn_session]

    [attempt n] is the outcome of the [n]-th [CmConnection::establish]; the
    second component of the result is the list of backoff sleeps. *)
Fixpoint establish_resilient_loop (remaining attempt_no : nat) (backoff : Z) (last_err : Error)
    (attempt : nat → Result (CmConnection * LoggedOn)) :
    Result (CmConnection * LoggedOn) * list Z :=
  match remaining with
  | O => (Err last_err, [])
  | S remaining =>
      match attempt attempt_no with
      | Ok ok => (Ok ok, [])
      | Err (AuthRejected s) => (Err (AuthRejected s), [])
      | Err e =>
          if decide (attempt_no < INITIAL_CONNECT_ATTEMPTS)%nat then
            let '(r, slept) := establish_resilient_loop remaining (S attempt_no)
              (Z.min (backoff * 2) MAX_BACKOFF) e attempt in
            (r, backoff :: slept)
          else establish_resilient_loop remaining (S attempt_no) backoff e attempt
      end
  end.
Definition establish_resilient (attempt : nat → Result (CmConnection * LoggedOn)) :
    Result (CmConnection * LoggedOn) * list Z :=
  establish_resilient_loop INITIAL_CONNECT_ATTEMPTS 1 INITIAL_BACKOFF
    (Network "no connect attempt ran") attempt.

Definition spawn_session (now : Instant) (config : SessionConfig)
    (attempt : nat → Result (CmConnection * LoggedOn)) : Result World :=
  '(conn, logged) ← (establish_resilient attempt).1;
  Ok (enter_connected now true
    {| sd_write := cc_wire conn; sd_read := cc_read conn; sd_inbox := cc_inbox conn;
       sd_liveness := cc_liveness conn; sd_steam_id := ln_steam_id logged;
       sd_session_id := cc_session_id conn; sd_heartbeat := ln_heartbeat_interval logged;
       sd_next_jobid := 1; sd_pending := ∅; sd_commands := []; sd_events := [];
       sd_state := StLoggedOn (ln_steam_id logged); sd_snapshots := ∅; sd_slots := ∅;
       sd_config := config |}).

(** ** Events *)
Inductive Event :=
  | Arrive (item : WsItem)
  | Advance (ms : Z)
  | Submit (s : nat) (call : Call)
  | DropReceiver (s : nat)
  | DropHandles
  | OnCommand (outcome : option string)
  | OnRead
  | OnHeartbeat (outcome ping_outcome : option string)
  | OnSweep
  | OnBackoff
  | OnAttempt (env : nat → ServerAttempt) (discovered : Result (list CmServer))
  | OnClosed (flushed : bool).

Definition with_driver (w : World) (d : SessionDriver) : World :=
  {| w_now := w_now w; w_phase := w_phase w; w_handles := w_handles w; w_driver := d |}.

(** The command arm of every [select!]: the connected loop sends, the two loops of
    [reconnect] only answer. *)
Definition take_command (w : World) (outcome : option string) : option World :=
  '(command, d) ← recv_command (w_handles w) (w_driver w);
  match w_phase w with
  | Connected nh ns =>
      Some (after_arm (w_now w) (w_handles w) nh ns (on_command d command outcome))
  | Backoff _ _ | Attempting _ =>
      let '(slots, stop) := answer_while_down (sd_slots d) command in
      let d := set_slots d slots in
      Some (if stop then leave (w_now w) (w_handles w) d (Ok "session closed"%string)
            else with_driver w d)
  | _ => None
  end.

(** One event; [None] when it is not enabled. *)
Definition step (w : World) (ev : Event) : option World :=
  let d := w_driver w in
  match ev, w_phase w with
  | Arrive item, _ =>
      Some (with_driver w (set_reader d (sd_read d ++ [item]) (sd_inbox d) (sd_liveness d)))
  | Advance ms, _ =>
      if decide (0 ≤ ms) then
        Some {| w_now := w_now w + ms; w_phase := w_phase w; w_handles := w_handles w;
                w_driver := d |}
      else None
  | Submit s call, _ => submit w s call
  | DropReceiver s, _ =>
      if decide (sd_slots d !! s = Some SlotOpen) then
        Some (with_driver w (set_slots d (<[s := SlotClosed]> (sd_slots d))))
      else None
  | DropHandles, _ =>
      Some {| w_now := w_now w; w_phase := w_phase w; w_handles := false; w_driver := d |}
  | OnCommand outcome, _ => take_command w outcome
  | OnRead, Connected nh ns =>
      r ← on_read (w_now w) d; Some (after_arm (w_now w) (w_handles w) nh ns r)
  | OnHeartbeat o1 o2, Connected nh ns =>
      if decide (nh ≤ w_now w) then
        Some (after_arm (w_now w) (w_handles w) (w_now w + sd_heartbeat d) ns
                (on_heartbeat d o1 o2))
      else None
  | OnSweep, Connected nh ns =>
      if decide (ns ≤ w_now w) then
        Some (after_arm (w_now w) (w_handles w) nh (w_now w + PENDING_SWEEP_INTERVAL)
                (on_sweep (w_now w) d))
      else None
  | OnBackoff, Backoff backoff wake =>
      if decide (wake ≤ w_now w) then
        Some {| w_now := w_now w; w_phase := Attempting backoff; w_handles := w_handles w;
                w_driver := d |}
      else None
  | OnAttempt env discovered, Attempting backoff =>
      outcome ← establish GzDecoder (w_now w) (sc_account_name (sd_config d))
                  (sc_refresh_token (sd_config d)) env discovered;
      Some (on_attempt (w_now w) (w_handles w) d backoff outcome)
  | OnClosed flushed, Closing result close_by =>
      if decide (flushed = true ∨ close_by ≤ w_now w) then
        Some (on_closed (w_now w) (w_handles w) d result)
      else None
  | _, _ => None
  end.

Fixpoint run_events (w : World) (evs : list Event) : option World :=
  match evs with
  | [] => Some w
  | ev :: evs => w ← step w ev; run_events w evs
  end.

(** The same steps as rules, one per arm. *)
Inductive step_rel (w : World) : Event → World → Prop :=
  | SR_arrive item :
      step_rel w (Arrive item) (with_driver w (set_reader (w_driver w)
        (sd_read (w_driver w) ++ [item]) (sd_inbox (w_driver w)) (sd_liveness (w_driver w))))
  | SR_advance ms :
      0 ≤ ms →
      step_rel w (Advance ms)
        {| w_now := w_now w + ms; w_phase := w_phase w; w_handles := w_handles w;
           w_driver := w_driver w |}
  | SR_submit s call w' : submit w s call = Some w' → step_rel w (Submit s call) w'
  | SR_drop_receiver s :
      sd_slots (w_driver w) !! s = Some SlotOpen →
      step_rel w (DropReceiver s) (with_driver w
        (set_slots (w_driver w) (<[s := SlotClosed]> (sd_slots (w_driver w)))))
  | SR_drop_handles :
      step_rel w DropHandles
        {| w_now := w_now w; w_phase := w_phase w; w_handles := false; w_driver := w_driver w |}
  | SR_command outcome w' : take_command w outcome = Some w' → step_rel w (OnCommand outcome) w'
  | SR_read nh ns r :
      w_phase w = Connected nh ns → on_read (w_now w) (w_driver w) = Some r →
      step_rel w OnRead (after_arm (w_now w) (w_handles w) nh ns r)
  | SR_heartbeat nh ns o1 o2 :
      w_phase w = Connected nh ns → nh ≤ w_now w →
      step_rel w (OnHeartbeat o1 o2) (after_arm (w_now w) (w_handles w)
        (w_now w + sd_heartbeat (w_driver w)) ns (on_heartbeat (w_driver w) o1 o2))
  | SR_sweep nh ns :
      w_phase w = Connected nh ns → ns ≤ w_now w →
      step_rel w OnSweep (after_arm (w_now w) (w_handles w) nh
        (w_now w + PENDING_SWEEP_INTERVAL) (on_sweep (w_now w) (w_driver w)))
  | SR_backoff backoff wake :
      w_phase w = Backoff backoff wake → wake ≤ w_now w →
      step_rel w OnBackoff {| w_now := w_now w; w_phase := Attempting backoff;
                              w_handles := w_handles w; w_driver := w_driver w |}
  | SR_attempt backoff env discovered outcome :
      w_phase w = Attempting backoff →
      establish GzDecoder (w_now w) (sc_account_name (sd_config (w_driver w)))
        (sc_refresh_token (sd_config (w_driver w))) env discovered = Some outcome →
      step_rel w (OnAttempt env discovered)
        (on_attempt (w_now w) (w_handles w) (w_driver w) backoff outcome)
  | SR_closed flushed result close_by :
      w_phase w = Closing result close_by → flushed = true ∨ close_by ≤ w_now w →
      step_rel w (OnClosed flushed) (on_closed (w_now w) (w_handles w) (w_driver w) result).

Lemma step_cases w ev w' : step w ev = Some w' → step_rel w ev w'.
Proof.
  destruct ev; cbn [step].
  - intros [= <-]. apply SR_arrive.
  - case_decide; [|done]. intros [= <-]. by apply SR_advance.
  - apply SR_submit.
  - case_decide; [|done]. intros [= <-]. by apply SR_drop_receiver.
  - intros [= <-]. apply SR_drop_handles.
  - apply SR_command.
  - destruct (w_phase w) eqn:Hp; try done.
    destruct (on_read _ _) as [r|] eqn:Hr; cbn [mbind option_bind]; [|done]. intros [= <-].
    by apply SR_read.
  - destruct (w_phase w) eqn:Hp; try done. case_decide; [|done]. intros [= <-].
    by eapply SR_heartbeat.
  - destruct (w_phase w) eqn:Hp; try done. case_decide; [|done]. intros [= <-].
    by eapply SR_sweep.
  - destruct (w_phase w) eqn:Hp; try done. case_decide; [|done]. intros [= <-].
    by eapply SR_backoff.
  - destruct (w_phase w) eqn:Hp; try done.
    destruct (establish _ _ _ _ _ _) as [outcome|] eqn:He; cbn [mbind option_bind]; [|done].
    intros [= <-]. by eapply SR_attempt.
  - destruct (w_phase w) eqn:Hp; try done. case_decide; [|done]. intros [= <-].
    by eapply SR_closed.
Qed.

(** A fresh session: connected, nothing queued, pending or handed out. *)
Lemma spawn_session_inv now config attempt w :
  spawn_session now config attempt = Ok w →
  ∃ d, w = enter_connected now true d ∧ sd_state d = StLoggedOn (sd_steam_id d) ∧
       sd_commands d = [] ∧ sd_pending d = ∅ ∧ sd_slots d = ∅ ∧
       sd_next_jobid d = 1 ∧ sd_snapshots d = ∅ ∧ sd_events d = [].
Proof.
  unfold spawn_session. intros ([conn logged] & _ & Hw)%bind_ok. simplify_eq. by eexists.
Qed.

(** Worlds a session can be in: spawned, then any events. *)
Inductive reachable : World → Prop :=
  | reach_spawn now config attempt w :
      spawn_session now config attempt = Ok w → reachable w
  | reach_step w ev w' : reachable w → step w ev = Some w' → reachable w'.

(** ** Slots *)
Lemma oneshot_send_open slots s v s' :
  oneshot_send slots s v !! s' = Some SlotOpen ↔ slots !! s' = Some SlotOpen ∧ s' ≠ s.
Proof.
  unfold oneshot_send. case_decide as Ho.
  - rewrite lookup_insert_Some. naive_solver.
  - naive_solver.
Qed.

Lemma oneshot_drop_open slots s s' :
  oneshot_drop slots s !! s' = Some SlotOpen ↔ slots !! s' = Some SlotOpen ∧ s' ≠ s.
Proof.
  unfold oneshot_drop. case_decide as Ho.
  - rewrite lookup_insert_Some. naive_solver.
  - naive_solver.
Qed.

(** [s] is the reply channel of a pending request. *)
Definition awaited (pending : gmap Z PendingEntry) (s : nat) : Prop :=
  ∃ j e, pending !! j = Some e ∧ p_reply e = s.

Lemma awaited_insert pending j e s :
  pending !! j = None → awaited (<[j := e]> pending) s ↔ s = p_reply e ∨ awaited pending s.
Proof.
  intros Hj. split.
  - intros (j' & e' & [[-> ->]|[? ?]]%lookup_insert_Some & <-); [by left|right].
    by exists j', e'.
  - intros [->|(j' & e' & Hj' & <-)].
    + exists j, e. by rewrite lookup_insert_eq.
    + exists j', e'. rewrite lookup_insert_ne; [done|]. by intros ->; simplify_eq.
Qed.

Lemma fail_all_pending_open pending slots reason s :
  fail_all_pending pending slots reason !! s = Some SlotOpen ↔
    slots !! s = Some SlotOpen ∧ ¬ awaited pending s.
Proof.
  unfold fail_all_pending. revert s.
  apply (map_fold_weak_ind (λ r m, ∀ s, r !! s = Some SlotOpen ↔
    slots !! s = Some SlotOpen ∧ ¬ awaited m s)).
  - intros s. split; [|naive_solver]. intros Ho. split; [done|]. by intros (j & e & Hj & _).
  - intros j e m r Hj IH s. rewrite oneshot_send_open, IH, awaited_insert by done. naive_solver.
Qed.

(** Every channel after [fail_all_pending]: the open ones of pending requests carry the
    error, the others are as they were. *)
Lemma fail_all_pending_exact pending slots reason s :
  (slots !! s = Some SlotOpen ∧ awaited pending s ∧
   fail_all_pending pending slots reason !! s =
     Some (SlotFull (ARequest (Err (WebSocket reason))))) ∨
  (¬ (slots !! s = Some SlotOpen ∧ awaited pending s) ∧
   fail_all_pending pending slots reason !! s = slots !! s).
Proof.
  unfold fail_all_pending. revert s.
  apply (map_fold_weak_ind (λ r m, ∀ s,
    (slots !! s = Some SlotOpen ∧ awaited m s ∧
     r !! s = Some (SlotFull (ARequest (Err (WebSocket reason))))) ∨
    (¬ (slots !! s = Some SlotOpen ∧ awaited m s) ∧ r !! s = slots !! s))).
  { intros s. right. split; [|done]. by intros [_ (j & e & Hj & _)]. }
  intros j e m r Hj IH s. specialize (IH s). rewrite awaited_insert by done. unfold oneshot_send.
  case_decide as Ho; [destruct (decide (s = p_reply e)) as [->|Hne]|].
  - rewrite lookup_insert_eq. destruct IH as [(_ & _ & Hr)|[_ Hr]]; [congruence|].
    left. rewrite <-Hr. auto.
  - rewrite lookup_insert_ne by congruence. naive_solver.
  - destruct (decide (s = p_reply e)) as [->|Hne]; [|naive_solver].
    destruct IH as [(? & ? & ?)|[Hn Hr]]; [left; auto|]. right. rewrite Hr in *. naive_solver.
Qed.

Lemma foldl_drop_lookup ss slots s :
  foldl oneshot_drop slots ss !! s =
    if decide (s ∈ ss ∧ slots !! s = Some SlotOpen) then Some SlotDropped else slots !! s.
Proof.
  revert slots. induction ss as [|k ss IH]; intros slots; cbn [foldl].
  { rewrite decide_False; [done|]. by intros [Hin%elem_of_nil _]. }
  rewrite IH. clear IH. pose proof (list.elem_of_cons ss s k) as Hin. unfold oneshot_drop. destruct (decide (slots !! k = Some SlotOpen)) as [Hk|Hk].
  - destruct (decide (s = k)) as [->|Hne].
    + rewrite lookup_insert_eq, decide_False by naive_solver.
      rewrite decide_True; [done|naive_solver].
    + rewrite lookup_insert_ne by done. do 2 case_decide; naive_solver.
  - do 2 case_decide; naive_solver.
Qed.

Definition timed_out : Slot := SlotFull (ARequest (Err (Timeout "steam request"))).
Definition expired (now : Instant) (pending : gmap Z PendingEntry) : gmap Z PendingEntry :=
  filter (λ je, (p_deadline je.2 <=? now) = true) pending.

Lemma sweep_slot_lookup now e (r : Slots) s :
  sweep_slot now e r !! s =
    if decide (s = p_reply e ∧ p_deadline e ≤ now ∧ r !! s = Some SlotOpen)
    then Some timed_out else r !! s.
Proof.
  unfold sweep_slot, is_closed, oneshot_send.
  destruct (decide (s = p_reply e ∧ p_deadline e ≤ now ∧ r !! s = Some SlotOpen)) as [Hd|Hd].
  - destruct Hd as (-> & Hd & Ho). rewrite Ho. rewrite (proj2 (Z.leb_le _ _) Hd).
    rewrite decide_True by done. by rewrite lookup_insert_eq.
  - destruct (Z.leb_spec (p_deadline e) now); [|by destruct (r !! p_reply e) as [[]|]].
    case_decide as Ho; [|by destruct (r !! p_reply e) as [[]|]].
    rewrite Ho. rewrite lookup_insert_ne; [done|]. intros <-. by destruct Hd.
Qed.

Lemma awaited_expired_insert now m j e s :
  m !! j = None →
  awaited (expired now (<[j := e]> m)) s ↔
    (s = p_reply e ∧ p_deadline e ≤ now) ∨ awaited (expired now m) s.
Proof.
  intros Hj. unfold expired. destruct (Z.leb_spec (p_deadline e) now) as [Hd|Hd].
  - rewrite map_filter_insert_True by (by apply Z.leb_le).
    rewrite awaited_insert by (apply map_lookup_filter_None; by left). tauto.
  - rewrite map_filter_insert_False by (apply not_true_iff_false; by apply Z.leb_gt).
    rewrite delete_id by done. split; [tauto|]. intros [[_ ?]|?]; [lia|done].
Qed.

Lemma sweep_slots_exact now pending slots s :
  (slots !! s = Some SlotOpen ∧ awaited (expired now pending) s ∧
   (sweep_pending now pending slots).2 !! s = Some timed_out) ∨
  (¬ (slots !! s = Some SlotOpen ∧ awaited (expired now pending) s) ∧
   (sweep_pending now pending slots).2 !! s = slots !! s).
Proof.
  unfold sweep_pending. cbn [snd]. revert s.
  apply (map_fold_weak_ind (λ r m, ∀ s,
    (slots !! s = Some SlotOpen ∧ awaited (expired now m) s ∧ r !! s = Some timed_out) ∨
    (¬ (slots !! s = Some SlotOpen ∧ awaited (expired now m) s) ∧ r !! s = slots !! s))).
  - intros s. right. split; [|done]. unfold expired. rewrite map_filter_empty.
    by intros [_ (j & e & Hj & _)].
  - intros j e m r Hj IH s. specialize (IH s). rewrite awaited_expired_insert by done.
    rewrite sweep_slot_lookup. case_decide as Hd.
    + left. destruct Hd as (-> & Hd & Ho). rewrite Ho in IH.
      destruct IH as [(_ & _ & ?)|[_ <-]]; [done|]. tauto.
    + destruct IH as [?|[Hn Hr]]; [left; tauto|right]. split; [|done].
      intros [Ho [[-> He]|?]]; [|tauto]. rewrite Hr in Hd. tauto.
Qed.

Lemma sweep_slots_open now pending slots s :
  (sweep_pending now pending slots).2 !! s = Some SlotOpen →
  slots !! s = Some SlotOpen ∧ ¬ awaited (expired now pending) s.
Proof.
  destruct (sweep_slots_exact now pending slots s) as [(_ & _ & ->)|[Hn ->]]; [done|]. tauto.
Qed.

(** ** No caller is left waiting

    [held d s]: the driver still owes channel [s] an answer. *)
Definition held (d : SessionDriver) (s : nat) : Prop :=
  s ∈ command_slot <$> sd_commands d ∨ awaited (sd_pending d) s.
(** Every open channel is held, or belongs to the command in hand. *)
Definition covered (in_hand : list nat) (d : SessionDriver) : Prop :=
  ∀ s, sd_slots d !! s = Some SlotOpen → s ∈ in_hand ∨ held d s.

Lemma awaited_delete pending j e s :
  pending !! j = Some e → awaited pending s → s = p_reply e ∨ awaited (delete j pending) s.
Proof.
  intros Hj (j' & e' & Hj' & <-). destruct (decide (j' = j)) as [->|Hne].
  - left. by simplify_eq.
  - right. exists j', e'. by rewrite lookup_delete_ne.
Qed.

Lemma dispatch_covered d msg : covered [] d → covered [] (dispatch d msg).
Proof.
  intros Hc s. unfold dispatch. destruct (reply_target msg) as [j|]; simpl; [|apply Hc].
  destruct (sd_pending d !! j) as [e|] eqn:Hj; simpl; [|apply Hc].
  intros [Ho Hne]%oneshot_send_open. destruct (Hc s Ho) as [?|[?|Ha]]; [by left|by right; left|].
  right; right. simpl. by destruct (awaited_delete _ _ _ _ Hj Ha).
Qed.

Lemma foldl_dispatch_covered msgs d : covered [] d → covered [] (foldl dispatch d msgs).
Proof.
  revert d. induction msgs as [|m msgs IH]; intros d Hc; [done|]. by apply IH, dispatch_covered.
Qed.

Lemma dispatch_commands d msg : sd_commands (dispatch d msg) = sd_commands d.
Proof. unfold dispatch. by destruct (_ ≫= _) as [[]|]. Qed.

(** Answering the command in hand, or a channel nobody holds, keeps the rest
    covered. *)
Lemma covered_answer s v d :
  covered [s] d → covered [] (set_slots d (oneshot_send (sd_slots d) s v)).
Proof.
  intros Hc s' [Ho Hne]%oneshot_send_open. destruct (Hc s' Ho) as [Hin|?]; [|by right].
  by apply list_elem_of_singleton in Hin.
Qed.

Lemma send_frame_eq d emsg jobid body outcome :
  ∃ wire, send_frame d emsg jobid body outcome =
    (set_write d wire, match outcome with None => Ok tt | Some e => Err (WebSocket e) end).
Proof. unfold send_frame, write_frame. destruct outcome; eauto. Qed.

Definition in_hand (command : option Command) : list nat :=
  match command with Some c => [command_slot c] | None => [] end.

Lemma on_command_covered d command outcome :
  covered (in_hand command) d → covered [] (on_command d command outcome).1.
Proof.
  intros Hc. destruct command as [[emsg body dl s|emsg body s|s]|]; [..|done];
    unfold on_command.
  - set (d1 := set_next_jobid d _).
    destruct (send_frame_eq d1 emsg (Some (sd_next_jobid d)) body outcome) as [wire ->].
    destruct outcome as [er|]; cbn [is_ok fst]; [by apply (covered_answer s _ (set_write d1 wire))|].
    intros s'. cbn. intros Ho.
    assert (sd_slots d !! s' = Some SlotOpen ∧
            ∀ old, sd_pending d !! sd_next_jobid d = Some old → s' ≠ p_reply old) as [Ho' Hold].
    { destruct (sd_pending d !! sd_next_jobid d) as [old|]; [|done].
      apply oneshot_drop_open in Ho as [? ?]. split; [done|]. by intros ? [= <-]. }
    right. destruct (Hc s' Ho') as [->%list_elem_of_singleton|[?|(j & e & Hj & <-)]].
    + right. exists (sd_next_jobid d). eexists. cbn. by rewrite lookup_insert_eq.
    + by left.
    + right. exists j, e. cbn. rewrite lookup_insert_ne; [done|]. intros <-. by destruct (Hold e Hj).
  - destruct (send_frame_eq d emsg None body outcome) as [wire ->].
    by apply (covered_answer s _ (set_write d wire)).
  - destruct (send_frame_eq d EMSG_CLIENT_LOGOFF None [] outcome) as [wire ->].
    by apply (covered_answer s _ (set_write d wire)).
Qed.

Lemma recv_command_covered handles d command d' :
  covered [] d → recv_command handles d = Some (command, d') →
  covered (in_hand command) d' ∧ sd_pending d' = sd_pending d.
Proof.
  unfold recv_command. intros Hc. destruct (sd_commands d) as [|c cs] eqn:Hq.
  - destruct handles; [done|]. by intros [= <- <-].
  - intros [= <- <-]. split; [|done]. intros s Ho.
    destruct (Hc s Ho) as [?|[Hin|?]]; [set_solver| |by right; right].
    unfold held in *. rewrite Hq in Hin. cbn. set_solver.
Qed.

Lemma fail_all_covered d reason :
  covered [] d →
  covered [] (set_slots (set_pending d ∅) (fail_all_pending (sd_pending d) (sd_slots d) reason)).
Proof.
  intros Hc s. cbn. intros [Ho Hn]%fail_all_pending_open. right.
  destruct (Hc s Ho) as [?|[?|?]]; [set_solver|by left|done].
Qed.

Lemma on_sweep_covered now d : covered [] d → covered [] (on_sweep now d).1.
Proof.
  intros Hc. unfold on_sweep. destruct (read_idle_expired _ _ _); [done|].
  destruct (sweep_pending now (sd_pending d) (sd_slots d)) as [pending slots] eqn:Hs.
  intros s. cbn. intros Ho. change slots with (pending, slots).2 in Ho. rewrite <-Hs in Ho.
  apply sweep_slots_open in Ho as [Ho Hn]. right.
  destruct (Hc s Ho) as [?|[?|(j & e & Hj & Hr)]]; [set_solver|by left|right].
  exists j, e. split; [|done]. replace pending with (sweep_pending now (sd_pending d) (sd_slots d)).1
    by by rewrite Hs. cbn. apply map_lookup_filter_Some. split; [done|]. cbn.
  unfold sweep_keeps, is_closed. rewrite Hr, Ho. cbn.
  destruct (p_deadline e <=? now) eqn:Hd; [|done]. exfalso. apply Hn. exists j, e.
  split; [|done]. by apply map_lookup_filter_Some.
Qed.

Lemma on_read_covered now d r : covered [] d → on_read now d = Some r → covered [] r.1.
Proof.
  intros Hc. unfold on_read.
  destruct (read_message _ _ _ _ _) as [[[[res rd] ib] lv]|]; cbn [mbind option_bind]; [|done].
  assert (covered [] (set_reader d rd ib lv)) as Hc' by exact Hc.
  destruct res as [|[msg|e]]; [by intros [= <-]| |by intros [= <-]].
  case_decide; intros [= <-]; [done|]. by apply dispatch_covered.
Qed.

Lemma on_heartbeat_covered d o1 o2 : covered [] d → covered [] (on_heartbeat d o1 o2).1.
Proof.
  intros Hc. unfold on_heartbeat.
  destruct (send_frame_eq d EMSG_CLIENT_HEARTBEAT None [] o1) as [wire ->].
  by destruct o1, o2.
Qed.

(** *** The invariant *)
Definition settled (w : World) : Prop :=
  covered [] (w_driver w) ∧
  match w_phase w with
  | Connected _ _ => True
  | Stopped _ => sd_pending (w_driver w) = ∅ ∧ sd_commands (w_driver w) = []
  | _ => sd_pending (w_driver w) = ∅
  end.

Lemma leave_settled now handles d r : covered [] d → settled (leave now handles d r).
Proof. intros Hc. split; [by apply fail_all_covered|done]. Qed.

Lemma on_exit_settled now handles d exit : covered [] d → settled (on_exit now handles d exit).
Proof.
  intros Hc. destruct exit; [by apply leave_settled..|]. split; [|done].
  apply (fail_all_covered (drain_inbox d) "session reconnecting").
  by apply (foldl_dispatch_covered (sd_inbox d)) in Hc.
Qed.

Lemma after_arm_settled now handles nh ns r :
  covered [] r.1 → settled (after_arm now handles nh ns r).
Proof. destruct r as [d [exit|]]; intros Hc; [by apply on_exit_settled|done]. Qed.

Lemma drop_all_open (slots : Slots) ss s :
  foldl oneshot_drop slots ss !! s = Some SlotOpen → slots !! s = Some SlotOpen ∧ s ∉ ss.
Proof.
  revert slots. induction ss as [|x ss IH]; intros slots; cbn [foldl]; [set_solver|].
  intros [Ho Hn]%IH. apply oneshot_drop_open in Ho as [Ho Hne]. set_solver.
Qed.

Lemma on_closed_settled now handles d r :
  covered [] d → sd_pending d = ∅ → settled (on_closed now handles d r).
Proof.
  intros Hc Hp. split; [|done]. intros s. cbn. intros [Ho Hn]%drop_all_open.
  destruct (Hc s Ho) as [?|[?|?]]; [set_solver|done|]. right. by right.
Qed.

Lemma on_attempt_settled now handles d backoff outcome :
  covered [] d → sd_pending d = ∅ → settled (on_attempt now handles d backoff outcome).
Proof.
  intros Hc Hp. destruct outcome as [[conn logged]|e]; [done|].
  destruct e; try done. by apply leave_settled.
Qed.

Lemma submit_settled w s call w' : settled w → submit w s call = Some w' → settled w'.
Proof.
  intros [Hc Hph]. unfold submit. case_decide as Hs; [|done].
  assert (∀ slot cmds, (slot ≠ SlotOpen ∨ s ∈ command_slot <$> cmds) →
    (sd_commands (w_driver w) ⊆ cmds) →
    covered [] (set_slots (set_commands (w_driver w) cmds)
      (<[s := slot]> (sd_slots (w_driver w))))) as Hcov.
  { intros slot cmds Hslot Hsub s'. cbn. intros [[<- ->]|[? Ho]]%lookup_insert_Some.
    - right; left. by destruct Hslot.
    - destruct (Hc s' Ho) as [?|[?|?]]; [by left| |by right; right]. right; left. cbn.
      set_solver. }
  destruct (w_phase w) eqn:Hp; try (case_decide; [|done]); intros [= <-]; split; cbn;
    rewrite ?Hp in *; try done.
  all: try (apply Hcov; [right; rewrite fmap_app; destruct call; set_solver|set_solver]).
  apply (Hcov SlotDropped (sd_commands (w_driver w))); [by left|done].
Qed.

Lemma take_command_settled w o w' : settled w → take_command w o = Some w' → settled w'.
Proof.
  intros [Hc Hph]. unfold take_command.
  destruct (recv_command _ _) as [[command d]|] eqn:Hr; cbn [mbind option_bind]; [|done].
  destruct (recv_command_covered _ _ _ _ Hc Hr) as [Hc' Hp].
  assert (∀ slots stop, answer_while_down (sd_slots d) command = (slots, stop) →
    covered [] (set_slots d slots)) as Hans.
  { intros slots stop. destruct command as [[? ? ? s|? ? s|s]|]; intros [= <- _];
      [by apply (covered_answer s)..|done]. }
  destruct (w_phase w) eqn:Hw; try done.
  { intros [= <-]. by apply after_arm_settled, on_command_covered. }
  all: destruct (answer_while_down (sd_slots d) command) as [slots stop]; intros [= <-];
    destruct stop; [by apply leave_settled, (Hans slots true)|];
    split; [by apply (Hans slots false)|]; cbn; rewrite Hw; by rewrite Hp.
Qed.

Lemma step_settled w ev w' : settled w → step w ev = Some w' → settled w'.
Proof.
  intros Hs Hstep%step_cases. destruct Hstep; try done.
  - by eapply submit_settled.
  - destruct Hs as [Hc Hph]. split; [|done].
    intros s'. cbn. intros [[_ ?]|[? ?]]%lookup_insert_Some; [done|by apply Hc].
  - by eapply take_command_settled.
  - by eapply after_arm_settled, on_read_covered; [apply Hs|].
  - by apply after_arm_settled, on_heartbeat_covered, Hs.
  - by apply after_arm_settled, on_sweep_covered, Hs.
  - destruct Hs as [Hc Hph]. split; [done|]. by rewrite H4 in Hph.
  - destruct Hs as [Hc Hph]. rewrite H4 in Hph. by apply on_attempt_settled.
  - destruct Hs as [Hc Hph]. rewrite H4 in Hph. by apply on_closed_settled.
Qed.

Lemma reachable_settled w : reachable w → settled w.
Proof.
  induction 1 as [now config attempt w Hw|w ev w' _ IH Hstep]; [|by eapply step_settled].
  apply spawn_session_inv in Hw as (d & -> & _ & Hc & Hp & Hsl & _). split; [|done].
  intros s. cbn. by rewrite Hsl.
Qed.

(** C1: No caller is ever stranded: once the driver has stopped, by logoff, eviction,
    shutdown or a rejected token, every channel it was ever handed has been answered,
    or was dropped by one of its two ends; nobody waits on a session that is gone. *)
Theorem stopped_driver_answers_everyone w r s :
  reachable w → w_phase w = Stopped r → sd_slots (w_driver w) !! s ≠ Some SlotOpen.
Proof.
  intros [Hc Hph]%reachable_settled Hp Ho. rewrite Hp in Hph. destruct Hph as [Hpe Hcm].
  destruct (Hc s Ho) as [?|[Hin|(j & e & Hj & _)]]; [set_solver| |].
  - rewrite Hcm in Hin. set_solver.
  - by rewrite Hpe in Hj.
Qed.

(** While the session is down no request is in flight: whatever was pending has
    been failed, so a reply can never be matched with a request of an earlier
    connection; only commands still in the queue are owed an answer. *)
Theorem down_driver_has_no_pending w s :
  reachable w → (match w_phase w with Connected _ _ => False | _ => True end) →
  sd_pending (w_driver w) = ∅ ∧
  (sd_slots (w_driver w) !! s = Some SlotOpen → s ∈ command_slot <$> sd_commands (w_driver w)).
Proof.
  intros [Hc Hph]%reachable_settled Hp.
  assert (sd_pending (w_driver w) = ∅) as Hpe by (destruct (w_phase w); try done; apply Hph).
  split; [done|]. intros Ho. destruct (Hc s Ho) as [?|[Hin|(j & e & Hj & _)]]; [set_solver|done|].
  by rewrite Hpe in Hj.
Qed.

(** ** The published state *)

(** The messages a stretch of the driver broadcast, and what the snapshot cache made of
    them. *)
Definition routed (d d' : SessionDriver) : Prop :=
  ∃ new, sd_events d' = sd_events d ++ new ∧
         sd_snapshots d' = foldl cache_snapshot (sd_snapshots d) new.

#[export] Instance routed_preorder : PreOrder routed.
Proof.
  split; [intros d; exists []; by rewrite app_nil_r|].
  intros d1 d2 d3 (n1 & He1 & Hs1) (n2 & He2 & Hs2). exists (n1 ++ n2).
  by rewrite He2, He1, Hs2, Hs1, foldl_app, (assoc_L (++)).
Qed.

Lemma cache_snapshot_mono snapshots msg : snapshots ⊆ cache_snapshot snapshots msg.
Proof.
  unfold cache_snapshot. case_bool_decide; [|done].
  destruct (snapshots !! sm_emsg msg) eqn:Hl; [done|]. by apply insert_subseteq.
Qed.

Lemma routed_snapshots d d' : routed d d' → sd_snapshots d ⊆ sd_snapshots d'.
Proof.
  intros (new & _ & ->). generalize (sd_snapshots d). induction new as [|m new IH]; intros sn; [done|].
  cbn. etransitivity; [apply cache_snapshot_mono|apply IH].
Qed.

(** What the arms of the connected loop never touch, or only add to. *)
Definition same_session (d d' : SessionDriver) : Prop :=
  sd_state d' = sd_state d ∧ sd_steam_id d' = sd_steam_id d ∧ sd_config d' = sd_config d ∧
  routed d d'.

#[local] Instance same_session_preorder : PreOrder same_session.
Proof.
  split; [by intros d|]. intros d1 d2 d3 (? & ? & ? & ?) (? & ? & ? & ?).
  repeat split; try congruence. by etransitivity.
Qed.

Lemma same_session_intro d d' :
  sd_state d' = sd_state d → sd_steam_id d' = sd_steam_id d → sd_config d' = sd_config d →
  sd_events d' = sd_events d → sd_snapshots d' = sd_snapshots d → same_session d d'.
Proof. intros ? ? ? He ?. repeat split; [done..|]. exists []. by rewrite He, app_nil_r. Qed.

Lemma dispatch_same d msg : same_session d (dispatch d msg).
Proof.
  unfold dispatch. destruct (_ ≫= _) as [[]|]; [by apply same_session_intro|].
  repeat split. by exists [msg].
Qed.

Lemma foldl_dispatch_same msgs d : same_session d (foldl dispatch d msgs).
Proof.
  revert d. induction msgs as [|m msgs IH]; intros d; [done|]. cbn.
  etransitivity; [apply dispatch_same|apply IH].
Qed.

Lemma on_command_same d command o : same_session d (on_command d command o).1.
Proof.
  destruct command as [[emsg body dl s|emsg body s|s]|]; [..|done]; unfold on_command.
  - set (d1 := set_next_jobid d _).
    destruct (send_frame_eq d1 emsg (Some (sd_next_jobid d)) body o) as [wire ->].
    by destruct o; apply same_session_intro.
  - by destruct (send_frame_eq d emsg None body o) as [wire ->]; apply same_session_intro.
  - by destruct (send_frame_eq d EMSG_CLIENT_LOGOFF None [] o) as [wire ->]; apply same_session_intro.
Qed.

Lemma on_read_same now d r : on_read now d = Some r → same_session d r.1.
Proof.
  unfold on_read.
  destruct (read_message _ _ _ _ _) as [[[[res rd] ib] lv]|]; cbn [mbind option_bind]; [|done].
  assert (same_session d (set_reader d rd ib lv)) by by apply same_session_intro.
  destruct res as [|[msg|e]]; [by intros [= <-]| |by intros [= <-]].
  case_decide; intros [= <-]; [done|]. cbn. etransitivity; [done|apply dispatch_same].
Qed.

Lemma on_heartbeat_same d o1 o2 : same_session d (on_heartbeat d o1 o2).1.
Proof.
  unfold on_heartbeat. destruct (send_frame_eq d EMSG_CLIENT_HEARTBEAT None [] o1) as [wire ->].
  by destruct o1, o2; apply same_session_intro.
Qed.

Lemma on_sweep_same now d : same_session d (on_sweep now d).1.
Proof. unfold on_sweep. by destruct (read_idle_expired _ _ _); apply same_session_intro. Qed.

Lemma recv_command_same handles d command d' :
  recv_command handles d = Some (command, d') → same_session d d'.
Proof.
  unfold recv_command. destruct (sd_commands d); [destruct handles; [done|]|]; intros [= <- <-];
    by apply same_session_intro.
Qed.

(** The state a session publishes in each phase.  The terminal state is published after
    the goodbye, so a session that is closing its socket still shows the state it left:
    [LoggedOn] when it leaves the connected loop, [Connecting] when it gives up a
    reconnect. *)
Definition published (w : World) : Prop :=
  match w_phase w, sd_state (w_driver w) with
  | Connected _ _, StLoggedOn id => id = sd_steam_id (w_driver w)
  | (Backoff _ _ | Attempting _), Connecting => True
  | Closing r _, StLoggedOn id => id = sd_steam_id (w_driver w) ∧ is_ok r = true
  | Closing r _, Connecting =>
      r = Ok "session closed"%string ∨ ∃ s, r = Err (AuthRejected s)
  | Stopped (Ok _), StLoggedOff _ => True
  | Stopped (Err e), Failed s => s = error_to_string e ∧ is_auth_rejected e = true
  | _, _ => False
  end.

Lemma on_exit_published now handles d d0 exit nh ns :
  same_session d0 d →
  published {| w_now := now; w_phase := Connected nh ns; w_handles := handles; w_driver := d0 |} →
  published (on_exit now handles d exit).
Proof.
  unfold published. intros (Hs & Hid & _) Hd0. cbn in Hd0.
  destruct exit; cbn; [rewrite Hs, Hid; by destruct (sd_state d0)..|done].
Qed.

Lemma after_arm_published now handles nh ns nh' ns' d0 r :
  same_session d0 r.1 →
  published {| w_now := now; w_phase := Connected nh ns; w_handles := handles; w_driver := d0 |} →
  published (after_arm now handles nh' ns' r).
Proof.
  intros Hs Hp. destruct r as [d [exit|]]; [by eapply on_exit_published|].
  destruct Hs as (Hs & Hid & _). unfold published in *. cbn in *. rewrite Hs, Hid.
  by destruct (sd_state d0).
Qed.

Lemma take_command_published w o w' : published w → take_command w o = Some w' → published w'.
Proof.
  intros Hp. unfold take_command.
  destruct (recv_command _ _) as [[command d]|] eqn:Hr; cbn [mbind option_bind]; [|done].
  apply recv_command_same in Hr as Hd.
  destruct w as [now ph handles d0]. cbn in *. destruct ph; try done.
  { intros [= <-]. eapply after_arm_published; [|done].
    etransitivity; [apply Hd|apply on_command_same]. }
  all: destruct (answer_while_down _ _) as [slots stop]; intros [= <-]; destruct Hd as (Hs & _);
    unfold published in *; destruct stop; cbn in *; rewrite Hs; destruct (sd_state d0); try (done || by left).
Qed.

Lemma on_attempt_published w backoff outcome :
  published w → w_phase w = Attempting backoff →
  published (on_attempt (w_now w) (w_handles w) (w_driver w) backoff outcome).
Proof.
  intros Hp Hph. unfold published in Hp. rewrite Hph in Hp.
  destruct outcome as [[conn logged]|e]; [done|].
  destruct e; unfold published; cbn; destruct (sd_state (w_driver w)); try done.
  eauto.
Qed.

Lemma step_published w ev w' : published w → step w ev = Some w' → published w'.
Proof.
  intros Hp Hstep%step_cases. destruct Hstep as
    [|? ?|? ? ? Hsub| | |? ? Hcmd|nh ns r Hw Hr|nh ns ? ? Hw ?|nh ns Hw ?|? ? Hw ?|? ? ? ? Hw ?|? result close_by Hw ?];
    try done; [|by eapply take_command_published| | | | | | ].
  - unfold submit in Hsub. case_decide; [|done]. unfold published in *.
    destruct (w_phase w) eqn:Hw; try (case_decide; [|done]); simplify_eq; cbn; by rewrite ?Hw.
  - destruct w. cbn [w_phase] in Hw. subst. eapply after_arm_published; [by eapply on_read_same|done].
  - destruct w. cbn [w_phase] in Hw. subst. eapply after_arm_published; [by apply on_heartbeat_same|done].
  - destruct w. cbn [w_phase] in Hw. subst. eapply after_arm_published; [by apply on_sweep_same|done].
  - unfold published in *. cbn. by rewrite Hw in Hp.
  - by apply on_attempt_published.
  - unfold published in *. rewrite Hw in Hp. cbn.
    destruct result, (sd_state (w_driver w)); cbn; try done;
      [by destruct Hp as [?|[? [= ->]]]|by destruct Hp].
Qed.

Lemma reachable_published w : reachable w → published w.
Proof.
  induction 1 as [now config attempt w Hw|w ev w' _ IH Hstep]; [|by eapply step_published].
  apply spawn_session_inv in Hw as (d & -> & Hst & _). unfold published. cbn. by rewrite Hst.
Qed.

(** C10: The state a session publishes tells the truth about the driver: while the
    session is connected it is [LoggedOn] with the id of the account logged on, while it
    reconnects it is [Connecting], after an orderly end it is [LoggedOff] and after a
    rejected token it is [Failed] with that error's text.  Between the end of the loop
    and the terminal state, while the socket is being closed, it is the state the session
    had: [LoggedOn] with the same id when it leaves a connection in good order,
    [Connecting] when a reconnect was given up (by the caller or by a rejected token).
    The deprecated [Disconnected] and [Authenticating] are never published, and neither
    are [LoggedOff] and [Failed] before the end. *)
Theorem published_state_is_truthful w : reachable w → published w.
Proof. apply reachable_published. Qed.

(** ** Job ids *)

(** A step that issues no job id: requests only leave [pending]. *)
Definition shrinks (d d' : SessionDriver) : Prop :=
  sd_next_jobid d' = sd_next_jobid d ∧ sd_pending d' ⊆ sd_pending d.

#[export] Instance shrinks_preorder : PreOrder shrinks.
Proof.
  split; [by intros d|]. intros d1 d2 d3 [? ?] [? ?]. split; [congruence|by etransitivity].
Qed.

Lemma dispatch_shrinks d msg : shrinks d (dispatch d msg).
Proof.
  unfold dispatch. destruct (reply_target msg) as [j|]; cbn; [|done].
  destruct (sd_pending d !! j); cbn; [|done]. split; [done|]. apply delete_subseteq.
Qed.

Lemma foldl_dispatch_shrinks msgs d : shrinks d (foldl dispatch d msgs).
Proof.
  revert d. induction msgs as [|m msgs IH]; intros d; [done|]. cbn.
  etransitivity; [apply dispatch_shrinks|apply IH].
Qed.

Lemma on_read_shrinks now d r : on_read now d = Some r → shrinks d r.1.
Proof.
  unfold on_read.
  destruct (read_message _ _ _ _ _) as [[[[res rd] ib] lv]|]; cbn [mbind option_bind]; [|done].
  destruct res as [|[msg|e]]; [by intros [= <-]| |by intros [= <-]].
  case_decide; intros [= <-]; [done|]. apply (dispatch_shrinks (set_reader d rd ib lv)).
Qed.

Lemma on_heartbeat_shrinks d o1 o2 : shrinks d (on_heartbeat d o1 o2).1.
Proof.
  unfold on_heartbeat. destruct (send_frame_eq d EMSG_CLIENT_HEARTBEAT None [] o1) as [wire ->].
  by destruct o1, o2.
Qed.

Lemma on_sweep_shrinks now d : shrinks d (on_sweep now d).1.
Proof.
  unfold on_sweep. destruct (read_idle_expired _ _ _); [done|]. split; [done|].
  apply map_filter_subseteq.
Qed.

Lemma leave_shrinks now handles d r : shrinks d (w_driver (leave now handles d r)).
Proof. split; [done|]. apply map_empty_subseteq. Qed.

Lemma on_exit_shrinks now handles d exit : shrinks d (w_driver (on_exit now handles d exit)).
Proof.
  destruct exit; [apply leave_shrinks..|]. split; [|apply map_empty_subseteq].
  apply (foldl_dispatch_shrinks (sd_inbox d) d).
Qed.

Lemma after_arm_shrinks now handles nh ns d r :
  shrinks d r.1 → shrinks d (w_driver (after_arm now handles nh ns r)).
Proof.
  intros Hr. destruct r as [d' [exit|]]; [|done].
  etransitivity; [apply Hr|apply on_exit_shrinks].
Qed.

Lemma on_attempt_shrinks now handles d backoff outcome :
  shrinks d (w_driver (on_attempt now handles d backoff outcome)).
Proof. destruct outcome as [[]|[]]; try done. apply leave_shrinks. Qed.

Lemma submit_shrinks w s call w' : submit w s call = Some w' → shrinks (w_driver w) (w_driver w').
Proof.
  unfold submit. case_decide; [|done].
  destruct (w_phase w); try (case_decide; [|done]); by intros [= <-].
Qed.

Lemma step_shrinks w ev w' :
  step_rel w ev w' → (∀ o, ev ≠ OnCommand o) → shrinks (w_driver w) (w_driver w').
Proof.
  intros Hstep Hev. destruct Hstep; try done.
  - by eapply submit_shrinks.
  - by destruct (Hev outcome).
  - by eapply after_arm_shrinks, on_read_shrinks.
  - by apply after_arm_shrinks, on_heartbeat_shrinks.
  - by apply after_arm_shrinks, on_sweep_shrinks.
  - by apply on_attempt_shrinks.
Qed.

(** At most [n] ids issued, every pending one among them. *)
Definition jobs_ok (n : Z) (d : SessionDriver) : Prop :=
  1 ≤ sd_next_jobid d ≤ n + 1 ∧
  ∀ j e, sd_pending d !! j = Some e → 1 ≤ j < sd_next_jobid d.

Lemma jobs_ok_shrinks n d d' : jobs_ok n d → shrinks d d' → jobs_ok n d'.
Proof.
  intros [Hn Hp] [Hn' Hp']. unfold jobs_ok. rewrite Hn'. split; [done|].
  intros j e Hj. eapply Hp, lookup_weaken; done.
Qed.

Lemma on_command_jobs n d command outcome :
  n + 2 < 2 ^ 64 → jobs_ok n d → jobs_ok (n + 1) (on_command d command outcome).1.
Proof.
  intros Hw [Hn Hp]. assert (jobs_ok (n + 1) d) as Hm by (split; [lia|done]).
  destruct command as [[emsg body dl s|emsg body s|s]|]; [..|done]; unfold on_command.
  - set (d1 := set_next_jobid d _).
    destruct (send_frame_eq d1 emsg (Some (sd_next_jobid d)) body outcome) as [wire ->].
    assert (sd_next_jobid d1 = sd_next_jobid d + 1) as Hnext.
    { cbn. unfold checked_add. by rewrite decide_True by lia. }
    destruct outcome; unfold jobs_ok; cbn -[d1]; cbn [sd_next_jobid sd_pending set_slots
      set_write set_pending]; rewrite Hnext; (split; [lia|]).
    + intros j e Hj. specialize (Hp j e Hj). lia.
    + intros j e [[<- _]|[_ Hj]]%lookup_insert_Some; [lia|]. specialize (Hp j e Hj). lia.
  - by destruct (send_frame_eq d emsg None body outcome) as [wire ->].
  - by destruct (send_frame_eq d EMSG_CLIENT_LOGOFF None [] outcome) as [wire ->].
Qed.

Lemma take_command_jobs n w o w' :
  n + 2 < 2 ^ 64 → jobs_ok n (w_driver w) → take_command w o = Some w' →
  jobs_ok (n + 1) (w_driver w').
Proof.
  intros Hw Hj. unfold take_command.
  destruct (recv_command _ _) as [[command d]|] eqn:Hr; cbn [mbind option_bind]; [|done].
  assert (jobs_ok n d) as Hd.
  { unfold recv_command in Hr. destruct (sd_commands (w_driver w)); [destruct (w_handles w); [done|]|];
      by simplify_eq. }
  assert (jobs_ok (n + 1) d) as Hd' by (destruct Hd; split; [lia|done]).
  destruct (w_phase w); try done.
  { intros [= <-]. eapply jobs_ok_shrinks; [by apply (on_command_jobs _ _ command o Hw Hd)|].
    by apply after_arm_shrinks. }
  all: destruct (answer_while_down _ _) as [slots stop]; intros [= <-]; destruct stop; [|done];
    eapply (jobs_ok_shrinks _ (set_slots d slots)); [apply Hd'|]; apply leave_shrinks.
Qed.

(** Reachable after taking [n] commands off the queue. *)
Inductive reachable_in : Z → World → Prop :=
  | reach_in_spawn now config attempt w :
      spawn_session now config attempt = Ok w → reachable_in 0 w
  | reach_in_command n w o w' :
      reachable_in n w → step w (OnCommand o) = Some w' → reachable_in (n + 1) w'
  | reach_in_other n w ev w' :
      reachable_in n w → (∀ o, ev ≠ OnCommand o) → step w ev = Some w' → reachable_in n w'.

Lemma reachable_in_nonneg n w : reachable_in n w → 0 ≤ n.
Proof. induction 1; lia. Qed.

Lemma reachable_in_jobs n w : reachable_in n w → n + 1 < 2 ^ 64 → jobs_ok n (w_driver w).
Proof.
  induction 1 as [now config attempt w Hw|n w o w' _ IH Hstep|n w ev w' _ IH Hev Hstep]; intros Hn.
  - apply spawn_session_inv in Hw as (d & -> & _ & _ & Hp & _ & Hj & _).
    split; cbn; [lia|]. by rewrite Hp.
  - apply take_command_jobs with w o; [lia|apply IH; lia|done].
  - eapply jobs_ok_shrinks; [by apply IH|]. by eapply step_shrinks; [apply step_cases|].
Qed.

(** C9: The next request always gets a job id that no in-flight request uses and that
    the reply router accepts (neither 0 nor [u64::MAX]), so concurrent requests can
    never receive each other's replies, for a session's first [2^64 - 2] commands. *)
Theorem next_jobid_is_fresh n w :
  reachable_in n w → n + 2 < 2 ^ 64 →
  sd_pending (w_driver w) !! sd_next_jobid (w_driver w) = None ∧
  sd_next_jobid (w_driver w) ≠ 0 ∧ sd_next_jobid (w_driver w) ≠ u64_max.
Proof.
  intros Hr Hn. destruct (reachable_in_jobs _ _ Hr) as [Hb Hp]; [lia|]. split; [|lia].
  apply eq_None_not_Some. intros [e He]. specialize (Hp _ _ He). lia.
Qed.

(** ** Snapshots *)
Lemma on_exit_routed now handles d exit : routed d (w_driver (on_exit now handles d exit)).
Proof.
  destruct exit; [by exists []; rewrite app_nil_r..|].
  apply (foldl_dispatch_same (sd_inbox d) d).
Qed.

Lemma after_arm_routed now handles nh ns d r :
  same_session d r.1 → routed d (w_driver (after_arm now handles nh ns r)).
Proof.
  intros (_ & _ & _ & Hr). destruct r as [d' [exit|]]; [|done].
  etransitivity; [apply Hr|apply on_exit_routed].
Qed.

Lemma routed_intro d d' :
  sd_events d' = sd_events d → sd_snapshots d' = sd_snapshots d → routed d d'.
Proof. intros He Hs. exists []. by rewrite He, app_nil_r. Qed.

Lemma take_command_routed w o w' :
  take_command w o = Some w' → routed (w_driver w) (w_driver w').
Proof.
  unfold take_command.
  destruct (recv_command _ _) as [[command d]|] eqn:Hr; cbn [mbind option_bind]; [|done].
  apply recv_command_same in Hr as (_ & _ & _ & Hd).
  destruct (w_phase w); try done.
  { intros [= <-]. etransitivity; [done|]. apply after_arm_routed, on_command_same. }
  all: destruct (answer_while_down _ _) as [slots stop]; intros [= <-]; etransitivity; [done|];
    by destruct stop; apply routed_intro.
Qed.

Lemma submit_routed w s call w' : submit w s call = Some w' → routed (w_driver w) (w_driver w').
Proof.
  unfold submit. case_decide; [|done].
  destruct (w_phase w); try (case_decide; [|done]); intros ?; simplify_eq; by apply routed_intro.
Qed.

(** Every event only routes messages, except the reconnect that starts a new logon. *)
Lemma step_routed w ev w' :
  step w ev = Some w' →
  routed (w_driver w) (w_driver w') ∨
  (∃ b nh ns, w_phase w = Attempting b ∧ w_phase w' = Connected nh ns ∧
              sd_snapshots (w_driver w') = ∅ ∧ sd_events (w_driver w') = sd_events (w_driver w)).
Proof.
  intros Hstep%step_cases. destruct Hstep as
    [|? ?|? ? ? Hsub| | |? ? Hcmd|nh ns r Hw Hr|nh ns ? ? Hw ?|nh ns Hw ?|? ? Hw ?|? ? ? o Hw ?|? result close_by Hw ?];
    try (left; by apply routed_intro).
  - left. by eapply submit_routed.
  - left. by eapply take_command_routed.
  - left. by eapply after_arm_routed, on_read_same.
  - left. by apply after_arm_routed, on_heartbeat_same.
  - left. by apply after_arm_routed, on_sweep_same.
  - destruct o as [[]|[]]; try (left; by apply routed_intro). right. cbn. eauto 10.
Qed.

(** The snapshot cache is first-wins per logon: no event changes or removes a cached
    snapshot, except the reconnect that starts a new logon, which starts from an empty
    cache. *)
Theorem snapshots_first_wins w ev w' :
  step w ev = Some w' →
  sd_snapshots (w_driver w) ⊆ sd_snapshots (w_driver w') ∨
  (∃ b nh ns, w_phase w = Attempting b ∧ w_phase w' = Connected nh ns ∧
              sd_snapshots (w_driver w') = ∅).
Proof.
  intros [Hr|(b & nh & ns & ? & ? & ? & _)]%step_routed; [|right; by exists b, nh, ns].
  left. by apply routed_snapshots.
Qed.

(** ** Routing *)
Lemma reply_target_Some msg j :
  h_jobid_target (sm_header msg) = Some j → j ≠ 0 → j ≠ u64_max → reply_target msg = Some j.
Proof.
  intros Ht H0' Hm. unfold reply_target. rewrite Ht. simpl.
  destruct (Z.eqb_spec j 0), (Z.eqb_spec j u64_max); done.
Qed.

(** A reply goes to exactly the request it names: that caller's channel gets the
    message and the request stops being pending; no other request, channel or
    subscriber sees it. *)
Theorem dispatch_reply d msg j e :
  h_jobid_target (sm_header msg) = Some j → j ≠ 0 → j ≠ u64_max →
  sd_pending d !! j = Some e → sd_slots d !! p_reply e = Some SlotOpen →
  let d' := dispatch d msg in
  sd_slots d' = <[p_reply e := SlotFull (ARequest (Ok msg))]> (sd_slots d) ∧
  sd_pending d' = delete j (sd_pending d) ∧
  sd_events d' = sd_events d ∧ sd_snapshots d' = sd_snapshots d.
Proof.
  intros Ht H0' Hm He Ho. unfold dispatch. rewrite (reply_target_Some _ _ Ht H0' Hm). cbn.
  rewrite He. cbn. unfold oneshot_send. by rewrite decide_True.
Qed.

(** A message that names no pending request is broadcast to the subscribers and
    answers nobody, whatever job id it carries. *)
Theorem dispatch_unsolicited d msg :
  (∀ j, h_jobid_target (sm_header msg) = Some j → sd_pending d !! j = None) →
  let d' := dispatch d msg in
  sd_slots d' = sd_slots d ∧ sd_pending d' = sd_pending d ∧
  sd_events d' = sd_events d ++ [msg] ∧
  (sm_emsg msg ∈ POST_LOGIN_SNAPSHOT_EMSGS → is_Some (sd_snapshots d' !! sm_emsg msg)).
Proof.
  intros Hn. unfold dispatch.
  assert ((jobid ← reply_target msg; entry ← sd_pending d !! jobid; Some (jobid, entry)) = None) as ->.
  { unfold reply_target. destruct (h_jobid_target (sm_header msg)) as [j|] eqn:Ht; [|done].
    cbn. destruct (negb (j =? 0) && negb (j =? u64_max)); [|done]. cbn. by rewrite (Hn j eq_refl). }
  cbn. repeat split. intros Hin. unfold cache_snapshot. rewrite bool_decide_true by done.
  destruct (sd_snapshots d !! sm_emsg msg) eqn:Hl; [by rewrite Hl|]. by rewrite lookup_insert_eq.
Qed.

(** ** Sweeping *)

(** The sweep is exact: a request stays pending iff its deadline lies ahead and its
    caller still listens; every caller whose deadline has passed is answered with
    [Timeout], and no other channel is touched. *)
Theorem sweep_exact now d :
  read_idle_expired now (sd_liveness d) (sd_heartbeat d) = false →
  let d' := (on_sweep now d).1 in
  (∀ j e, sd_pending d' !! j = Some e ↔
     sd_pending d !! j = Some e ∧ now < p_deadline e ∧
     sd_slots d !! p_reply e ≠ Some SlotClosed) ∧
  (∀ s, sd_slots d !! s = Some SlotOpen → awaited (expired now (sd_pending d)) s →
     sd_slots d' !! s = Some timed_out) ∧
  (∀ s, ¬ (sd_slots d !! s = Some SlotOpen ∧ awaited (expired now (sd_pending d)) s) →
     sd_slots d' !! s = sd_slots d !! s).
Proof.
  intros Hidle. unfold on_sweep. rewrite Hidle. cbn [fst set_slots set_pending sd_pending sd_slots].
  repeat split.
  - by apply map_lookup_filter_Some in H4 as [? _].
  - apply map_lookup_filter_Some in H4 as [_ Hk]. unfold sweep_keeps in Hk. cbn [snd] in Hk.
    bool_props. lia.
  - apply map_lookup_filter_Some in H4 as [_ Hk]. unfold sweep_keeps, is_closed in Hk. cbn in Hk.
    intros Hc. by rewrite Hc in Hk.
  - intros (Hj & Hd & Hc). apply map_lookup_filter_Some. split; [done|].
    unfold sweep_keeps, is_closed. cbn. apply Z.leb_gt in Hd. rewrite Hd.
    by destruct (sd_slots d !! p_reply e) as [[]|].
  - intros s Ho Ha. destruct (sweep_slots_exact now (sd_pending d) (sd_slots d) s)
      as [(_ & _ & Hr)|[Hn _]]; [done|]. by destruct Hn.
  - intros s Hn. destruct (sweep_slots_exact now (sd_pending d) (sd_slots d) s)
      as [(? & ? & _)|[_ Hr]]; [|done]. by destruct Hn.
Qed.

(** ** Requests end to end *)
Section end_to_end.
Context `{!MessageLaws CMsgProtoBufHeader}.

(** Reading a single plain frame on a quiet socket dispatches its message. *)
Lemma on_read_frame now d emsg (h : CMsgProtoBufHeader) body :
  sd_read d = [Some (Ok (WsBinary (encode_raw emsg h body)))] → sd_inbox d = [] →
  in_u 31 emsg → emsg ≠ EMSG_MULTI → emsg ≠ EMSG_CLIENT_LOGGED_OFF →
  msg_wf h → encoded_len h < 2 ^ 32 →
  on_read now d =
    Some (dispatch (set_reader d [] [] now)
            {| sm_emsg := emsg; sm_header := h; sm_body := body |}, None).
Proof.
  intros Hrd Hib He Hm Hl Hh Hlen. unfold on_read, read_message. rewrite Hrd, Hib.
  cbn [length read_message_fuel read_frame].
  rewrite try_decode_encode_raw by done. cbn [mbind option_bind sm_emsg].
  rewrite Z.mod_small by done. rewrite decide_False by done. cbn [mbind option_bind sm_emsg].
  by rewrite decide_False by done.
Qed.

(** The driver after sending a request under a fresh job id. *)
Definition requested (d : SessionDriver) (emsg : Z) (body : list byte) (deadline : Instant)
    (s : nat) (rest : list Command) : SessionDriver :=
  set_pending (set_write (set_next_jobid (set_commands d rest) (sd_next_jobid d + 1))
      (sd_write d ++ [WsBinary (encode_raw emsg
         (session_header (sd_steam_id d) (sd_session_id d) (Some (sd_next_jobid d))) body)]))
    (<[sd_next_jobid d := {| p_reply := s; p_deadline := deadline |}]> (sd_pending d)).

Lemma on_command_request d emsg body deadline s rest :
  sd_next_jobid d < u64_max → sd_pending d !! sd_next_jobid d = None →
  on_command (set_commands d rest) (Some (Request emsg body deadline s)) None =
    (requested d emsg body deadline s rest, None).
Proof.
  intros Hj Hpe. unfold on_command, send_frame, write_frame.
  cbn [set_commands sd_next_jobid]. unfold checked_add. rewrite decide_True by lia.
  cbn [unwrap_or is_ok set_write set_next_jobid set_commands sd_pending]. by rewrite Hpe.
Qed.

Lemma step_request w nh ns emsg body deadline s rest :
  w_phase w = Connected nh ns → sd_commands (w_driver w) = Request emsg body deadline s :: rest →
  sd_next_jobid (w_driver w) < u64_max →
  sd_pending (w_driver w) !! sd_next_jobid (w_driver w) = None →
  step w (OnCommand None) = Some (with_driver w (requested (w_driver w) emsg body deadline s rest)).
Proof.
  intros Hp Hc Hj Hpe. cbn [step]. unfold take_command, recv_command. rewrite Hc, Hp.
  cbn [mbind option_bind]. rewrite on_command_request by done. cbn [after_arm].
  unfold with_driver. by rewrite Hp.
Qed.

(** ... and once its reply has been read and routed: the reader is empty and touched, the
    request is off the queue and off the pending map, its channel holds the reply. *)
Definition answered (now : Instant) (d : SessionDriver) (emsg : Z) (body : list byte) (s : nat)
    (rest : list Command) (reply : SteamMessage) : SessionDriver :=
  {| sd_write := sd_write d ++ [WsBinary (encode_raw emsg
       (session_header (sd_steam_id d) (sd_session_id d) (Some (sd_next_jobid d))) body)];
     sd_read := []; sd_inbox := []; sd_liveness := now;
     sd_steam_id := sd_steam_id d; sd_session_id := sd_session_id d;
     sd_heartbeat := sd_heartbeat d; sd_next_jobid := sd_next_jobid d + 1;
     sd_pending := sd_pending d; sd_commands := rest; sd_events := sd_events d;
     sd_state := sd_state d; sd_snapshots := sd_snapshots d;
     sd_slots := <[s := SlotFull (ARequest (Ok reply))]> (sd_slots d);
     sd_config := sd_config d |}.

Lemma dispatch_requested now d emsg body deadline s rest reply :
  h_jobid_target (sm_header reply) = Some (sd_next_jobid d) →
  1 ≤ sd_next_jobid d < u64_max → sd_pending d !! sd_next_jobid d = None →
  sd_slots d !! s = Some SlotOpen →
  dispatch (set_reader (requested d emsg body deadline s rest) [] [] now) reply =
    answered now d emsg body s rest reply.
Proof.
  intros Ht Hj Hpe Hs. unfold dispatch, requested.
  rewrite (reply_target_Some _ _ Ht) by lia.
  cbn [mbind option_bind set_reader set_slots set_pending sd_pending]. rewrite lookup_insert_eq.
  cbn [mbind option_bind set_routes set_reader set_slots set_pending sd_pending sd_slots sd_write
       sd_commands sd_next_jobid p_reply set_write set_next_jobid set_commands].
  unfold oneshot_send. rewrite decide_True by done. by rewrite delete_insert_id by done.
Qed.

(** C2: A request and its reply meet: on a connected session the request leaves as one
    frame tagged with a job id, and the frame Steam answers with under that id is the
    message the caller's channel receives.  Nothing else is disturbed: the session ends
    still connected with the same timers, and its driver differs from the one before in
    the frame written, the read frame consumed and the socket marked live, the command
    taken off the queue, the next job id and that one channel; the subscribers' queue,
    the cached snapshots, the published state, the other requests and every other
    channel are as they were. *)
Theorem request_reply_round_trip w nh ns emsg body deadline s rest emsg' h body' :
  w_phase w = Connected nh ns →
  sd_commands (w_driver w) = Request emsg body deadline s :: rest →
  sd_slots (w_driver w) !! s = Some SlotOpen →
  sd_pending (w_driver w) !! sd_next_jobid (w_driver w) = None →
  1 ≤ sd_next_jobid (w_driver w) < u64_max →
  sd_read (w_driver w) = [] → sd_inbox (w_driver w) = [] →
  h_jobid_target h = Some (sd_next_jobid (w_driver w)) → in_u 31 emsg' →
  emsg' ≠ EMSG_MULTI → emsg' ≠ EMSG_CLIENT_LOGGED_OFF → msg_wf h → encoded_len h < 2 ^ 32 →
  run_events w [OnCommand None; Arrive (Some (Ok (WsBinary (encode_raw emsg' h body')))); OnRead] =
    Some {| w_now := w_now w; w_phase := Connected nh ns; w_handles := w_handles w;
            w_driver :=
              {| sd_write := sd_write (w_driver w) ++ [WsBinary (encode_raw emsg
                   (session_header (sd_steam_id (w_driver w)) (sd_session_id (w_driver w))
                      (Some (sd_next_jobid (w_driver w)))) body)];
                 sd_read := []; sd_inbox := []; sd_liveness := w_now w;
                 sd_steam_id := sd_steam_id (w_driver w);
                 sd_session_id := sd_session_id (w_driver w);
                 sd_heartbeat := sd_heartbeat (w_driver w);
                 sd_next_jobid := sd_next_jobid (w_driver w) + 1;
                 sd_pending := sd_pending (w_driver w); sd_commands := rest;
                 sd_events := sd_events (w_driver w); sd_state := sd_state (w_driver w);
                 sd_snapshots := sd_snapshots (w_driver w);
                 sd_slots := <[s := SlotFull (ARequest (Ok
                     {| sm_emsg := emsg'; sm_header := h; sm_body := body' |}))]>
                   (sd_slots (w_driver w));
                 sd_config := sd_config (w_driver w) |} |}.
Proof.
  intros Hp Hc Hs Hpe Hj Hrd Hib Ht He Hm Hl Hh Hlen. cbn [run_events].
  rewrite (step_request w nh ns emsg body deadline s rest) by (done || lia).
  cbn [mbind option_bind step with_driver w_phase w_driver w_now w_handles]. rewrite Hp.
  rewrite (on_read_frame _ _ emsg' h body'); try done.
  2: { cbn [set_reader sd_read requested set_pending set_write set_next_jobid set_commands].
       by rewrite Hrd. }
  cbn [mbind option_bind after_arm]. do 2 f_equal.
  by apply (dispatch_requested (w_now w) (w_driver w) emsg body deadline s rest
              {| sm_emsg := emsg'; sm_header := h; sm_body := body' |}).
Qed.
End end_to_end.


(** A request that succeeds really succeeded: with the header check on, a decoded
    response implies Steam's [EResult] was OK (or absent), so a rejection can never be
    read as an empty success. *)
Theorem checked_request_is_honest {Resp} `{Message Resp} received (resp : Resp) :
  finish_request true received = Ok resp →
  ∃ msg, received = Ok msg ∧ msg_decode (sm_body msg) = Ok resp ∧
         (h_eresult (sm_header msg) = None ∨ h_eresult (sm_header msg) = Some eresult.OK).
Proof.
  unfold finish_request. intros (msg & -> & ([] & Hck & Hd%map_err_ok)%bind_ok)%bind_ok.
  exists msg. split; [done|]. split; [done|].
  unfold check_reply_eresult in Hck. destruct (h_eresult (sm_header msg)) as [er|]; [|by left].
  case_decide as Her; [done|]. right. f_equal. destruct (decide (er = eresult.OK)); tauto.
Qed.

(** ** Shutting down *)
Definition running (w : World) : Prop :=
  match w_phase w with Connected _ _ | Backoff _ _ | Attempting _ => True | _ => False end.
Definition closed_by_request (w : World) : Prop :=
  w_phase w = Closing (Ok "session closed"%string) (w_now w + CLOSE_TIMEOUT).

Lemma foldl_dispatch_commands msgs d : sd_commands (foldl dispatch d msgs) = sd_commands d.
Proof.
  revert d. induction msgs as [|m msgs IH]; intros d; [done|]. cbn. by rewrite IH, dispatch_commands.
Qed.

(** The command arm of the connected loop takes nothing else off the queue. *)
Lemma on_command_commands d command o : sd_commands (on_command d command o).1 = sd_commands d.
Proof.
  destruct command as [[emsg body dl s|emsg body s|s]|]; [..|done]; unfold on_command.
  - set (d1 := set_next_jobid d _).
    destruct (send_frame_eq d1 emsg (Some (sd_next_jobid d)) body o) as [wire ->]. by destruct o.
  - by destruct (send_frame_eq d emsg None body o) as [wire ->].
  - by destruct (send_frame_eq d EMSG_CLIENT_LOGOFF None [] o) as [wire ->].
Qed.

(** The exits of the command arm. *)
Lemma on_command_exit d command o :
  (on_command d command o).2 ∈ [None; Some Shutdown; Some DisconnectedExit] ∧
  (command = None → (on_command d command o).2 = Some Shutdown).
Proof.
  destruct command as [[emsg body dl s|emsg body s|s]|]; unfold on_command.
  - set (d1 := set_next_jobid d _).
    destruct (send_frame_eq d1 emsg (Some (sd_next_jobid d)) body o) as [wire ->].
    destruct o; split; (set_solver || done).
  - destruct (send_frame_eq d emsg None body o) as [wire ->]. destruct o; split; (set_solver || done).
  - destruct (send_frame_eq d EMSG_CLIENT_LOGOFF None [] o) as [wire ->].
    split; (set_solver || done).
  - split; (set_solver || done).
Qed.

Lemma after_command_running now handles nh ns d command o :
  let w' := after_arm now handles nh ns (on_command d command o) in
  w_handles w' = handles ∧
  (closed_by_request w' ∨ command ≠ None ∧ running w' ∧ sd_commands (w_driver w') = sd_commands d).
Proof.
  pose proof (on_command_commands d command o) as Hc.
  destruct (on_command_exit d command o) as [He Hn].
  destruct (on_command d command o) as [d' exit]. cbn [fst snd] in *.
  apply elem_of_cons in He as [->|He].
  { split; [done|]. right. split; [|done]. by intros ->; specialize (Hn eq_refl). }
  apply elem_of_cons in He as [->|He]; [split; [done|by left]|].
  apply list_elem_of_singleton in He as ->.
  split; [done|]. right. split; [by intros ->; specialize (Hn eq_refl)|]. split; [done|].
  cbn. by rewrite foldl_dispatch_commands.
Qed.

Lemma take_command_running w o :
  running w → w_handles w = false →
  ∃ w', take_command w o = Some w' ∧ w_handles w' = false ∧
    (closed_by_request w' ∨
     running w' ∧ ∃ c, sd_commands (w_driver w) = c :: sd_commands (w_driver w')).
Proof.
  intros Hr Hh. unfold take_command, recv_command. rewrite Hh.
  assert (∃ command d, match sd_commands (w_driver w) with
                       | c :: rest => Some (Some c, set_commands (w_driver w) rest)
                       | [] => Some (None, w_driver w)
                       end = Some (command, d) ∧
    (command = None ∨ ∃ c, command = Some c ∧ sd_commands (w_driver w) = c :: sd_commands d))
    as (command & d & -> & Hcase) by (destruct (sd_commands (w_driver w)); eauto 10).
  cbn [mbind option_bind]. unfold running in Hr.
  destruct (w_phase w) as [nh ns|b wake|b| |] eqn:Hp; try done.
  - eexists. split; [done|].
    destruct (after_command_running (w_now w) false nh ns d command o) as [Hw' [Hcl|(Hn & Hrun & Hcm)]];
      (split; [done|]); [by left|right]. split; [done|].
    rewrite Hcm. destruct Hcase as [?|(c & _ & ?)]; [done|by exists c].
  - destruct command as [[]|]; cbn; (eexists; split; [done|]); (split; [done|]); try (by left);
      right; (split; [unfold running, with_driver; cbn; by rewrite Hp|]);
      destruct Hcase as [?|(c & _ & ?)]; (done || by exists c).
  - destruct command as [[]|]; cbn; (eexists; split; [done|]); (split; [done|]); try (by left);
      right; (split; [unfold running, with_driver; cbn; by rewrite Hp|]);
      destruct Hcase as [?|(c & _ & ?)]; (done || by exists c).
Qed.

(** The goodbye on a socket that never flushes it: five seconds later the task is over. *)
Lemma closing_times_out w :
  closed_by_request w →
  ∃ w', run_events w [Advance CLOSE_TIMEOUT; OnClosed false] = Some w' ∧
        w_phase w' = Stopped (Ok tt) ∧ w_now w' = w_now w + CLOSE_TIMEOUT.
Proof.
  intros Hcl. cbn [run_events step]. rewrite decide_True by done.
  cbn [mbind option_bind w_phase w_now w_handles w_driver]. rewrite Hcl.
  rewrite decide_True by (right; lia). cbn [mbind option_bind]. by eexists.
Qed.

(** C35: A session nobody holds any more ends: once every handle is dropped, taking the
    queued commands (whatever the socket does to their writes, connected or in the
    middle of a reconnect) reaches the orderly close after at most one step more than
    there are commands; it never reconnects forever.  The close itself cannot hang
    either: on a socket that never flushes the goodbye, the task is over five seconds
    later, with the end of an ordinary session. *)
Theorem dropped_session_ends outcomes w :
  running w → w_handles w = false → length outcomes = S (length (sd_commands (w_driver w))) →
  ∃ k w' w'', run_events w (OnCommand <$> take k outcomes) = Some w' ∧ closed_by_request w' ∧
    run_events w' [Advance CLOSE_TIMEOUT; OnClosed false] = Some w'' ∧
    w_phase w'' = Stopped (Ok tt) ∧ w_now w'' = w_now w' + CLOSE_TIMEOUT.
Proof.
  intros Hr Hh Hlen.
  assert (∃ k w', run_events w (OnCommand <$> take k outcomes) = Some w' ∧ closed_by_request w')
    as (k & w' & Hrun & Hcl).
  { revert w Hr Hh Hlen. induction outcomes as [|o outcomes IH]; intros w Hr Hh Hlen; [done|].
    destruct (take_command_running w o Hr Hh) as (w1 & Hstep & Hh1 & [Hcl|[Hr1 [c Hc]]]).
    - exists 1%nat, w1. split; [|done]. cbn. by rewrite Hstep.
    - rewrite Hc in Hlen. cbn in Hlen. destruct (IH w1 Hr1 Hh1) as (k & w' & Hrun & Hcl); [lia|].
      exists (S k), w'. split; [|done]. cbn. by rewrite Hstep. }
  destruct (closing_times_out w' Hcl) as (w'' & Hend & Hst & Hnow). by exists k, w', w''.
Qed.

(** Time never runs backwards. *)
Lemma step_now w ev w' : step w ev = Some w' → w_now w ≤ w_now w'.
Proof.
  intros Hstep%step_cases. destruct Hstep as
    [|? ?|? ? ? Hsub| | |? ? Hcmd|nh ns r Hw Hr|nh ns o1 o2 Hw ?|nh ns Hw ?|? ? Hw ?|? ? ? o Hw ?|? result close_by Hw ?];
    cbn; try lia.
  - unfold submit in Hsub. case_decide; [|done].
    destruct (w_phase w); try (case_decide; [|done]); simplify_eq; cbn; lia.
  - unfold take_command in Hcmd. destruct (recv_command _ _) as [[c d]|]; [|done]. cbn in Hcmd.
    destruct (w_phase w); try done; simplify_eq.
    + by destruct (on_command d c outcome) as [? [[]|]].
    + destruct (answer_while_down _ _) as [? []]; simplify_eq; cbn; lia.
    + destruct (answer_while_down _ _) as [? []]; simplify_eq; cbn; lia.
  - by destruct r as [? [[]|]].
  - by destruct (on_heartbeat (w_driver w) o1 o2) as [? [[]|]].
  - by destruct (on_sweep (w_now w) (w_driver w)) as [? [[]|]].
  - by destruct o as [[]|[]].
Qed.

(** ** Backoff *)
Definition backoff_after (failures : nat) : Z :=
  Z.min (INITIAL_BACKOFF * 2 ^ Z.of_nat failures) MAX_BACKOFF.
(** The history of a reconnect, which the driver does not keep: how many attempts have
    failed since the connection was lost, and when the last thing went wrong (the loss
    itself, or the latest failed attempt). *)
Record Episode := { ep_failures : nat; ep_since : Instant }.

(** The episode after a step: a loss of the connection opens one, a failed attempt that
    leads to another wait is counted, every other step leaves it. *)
Definition next_episode (ep : Episode) (w w' : World) : Episode :=
  match w_phase w, w_phase w' with
  | Connected _ _, Backoff _ _ => {| ep_failures := 0; ep_since := w_now w' |}
  | Attempting _, Backoff _ _ => {| ep_failures := S (ep_failures ep); ep_since := w_now w' |}
  | _, _ => ep
  end.

(** The worlds a session reaches, with the episode they are in. *)
Inductive history : World → Episode → Prop :=
  | history_spawn now config attempt w ep :
      spawn_session now config attempt = Ok w → history w ep
  | history_step w ep ev w' :
      history w ep → step w ev = Some w' → history w' (next_episode ep w w').

Lemma history_reachable w : reachable w ↔ ∃ ep, history w ep.
Proof.
  split.
  - induction 1 as [now config attempt w Hw|w ev w' _ [ep IH] Hstep].
    + exists {| ep_failures := 0; ep_since := 0 |}. by eapply history_spawn.
    + eexists. by eapply history_step.
  - intros [ep Hh]. induction Hh as [now config attempt w ep Hw|w ep ev w' _ IH Hstep];
      [by eapply reach_spawn|by eapply reach_step].
Qed.

(** The wait is the one the failures call for, and it ends when it says. *)
Definition on_schedule (w : World) (ep : Episode) : Prop :=
  match w_phase w with
  | Backoff b wake => b = backoff_after (ep_failures ep) ∧ wake = ep_since ep + b
  | Attempting b => b = backoff_after (ep_failures ep) ∧ ep_since ep + b ≤ w_now w
  | _ => True
  end.

Lemma backoff_after_S k : backoff_after (S k) = Z.min (backoff_after k * 2) MAX_BACKOFF.
Proof.
  unfold backoff_after. rewrite Nat2Z.inj_succ, Z.pow_succ_r by lia.
  unfold INITIAL_BACKOFF, MAX_BACKOFF, from_secs. lia.
Qed.

(** Leaving the connected loop: the wait that opens an episode, or none. *)
Lemma after_arm_schedule w now handles nh ns nh' ns' r ep :
  w_phase w = Connected nh ns →
  let w' := after_arm now handles nh' ns' r in on_schedule w' (next_episode ep w w').
Proof.
  intros Hw w'. subst w'. unfold on_schedule, next_episode. rewrite Hw.
  by destruct r as [d [[]|]].
Qed.

(** A step that keeps the phase, or ends the session, keeps the schedule. *)
Lemma same_phase_schedule w w' ep :
  w_phase w' = w_phase w → w_now w ≤ w_now w' → on_schedule w ep →
  on_schedule w' (next_episode ep w w').
Proof.
  unfold on_schedule, next_episode. intros Hp Hn Hok. rewrite Hp.
  destruct (w_phase w); try done. destruct Hok. split; [done|lia].
Qed.

Lemma step_schedule w ev w' ep :
  on_schedule w ep → step_rel w ev w' → on_schedule w' (next_episode ep w w').
Proof.
  intros Hb Hstep. destruct Hstep as
    [|? ?|? ? ? Hsub| | |? ? Hcmd|nh ns r Hw Hr|nh ns ? ? Hw ?|nh ns Hw ?|b wake Hw ?|b ? ? o Hw ?|? result close_by Hw ?];
    try (by eapply after_arm_schedule); try (apply same_phase_schedule; [done|cbn; lia|done]).
  - unfold submit in Hsub. case_decide; [|done]. apply same_phase_schedule; [..|done];
      destruct (w_phase w) eqn:Hw; try (case_decide; [|done]); simplify_eq; cbn; (done || lia).
  - unfold take_command in Hcmd.
    destruct (recv_command _ _) as [[command d]|]; cbn [mbind option_bind] in Hcmd; [|done].
    destruct (w_phase w) eqn:Hw; try done.
    { simplify_eq. by eapply after_arm_schedule. }
    all: destruct (answer_while_down _ _) as [slots stop]; simplify_eq; destruct stop; [done|];
      apply same_phase_schedule; [done|cbn; lia|done].
  - unfold on_schedule, next_episode in *. rewrite Hw in *. cbn. destruct Hb. split; [done|lia].
  - unfold on_schedule, next_episode in *. rewrite Hw in *. destruct Hb as [Hb ?].
    destruct o as [[]|[]]; try done; cbn; by rewrite backoff_after_S, <- Hb.
  - unfold on_schedule. done.
Qed.

(** C33: Every reconnect wait follows the exponential schedule.  Along any history of a
    session, with the failed attempts counted since the connection was lost: the wait
    that is running lasts one second doubled once per failure and at most a minute, it
    ends exactly that long after the last thing that went wrong (the loss of the
    connection, or the latest failed attempt), and an attempt is never under way before
    the wait that precedes it is over.  A connection that was restored starts again
    from one second when it is lost, and every state a session can reach has such a
    history. *)
Theorem reconnect_backoff_schedule :
  (∀ w, reachable w → ∃ ep, history w ep) ∧
  (∀ w ep, history w ep →
    match w_phase w with
    | Backoff b wake =>
        b = Z.min (1000 * 2 ^ Z.of_nat (ep_failures ep)) 60000 ∧ wake = ep_since ep + b
    | Attempting b =>
        b = Z.min (1000 * 2 ^ Z.of_nat (ep_failures ep)) 60000 ∧ ep_since ep + b ≤ w_now w
    | _ => True
    end).
Proof.
  split; [intros w; apply history_reachable|]. intros w ep Hh.
  assert (on_schedule w ep) as Hok; [|done].
  induction Hh as [now config attempt w ep Hw|w ep ev w' _ IH Hstep].
  - by apply spawn_session_inv in Hw as (d & -> & _).
  - eapply step_schedule; [done|by apply step_cases].
Qed.

(** ** The initial connect *)
Definition retryable (r : Result (CmConnection * LoggedOn)) : bool :=
  match r with Err e => negb (is_auth_rejected e) | Ok _ => false end.

Lemma establish_resilient_stop remaining n b e attempt :
  retryable (attempt n) = false →
  establish_resilient_loop (S remaining) n b e attempt = (attempt n, []).
Proof. intros Hr. cbn. by destruct (attempt n) as [|[]]. Qed.

Lemma establish_resilient_retry remaining n b e attempt :
  retryable (attempt n) = true → (n < INITIAL_CONNECT_ATTEMPTS)%nat →
  ∃ e', establish_resilient_loop (S remaining) n b e attempt =
    let '(r, slept) := establish_resilient_loop remaining (S n) (Z.min (b * 2) MAX_BACKOFF) e' attempt
    in (r, b :: slept).
Proof.
  intros Hr Hn. cbn [establish_resilient_loop]. destruct (attempt n) as [|er]; [done|].
  exists er. destruct er; try done; by rewrite decide_True by done.
Qed.

Lemma establish_resilient_last b e attempt :
  establish_resilient_loop 1 INITIAL_CONNECT_ATTEMPTS b e attempt =
    (attempt INITIAL_CONNECT_ATTEMPTS, []).
Proof.
  cbn [establish_resilient_loop]. destruct (attempt INITIAL_CONNECT_ATTEMPTS) as [|[]]; try done;
    by rewrite decide_False by lia.
Qed.

(** The initial connect makes at most four attempts, stops at the first success or
    rejected token, sleeps 1, 2 and 4 seconds between them, and returns what its last
    attempt returned. *)
Theorem establish_resilient_spec attempt :
  ∃ k, (k ≤ 3)%nat ∧ establish_resilient attempt = (attempt (S k), take k [1000; 2000; 4000]) ∧
    (∀ i, (1 ≤ i ≤ k)%nat → retryable (attempt i) = true) ∧
    (k = 3%nat ∨ retryable (attempt (S k)) = false).
Proof.
  unfold establish_resilient, INITIAL_CONNECT_ATTEMPTS.
  destruct (retryable (attempt 1%nat)) eqn:R1.
  2: { exists 0%nat. rewrite establish_resilient_stop by done.
       split_and!; [lia|done|intros; lia|by right]. }
  destruct (establish_resilient_retry 3 1 INITIAL_BACKOFF (Network "no connect attempt ran")
    attempt R1) as [e1 ->]; [unfold INITIAL_CONNECT_ATTEMPTS; lia|].
  destruct (retryable (attempt 2%nat)) eqn:R2.
  2: { exists 1%nat. rewrite establish_resilient_stop by done. split_and!; [lia|done| |by right].
       intros i Hi. by replace i with 1%nat by lia. }
  destruct (establish_resilient_retry 2 2 (Z.min (INITIAL_BACKOFF * 2) MAX_BACKOFF) e1 attempt R2)
    as [e2 ->];
    [unfold INITIAL_CONNECT_ATTEMPTS; lia|].
  assert (∀ i, (1 ≤ i ≤ 2)%nat → retryable (attempt i) = true) as R12.
  { intros i Hi. by destruct (decide (i = 1%nat)) as [->|]; [|replace i with 2%nat by lia]. }
  destruct (retryable (attempt 3%nat)) eqn:R3.
  2: { exists 2%nat. rewrite establish_resilient_stop by done. split_and!; [lia|done|done|by right]. }
  destruct (establish_resilient_retry 1 3 (Z.min (Z.min (INITIAL_BACKOFF * 2) MAX_BACKOFF * 2)
    MAX_BACKOFF) e2 attempt R3) as [e3 ->];
    [unfold INITIAL_CONNECT_ATTEMPTS; lia|].
  exists 3%nat. rewrite establish_resilient_last. split_and!; [lia|done| |by left].
  intros i Hi. destruct (decide (i = 3%nat)) as [->|]; [done|]. apply R12. lia.
Qed.

(** ** Logoffs and the watchdog *)

(** A server-side logoff heals by reconnecting exactly when its body decodes to
    [NoConnection], [ServiceUnavailable] or [TryAnotherCM]; any other code, a missing
    one or an undecodable body ends the session for good. *)
Theorem logoff_classification msg :
  (classify_logoff msg = DisconnectedExit ↔
     ∃ decoded, msg_decode (sm_body msg) = Ok decoded ∧
       (lo_eresult decoded = Some 3 ∨ lo_eresult decoded = Some 20 ∨ lo_eresult decoded = Some 48)) ∧
  (classify_logoff msg = DisconnectedExit ∨ ∃ reason, classify_logoff msg = LoggedOffExit reason).
Proof.
  unfold classify_logoff. destruct (msg_decode (sm_body msg)) as [dec|e];
    [|split; [split; [done|by intros (? & ? & _)]|by right; eexists]].
  case_bool_decide as Hin; (split; [split|]); [|done|by left|done| |by right; eexists].
  - intros _. exists dec. split; [done|]. destruct (lo_eresult dec) as [c|]; cbn in Hin.
    + unfold eresult.NO_CONNECTION, eresult.SERVICE_UNAVAILABLE, eresult.TRY_ANOTHER_CM in Hin.
      set_solver.
    + unfold eresult.FAIL, eresult.NO_CONNECTION, eresult.SERVICE_UNAVAILABLE,
        eresult.TRY_ANOTHER_CM in Hin. set_solver.
  - intros (dec' & Hd & Hc). injection Hd as <-. exfalso. apply Hin.
    destruct Hc as [-> | [-> | ->]]; cbn; unfold eresult.NO_CONNECTION, eresult.SERVICE_UNAVAILABLE,
      eresult.TRY_ANOTHER_CM; set_solver.
Qed.

Lemma idle_timeout_bounds hb : 60000 ≤ idle_timeout hb ∧ 6 * hb ≤ idle_timeout hb.
Proof. unfold idle_timeout, IDLE_PROBE_MISSES, MIN_IDLE_TIMEOUT, from_secs. lia. Qed.

Lemma read_frame_touched now read r read' lv' :
  read_frame now read now = (r, read', lv') → lv' = now.
Proof.
  induction read as [|[[m|e]|] read IH]; cbn; try by intros [= _ _ <-].
  destruct m; try (by intros [= _ _ <-]); apply IH.
Qed.

Lemma read_message_touched fuel now read inbox r read' inbox' lv' :
  read_message_fuel GzDecoder fuel now read inbox now = Some (r, read', inbox', lv') → lv' = now.
Proof.
  revert read inbox. induction fuel as [|fuel IH]; intros read inbox; [done|].
  cbn [read_message_fuel]. destruct inbox as [|m inbox]; [|by intros [= _ _ _ <-]].
  destruct (read_frame now read now) as [[[|[frame|e]] rd] lv] eqn:Hf;
    apply read_frame_touched in Hf as ->; try by intros [= _ _ _ <-].
  destruct (try_decode frame) as [[[msg|]|e]|]; cbn [mbind option_bind]; try done.
  - case_decide; [|by intros [= _ _ _ <-]].
    destruct (decode_multi _ _) as [[ms|e]|]; cbn [mbind option_bind]; [apply IH| |done].
    by intros [= _ _ _ <-].
  - apply IH.
  - by intros [= _ _ _ <-].
Qed.

(** Reading starts by stamping the frame at hand, whatever the old stamp was. *)
Lemma on_read_touched now d m rest d' exit :
  sd_inbox d = [] → sd_read d = Some (Ok m) :: rest → on_read now d = Some (d', exit) →
  sd_liveness d' = now.
Proof.
  intros Hib Hrd. unfold on_read, read_message. rewrite Hrd, Hib.
  assert (read_message_fuel GzDecoder (S (S (length (Some (Ok m) :: rest)))) now
            (Some (Ok m) :: rest) [] (sd_liveness d) =
          read_message_fuel GzDecoder (S (S (length (Some (Ok m) :: rest)))) now
            (Some (Ok m) :: rest) [] now) as -> by (by destruct m).
  destruct (read_message_fuel _ _ _ _ _ _) as [[[[r rd] ib] lv]|] eqn:Hr;
    cbn [mbind option_bind]; [|done].
  apply read_message_touched in Hr as ->.
  destruct r as [|[msg|e]]; [by intros [= <- _]| |by intros [= <- _]].
  case_decide; intros [= <- _]; [done|]. unfold dispatch. by destruct (_ ≫= _) as [[]|].
Qed.

(** C36: The read-idle watchdog spares a socket that still talks and only gives up on a
    dead one: after any frame arrives, even a bare Pong, no sweep of the following
    minute (nor of the next six probe intervals) drops the connection; after
    [idle_timeout] of silence the next sweep does. *)
Theorem watchdog_spares_live_socket now d m rest d' exit later :
  sd_inbox d = [] → sd_read d = Some (Ok m) :: rest → on_read now d = Some (d', exit) →
  (later < now + Z.max 60000 (6 * sd_heartbeat d') → (on_sweep later d').2 = None) ∧
  (now + Z.max 60000 (6 * sd_heartbeat d') ≤ later →
     (on_sweep later d').2 = Some DisconnectedExit).
Proof.
  intros Hib Hrd Hon. pose proof (on_read_touched _ _ _ _ _ _ Hib Hrd Hon) as Hlv.
  unfold on_sweep, read_idle_expired, idle_for, idle_timeout, IDLE_PROBE_MISSES, MIN_IDLE_TIMEOUT,
    from_secs. rewrite Hlv.
  destruct (Z.leb_spec (Z.max (sd_heartbeat d' * 6) (1000 * 60)) (later - now)); cbn;
    split; intros; (done || lia).
Qed.

(** ** No panics *)

(** When the code is ready to handle an event: the guards of its waits and timers. *)
Definition enabled (w : World) (ev : Event) : Prop :=
  let d := w_driver w in
  match ev, w_phase w with
  | (Arrive _ | DropHandles), _ => True
  | Advance ms, _ => 0 ≤ ms
  | Submit s _, Stopped _ => sd_slots d !! s = None ∧ w_handles w = true
  | Submit s _, _ =>
      (sd_slots d !! s = None ∧ w_handles w = true) ∧ (length (sd_commands d) < 64)%nat
  | DropReceiver s, _ => sd_slots d !! s = Some SlotOpen
  | OnCommand _, (Connected _ _ | Backoff _ _ | Attempting _) =>
      sd_commands d ≠ [] ∨ w_handles w = false
  | OnRead, Connected _ _ => True
  | OnHeartbeat _ _, Connected nh _ => nh ≤ w_now w
  | OnSweep, Connected _ ns => ns ≤ w_now w
  | OnBackoff, Backoff _ wake => wake ≤ w_now w
  | OnAttempt _ _, Attempting _ => True
  | OnClosed flushed, Closing _ close_by => flushed = true ∨ close_by ≤ w_now w
  | _, _ => False
  end.

Lemma on_read_total now d : is_Some (on_read now d).
Proof.
  unfold on_read.
  destruct (read_message_total GzDecoder now (sd_read d) (sd_inbox d) (sd_liveness d))
    as [[[[r rd] ib] lv] ->]. cbn [mbind option_bind]. destruct r as [|[msg|e]]; [done| |done].
  by case_decide.
Qed.

Lemma recv_command_enabled handles d :
  is_Some (recv_command handles d) ↔ sd_commands d ≠ [] ∨ handles = false.
Proof.
  unfold recv_command. destruct (sd_commands d), handles; split; try done; try (intros [? [=]]);
    auto; by intros [].
Qed.

Lemma take_command_enabled w outcome :
  is_Some (take_command w outcome) ↔ enabled w (OnCommand outcome).
Proof.
  unfold take_command, enabled. pose proof (recv_command_enabled (w_handles w) (w_driver w)) as Hr.
  destruct (recv_command _ _) as [[c d]|]; cbn [mbind option_bind].
  - assert (sd_commands (w_driver w) ≠ [] ∨ w_handles w = false) by by apply Hr.
    destruct (w_phase w); split; try done; try (intros [? [=]]); by destruct (answer_while_down _ _).
  - destruct (w_phase w); split; try (by intros [? [=]]); try done; by intros [? [=]]%Hr.
Qed.

Lemma submit_enabled w s call : is_Some (submit w s call) ↔ enabled w (Submit s call).
Proof.
  unfold submit, enabled, COMMAND_CAPACITY. case_decide as Hf; destruct (w_phase w);
    try case_decide as Hc; split; try done; try (by intros [? [=]]); naive_solver.
Qed.

(** C34: The driver never panics and never wedges: every event the code is ready for (by the
    guards of its channels, timers and loops) is handled, whatever the frames hold and
    whatever the network does, and no other event is. *)
Theorem driver_never_panics w ev : is_Some (step w ev) ↔ enabled w ev.
Proof.
  destruct ev; try apply take_command_enabled; try apply submit_enabled; unfold step, enabled;
    try case_decide; destruct (w_phase w); try case_decide; split; try done; try (by intros [? [=]]).
  - intros _. by destruct (on_read_total (w_now w) (w_driver w)) as [r ->].
  - intros _. by destruct (establish_total GzDecoder (w_now w) (sc_account_name (sd_config (w_driver w)))
      (sc_refresh_token (sd_config (w_driver w))) env discovered) as [r ->].
Qed.
(** ** What a step leaves alone *)
Lemma step_handles w ev w' :
  step w ev = Some w' → ev ≠ DropHandles → w_handles w' = w_handles w.
Proof.
  intros Hstep%step_cases Hev.
  assert (∀ now h nh ns r, w_handles (after_arm now h nh ns r) = h) as Harm
    by (by intros ? ? ? ? [? [[]|]]).
  destruct Hstep as
    [|? ?|? ? ? Hsub|s' Hs'| |o ? Hcmd|nh ns r Hw Hr|nh ns ? ? Hw ?|nh ns Hw ?|? ? Hw ?|? ? ? o Hw ?|? result close_by Hw ?];
    try done.
  - unfold submit in Hsub. case_decide; [|done].
    destruct (w_phase w); try (case_decide; [|done]); by simplify_eq.
  - unfold take_command in Hcmd. apply bind_Some in Hcmd as ([command d] & _ & Hw).
    destruct (w_phase w); try done; [by simplify_eq|..];
      destruct (answer_while_down _ _) as [slots []]; by simplify_eq.
  - by destruct o as [[]|[]].
Qed.

(** Only the connected loop broadcasts. *)
Lemma step_log w ev w' :
  step w ev = Some w' → (∀ nh ns, w_phase w ≠ Connected nh ns) →
  sd_events (w_driver w') = sd_events (w_driver w).
Proof.
  intros Hstep%step_cases Hp. destruct Hstep as
    [|? ?|? ? ? Hsub|s' Hs'| |o ? Hcmd|nh ns r Hw Hr|nh ns ? ? Hw ?|nh ns Hw ?|? ? Hw ?|? ? ? o Hw ?|? result close_by Hw ?];
    try done; try (by destruct (Hp nh ns)).
  - unfold submit in Hsub. case_decide; [|done].
    destruct (w_phase w); try (case_decide; [|done]); by simplify_eq.
  - unfold take_command in Hcmd. apply bind_Some in Hcmd as ([command d] & Hr & Hw).
    assert (sd_events d = sd_events (w_driver w)) as <-.
    { unfold recv_command in Hr. destruct (sd_commands (w_driver w)), (w_handles w); by simplify_eq. }
    destruct (w_phase w) as [nh ns| | | |]; try done; [by destruct (Hp nh ns)|..];
      destruct (answer_while_down _ _) as [slots []]; by simplify_eq.
  - by destruct o as [[]|[]].
Qed.

(** Nothing restarts a stopped driver. *)
Lemma step_stopped w ev w' r :
  step w ev = Some w' → w_phase w = Stopped r → w_phase w' = Stopped r.
Proof.
  intros Hstep%step_cases Hp. destruct Hstep as
    [|? ?|? ? ? Hsub|s' Hs'| |o ? Hcmd|nh ns r' Hw Hr|nh ns ? ? Hw ?|nh ns Hw ?|? ? Hw ?|? ? ? o Hw ?|? result close_by Hw ?];
    try done; try congruence.
  - unfold submit in Hsub. case_decide; [|done]. rewrite Hp in Hsub. by simplify_eq.
  - unfold take_command in Hcmd. apply bind_Some in Hcmd as ([command d] & _ & Hw). by rewrite Hp in Hw.
Qed.

End driver.

(** ** Concrete runs *)
Section witnesses.
Import Wire.Instances.
#[local] Existing Instance header_message_laws.

Definition sample_config : SessionConfig :=
  {| sc_account_name := "bot"; sc_refresh_token := "token"; sc_proxy := None |}.
Definition sample_driver : SessionDriver :=
  {| sd_write := []; sd_read := []; sd_inbox := []; sd_liveness := 0;
     sd_steam_id := 76561198000000000; sd_session_id := 42; sd_heartbeat := 1000;
     sd_next_jobid := 1; sd_pending := ∅; sd_commands := []; sd_events := [];
     sd_state := StLoggedOn 76561198000000000; sd_snapshots := ∅; sd_slots := ∅;
     sd_config := sample_config |}.
Definition sample_world : World := enter_connected 0 true sample_driver.
Definition after (evs : list Event) : World :=
  default sample_world (run_events stored sample_world evs).

Lemma sample_reachable : reachable stored sample_world.
Proof.
  by apply (reach_spawn stored 0 sample_config (λ _, Ok (sample_conn_on, logged_on_sample))).
Qed.

Lemma reachable_run w evs w' :
  reachable stored w → run_events stored w evs = Some w' → reachable stored w'.
Proof.
  revert w. induction evs as [|ev evs IH]; intros w Hr; cbn [run_events]; [by intros [= <-]|].
  destruct (step stored w ev) as [w1|] eqn:Hs; cbn [mbind option_bind]; [|done].
  apply IH. by eapply reach_step.
Qed.

Lemma after_reachable evs : reachable stored (after evs).
Proof.
  unfold after. destruct (run_events stored sample_world evs) as [w|] eqn:Hr; cbn;
    [|apply sample_reachable]. eapply reachable_run; [apply sample_reachable|done].
Qed.

(** A request in flight, a second one queued behind a logoff. *)
Definition logoff_run : list Event :=
  [Submit 0 (CallRequest 151 [] 30000); OnCommand None; Submit 1 CallLogoff;
   Submit 2 (CallRequest 151 [] 30000); OnCommand None; OnClosed true].
(** A request in flight when the socket closes. *)
Definition drop_run : list Event :=
  [Submit 0 (CallRequest 151 [] 30000); OnCommand None; Arrive None; OnRead].

Lemma stopped_driver_answers_everyone_witness :
  w_phase (after logoff_run) = Stopped (Ok tt) ∧
  sd_slots (w_driver (after logoff_run)) !! 0%nat ≠ Some SlotOpen.
Proof.
  split; [by vm_compute|].
  apply (stopped_driver_answers_everyone stored _ (Ok tt)); [apply after_reachable|by vm_compute].
Defined.

Lemma down_driver_has_no_pending_witness : sd_pending (w_driver (after drop_run)) = ∅.
Proof.
  apply (down_driver_has_no_pending stored _ 0%nat); [apply after_reachable|by vm_compute].
Defined.

Lemma published_state_is_truthful_witness :
  published (after drop_run) ∧ sd_state (w_driver (after drop_run)) = Connecting.
Proof.
  split; [apply (published_state_is_truthful stored), after_reachable|by vm_compute].
Defined.

Lemma next_jobid_is_fresh_witness :
  sd_pending (w_driver sample_world) !! sd_next_jobid (w_driver sample_world) = None.
Proof.
  apply (next_jobid_is_fresh stored 0); [|lia].
  by apply (reach_in_spawn stored 0 sample_config (λ _, Ok (sample_conn_on, logged_on_sample))).
Defined.

(** The friends-list push, an answer to job 1, and an event of neither kind. *)
Definition friends_list_msg : SteamMessage :=
  {| sm_emsg := 767; sm_header := header_default; sm_body := [x07] |}.
Definition reply_header : CMsgProtoBufHeader :=
  {| h_steamid := None; h_client_sessionid := None; h_jobid_source := None;
     h_jobid_target := Some 1; h_eresult := Some 1; h_error_message := None; h_rest := [] |}.
Definition reply_msg : SteamMessage :=
  {| sm_emsg := 152; sm_header := reply_header; sm_body := [x09] |}.
Definition one_pending : SessionDriver :=
  w_driver (after [Submit 0 (CallRequest 151 [] 30000); OnCommand None]).
Definition pushed : World :=
  after [Arrive (Some (Ok (WsBinary (frame_of_msg friends_list_msg))))].

Lemma snapshots_first_wins_witness :
  ∃ w', step stored pushed OnRead = Some w' ∧ sd_snapshots (w_driver w') !! 767 = Some [x07] ∧
        sd_snapshots (w_driver pushed) ⊆ sd_snapshots (w_driver w').
Proof.
  eexists. split; [by vm_compute|]. split; [by vm_compute|].
  destruct (snapshots_first_wins stored pushed OnRead
    (default pushed (step stored pushed OnRead))) as [Hs|(b & _ & _ & Hp & _)];
    [by vm_compute|by vm_compute in Hs|by vm_compute in Hp].
Defined.

Lemma dispatch_reply_witness :
  sd_slots (dispatch one_pending reply_msg) =
    <[0%nat := SlotFull (ARequest (Ok reply_msg))]> (sd_slots one_pending).
Proof.
  apply (dispatch_reply one_pending reply_msg 1 {| p_reply := 0; p_deadline := 30000 |});
    by vm_compute.
Defined.

Lemma dispatch_unsolicited_witness :
  sd_events (dispatch one_pending friends_list_msg) = [friends_list_msg].
Proof.
  apply (dispatch_unsolicited one_pending friends_list_msg). intros j Hj. by vm_compute in Hj.
Defined.

Lemma sweep_exact_witness :
  sd_slots (on_sweep 30000 one_pending).1 !! 0%nat = Some timed_out.
Proof.
  apply (sweep_exact 30000 one_pending); [by vm_compute..|].
  exists 1, {| p_reply := 0; p_deadline := 30000 |}. by vm_compute.
Defined.

Lemma request_reply_round_trip_witness :
  ∃ w', run_events stored (after [Submit 0 (CallRequest 151 [x05] 30000)])
          [OnCommand None; Arrive (Some (Ok (WsBinary (frame_of_msg reply_msg)))); OnRead] = Some w' ∧
    sd_slots (w_driver w') !! 0%nat = Some (SlotFull (ARequest (Ok reply_msg))) ∧
    sd_events (w_driver w') = [] ∧ sd_snapshots (w_driver w') = ∅.
Proof.
  eexists. split; [|split; [|split]].
  - apply (request_reply_round_trip stored (after [Submit 0 (CallRequest 151 [x05] 30000)])
      1000 1000 151 [x05] 30000 0 [] 152 reply_header [x09]); by vm_compute.
  - cbn [w_driver sd_slots]. by rewrite lookup_insert_eq.
  - by vm_compute.
  - by vm_compute.
Defined.

Lemma checked_request_is_honest_witness :
  ∃ msg : SteamMessage,
    h_eresult (sm_header msg) = None ∨ h_eresult (sm_header msg) = Some eresult.OK.
Proof.
  destruct (checked_request_is_honest
    (Ok {| sm_emsg := 152; sm_header := reply_header;
           sm_body := encode_to_vec {| lo_eresult := Some 1 |} |})
    {| lo_eresult := Some 1 |}) as (msg & _ & _ & Hok); [by vm_compute|]. by exists msg.
Defined.

Lemma dropped_session_ends_witness :
  ∃ k w' w'', run_events stored (after [Submit 0 (CallRequest 151 [] 30000); DropHandles])
            (OnCommand <$> take k [Some "broken pipe"%string; None]) = Some w' ∧
          closed_by_request w' ∧ run_events stored w' [Advance CLOSE_TIMEOUT; OnClosed false] = Some w'' ∧
          w_phase w'' = Stopped (Ok tt) ∧ w_now w'' = w_now w' + CLOSE_TIMEOUT.
Proof. apply (dropped_session_ends stored); by vm_compute. Defined.

Fixpoint history_after (w : World) (ep : Episode) (evs : list Event) : option (World * Episode) :=
  match evs with
  | [] => Some (w, ep)
  | ev :: evs => w' ← step stored w ev; history_after w' (next_episode ep w w') evs
  end.

Lemma history_run evs w ep w' ep' :
  history stored w ep → history_after w ep evs = Some (w', ep') → history stored w' ep'.
Proof.
  revert w ep. induction evs as [|ev evs IH]; intros w ep Hh; cbn [history_after].
  { by intros [= <- <-]. }
  destruct (step stored w ev) as [w1|] eqn:Hs; cbn [mbind option_bind]; [|done].
  apply IH. by eapply history_step.
Qed.

(** The connection is lost at time 500, Steam's directory cannot be reached after the
    first wait (at 2000) and after the second (at 4100). *)
Definition two_failures : list Event :=
  let failed := OnAttempt (λ _, {| sa_socket := λ _, Err (Network "down"); sa_write := None;
                                   sa_timeout := false |}) (Err (Network "down")) in
  [Advance 500; Arrive None; OnRead; Advance 1500; OnBackoff; failed;
   Advance 2100; OnBackoff; failed].

Lemma reconnect_backoff_schedule_witness :
  ∃ w, history stored w {| ep_failures := 2; ep_since := 4100 |} ∧
       w_phase w = Backoff 4000 8100 ∧
       4000 = Z.min (1000 * 2 ^ 2) 60000 ∧ 8100 = 4100 + 4000.
Proof.
  assert (history stored (after two_failures) {| ep_failures := 2; ep_since := 4100 |}) as Hh.
  { apply (history_run two_failures sample_world {| ep_failures := 0; ep_since := 0 |}).
    - by apply (history_spawn stored 0 sample_config (λ _, Ok (sample_conn_on, logged_on_sample))).
    - by vm_compute. }
  exists (after two_failures). split; [done|].
  assert (w_phase (after two_failures) = Backoff 4000 8100) as Hp by by vm_compute.
  split; [done|]. pose proof (reconnect_backoff_schedule stored) as [_ Hs].
  specialize (Hs _ _ Hh). by rewrite Hp in Hs.
Defined.

Definition ponged : SessionDriver :=
  w_driver (after [Advance 50000; Arrive (Some (Ok (WsPong [])))]).
Lemma watchdog_spares_live_socket_witness :
  ∃ d', on_read stored 50000 ponged = Some (d', None) ∧ (on_sweep 100000 d').2 = None.
Proof.
  eexists. split; [by vm_compute|].
  eapply (watchdog_spares_live_socket stored 50000 ponged (WsPong []) []); by vm_compute.
Defined.
End witnesses.
