(* ===== verification/Ledger.v ===== *)
(** * Replies are never swapped

    Any number of requests may be in flight on one session.  The driver of Driver.v is
    augmented with a ledger of the requests it has put on the wire (their channel, job id,
    message and frame), which no step reads: the invariant of the ledger says that a
    channel only ever holds a reply to its own request. *)
From S2P Require Import Prelude Errors Proto Wire Codec Connection Driver.
#[local] Set Default Goal Selector "!".

(** ** Channels *)

(** Channels stay open to their owner, and a channel that holds a reply either held it
    before or belongs to a pending request that the reply names. *)
Definition rightful (pending : gmap Z PendingEntry) (sl sl' : Slots) : Prop := ∀ s,
  (is_Some (sl !! s) → is_Some (sl' !! s)) ∧
  ∀ msg, sl' !! s = Some (SlotFull (ARequest (Ok msg))) →
    sl !! s = Some (SlotFull (ARequest (Ok msg))) ∨
    ∃ j e, pending !! j = Some e ∧ p_reply e = s ∧ reply_target msg = Some j.

#[export] Instance rightful_preorder pending : PreOrder (rightful pending).
Proof.
  split; [intros sl s; auto|]. intros sl1 sl2 sl3 H12 H23 s.
  destruct (H12 s) as [Ho1 Hf1], (H23 s) as [Ho2 Hf2]. split; [auto|].
  intros msg [Hm|?]%Hf2; [by apply Hf1|by right].
Qed.

Lemma rightful_weaken pending pending' sl sl' :
  pending ⊆ pending' → rightful pending sl sl' → rightful pending' sl sl'.
Proof.
  intros Hsub Hr s. destruct (Hr s) as [Ho Hf]. split; [done|].
  intros msg [?|(j & e & Hj & ?)]%Hf; [by left|]. right. exists j, e.
  split; [by eapply lookup_weaken|done].
Qed.

Lemma rightful_insert pending sl s v :
  (∀ msg, v ≠ SlotFull (ARequest (Ok msg))) → rightful pending sl (<[s := v]> sl).
Proof.
  intros Hv s'. split.
  - intros ?. destruct (decide (s = s')) as [->|]; [by rewrite lookup_insert_eq|].
    by rewrite lookup_insert_ne.
  - intros msg [[-> ->]|[? ?]]%lookup_insert_Some; [by destruct (Hv msg)|by left].
Qed.

Lemma rightful_send pending sl s v :
  (∀ msg, v ≠ ARequest (Ok msg)) → rightful pending sl (oneshot_send sl s v).
Proof.
  intros Hv. unfold oneshot_send. case_decide; [|done]. apply rightful_insert.
  intros msg [= ->]. by destruct (Hv msg).
Qed.

Lemma rightful_drop pending sl s : rightful pending sl (oneshot_drop sl s).
Proof. unfold oneshot_drop. case_decide; [|done]. by apply rightful_insert. Qed.

Lemma rightful_fail_all pending m sl reason : rightful pending sl (fail_all_pending m sl reason).
Proof.
  unfold fail_all_pending.
  apply (map_fold_weak_ind (λ r _, rightful pending sl r)); [done|]. intros j e m' r _ Hr.
  etransitivity; [done|]. by apply rightful_send.
Qed.

Lemma rightful_sweep pending now m sl : rightful pending sl (sweep_pending now m sl).2.
Proof.
  intros s. destruct (sweep_slots_exact now m sl s) as [(Ho & _ & ->)|[_ ->]]; [|by auto].
  rewrite Ho. split; [done|]. by intros msg.
Qed.

Lemma rightful_drop_all pending ss sl : rightful pending sl (foldl oneshot_drop sl ss).
Proof.
  revert sl. induction ss as [|s ss IH]; intros sl; [done|]. cbn.
  etransitivity; [apply rightful_drop|apply IH].
Qed.

(** ** Steps that send no request *)
Definition quiet (d d' : SessionDriver) : Prop :=
  shrinks d d' ∧ rightful (sd_pending d) (sd_slots d) (sd_slots d') ∧
  sd_commands d' `sublist_of` sd_commands d.

#[export] Instance quiet_preorder : PreOrder quiet.
Proof.
  split; [by intros d|]. intros d1 d2 d3 (H12 & Hr12 & Hc12) (H23 & Hr23 & Hc23).
  split; [by etransitivity|]. split; [|by etransitivity]. etransitivity; [done|].
  eapply rightful_weaken; [|done]. apply H12.
Qed.

Lemma quiet_slots d slots :
  rightful (sd_pending d) (sd_slots d) slots → quiet d (set_slots d slots).
Proof. intros Hr. split; [done|]. by split. Qed.

Lemma dispatch_quiet d msg : quiet d (dispatch d msg).
Proof.
  split; [apply dispatch_shrinks|]. split; [|by rewrite dispatch_commands].
  unfold dispatch. destruct (reply_target msg) as [j|] eqn:Ht; cbn; [|done].
  destruct (sd_pending d !! j) as [e|] eqn:Hj; cbn; [|done].
  unfold oneshot_send. case_decide as Ho; [|done]. intros s. split.
  - intros ?. destruct (decide (p_reply e = s)) as [<-|]; [by rewrite lookup_insert_eq|].
    by rewrite lookup_insert_ne.
  - intros msg' [[<- [= <-]]|[_ ?]]%lookup_insert_Some; [right; by exists j, e|by left].
Qed.

Lemma foldl_dispatch_quiet msgs d : quiet d (foldl dispatch d msgs).
Proof.
  revert d. induction msgs as [|m msgs IH]; intros d; [done|]. cbn.
  etransitivity; [apply dispatch_quiet|apply IH].
Qed.

Lemma fail_all_quiet d reason :
  quiet d (set_slots (set_pending d ∅) (fail_all_pending (sd_pending d) (sd_slots d) reason)).
Proof.
  split; [split; [done|apply map_empty_subseteq]|]. split; [apply rightful_fail_all|done].
Qed.

Lemma leave_quiet now handles d r : quiet d (w_driver (leave now handles d r)).
Proof. apply fail_all_quiet. Qed.

Lemma on_exit_quiet now handles d exit : quiet d (w_driver (on_exit now handles d exit)).
Proof.
  destruct exit; [apply leave_quiet..|]. cbn [w_driver on_exit].
  etransitivity; [apply (foldl_dispatch_quiet (sd_inbox d))|].
  etransitivity; [|apply (fail_all_quiet (drain_inbox d) "session reconnecting")]. done.
Qed.

Lemma after_arm_quiet now handles nh ns d r :
  quiet d r.1 → quiet d (w_driver (after_arm now handles nh ns r)).
Proof.
  intros Hr. destruct r as [d' [exit|]]; [|done].
  etransitivity; [apply Hr|apply on_exit_quiet].
Qed.

Lemma recv_command_quiet handles d command d' :
  recv_command handles d = Some (command, d') → quiet d d'.
Proof.
  unfold recv_command. destruct (sd_commands d) as [|c rest] eqn:Hc; [destruct handles; [done|]|];
    intros [= <- <-]; [done|]. split; [done|]. split; [done|]. cbn. rewrite Hc. by constructor.
Qed.

Lemma answer_while_down_rightful pending slots command :
  rightful pending slots (answer_while_down slots command).1.
Proof. destruct command as [[]|]; [by apply rightful_send..|done]. Qed.

(** ** The ledger *)
Record LedgerEntry := {
  le_job : Z;
  le_emsg : Z;
  le_body : list byte;
  le_frame : list byte
}.
Abbreviation Ledger := (gmap nat LedgerEntry).

Section ledger.
Context `{Message CMsgProtoBufHeader, Message CMsgMulti, Message CMsgClientLoggedOff,
          Message CMsgClientLogon, Message CMsgClientLogonResponse}.
Context (GzDecoder : list byte → list byte * option string).

Lemma on_read_quiet now d r : on_read GzDecoder now d = Some r → quiet d r.1.
Proof.
  unfold on_read.
  destruct (read_message _ _ _ _ _) as [[[[res rd] ib] lv]|]; cbn [mbind option_bind]; [|done].
  destruct res as [|[msg|e]]; [by intros [= <-]| |by intros [= <-]].
  case_decide; intros [= <-]; [done|]. apply (dispatch_quiet (set_reader d rd ib lv)).
Qed.

Lemma on_heartbeat_quiet d o1 o2 : quiet d (on_heartbeat d o1 o2).1.
Proof.
  unfold on_heartbeat. destruct (send_frame_eq d EMSG_CLIENT_HEARTBEAT None [] o1) as [wire ->].
  by destruct o1, o2.
Qed.

Lemma on_sweep_quiet now d : quiet d (on_sweep now d).1.
Proof.
  split; [apply on_sweep_shrinks|]. unfold on_sweep. destruct (read_idle_expired _ _ _); [done|].
  split; [apply rightful_sweep|done].
Qed.

(** A command that is no request. *)
Lemma on_command_quiet d command outcome :
  (∀ emsg body dl s, command ≠ Some (Request emsg body dl s)) →
  quiet d (on_command d command outcome).1.
Proof.
  intros Hc. destruct command as [[emsg body dl s|emsg body s|s]|]; [by destruct (Hc emsg body dl s)| | |done];
    unfold on_command.
  - destruct (send_frame_eq d emsg None body outcome) as [wire ->].
    apply (quiet_slots (set_write d wire)). by apply rightful_send.
  - destruct (send_frame_eq d EMSG_CLIENT_LOGOFF None [] outcome) as [wire ->].
    apply (quiet_slots (set_write d wire)). by apply rightful_send.
Qed.

(** The request this event puts on the wire, and its channel. *)
Definition entered (w : World) (ev : Event) : option (nat * LedgerEntry) :=
  let d := w_driver w in
  match ev, w_phase w, sd_commands d with
  | OnCommand None, Connected _ _, Request emsg body _ s :: _ =>
      Some (s, {| le_job := sd_next_jobid d; le_emsg := emsg; le_body := body;
                  le_frame := encode_raw emsg (session_header (sd_steam_id d) (sd_session_id d)
                                (Some (sd_next_jobid d))) body |})
  | _, _, _ => None
  end.
Definition enter (w : World) (ev : Event) (l : Ledger) : Ledger :=
  match entered w ev with Some (s, entry) => <[s := entry]> l | None => l end.

(** A session with its ledger, after taking [n] commands off the queue. *)
Inductive tracked : Z → World → Ledger → Prop :=
  | tracked_spawn now config attempt w :
      spawn_session now config attempt = Ok w → tracked 0 w ∅
  | tracked_command n w l o w' :
      tracked n w l → step GzDecoder w (OnCommand o) = Some w' →
      tracked (n + 1) w' (enter w (OnCommand o) l)
  | tracked_other n w l ev w' :
      tracked n w l → (∀ o, ev ≠ OnCommand o) → step GzDecoder w ev = Some w' →
      tracked n w' l.

(** The ledger only watches: forgetting it leaves a run of the driver. *)
Lemma tracked_reachable_in n w l : tracked n w l → reachable_in GzDecoder n w.
Proof. induction 1; by econstructor. Qed.
Lemma reachable_in_tracked n w : reachable_in GzDecoder n w → ∃ l, tracked n w l.
Proof.
  induction 1 as [|n w o w' _ [l IH] ?|n w ev w' _ [l IH] ? ?]; eexists; by econstructor.
Qed.

(** *** Its invariant *)
Record ledger_ok (d : SessionDriver) (l : Ledger) : Prop := {
  lo_pending j e : sd_pending d !! j = Some e → le_job <$> l !! p_reply e = Some j;
  lo_reply s msg : sd_slots d !! s = Some (SlotFull (ARequest (Ok msg))) →
    le_job <$> l !! s = reply_target msg ∧ is_Some (reply_target msg);
  lo_opened s : is_Some (l !! s) → is_Some (sd_slots d !! s);
  lo_queued c : c ∈ sd_commands d →
    l !! command_slot c = None ∧ is_Some (sd_slots d !! command_slot c);
  lo_nodup : NoDup (command_slot <$> sd_commands d);
  lo_issued s e : l !! s = Some e → 1 ≤ le_job e < sd_next_jobid d;
  lo_distinct s1 s2 e1 e2 : l !! s1 = Some e1 → l !! s2 = Some e2 → le_job e1 = le_job e2 → s1 = s2
}.

Lemma ledger_ok_quiet d d' l : ledger_ok d l → quiet d d' → ledger_ok d' l.
Proof.
  intros [] ((Hn & Hp) & Hr & Hc). split.
  - intros j e Hj. eapply lo_pending0, lookup_weaken; done.
  - intros s msg Hm. destruct (Hr s) as [_ Hf]. destruct (Hf msg Hm) as [?|(j & e & Hj & <- & ->)].
    + by apply lo_reply0.
    + by rewrite (lo_pending0 _ _ Hj).
  - intros s Hs. by apply Hr, lo_opened0.
  - intros c Hin. destruct (lo_queued0 c) as [? ?]; [by eapply elem_of_sublist|].
    split; [done|]. by apply Hr.
  - by eapply sublist_NoDup, fmap_sublist.
  - rewrite Hn. done.
  - done.
Qed.

Lemma ledger_ok_bump d n l :
  ledger_ok d l → sd_next_jobid d ≤ n → ledger_ok (set_next_jobid d n) l.
Proof. intros [] Hn. split; try done. intros s e Hs%lo_issued0. cbn. lia. Qed.

(** A request goes out under the next job id. *)
Lemma ledger_ok_send d l j e entry :
  ledger_ok d l → j = le_job entry → sd_next_jobid d = j + 1 → 1 ≤ j →
  (∀ s e, l !! s = Some e → le_job e < j) →
  l !! p_reply e = None → is_Some (sd_slots d !! p_reply e) →
  p_reply e ∉ command_slot <$> sd_commands d →
  ledger_ok (set_pending d (<[j := e]> (sd_pending d))) (<[p_reply e := entry]> l).
Proof.
  intros [] -> Hn Hj Hlt Hl Ho Hc. split; cbn.
  - intros j e' [[<- <-]|[Hne Hj']]%lookup_insert_Some; [by rewrite lookup_insert_eq|].
    rewrite lookup_insert_ne; [by apply lo_pending0|]. intros Heq.
    specialize (lo_pending0 _ _ Hj'). by rewrite <-Heq, Hl in lo_pending0.
  - intros s msg Hs. destruct (lo_reply0 s msg Hs) as [Hr His].
    rewrite lookup_insert_ne; [done|]. intros <-. rewrite Hl in Hr. rewrite <-Hr in His. by destruct His.
  - intros s Hs. destruct (decide (p_reply e = s)) as [<-|]; [done|].
    apply lo_opened0. by rewrite lookup_insert_ne in Hs.
  - intros c Hin. destruct (lo_queued0 c Hin). rewrite lookup_insert_ne; [done|].
    intros Heq. apply Hc. rewrite Heq. by apply list_elem_of_fmap_2.
  - done.
  - intros s e' [[<- <-]|[_ Hs]]%lookup_insert_Some; [lia|]. by apply lo_issued0 in Hs.
  - intros s1 s2 e1 e2 [[<- <-]|[? Hs1]]%lookup_insert_Some [[<- <-]|[? Hs2]]%lookup_insert_Some Heq;
      [done|apply Hlt in Hs2; lia|apply Hlt in Hs1; lia|]. by eapply lo_distinct0.
Qed.

Lemma submit_ledger w s call w' l :
  ledger_ok (w_driver w) l → submit w s call = Some w' → ledger_ok (w_driver w') l.
Proof.
  intros Hok. unfold submit. case_decide as Hf; [|done]. destruct Hf as [Hs _].
  assert (quiet (w_driver w) (set_slots (w_driver w) (<[s := SlotDropped]> (sd_slots (w_driver w)))))
    by (by apply quiet_slots, rightful_insert).
  assert (ledger_ok (set_slots (set_commands (w_driver w)
    (sd_commands (w_driver w) ++ [call_command (w_now w) s call]))
    (<[s := SlotOpen]> (sd_slots (w_driver w)))) l) as Hq.
  { assert (command_slot (call_command (w_now w) s call) = s) as Hcs by by destruct call.
    assert (ledger_ok (set_slots (w_driver w) (<[s := SlotOpen]> (sd_slots (w_driver w)))) l) as []
      by (eapply ledger_ok_quiet; [done|]; by apply quiet_slots, rightful_insert).
    assert (l !! s = None) as Hl.
    { apply eq_None_not_Some. intros Hl%(lo_opened _ _ Hok). rewrite Hs in Hl. by destruct Hl. }
    split; try done; cbn.
    - intros c [Hin| ->%list_elem_of_singleton]%elem_of_app; [by apply lo_queued0|].
      rewrite Hcs. split; [done|]. by rewrite lookup_insert_eq.
    - rewrite fmap_app. apply list.NoDup_app. split; [apply Hok|]. split; [|apply NoDup_singleton].
      cbn. rewrite Hcs. intros x (c & -> & Hin)%list_elem_of_fmap ?%list_elem_of_singleton.
      destruct (lo_queued _ _ Hok c Hin) as [_ [? Hx]]. congruence. }
  destruct (w_phase w); try (case_decide; [|done]); intros [= <-]; try done.
  by eapply ledger_ok_quiet; [exact Hok|].
Qed.

(** What [on_command] does with a request. *)
Lemma on_command_request_ledger d emsg body dl s l :
  ledger_ok d l → 1 ≤ sd_next_jobid d < u64_max →
  l !! s = None → is_Some (sd_slots d !! s) → s ∉ command_slot <$> sd_commands d →
  let r := on_command d (Some (Request emsg body dl s)) in
  (∀ e, ledger_ok (r (Some e)).1 l) ∧
  (∀ entry, le_job entry = sd_next_jobid d → ledger_ok (r None).1 (<[s := entry]> l)).
Proof.
  intros Hok Hn Hl Ho Hc. cbn zeta. unfold on_command.
  assert (unwrap_or (checked_add 64 (sd_next_jobid d) 1) 1 = sd_next_jobid d + 1) as ->.
  { unfold checked_add. by rewrite decide_True by lia. }
  set (d1 := set_next_jobid d _).
  assert (ledger_ok d1 l) as Hok1 by (apply ledger_ok_bump; [done|lia]).
  split.
  - intros e. destruct (send_frame_eq d1 emsg (Some (sd_next_jobid d)) body (Some e)) as [wire ->].
    cbn [is_ok fst]. eapply ledger_ok_quiet; [exact Hok1|].
    apply (quiet_slots (set_write d1 wire)). by apply rightful_send.
  - intros entry He. destruct (send_frame_eq d1 emsg (Some (sd_next_jobid d)) body None) as [wire ->].
    cbn [is_ok fst].
    pose proof (ledger_ok_send (set_write d1 wire) l (sd_next_jobid d)
      {| p_reply := s; p_deadline := dl |} entry) as Hs. cbn in Hs.
    assert (ledger_ok (set_pending (set_write d1 wire)
      (<[sd_next_jobid d := {| p_reply := s; p_deadline := dl |}]> (sd_pending d)))
      (<[s := entry]> l)) as Hsent.
    { apply Hs; [by eapply ledger_ok_quiet; [exact Hok1|]|done|done|lia| |done..].
      intros s' e' Hs'%(lo_issued _ _ Hok). lia. }
    eapply ledger_ok_quiet; [exact Hsent|]. apply quiet_slots. cbn.
    destruct (sd_pending d !! sd_next_jobid d); [apply rightful_drop|done].
Qed.

Lemma take_command_ledger w o w' l :
  ledger_ok (w_driver w) l → 1 ≤ sd_next_jobid (w_driver w) < u64_max →
  take_command w o = Some w' → ledger_ok (w_driver w') (enter w (OnCommand o) l).
Proof.
  intros Hok Hn. unfold take_command, enter, entered.
  destruct (recv_command _ _) as [[command d]|] eqn:Hr; cbn [mbind option_bind]; [|done].
  pose proof (recv_command_quiet _ _ _ _ Hr) as Hq. pose proof (ledger_ok_quiet _ _ _ Hok Hq) as Hok'.
  destruct (w_phase w) as [nh ns| | | |] eqn:Hph; try done.
  2,3: destruct (answer_while_down (sd_slots d) command) as [slots stop] eqn:Ha; intros [= <-];
    assert (ledger_ok (set_slots d slots) l) as Hs
      by (eapply ledger_ok_quiet; [done|]; apply quiet_slots;
          pose proof (answer_while_down_rightful (sd_pending d) (sd_slots d) command) as Hw;
          by rewrite Ha in Hw);
    destruct o; destruct stop; first [exact Hs|eapply ledger_ok_quiet; [exact Hs|apply leave_quiet]].
  intros [= <-]. destruct command as [[emsg body dl s| |]|]; cbn [w_driver].
  2,3,4: eapply (ledger_ok_quiet d); [|apply after_arm_quiet, on_command_quiet; done].
  all: unfold recv_command in Hr; destruct (sd_commands (w_driver w)) as [|c rest] eqn:Hcs;
    [destruct (w_handles w)|]; simplify_eq; try (by destruct o).
  destruct (lo_queued _ _ Hok (Request emsg body dl s)) as [Hl Hsl]; [rewrite Hcs; by left|].
  pose proof (lo_nodup _ _ Hok) as Hnd. rewrite Hcs in Hnd. apply list.NoDup_cons in Hnd as [Hnot _].
  destruct (on_command_request_ledger (set_commands (w_driver w) rest) emsg body dl s l)
    as [Hfail Hsent]; [done|done|done|done|done|].
  destruct o as [e|].
  - eapply ledger_ok_quiet; [apply (Hfail e)|]. by apply after_arm_quiet.
  - eapply ledger_ok_quiet; [by apply Hsent|]. by apply after_arm_quiet.
Qed.

Lemma step_ledger w ev w' l :
  ledger_ok (w_driver w) l → (∀ o, ev ≠ OnCommand o) → step GzDecoder w ev = Some w' →
  ledger_ok (w_driver w') l.
Proof.
  intros Hok Hev Hstep%step_cases. destruct Hstep as
    [|? ?|? ? ? Hsub|s Hs| |o ? Hcmd|nh ns r Hw Hr|nh ns ? ? Hw ?|nh ns Hw ?|? ? Hw ?|? ? ? o Hw ?|? result close_by Hw ?];
    try (by eapply ledger_ok_quiet).
  - by eapply submit_ledger.
  - eapply ledger_ok_quiet; [done|]. by apply quiet_slots, rightful_insert.
  - by destruct (Hev o).
  - eapply ledger_ok_quiet; [done|]. by eapply after_arm_quiet, on_read_quiet.
  - eapply ledger_ok_quiet; [done|]. by apply after_arm_quiet, on_heartbeat_quiet.
  - eapply ledger_ok_quiet; [done|]. by apply after_arm_quiet, on_sweep_quiet.
  - eapply ledger_ok_quiet; [done|].
    destruct o as [[]|[]]; try done. apply leave_quiet.
  - eapply ledger_ok_quiet; [done|]. split; [done|]. cbn. split; [apply rightful_drop_all|].
    apply sublist_nil_l.
Qed.

Lemma tracked_ok n w l : tracked n w l → n + 1 < 2 ^ 64 → ledger_ok (w_driver w) l.
Proof.
  induction 1 as [now config attempt w Hw|n w l o w' Ht IH Hstep|n w l ev w' Ht IH Hev Hstep];
    intros Hn.
  - apply spawn_session_inv in Hw as (d & -> & _ & Hc & Hp & Hs & _). cbn.
    split; cbn; rewrite ?Hp, ?Hs, ?Hc; try done; [by intros s [? [=]]|by intros c Hin%elem_of_nil|constructor].
  - pose proof (reachable_in_jobs _ _ _ (tracked_reachable_in _ _ _ Ht)) as [Hj _]; [lia|].
    eapply take_command_ledger; [apply IH; lia|lia|done].
  - by eapply step_ledger; [apply IH| |].
Qed.

(** What the ledger records is what was written. *)
Lemma entered_written w ev w' s entry :
  step GzDecoder w ev = Some w' → entered w ev = Some (s, entry) →
  sd_write (w_driver w') = sd_write (w_driver w) ++ [WsBinary (le_frame entry)].
Proof.
  unfold entered. destruct ev as [| | | | |[]| | | | | |]; try done.
  destruct (w_phase w) as [nh ns| | | |] eqn:Hph; try done.
  destruct (sd_commands (w_driver w)) as [|[emsg body dl s'| |] rest] eqn:Hc; try done.
  intros Hs [= <- <-]. cbn [step] in Hs. unfold take_command, recv_command in Hs.
  rewrite Hc, Hph in Hs. cbn [mbind option_bind] in Hs. by injection Hs as <-.
Qed.

(** C3: Replies are never swapped: whatever requests are in flight and in whatever order Steam
    answers, a reply found on a caller's channel names the job id under which that caller's
    own request went out, and no other request of the session ever had that id (for its
    first [2^64 - 2] commands). *)
Theorem replies_never_swapped n w l s msg :
  tracked n w l → n + 1 < 2 ^ 64 →
  sd_slots (w_driver w) !! s = Some (SlotFull (ARequest (Ok msg))) →
  ∃ entry, l !! s = Some entry ∧ h_jobid_target (sm_header msg) = Some (le_job entry) ∧
    ∀ s' entry', l !! s' = Some entry' → s' ≠ s → le_job entry' ≠ le_job entry.
Proof.
  intros Ht Hn Hs. pose proof (tracked_ok _ _ _ Ht Hn) as Hok.
  destruct (lo_reply _ _ Hok s msg Hs) as [Hj [j Hr]]. rewrite Hr in Hj.
  destruct (l !! s) as [entry|] eqn:Hl; [|done]. injection Hj as <-. exists entry. split; [done|].
  split.
  - unfold reply_target in Hr. destruct (h_jobid_target _); cbn in Hr; [|done].
    by case_match; simplify_eq.
  - intros s' entry' Hl' Hne Heq. by apply Hne, (lo_distinct _ _ Hok s' s entry' entry).
Qed.

(** The ledger is a faithful record: every step that enters a request appends exactly that
    request's frame to the socket, and every other request already sent keeps its entry. *)
Theorem ledger_is_what_was_sent n w l ev w' s entry :
  tracked n w l → n + 1 < 2 ^ 64 → step GzDecoder w ev = Some w' →
  entered w ev = Some (s, entry) →
  sd_write (w_driver w') = sd_write (w_driver w) ++ [WsBinary (le_frame entry)] ∧
  l !! s = None ∧ enter w ev l !! s = Some entry ∧ l ⊆ enter w ev l.
Proof.
  intros Ht Hn Hstep He. pose proof (tracked_ok _ _ _ Ht Hn) as Hok.
  assert (l !! s = None) as Hl.
  { unfold entered in He. destruct ev as [| | | | |[]| | | | | |], (w_phase w); try done.
    destruct (sd_commands (w_driver w)) as [|[emsg body dl s'| |] rest] eqn:Hc; try done.
    injection He as <- _. apply (lo_queued _ _ Hok (Request emsg body dl s')). rewrite Hc. by left. }
  split; [by eapply entered_written|]. split; [done|]. unfold enter. rewrite He.
  split; [by rewrite lookup_insert_eq|by apply insert_subseteq].
Qed.
End ledger.

(** ** Witnesses: two requests in flight, answered in reverse order *)
Section witnesses.
Import Wire.Instances.

Definition reply_to (j : Z) (body : list byte) : SteamMessage :=
  {| sm_emsg := 152; sm_header := {| h_steamid := None; h_client_sessionid := None;
       h_jobid_source := None; h_jobid_target := Some j; h_eresult := Some 1;
       h_error_message := None; h_rest := [] |}; sm_body := body |}.
Definition two_sent : list Event :=
  [Submit 0 (CallRequest 151 [x0a] 30000); Submit 1 (CallRequest 151 [x0b] 30000);
   OnCommand None; OnCommand None].
Definition two_answered : list Event :=
  two_sent ++
  [Arrive (Some (Ok (WsBinary (frame_of_msg (reply_to 2 [x22])))));
   Arrive (Some (Ok (WsBinary (frame_of_msg (reply_to 1 [x11]))))); OnRead; OnRead].

Fixpoint track (w : World) (l : Ledger) (evs : list Event) : World * Ledger :=
  match evs with
  | [] => (w, l)
  | ev :: evs => match step stored w ev with
                 | Some w' => track w' (enter w ev l) evs
                 | None => (w, l)
                 end
  end.

Lemma track_tracked evs n w l :
  tracked stored n w l →
  ∃ k, (k ≤ length evs)%nat ∧ tracked stored (n + Z.of_nat k) (track w l evs).1 (track w l evs).2.
Proof.
  revert n w l. induction evs as [|ev evs IH]; intros n w l Ht; cbn [track].
  { exists 0%nat. rewrite Z.add_0_r. by split; [lia|]. }
  destruct (step stored w ev) as [w'|] eqn:Hs.
  2:{ exists 0%nat. rewrite Z.add_0_r. split; [lia|done]. }
  assert ((∃ o, ev = OnCommand o) ∨ (∀ o, ev ≠ OnCommand o)) as [[o ->]|Hno].
  { destruct ev; (by left; eexists) || by right. }
  - destruct (IH (n + 1) w' (enter w (OnCommand o) l)) as (k & ? & Hk).
    { by eapply tracked_command. }
    exists (S k). split; [cbn; lia|]. by replace (n + Z.of_nat (S k)) with (n + 1 + Z.of_nat k) by lia.
  - assert (enter w ev l = l) as ->.
    { unfold enter, entered. destruct ev; try done. by destruct (Hno outcome). }
    destruct (IH n w' l) as (k & ? & Hk).
    { by eapply tracked_other. }
    exists k. split; [cbn; lia|done].
Qed.

Lemma sample_tracked evs :
  ∃ n, n ≤ Z.of_nat (length evs) ∧
       tracked stored n (track sample_world ∅ evs).1 (track sample_world ∅ evs).2.
Proof.
  destruct (track_tracked evs 0 sample_world ∅) as (k & ? & Hk).
  { by apply (tracked_spawn stored 0 sample_config (λ _, Ok (sample_conn_on, logged_on_sample))). }
  exists (0 + Z.of_nat k). split; [lia|done].
Qed.

Lemma replies_never_swapped_witness :
  ∃ entry, (track sample_world ∅ two_answered).2 !! 0%nat = Some entry ∧
    le_job entry = 1 ∧ le_body entry = [x0a] ∧
    sd_slots (w_driver (track sample_world ∅ two_answered).1) !! 0%nat =
      Some (SlotFull (ARequest (Ok (reply_to 1 [x11])))).
Proof.
  destruct (sample_tracked two_answered) as (n & Hn & Ht).
  destruct (replies_never_swapped stored n _ _ 0%nat (reply_to 1 [x11]) Ht) as (entry & He & Hj & _).
  - cbn in Hn. lia.
  - by vm_compute.
  - exists entry. split; [done|]. cbn in Hj. injection Hj as Hj. split; [done|].
    assert ((le_body <$> (track sample_world ∅ two_answered).2 !! 0%nat) = Some [x0a]) as Hb
      by by vm_compute.
    rewrite He in Hb. injection Hb as Hb. split; [done|]. by vm_compute.
Defined.

Lemma ledger_is_what_was_sent_witness :
  let w := after [Submit 0 (CallRequest 151 [x0a] 30000)] in
  ∃ entry, entered w (OnCommand None) = Some (0%nat, entry) ∧
    (∅ : Ledger) !! 0%nat = None ∧ enter w (OnCommand None) ∅ !! 0%nat = Some entry.
Proof.
  intros w. eexists. split; [by vm_compute|].
  edestruct (ledger_is_what_was_sent stored 0 w ∅ (OnCommand None)) as (_ & ? & ? & _);
    [|lia|by vm_compute|by vm_compute|done].
  apply (tracked_other stored 0 sample_world ∅ (Submit 0 (CallRequest 151 [x0a] 30000))); [|done|by vm_compute].
  by apply (tracked_spawn stored 0 sample_config (λ _, Ok (sample_conn_on, logged_on_sample))).
Defined.
End witnesses.
