(* ===== verification/Typing.v ===== *)
(** * A session is well typed

    The model keeps Rust's integers as [Z]; this file shows that every integer a session
    holds stays within its Rust type: what the codec decodes, what logon takes over from
    Steam's answer, the job ids the driver issues, and every message it broadcasts, keeps
    or delivers.  The hypothesis is [DecodeWf]: what [prost] decodes is a Rust value. *)
From S2P Require Import Prelude Errors Proto Wire Codec Discovery Connection Driver.
#[local] Set Default Goal Selector "!".

(** ** The types *)
Definition msg_typed (m : SteamMessage) : Prop :=
  in_u 31 (sm_emsg m) ∧ msg_wf (sm_header m).

(** [steam_id: u64], [session_id: i32]; a heartbeat of [1..=i32::MAX] seconds. *)
Definition ids_typed (steam_id session_id : Z) : Prop := in_u 64 steam_id ∧ in_i 32 session_id.
Definition heartbeat_typed (hb : Z) : Prop := from_secs 1 ≤ hb < from_secs (2 ^ 31).

Definition conn_typed (c : CmConnection) : Prop :=
  ids_typed (cc_steam_id c) (cc_session_id c) ∧ Forall msg_typed (cc_inbox c).
Definition logged_typed (ln : LoggedOn) : Prop :=
  ids_typed (ln_steam_id ln) (ln_session_id ln) ∧ heartbeat_typed (ln_heartbeat_interval ln).

(** A reply on a channel. *)
Definition slot_typed (v : Slot) : Prop :=
  match v with SlotFull (ARequest (Ok msg)) => msg_typed msg | _ => True end.
Definition slots_typed (sl : Slots) : Prop := map_Forall (λ _, slot_typed) sl.

(** [next_jobid: u64], never the reserved 0; so are the keys of [pending]. *)
Definition job_typed (j : Z) : Prop := 1 ≤ j < 2 ^ 64.

Record driver_typed (d : SessionDriver) : Prop := {
  dt_ids : ids_typed (sd_steam_id d) (sd_session_id d);
  dt_heartbeat : heartbeat_typed (sd_heartbeat d);
  dt_inbox : Forall msg_typed (sd_inbox d);
  dt_next : job_typed (sd_next_jobid d);
  dt_pending : map_Forall (λ j _, job_typed j) (sd_pending d);
  dt_events : Forall msg_typed (sd_events d);
  dt_slots : slots_typed (sd_slots d)
}.

Lemma Forall_snoc_2 {A} (P : A → Prop) l x : Forall P l → P x → Forall P (l ++ [x]).
Proof. intros Hl Hx. apply list.Forall_app. split; [done|]. by apply list.Forall_singleton. Qed.

(** ** Slots *)
Lemma typed_insert sl s v : slots_typed sl → slot_typed v → slots_typed (<[s := v]> sl).
Proof. intros Hs Hv. by apply map_Forall_insert_2. Qed.
Lemma typed_send sl s v :
  slots_typed sl → slot_typed (SlotFull v) → slots_typed (oneshot_send sl s v).
Proof. intros Hs Hv. unfold oneshot_send. case_decide; [by apply typed_insert|done]. Qed.
Lemma typed_drop sl s : slots_typed sl → slots_typed (oneshot_drop sl s).
Proof. intros Hs. unfold oneshot_drop. case_decide; [by apply typed_insert|done]. Qed.
Lemma typed_drop_all ss sl : slots_typed sl → slots_typed (foldl oneshot_drop sl ss).
Proof. revert sl. induction ss as [|s ss IH]; intros sl Hs; cbn; [done|]. by apply IH, typed_drop. Qed.
Lemma typed_fail_all pending sl reason :
  slots_typed sl → slots_typed (fail_all_pending pending sl reason).
Proof.
  intros Hs. unfold fail_all_pending. apply (map_fold_weak_ind (λ r _, slots_typed r)); [done|].
  intros j e m r _ Hr. by apply typed_send.
Qed.
Lemma typed_sweep now pending sl :
  slots_typed sl → slots_typed (sweep_pending now pending sl).2.
Proof.
  intros Hs. cbn. apply (map_fold_weak_ind (λ r _, slots_typed r)); [done|].
  intros j e m r _ Hr. unfold sweep_slot. destruct (is_closed _ _); [done|].
  destruct (_ <=? _); [by apply typed_send|done].
Qed.
Lemma typed_answer sl command : slots_typed sl → slots_typed (answer_while_down sl command).1.
Proof. intros Hs. destruct command as [[]|]; cbn; [by apply typed_send..|done]. Qed.

(** ** Arms that issue no job id *)
Lemma typed_set_slots d sl : driver_typed d → slots_typed sl → driver_typed (set_slots d sl).
Proof. intros [] Hs. by split. Qed.

Lemma dispatch_typed d msg : driver_typed d → msg_typed msg → driver_typed (dispatch d msg).
Proof.
  intros [] Hm. unfold dispatch. destruct (_ ≫= _) as [[j e]|]; split; cbn; try done.
  - by apply map_Forall_delete.
  - by apply typed_send.
  - by apply Forall_snoc_2.
Qed.
Lemma foldl_dispatch_typed msgs d :
  driver_typed d → Forall msg_typed msgs → driver_typed (foldl dispatch d msgs).
Proof.
  intros Hd Hm. revert d Hd. induction Hm as [|m msgs Hm _ IH]; intros d Hd; cbn; [done|].
  by apply IH, dispatch_typed.
Qed.

Lemma fail_all_typed d reason :
  driver_typed d →
  driver_typed (set_slots (set_pending d ∅) (fail_all_pending (sd_pending d) (sd_slots d) reason)).
Proof. intros []. split; cbn; try done. by apply typed_fail_all. Qed.

Lemma on_exit_typed now handles d exit :
  driver_typed d → driver_typed (w_driver (on_exit now handles d exit)).
Proof.
  intros Hd. destruct exit; [by apply fail_all_typed..|]. cbn.
  assert (driver_typed (drain_inbox d)) as Hdr.
  { destruct (foldl_dispatch_typed (sd_inbox d) d Hd (dt_inbox _ Hd)). by split; cbn. }
  by destruct (fail_all_typed _ "session reconnecting" Hdr).
Qed.

Lemma after_arm_typed now handles nh ns r :
  driver_typed r.1 → driver_typed (w_driver (after_arm now handles nh ns r)).
Proof. destruct r as [d [exit|]]; [apply on_exit_typed|done]. Qed.

Lemma on_sweep_typed now d : driver_typed d → driver_typed (on_sweep now d).1.
Proof.
  intros []. unfold on_sweep. destruct (read_idle_expired _ _ _); [by split|]. split; cbn; try done.
  - intros j e [Hj _]%map_lookup_filter_Some. by eapply dt_pending0.
  - by apply (typed_sweep now (sd_pending d)).
Qed.

Lemma submit_typed w s call w' :
  driver_typed (w_driver w) → submit w s call = Some w' → driver_typed (w_driver w').
Proof.
  intros []. unfold submit. case_decide; [|done].
  destruct (w_phase w); try (case_decide; [|done]); intros [= <-]; split; cbn; try done;
    by apply typed_insert.
Qed.

(** ** What is read *)
Section reading.
Context `{Message CMsgProtoBufHeader, Message CMsgMulti, Message CMsgClientLoggedOff,
          Message CMsgClientLogon, Message CMsgClientLogonResponse}.
Context `{!DecodeWf CMsgProtoBufHeader, !DecodeWf CMsgClientLogonResponse}.
Context (GzDecoder : list byte → list byte * option string).

Lemma try_decode_typed bs m : try_decode bs = Some (Ok (Some m)) → msg_typed m.
Proof.
  unfold try_decode. intros ([parts|e] & Hu & Hm)%bind_Some; [|done]. cbn in Hm.
  destruct parts as [parts|]; [|done]. apply unframe_inv in Hu as [[Ht _] _].
  destruct (msg_decode (fp_header parts)) as [h|] eqn:Hh; cbn in Hm; [|done]. simplify_eq.
  split; [done|]. by eapply decode_wf.
Qed.

Lemma split_messages_typed nested fuel cur out msgs :
  (∀ b ms, nested b = Some (Ok ms) → Forall msg_typed ms) → Forall msg_typed out →
  split_messages nested fuel cur out = Some (Ok msgs) → Forall msg_typed msgs.
Proof.
  intros Hn. revert cur out. induction fuel as [|fuel IH]; intros cur out Hout; cbn [split_messages]; [done|].
  case_decide; [|by intros [= <-]].
  intros (w & _ & Hm)%bind_Some. apply bind_Some in Hm as (n & _ & Hm).
  apply bind_Some in Hm as (cur' & _ & Hm). case_decide; [done|].
  apply bind_Some in Hm as (frame & _ & Hm). apply bind_Some in Hm as (sub & Hs & Hm).
  destruct sub as [[sub|]|e]; [| |done].
  - apply try_decode_typed in Hs. case_decide.
    + apply bind_Some in Hm as ([inner|e] & Hi & Hm); [|done].
      apply bind_Some in Hm as (cur2 & _ & Hm). eapply IH; [|done]. apply list.Forall_app. eauto.
    + apply bind_Some in Hm as (cur2 & _ & Hm). eapply IH; [|done]. by apply Forall_snoc_2.
  - apply bind_Some in Hm as (cur2 & _ & Hm). by eapply IH.
Qed.

Lemma decode_multi_typed body msgs :
  decode_multi GzDecoder body = Some (Ok msgs) → Forall msg_typed msgs.
Proof.
  unfold decode_multi. generalize 6%nat as fuel, 0 as depth. intros fuel. revert body msgs.
  induction fuel as [|fuel IH]; intros body msgs depth; cbn [decode_multi_fuel]; [done|].
  case_decide; [done|]. destruct (map_err _ _) as [multi|]; [|done].
  destruct (multi_payload _ _) as [payload|]; [|done]. apply split_messages_typed; [|done].
  intros b ms. apply IH.
Qed.

Lemma read_message_typed now read inbox lv r read' inbox' lv' :
  Forall msg_typed inbox → read_message GzDecoder now read inbox lv = Some (r, read', inbox', lv') →
  Forall msg_typed inbox' ∧ ∀ msg, r = Ready (Ok msg) → msg_typed msg.
Proof.
  unfold read_message. generalize (S (S (length read))) as fuel. intros fuel.
  revert read inbox lv. induction fuel as [|fuel IH]; intros read inbox lv Hi; cbn [read_message_fuel]; [done|].
  destruct Hi as [|m inbox Hm Hi].
  2: { intros [= <- _ <- _]. split; [done|]. by intros ? [= <-]. }
  destruct (read_frame now read lv) as [[[|[frame|e]] rd] l]; [by intros [= <- _ <- _]| |by intros [= <- _ <- _]].
  intros (d & Hd & Hr)%bind_Some. destruct d as [[msg|]|e]; [|by eapply IH in Hr|by simplify_eq].
  apply try_decode_typed in Hd. case_decide.
  - apply bind_Some in Hr as ([msgs|e] & Hu & Hr); [|by simplify_eq].
    eapply IH in Hr; [done|]. by eapply decode_multi_typed.
  - simplify_eq. split; [done|]. by intros ? [= <-].
Qed.

(** ** Logon *)
Lemma logon_on_message_typed c msg r c' :
  conn_typed c → msg_typed msg → logon_on_message c msg = Some (r, c') →
  conn_typed c' ∧ ∀ ln, r = Ok ln → logged_typed ln ∧
    ln_steam_id ln = cc_steam_id c' ∧ ln_session_id ln = cc_session_id c'.
Proof.
  intros [[Hs Hi] Hin] [_ (Hhs & Hhi & _)]. unfold logon_on_message. case_decide.
  - destruct (msg_decode (sm_body msg)) as [resp|] eqn:Hd; cbn; [|by intros [= <- <-]].
    apply decode_wf in Hd as [_ Hhb]. case_decide; intros [= <- <-]; [done|].
    assert (ids_typed (unwrap_or (h_steamid (sm_header msg)) (cc_steam_id c))
      (unwrap_or (h_client_sessionid (sm_header msg)) (cc_session_id c))) as Hids.
    { split; [by destruct (h_steamid _)|by destruct (h_client_sessionid _)]. }
    split; [done|]. intros ln [= <-]. split; [|done]. split; [done|].
    unfold heartbeat_typed, from_secs, DEFAULT_HEARTBEAT_SECS. cbn.
    destruct (lr_heartbeat_seconds resp) as [hb|]; cbn in *; [destruct Hhb; lia|lia].
  - case_decide; [|done]. by intros [= <- <-].
Qed.

Lemma logon_loop_typed fuel now c r c' :
  conn_typed c → logon_loop GzDecoder fuel now c = Some (r, c') →
  conn_typed c' ∧ ∀ ln, r = Ready (Ok ln) → logged_typed ln ∧
    ln_steam_id ln = cc_steam_id c' ∧ ln_session_id ln = cc_session_id c'.
Proof.
  revert c. induction fuel as [|fuel IH]; intros c [Hids Hin]; cbn [logon_loop]; [done|].
  unfold recv. intros ([r1 c1] & Hr & Hl)%bind_Some.
  apply bind_Some in Hr as ([[[r2 read] inbox] lv] & Hread & Hr). simplify_eq.
  eapply read_message_typed in Hread as [Hin' Hm]; [|done].
  assert (∀ c2, cc_steam_id c2 = cc_steam_id c → cc_session_id c2 = cc_session_id c →
    cc_inbox c2 = inbox → conn_typed c2) as Hc2.
  { intros c2 He1 He2 He3. unfold conn_typed. by rewrite He1, He2, He3. }
  destruct r1 as [|[msg|e]]; [simplify_eq; split; [by apply Hc2|done]| |simplify_eq; split; [by apply Hc2|done]].
  destruct (logon_on_message _ _) as [[r3 c3]|] eqn:Ho; [|by eapply IH, Hl; apply Hc2].
  eapply logon_on_message_typed in Ho as [? Hok]; [|by apply Hc2|by apply Hm]. simplify_eq.
  split; [done|]. by intros ln [= ->]; apply Hok.
Qed.

(** A connection that [establish] hands over. *)
Definition established (outcome : Result (CmConnection * LoggedOn)) : Prop :=
  ∀ conn logged, outcome = Ok (conn, logged) → conn_typed conn ∧ logged_typed logged ∧
    ln_steam_id logged = cc_steam_id conn ∧ ln_session_id logged = cc_session_id conn.

Lemma server_attempt_typed now account token env server r :
  server_attempt GzDecoder now account token env server = Some (Some r) → established r.
Proof.
  unfold server_attempt. destruct (sa_timeout env); [done|].
  destruct (connect _ _) as [conn|e] eqn:Hc; [|by intros [= <-]].
  unfold connect in Hc. apply bind_ok in Hc as (ws & _ & Hc). simplify_eq.
  intros ([r' conn] & Hl & Hr)%bind_Some.
  assert (∀ c, cc_steam_id c = LOGON_HEADER_STEAMID → cc_session_id c = 0 → cc_inbox c = [] →
    conn_typed c) as Hc0.
  { intros c He1 He2 He3. unfold conn_typed. rewrite He1, He2, He3. split; [|done].
    by split; apply (bool_decide_unpack _). }
  unfold logon, send, write_frame in Hl. destruct (sa_write env); [by simplify_eq|].
  apply logon_loop_typed in Hl as [Hct Hok]; [|by apply Hc0].
  destruct r' as [|[ln|e]]; simplify_eq; [|done]. intros c' ln' [= <- <-].
  destruct (Hok ln eq_refl) as (? & ? & ?). done.
Qed.

Lemma establish_typed now account token env discovered r :
  establish GzDecoder now account token env discovered = Some r → established r.
Proof.
  unfold establish. destruct discovered as [servers|e]; [|by intros [= <-]].
  generalize (take MAX_CONNECT_ATTEMPTS servers) as l, (@None Error) as last, 0%nat as i.
  induction l as [|server l IH]; intros last i; cbn [establish_loop]; [by intros [= <-]|].
  intros (a & Ha & Hr)%bind_Some. destruct a as [[[conn ln]|e]|]; [| |by eapply IH].
  - simplify_eq. by eapply server_attempt_typed.
  - destruct e; try (by eapply IH). by simplify_eq.
Qed.

(** ** The driver *)
Lemma on_read_typed now d r : driver_typed d → on_read GzDecoder now d = Some r → driver_typed r.1.
Proof.
  intros Hd. unfold on_read. intros ([[[res rd] ib] lv] & Hr & Hm)%bind_Some.
  eapply read_message_typed in Hr as [Hi Hmsg]; [|apply Hd].
  assert (driver_typed (set_reader d rd ib lv)) as Hd' by (destruct Hd; by split).
  destruct res as [|[msg|e]]; [by simplify_eq| |by simplify_eq].
  case_decide; simplify_eq; [done|]. by apply dispatch_typed; [|apply Hmsg].
Qed.

Lemma send_frame_typed d emsg jobid body o :
  driver_typed d → driver_typed (send_frame d emsg jobid body o).1.
Proof. intros []. destruct (send_frame_eq d emsg jobid body o) as [wire ->]. by split. Qed.

Lemma on_heartbeat_typed d o1 o2 : driver_typed d → driver_typed (on_heartbeat d o1 o2).1.
Proof.
  intros []. unfold on_heartbeat.
  destruct (send_frame_eq d EMSG_CLIENT_HEARTBEAT None [] o1) as [wire ->].
  destruct o1, o2; by split.
Qed.

(** The next job id: [checked_add(1).unwrap_or(1)]. *)
Lemma next_job_typed j : job_typed j → job_typed (unwrap_or (checked_add 64 j 1) 1).
Proof. unfold job_typed, checked_add. intros Hj. case_decide; cbn; lia. Qed.

Lemma on_command_typed d command o : driver_typed d → driver_typed (on_command d command o).1.
Proof.
  intros Hd. unfold on_command. destruct command as [[emsg body dl s|emsg body s|s]|]; [| | |done].
  - set (d1 := set_next_jobid d _).
    assert (driver_typed d1) as Hd1 by (destruct Hd; split; try done; by apply next_job_typed).
    destruct (send_frame_eq d1 emsg (Some (sd_next_jobid d)) body o) as [wire ->].
    destruct Hd1. destruct o; split; cbn; try done.
    + by apply typed_send.
    + apply map_Forall_insert_2; [apply Hd|done].
    + destruct (sd_pending d !! _); [by apply typed_drop|done].
  - destruct (send_frame_eq d emsg None body o) as [wire ->].
    destruct Hd. split; cbn; try done. by apply typed_send.
  - destruct (send_frame_eq d EMSG_CLIENT_LOGOFF None [] o) as [wire ->].
    destruct Hd. split; cbn; try done. by apply typed_send.
Qed.

Lemma take_command_typed w o w' :
  driver_typed (w_driver w) → take_command w o = Some w' → driver_typed (w_driver w').
Proof.
  intros Hd. unfold take_command. intros ([command d] & Hr & Hw)%bind_Some.
  assert (driver_typed d) as Hd'.
  { unfold recv_command in Hr. destruct Hd.
    destruct (sd_commands (w_driver w)), (w_handles w); simplify_eq; by split. }
  pose proof (typed_answer (sd_slots d) command (dt_slots _ Hd')) as Ha.
  destruct (w_phase w) as [nh ns| | | |]; try done; [simplify_eq; by apply after_arm_typed, on_command_typed|..];
    destruct (answer_while_down _ _) as [slots stop]; simplify_eq;
    pose proof (typed_set_slots _ _ Hd' Ha) as Hs; destruct stop; first [done|by apply (fail_all_typed _ _ Hs)].
Qed.

Lemma on_attempt_typed now handles d backoff outcome :
  driver_typed d → established outcome →
  driver_typed (w_driver (on_attempt now handles d backoff outcome)).
Proof.
  intros Hd He. destruct outcome as [[conn ln]|e].
  - destruct (He conn ln eq_refl) as ([Hids Hin] & [_ Hhb] & _). destruct Hd. by split.
  - destruct e; try done. by apply fail_all_typed.
Qed.

Lemma step_typed w ev w' :
  driver_typed (w_driver w) → step GzDecoder w ev = Some w' → driver_typed (w_driver w').
Proof.
  intros Hd Hstep%step_cases. destruct Hstep as
    [|? ?|? ? ? Hsub|s' Hs'| |o ? Hcmd|nh ns r Hw Hr|nh ns ? ? Hw ?|nh ns Hw ?|? ? Hw ?|? ? ? o Hw He|? result close_by Hw ?];
    try done.
  - destruct Hd. by split.
  - by eapply submit_typed.
  - apply typed_set_slots; [done|]. by apply typed_insert; [apply Hd|].
  - by eapply take_command_typed.
  - by eapply after_arm_typed, on_read_typed.
  - by apply after_arm_typed, on_heartbeat_typed.
  - by apply after_arm_typed, on_sweep_typed.
  - by eapply on_attempt_typed, establish_typed.
  - destruct Hd. split; cbn; try done. by apply typed_drop_all.
Qed.

(** Sessions whose first connection, too, came from [CmConnection::establish]. *)
Inductive session_reachable : World → Prop :=
  | session_spawn now config attempt w :
      (∀ n, ∃ t env discovered, establish GzDecoder t (sc_account_name config)
         (sc_refresh_token config) env discovered = Some (attempt n)) →
      spawn_session now config attempt = Ok w → session_reachable w
  | session_step w ev w' : session_reachable w → step GzDecoder w ev = Some w' → session_reachable w'.

Lemma establish_resilient_outcome attempt :
  (∀ n, established (attempt n)) → established (establish_resilient attempt).1.
Proof.
  intros Ha. unfold establish_resilient.
  generalize 1%nat as n, INITIAL_BACKOFF as b, (Network "no connect attempt ran") as e.
  induction INITIAL_CONNECT_ATTEMPTS as [|k IH]; intros n b e; cbn [establish_resilient_loop]; [done|].
  pose proof (Ha n) as Hn. destruct (attempt n) as [ok|[]]; try done;
    (case_decide; [|by apply IH]);
    specialize (IH (S n) (Z.min (b * 2) MAX_BACKOFF));
    match goal with |- context [establish_resilient_loop _ _ _ ?e _] => specialize (IH e) end;
    by destruct (establish_resilient_loop _ _ _ _ _).
Qed.

Lemma spawn_session_typed now config attempt w :
  (∀ n, established (attempt n)) → spawn_session now config attempt = Ok w →
  driver_typed (w_driver w).
Proof.
  intros Ha%establish_resilient_outcome. unfold spawn_session.
  destruct (establish_resilient attempt).1 as [[conn ln]|e]; [|done]. cbn [mbind result_bind].
  destruct (Ha conn ln eq_refl) as ([Hids Hin] & [_ Hhb] & Hs & _). clear Ha. intros [= <-].
  split; cbn; [by rewrite Hs|done..| |done|done|done]. unfold job_typed. lia.
Qed.

(** C24: A session is well typed: in every state it can reach the account id is a [u64], the
    session id an [i32], the heartbeat between one and [i32::MAX] seconds, job ids issued
    and awaited are [u64]s other than the reserved 0 (the counter wraps to 1, it does not
    overflow), and every message it has buffered, broadcast or delivered as a reply carries
    a bare 31-bit message type and a header whose fields fit their widths. *)
Theorem session_well_typed w : session_reachable w → driver_typed (w_driver w).
Proof.
  induction 1 as [now config attempt w Ha Hw|w ev w' _ IH Hstep]; [|by eapply step_typed].
  eapply spawn_session_typed; [|done]. intros n. destruct (Ha n) as (t & env & disc & Hn).
  by eapply establish_typed.
Qed.
End reading.

(** ** A concrete session *)
Section witnesses.
Import Wire.Instances.
#[local] Existing Instances header_decode_wf logon_response_decode_wf.

(** The first server is busy, the second logs the account on. *)
Definition busy_then_ok (i : nat) : ServerAttempt :=
  {| sa_socket := λ _, Ok [Some (Ok (WsBinary (frame_of_msg
       (sample_response (if decide (i = 0%nat) then 10 else 1)))))];
     sa_write := None; sa_timeout := false |}.
Definition first_contact : panicking (Result (CmConnection * LoggedOn)) :=
  establish stored 0 "bot" "token" busy_then_ok (Ok (repeat sample_server 9)).
Definition first_world : Result World :=
  spawn_session 0 sample_config (λ _, default (Err (Network "")) first_contact).

Lemma session_well_typed_witness :
  ∃ w, first_world = Ok w ∧ driver_typed (w_driver w) ∧ heartbeat_typed (sd_heartbeat (w_driver w)).
Proof.
  assert (∃ w, first_world = Ok w) as [w Hw] by (vm_compute; by eexists).
  exists w. split; [done|].
  assert (driver_typed (w_driver w)) as Hd; [|by split; [|destruct Hd]].
  apply (session_well_typed stored). eapply session_spawn; [|exact Hw].
  intros n. exists 0, busy_then_ok, (Ok (repeat sample_server 9)). by vm_compute.
Defined.
End witnesses.
