(* ===== verification/HashOrder.v ===== *)
(** * Iterating a [HashMap]

    Driver.v models the driver's two walks over [pending] on whole maps: [retain] in
    [sweep_pending] and [drain] in [fail_all_pending].  The standard library visits the
    entries one at a time, in an order it does not specify, and each visit sees the channels
    as the earlier ones left them.  Here are the two loops as they run, over a list of the
    entries, and the proof that the order of the list does not matter. *)
From S2P Require Import Prelude Errors Proto Codec Connection Driver.
#[local] Set Default Goal Selector "!".

(** ** The loops *)

(** [pending.retain(..)]: the entries kept, and the channels. *)
Fixpoint retain_loop (now : Instant) (entries : list (Z * PendingEntry)) (slots : Slots) :
    list (Z * PendingEntry) * Slots :=
  match entries with
  | [] => ([], slots)
  | (jobid, entry) :: rest =>
      if is_closed slots (p_reply entry) then retain_loop now rest slots
      else if p_deadline entry <=? now then
        retain_loop now rest
          (oneshot_send slots (p_reply entry) (ARequest (Err (Timeout "steam request"))))
      else
        let '(kept, slots) := retain_loop now rest slots in ((jobid, entry) :: kept, slots)
  end.

(** [for (_jobid, entry) in pending.drain()]. *)
Fixpoint drain_loop (reason : string) (entries : list (Z * PendingEntry)) (slots : Slots) : Slots :=
  match entries with
  | [] => slots
  | (_, entry) :: rest =>
      drain_loop reason rest
        (oneshot_send slots (p_reply entry) (ARequest (Err (WebSocket reason))))
  end.

(** ** Visits commute *)
Lemma is_closed_send slots s v s' : is_closed (oneshot_send slots s v) s' = is_closed slots s'.
Proof.
  unfold is_closed, oneshot_send. case_decide as Ho; [|done].
  destruct (decide (s = s')) as [<-|]; [|by rewrite lookup_insert_ne].
  by rewrite lookup_insert_eq, Ho.
Qed.

Lemma oneshot_send_lookup slots s v s' :
  oneshot_send slots s v !! s' =
    if decide (s' = s ∧ slots !! s = Some SlotOpen) then Some (SlotFull v) else slots !! s'.
Proof.
  unfold oneshot_send. case_decide as Ho; [|by rewrite decide_False by tauto].
  case_decide as Hs; [destruct Hs as [-> _]; by rewrite lookup_insert_eq|].
  rewrite lookup_insert_ne; [done|]. intros ->. tauto.
Qed.

Lemma oneshot_send_comm slots s1 s2 v :
  oneshot_send (oneshot_send slots s1 v) s2 v = oneshot_send (oneshot_send slots s2 v) s1 v.
Proof.
  apply map_eq. intros s. rewrite !oneshot_send_lookup.
  repeat case_decide; destruct_and?; simplify_eq; try done; tauto.
Qed.

Lemma sweep_slot_comm now e1 e2 slots :
  sweep_slot now e1 (sweep_slot now e2 slots) = sweep_slot now e2 (sweep_slot now e1 slots).
Proof.
  assert (∀ e r, sweep_slot now e r =
    if is_closed r (p_reply e) then r
    else if p_deadline e <=? now
    then oneshot_send r (p_reply e) (ARequest (Err (Timeout "steam request"))) else r) as Heq by done.
  rewrite (Heq e1 slots), (Heq e2 slots).
  destruct (is_closed slots (p_reply e1)) eqn:H1, (is_closed slots (p_reply e2)) eqn:H2,
    (p_deadline e1 <=? now) eqn:D1, (p_deadline e2 <=? now) eqn:D2;
    rewrite ?Heq, ?is_closed_send, ?H1, ?H2, ?D1, ?D2; try done.
  apply oneshot_send_comm.
Qed.

(** A fold whose steps commute does not depend on the order, nor on the direction. *)
Lemma foldl_any_order {A B} (f : A → B → B) b l m :
  (∀ x y b, f x (f y b) = f y (f x b)) → l ≡ₚ m → foldl (λ b x, f x b) b l = foldr f b m.
Proof.
  intros Hf Hp. transitivity (foldr f b (reverse l)).
  - clear. revert b. induction l as [|x l IH]; intros b; [done|].
    rewrite reverse_cons, foldr_app. cbn [foldl foldr]. apply IH.
  - apply (foldr_permutation_proper (=) f b Hf). by rewrite reverse_Permutation.
Qed.

(** ** The loops and their models *)
Lemma retain_loop_eq now entries slots :
  retain_loop now entries slots =
    (filter (λ je, sweep_keeps now slots je.2 = true) entries,
     foldl (λ slots je, sweep_slot now je.2 slots) slots entries).
Proof.
  revert slots. induction entries as [|[j e] entries IH]; intros slots; [done|].
  cbn [retain_loop foldl snd].
  assert (sweep_keeps now slots e = negb (is_closed slots (p_reply e)) && negb (p_deadline e <=? now))
    as Hk by done.
  assert (sweep_slot now e slots = if is_closed slots (p_reply e) then slots
    else if p_deadline e <=? now
    then oneshot_send slots (p_reply e) (ARequest (Err (Timeout "steam request"))) else slots)
    as -> by done.
  destruct (is_closed slots (p_reply e)); cbn in Hk.
  { rewrite IH, filter_cons_False; [done|]. cbn. by rewrite Hk. }
  destruct (p_deadline e <=? now); cbn in Hk.
  - rewrite IH, filter_cons_False; [|cbn; by rewrite Hk]. f_equal.
    apply list_filter_iff. intros je. unfold sweep_keeps. by rewrite is_closed_send.
  - by rewrite IH, filter_cons_True.
Qed.

Lemma drain_loop_eq reason entries slots :
  drain_loop reason entries slots =
    foldl (λ slots je, oneshot_send slots (p_reply je.2) (ARequest (Err (WebSocket reason))))
      slots entries.
Proof. revert slots. by induction entries as [|[j e] entries IH]; intros slots; cbn. Qed.

(** C25: The driver's walks over its pending requests do not depend on the order in which the
    hash map yields them: visiting the entries one by one, in any order, each visit seeing
    the channels the earlier ones left, the sweep keeps the same requests and answers the
    same callers, and the failing of all requests leaves the same channels. *)
Theorem hash_order_is_immaterial now reason (pending : gmap Z PendingEntry) entries slots :
  entries ≡ₚ map_to_list pending →
  (let '(kept, slots') := retain_loop now entries slots in (list_to_map kept, slots')) =
    sweep_pending now pending slots ∧
  drain_loop reason entries slots = fail_all_pending pending slots reason.
Proof.
  intros Hp. rewrite retain_loop_eq, drain_loop_eq. unfold sweep_pending, fail_all_pending.
  rewrite !map_fold_foldr, map_filter_alt. split; [f_equal|].
  - apply list_to_map_proper; [|by rewrite Hp].
    eapply sublist_NoDup; [|apply fmap_sublist, sublist_filter]. rewrite Hp.
    apply NoDup_fst_map_to_list.
  - rewrite (foldl_any_order (λ je, sweep_slot now je.2) slots entries (map_to_list pending));
      [apply foldr_ext; [by intros [] ?|done..]|intros; apply sweep_slot_comm|done].
  - rewrite (foldl_any_order (λ je slots, oneshot_send slots (p_reply je.2)
      (ARequest (Err (WebSocket reason)))) slots entries (map_to_list pending));
      [apply foldr_ext; [by intros [] ?|done..]|intros; apply oneshot_send_comm|done].
Qed.

(** ** Concrete maps *)
Definition three_pending : gmap Z PendingEntry :=
  list_to_map [(1, {| p_reply := 0; p_deadline := 10 |}); (2, {| p_reply := 1; p_deadline := 90 |});
               (3, {| p_reply := 2; p_deadline := 10 |})].
Definition three_slots : Slots :=
  list_to_map [(0%nat, SlotOpen); (1%nat, SlotOpen); (2%nat, SlotClosed)].

Lemma hash_order_is_immaterial_witness :
  drain_loop "session reconnecting" (reverse (map_to_list three_pending)) three_slots =
    fail_all_pending three_pending three_slots "session reconnecting" ∧
  (sweep_pending 50 three_pending three_slots).2 !! 0%nat = Some timed_out.
Proof.
  split; [|by vm_compute].
  apply (hash_order_is_immaterial 50 "session reconnecting" three_pending).
  by rewrite reverse_Permutation.
Defined.
