(* ===== verification/Budget.v ===== *)
(** * How long connecting may take

    The connect path of src/session/connection.rs and src/session/driver.rs with its clock:
    the definitions of Connection.v and Driver.v, each attempt with the time it takes, the
    timer that bounds it, and the sleeps in between. *)
From S2P Require Import Prelude Errors Proto Wire Codec Discovery Connection Driver.
#[local] Set Default Goal Selector "!".

Definition CONNECT_ATTEMPT_TIMEOUT : Z := from_secs 20.
(** [http.rs]: what reqwest is told to bound a whole request by. *)
Definition TOTAL_TIMEOUT : Z := from_secs 30.

(** A value and when it was there, counted from the start. *)
Abbreviation timed_result A := (Result A * Z)%type.

Section budget.
Context `{Message CMsgProtoBufHeader, Message CMsgMulti, Message CMsgClientLoggedOff,
          Message CMsgClientLogon, Message CMsgClientLogonResponse}.
Context (GzDecoder : list byte → list byte * option string).
Context (now : Instant) (account_name refresh_token : string).

(** [timeout(CONNECT_ATTEMPT_TIMEOUT, attempt)] on an attempt that takes [took]: the timer
    fires if the attempt takes longer. *)
Definition bounded (env : ServerAttempt) (took : Z) : ServerAttempt :=
  {| sa_socket := sa_socket env; sa_write := sa_write env;
     sa_timeout := bool_decide (CONNECT_ATTEMPT_TIMEOUT < took) |}.

(** The server loop of [establish]; [env i] and [took i] are attempt [i]. *)
Fixpoint timed_establish_loop (env : nat → ServerAttempt) (took : nat → Z) (i : nat)
    (servers : list CmServer) (last_err : option Error) :
    panicking (timed_result (CmConnection * LoggedOn)) :=
  match servers with
  | [] => Some (Err (unwrap_or last_err (Network "no CM servers to connect to")), 0)
  | server :: servers =>
      r ← server_attempt GzDecoder now account_name refresh_token (bounded (env i) (took i)) server;
      match r with
      | Some (Ok ok) => Some (Ok ok, took i)
      | Some (Err (AuthRejected s)) => Some (Err (AuthRejected s), took i)
      | Some (Err e) =>
          '(result, t) ← timed_establish_loop env took (S i) servers (Some e);
          Some (result, took i + t)
      | None =>
          '(result, t) ← timed_establish_loop env took (S i) servers
                           (Some (Timeout "cm connect attempt"));
          Some (result, CONNECT_ATTEMPT_TIMEOUT + t)
      end
  end.

(** What the network does with one [establish]. *)
Record Contact := {
  ct_discovered : Result (list CmServer);
  ct_discovery : Z;
  ct_env : nat → ServerAttempt;
  ct_took : nat → Z
}.
Definition timed_establish (c : Contact) : panicking (timed_result (CmConnection * LoggedOn)) :=
  match ct_discovered c with
  | Err e => Some (Err e, ct_discovery c)
  | Ok servers =>
      '(result, t) ← timed_establish_loop (ct_env c) (ct_took c) 0 (take MAX_CONNECT_ATTEMPTS servers) None;
      Some (result, ct_discovery c + t)
  end.

(** [establish_resilient]: attempt [n] and its time, and the sleeps in between. *)
Fixpoint timed_resilient_loop (remaining attempt_no : nat) (backoff : Z) (last_err : Error)
    (attempt : nat → timed_result (CmConnection * LoggedOn)) :
    timed_result (CmConnection * LoggedOn) :=
  match remaining with
  | O => (Err last_err, 0)
  | S remaining =>
      let '(r, t) := attempt attempt_no in
      match r with
      | Ok ok => (Ok ok, t)
      | Err (AuthRejected s) => (Err (AuthRejected s), t)
      | Err e =>
          if decide (attempt_no < INITIAL_CONNECT_ATTEMPTS)%nat then
            let '(r, t') := timed_resilient_loop remaining (S attempt_no)
              (Z.min (backoff * 2) MAX_BACKOFF) e attempt in
            (r, t + backoff + t')
          else
            let '(r, t') := timed_resilient_loop remaining (S attempt_no) backoff e attempt in
            (r, t + t')
      end
  end.
Definition timed_resilient (attempt : nat → timed_result (CmConnection * LoggedOn)) :
    timed_result (CmConnection * LoggedOn) :=
  timed_resilient_loop INITIAL_CONNECT_ATTEMPTS 1 INITIAL_BACKOFF
    (Network "no connect attempt ran") attempt.

(** ** The clock changes no result *)
Lemma timed_establish_loop_result env took i servers last :
  fst <$> timed_establish_loop env took i servers last =
    establish_loop GzDecoder now account_name refresh_token (λ i, bounded (env i) (took i)) i
      servers last.
Proof.
  revert i last. induction servers as [|server servers IH]; intros i last; [done|].
  cbn [timed_establish_loop establish_loop].
  destruct (server_attempt _ _ _ _ _ _) as [[[ok|e]|]|]; cbn [mbind option_bind]; [done| | |done].
  2: { rewrite <-IH. by destruct (timed_establish_loop _ _ _ _ _) as [[]|]. }
  destruct e; try done; rewrite <-IH; by destruct (timed_establish_loop _ _ _ _ _) as [[]|].
Qed.

Lemma timed_establish_result c :
  fst <$> timed_establish c =
    establish GzDecoder now account_name refresh_token (λ i, bounded (ct_env c i) (ct_took c i))
      (ct_discovered c).
Proof.
  unfold timed_establish, establish. destruct (ct_discovered c) as [servers|e]; [|done].
  rewrite <-timed_establish_loop_result. by destruct (timed_establish_loop _ _ _ _ _) as [[]|].
Qed.

Lemma timed_resilient_result attempt :
  (timed_resilient attempt).1 = (establish_resilient (λ n, (attempt n).1)).1.
Proof.
  unfold timed_resilient, establish_resilient.
  generalize 1%nat as n, INITIAL_BACKOFF as b, (Network "no connect attempt ran") as e.
  induction INITIAL_CONNECT_ATTEMPTS as [|k IH]; intros n b e; [done|].
  cbn [timed_resilient_loop establish_resilient_loop].
  destruct (attempt n) as [[ok|e'] t]; cbn [fst]; [done|].
  assert (∀ b, (timed_resilient_loop k (S n) b e' attempt).1 =
    (establish_resilient_loop k (S n) b e' (λ n, (attempt n).1)).1) as Hk by done.
  destruct e'; try done; case_decide; rewrite <-?Hk;
    match goal with |- context [timed_resilient_loop k (S n) ?b ?e attempt] =>
      specialize (Hk b); destruct (timed_resilient_loop k (S n) b e attempt);
      by destruct (establish_resilient_loop k (S n) b e _) end.
Qed.

(** ** The clock is bounded *)
Lemma server_attempt_in_time env took server r :
  server_attempt GzDecoder now account_name refresh_token (bounded env took) server = Some (Some r) →
  took ≤ CONNECT_ATTEMPT_TIMEOUT.
Proof. unfold server_attempt. cbn [bounded sa_timeout]. case_bool_decide; [done|]. lia. Qed.

Lemma timed_establish_loop_bound env took i servers last r t :
  (∀ i, 0 ≤ took i) → timed_establish_loop env took i servers last = Some (r, t) →
  0 ≤ t ≤ CONNECT_ATTEMPT_TIMEOUT * len servers.
Proof.
  intros Htook. unfold len. revert i last r t.
  induction servers as [|server servers IH]; intros i last r t; cbn [timed_establish_loop].
  { intros [= _ <-]. cbn. lia. }
  intros (a & Ha & Hr)%bind_Some. specialize (Htook i) as Hi.
  assert (0 ≤ CONNECT_ATTEMPT_TIMEOUT) as Hpos by (unfold CONNECT_ATTEMPT_TIMEOUT, from_secs; lia).
  cbn [length]. rewrite Nat2Z.inj_succ. destruct a as [[ok|e]|].
  - apply server_attempt_in_time in Ha. simplify_eq. nia.
  - apply server_attempt_in_time in Ha.
    destruct e; try (apply bind_Some in Hr as ([r' t'] & Hl%IH & Hr); simplify_eq; nia).
    simplify_eq. nia.
  - apply bind_Some in Hr as ([r' t'] & Hl%IH & Hr). simplify_eq. nia.
Qed.

Lemma timed_establish_bound c r t :
  0 ≤ ct_discovery c ≤ TOTAL_TIMEOUT → (∀ i, 0 ≤ ct_took c i) →
  timed_establish c = Some (r, t) → 0 ≤ t ≤ from_secs 130.
Proof.
  intros Hd Htook. unfold timed_establish. unfold TOTAL_TIMEOUT, from_secs in *.
  destruct (ct_discovered c) as [servers|e]; [|intros [= _ <-]; lia].
  intros ([r' t'] & Hl & Hr)%bind_Some. simplify_eq.
  apply timed_establish_loop_bound in Hl; [|done]. unfold len in Hl. rewrite length_take in Hl.
  unfold CONNECT_ATTEMPT_TIMEOUT, MAX_CONNECT_ATTEMPTS, from_secs in Hl. lia.
Qed.

Lemma timed_resilient_loop_bound T attempt k n b e :
  (∀ n, 0 ≤ (attempt n).2 ≤ T) → 0 ≤ b → (n + k = S INITIAL_CONNECT_ATTEMPTS)%nat → (0 < k)%nat →
  0 ≤ (timed_resilient_loop k n b e attempt).2 ≤ T * Z.of_nat k + b * (2 ^ (Z.of_nat k - 1) - 1).
Proof.
  intros Ha. revert n b e. induction k as [|k IH]; intros n b e Hb Hn Hk; [lia|].
  cbn [timed_resilient_loop]. pose proof (Ha n) as Ht. destruct (attempt n) as [[ok|e'] t]; cbn [snd] in *.
  { assert (0 ≤ 2 ^ (Z.of_nat (S k) - 1) - 1) by (pose proof (Z.pow_pos_nonneg 2 (Z.of_nat (S k) - 1)); lia).
    nia. }
  assert (∀ e', 0 ≤ (if decide (n < INITIAL_CONNECT_ATTEMPTS)%nat
    then let '(r, t') := timed_resilient_loop k (S n) (Z.min (b * 2) MAX_BACKOFF) e' attempt in
         (r, t + b + t')
    else let '(r, t') := timed_resilient_loop k (S n) b e' attempt in (r, t + t')).2 ≤
    T * Z.of_nat (S k) + b * (2 ^ (Z.of_nat (S k) - 1) - 1)) as Hgo.
  { intros e''. replace (Z.of_nat (S k) - 1) with (Z.of_nat k) by lia. destruct k as [|k].
    - rewrite decide_False by lia. cbn. lia.
    - rewrite decide_True by lia.
      pose proof (IH (S n) (Z.min (b * 2) MAX_BACKOFF) e'') as Hrec.
      destruct (timed_resilient_loop (S k) (S n) _ e'' attempt) as [r t']. cbn [snd] in *.
      assert (0 ≤ MAX_BACKOFF) by (unfold MAX_BACKOFF, from_secs; lia).
      destruct Hrec as [Hlo Hhi]; [lia..|].
      replace (Z.of_nat (S k) - 1) with (Z.of_nat k) in Hhi by lia.
      assert (2 ^ Z.of_nat (S k) = 2 * 2 ^ Z.of_nat k) as -> by (rewrite <-Z.pow_succ_r; [f_equal|]; lia).
      assert (1 ≤ 2 ^ Z.of_nat k) by (pose proof (Z.pow_pos_nonneg 2 (Z.of_nat k)); lia).
      assert (Z.min (b * 2) MAX_BACKOFF * (2 ^ Z.of_nat k - 1) ≤ b * 2 * (2 ^ Z.of_nat k - 1))
        by (apply Z.mul_le_mono_nonneg_r; lia).
      rewrite Nat2Z.inj_succ in Hhi |- *. lia. }
  destruct e'; try apply Hgo. cbn.
  assert (0 ≤ 2 ^ (Z.of_nat (S k) - 1) - 1) by (pose proof (Z.pow_pos_nonneg 2 (Z.of_nat (S k) - 1)); lia).
  nia.
Qed.

(** C27: Connecting gives up in time: however slow or silent the servers and proxies are, the
    initial connect of a session comes to the answer of the untimed definitions within 527
    seconds: four rounds of a directory request (bounded by the HTTP client's 30 s) and at
    most five servers of 20 s each, with sleeps of 1, 2 and 4 s between the rounds. *)
Theorem connect_gives_up_in_time (contact : nat → Contact) :
  (∀ n, 0 ≤ ct_discovery (contact n) ≤ TOTAL_TIMEOUT) → (∀ n i, 0 ≤ ct_took (contact n) i) →
  ∃ attempt, (∀ n, timed_establish (contact n) = Some (attempt n)) ∧
    (∀ n, establish GzDecoder now account_name refresh_token
            (λ i, bounded (ct_env (contact n) i) (ct_took (contact n) i)) (ct_discovered (contact n))
          = Some (attempt n).1) ∧
    (timed_resilient attempt).1 = (establish_resilient (λ n, (attempt n).1)).1 ∧
    0 ≤ (timed_resilient attempt).2 ≤ from_secs 527.
Proof.
  intros Hd Ht.
  assert (∀ n, is_Some (timed_establish (contact n))) as Htot.
  { intros n. apply (fmap_is_Some fst). rewrite timed_establish_result. apply establish_total. }
  exists (λ n, default (Err (Network ""), 0) (timed_establish (contact n))).
  assert (∀ n, timed_establish (contact n) =
    Some (default (Err (Network ""), 0) (timed_establish (contact n)))) as Heq.
  { intros n. by destruct (Htot n) as [x ->]. }
  set (attempt n := default (Err (Network ""), 0) (timed_establish (contact n))) in *.
  assert (∀ n, 0 ≤ (attempt n).2 ≤ from_secs 130) as Hb.
  { intros n. apply (timed_establish_bound (contact n) (attempt n).1); [apply Hd|apply Ht|].
    by rewrite <-surjective_pairing. }
  split; [done|]. split; [intros n; by rewrite <-timed_establish_result, Heq|].
  split; [apply timed_resilient_result|].
  apply (timed_resilient_loop_bound (from_secs 130) attempt INITIAL_CONNECT_ATTEMPTS 1 INITIAL_BACKOFF
    (Network "no connect attempt ran") Hb); unfold INITIAL_BACKOFF, INITIAL_CONNECT_ATTEMPTS, from_secs; lia.
Qed.
End budget.

(** ** The worst case *)
Section witnesses.
Import Wire.Instances.

(** Nine servers behind a proxy that answers nothing. *)
Definition silent (n : nat) : Contact :=
  {| ct_discovered := Ok (repeat sample_server 9); ct_discovery := 30000; ct_env := sample_env;
     ct_took := λ _, 1000000 |}.
Lemma connect_gives_up_in_time_witness :
  ∃ attempt, (∀ n, timed_establish stored 0 "bot" "token" (silent n) = Some (attempt n)) ∧
    (timed_resilient attempt).2 ≤ 527000 ∧
    timed_resilient (λ _, default (Err (Network ""), 0)
      (timed_establish stored 0 "bot" "token" (silent 0))) =
      (Err (Timeout "cm connect attempt"), 527000).
Proof.
  destruct (connect_gives_up_in_time stored 0 "bot" "token" silent) as (attempt & Ha & _ & _ & Hb);
    [by intros; cbn|by intros; cbn|].
  exists attempt. split; [done|]. split; [apply Hb|by vm_compute].
Defined.
End witnesses.
