(* ===== verification/Dial.v ===== *)
(** * How long a dial may take

    The timers of src/transport/proxy.rs and src/transport/websocket.rs.  Proxy.v says what
    a dial comes to when the outcome of every [timeout(..)] is given; here the network only
    says how long each operation takes, and the timers decide.  The same functions are
    written once more in a monad that counts the time spent, shown to come to the answer of
    Proxy.v, and bounded. *)
From S2P Require Import Prelude Errors RustStr Proxy Proto Wire Codec Discovery Connection Driver.
From S2P Require Import Budget.
#[local] Set Default Goal Selector "!".

(** ** Constants *)
Definition TCP_CONNECT_TIMEOUT : Z := from_secs 15.
Definition PROXY_CONNECT_TIMEOUT : Z := from_secs 45.
Definition TLS_HANDSHAKE_TIMEOUT : Z := from_secs 15.
Definition WS_HANDSHAKE_TIMEOUT : Z := from_secs 15.
Definition PROXY_HANDSHAKE_TIMEOUT : Z := from_secs 30.

(** ** Time

    A computation with the time it took. *)
Definition clocked (A : Type) : Type := Result A * Z.
#[export] Instance clocked_bind : MBind clocked := λ A B k m,
  match m with
  | (Ok a, t) => let '(r, t') := k a in (r, t + t')
  | (Err e, t) => (Err e, t)
  end.
(** A step that does not wait. *)
Definition at_once {A} (r : Result A) : clocked A := (r, 0).

(** What the network does with an awaited operation: its outcome, and after how long. *)
Record Op (A : Type) := {
  op_result : result string A;
  op_took : Z
}.
Arguments op_result {A} _.
Arguments op_took {A} _.

(** [timeout(budget, op).await]: the operation is polled before the timer. *)
Definition within {A} (budget : Z) (op : Op A) : timed A :=
  if budget <? op_took op then None else Some (op_result op).
Definition await {A} (what : string) (conv : string → Error) (budget : Z) (op : Op A) : clocked A :=
  (timeout what conv (within budget op), Z.min budget (op_took op)).
(** [timeout(budget, m).await] around a computation of several awaits. *)
Definition cap {A} (what : string) (budget : Z) (m : clocked A) : clocked A :=
  if budget <? m.2 then (Err (Timeout what), budget) else m.

(** What the network does during a dial; [dl_line i] is how long the [i]-th [read_line]
    of the CONNECT reply takes. *)
Record Dial := {
  dl_tcp : bstr → Op unit;
  dl_proxy_sni : bstr → result string unit;
  dl_proxy_tls : Op unit;
  dl_write : bstr → Op unit;
  dl_response : bstr;
  dl_line : nat → Z;
  dl_socks5 : bstr * Z → bstr → option ProxyCredentials → Op unit;
  dl_sni : bstr → result string unit;
  dl_tls : Op unit;
  dl_request : result string unit;
  dl_handshake : Op unit
}.

Section dial.
Context (b64 : bstr → bstr) (url_parse : bstr → result string Url) (d : Dial).

(** ** [transport/proxy.rs] *)

(** [timeout_at(deadline, reader.read_line(..))], [elapsed] after the deadline was set. *)
Definition clocked_read_line (what : string) (i : nat) (elapsed : Z) (stream : bstr) :
    clocked (bstr * bstr) :=
  if PROXY_HANDSHAKE_TIMEOUT <? elapsed + dl_line d i
  then (Err (Timeout what), PROXY_HANDSHAKE_TIMEOUT - elapsed)
  else (map_err Io (read_line stream), dl_line d i).

Fixpoint clocked_drain (n i : nat) (elapsed : Z) (stream : bstr) : clocked bstr :=
  match n with
  | O => at_once (Err (HttpConnect "proxy sent too many CONNECT response headers"))
  | S n =>
      '(line, rest) ← clocked_read_line "http connect read headers" i elapsed stream;
      if ends_headers line then at_once (Ok rest)
      else clocked_drain n (S i) (elapsed + dl_line d i) rest
  end.

Definition clocked_read_response (stream : bstr) : clocked bstr :=
  '(line, rest) ← clocked_read_line "http connect read status" 0 0 stream;
  let status_line := trim_end line in
  if is_ok_status status_line then clocked_drain MAX_CONNECT_HEADERS 1 (dl_line d 0) rest
  else at_once (Err (HttpConnect ("proxy refused: " +:+ string_of_list_byte status_line))).

Definition clocked_connect_http (proxy : ProxyConfig) (target_host : bstr) (target_port : Z) :
    clocked bstr :=
  _ ← await "http connect tcp" Io PROXY_HANDSHAKE_TIMEOUT
        (dl_tcp d (authority (px_host proxy) (px_port proxy)));
  _ ← (if px_tls_to_proxy proxy then
         _ ← at_once (map_err (λ e, Tls ("invalid proxy sni: " +:+ e))
                        (dl_proxy_sni d (px_host proxy)));
         await "proxy tls handshake" Tls PROXY_HANDSHAKE_TIMEOUT (dl_proxy_tls d)
       else at_once (Ok tt));
  _ ← await "http connect write" Io PROXY_HANDSHAKE_TIMEOUT
        (dl_write d (connect_request b64 proxy target_host target_port));
  clocked_read_response (dl_response d).

Definition clocked_connect_socks5 (proxy : ProxyConfig) (target_host : bstr) (target_port : Z) :
    clocked bstr :=
  _ ← await "socks5 handshake" Socks5 PROXY_HANDSHAKE_TIMEOUT
        (dl_socks5 d (px_host proxy, px_port proxy) (authority target_host target_port)
           (px_credentials proxy));
  at_once (Ok (dl_response d)).

Definition clocked_connect_via_proxy (proxy : ProxyConfig) (target_host : bstr) (target_port : Z) :
    clocked bstr :=
  match px_kind proxy with
  | Socks5Proxy => clocked_connect_socks5 proxy target_host target_port
  | HttpConnectProxy => clocked_connect_http proxy target_host target_port
  end.

(** ** [transport/websocket.rs] *)

(** What [connect_ws] reads off the URL. *)
Definition ws_target (url : bstr) : Result (bstr * Z * bool) :=
  parsed ← map_err UrlParse (url_parse url);
  host ← ok_or (u_host_str parsed) (InvalidUrl "ws url missing host");
  let host := unbracket host in
  port ← ok_or (u_port_or_known_default parsed) (InvalidUrl "ws url missing port");
  is_wss ← (if bool_decide (u_scheme parsed = "wss"%string) then Ok true
            else if bool_decide (u_scheme parsed = "ws"%string) then Ok false
            else Err (InvalidUrl ("unsupported ws scheme: " +:+ u_scheme parsed)));
  Ok (host, port, is_wss).

Definition clocked_connect_ws (url : bstr) (proxy : option ProxyConfig) : clocked bstr :=
  '(host, port, is_wss) ← at_once (ws_target url);
  tcp ← match proxy with
        | Some p =>
            cap "proxy connect" PROXY_CONNECT_TIMEOUT (clocked_connect_via_proxy p host port)
        | None =>
            _ ← await "tcp connect" Io TCP_CONNECT_TIMEOUT (dl_tcp d (authority host port));
            at_once (Ok (dl_response d))
        end;
  _ ← (if (is_wss : bool) then
         _ ← at_once (map_err (λ e, Tls ("invalid sni: " +:+ e)) (dl_sni d host));
         await "tls handshake" Tls TLS_HANDSHAKE_TIMEOUT (dl_tls d)
       else at_once (Ok tt));
  _ ← at_once (map_err (λ e, WebSocket ("bad request: " +:+ e)) (dl_request d));
  _ ← await "ws handshake" WebSocket WS_HANDSHAKE_TIMEOUT (dl_handshake d);
  at_once (Ok tcp).

(** ** Forgetting the clock *)

(** How many of the next [fuel] reads finish by the deadline. *)
Fixpoint reads_in_time (fuel i : nat) (elapsed : Z) : nat :=
  match fuel with
  | O => O
  | S fuel =>
      if PROXY_HANDSHAKE_TIMEOUT <? elapsed + dl_line d i then O
      else S (reads_in_time fuel (S i) (elapsed + dl_line d i))
  end.

(** The environment of Proxy.v this network amounts to, given a TCP budget and whether the
    timer around the whole proxy handshake fired. *)
Definition net_env (tcp_budget : Z) : NetEnv :=
  {| ne_tcp := λ addr, within tcp_budget (dl_tcp d addr);
     ne_sni := dl_proxy_sni d;
     ne_tls := within PROXY_HANDSHAKE_TIMEOUT (dl_proxy_tls d);
     ne_write := λ bytes, within PROXY_HANDSHAKE_TIMEOUT (dl_write d bytes);
     ne_response := dl_response d;
     ne_reads := reads_in_time (S MAX_CONNECT_HEADERS) 0 0;
     ne_socks5 := λ p t c, within PROXY_HANDSHAKE_TIMEOUT (dl_socks5 d p t c) |}.
Definition proxy_timer (url : bstr) (proxy : option ProxyConfig) : bool :=
  match proxy, ws_target url with
  | Some p, Ok (host, port, _) =>
      PROXY_CONNECT_TIMEOUT <? (clocked_connect_via_proxy p host port).2
  | _, _ => false
  end.
Definition ws_env (url : bstr) (proxy : option ProxyConfig) : WsEnv :=
  {| we_net := net_env (match proxy with Some _ => PROXY_HANDSHAKE_TIMEOUT | None => TCP_CONNECT_TIMEOUT end);
     we_proxy_timer := proxy_timer url proxy;
     we_sni := dl_sni d;
     we_tls := within TLS_HANDSHAKE_TIMEOUT (dl_tls d);
     we_request := dl_request d;
     we_handshake := within WS_HANDSHAKE_TIMEOUT (dl_handshake d) |}.

Lemma clocked_bind_result {A B} (m : clocked A) (k : A → clocked B) :
  (m ≫= k).1 = (m.1 ≫= λ a, (k a).1).
Proof. destruct m as [[a|e] t]; [|done]. cbn. by destruct (k a). Qed.

Lemma result_bind_cong {A B} (m m' : Result A) (k k' : A → Result B) :
  m = m' → (∀ a, k a = k' a) → (m ≫= k) = (m' ≫= k').
Proof. intros -> Hk. by destruct m'; cbn. Qed.

Ltac clock_step := rewrite clocked_bind_result; apply result_bind_cong; [try done|intros ?].

Lemma clocked_drain_result n fuel i elapsed stream :
  (n ≤ fuel)%nat →
  (clocked_drain n i elapsed stream).1 = drain_headers n (reads_in_time fuel i elapsed) stream.
Proof.
  revert fuel i elapsed stream. induction n as [|n IH]; intros fuel i elapsed stream Hf; [done|].
  destruct fuel as [|fuel]; [lia|]. cbn [clocked_drain drain_headers reads_in_time].
  rewrite clocked_bind_result. unfold clocked_read_line.
  destruct (_ <? _); [done|]. apply result_bind_cong; [done|]. intros [line rest].
  destruct (ends_headers line); [done|]. apply IH. lia.
Qed.

Lemma clocked_read_response_result stream :
  (clocked_read_response stream).1 = read_response (reads_in_time (S MAX_CONNECT_HEADERS) 0 0) stream.
Proof.
  unfold clocked_read_response, read_response, clocked_read_line. rewrite clocked_bind_result.
  cbn [reads_in_time]. destruct (_ <? _); [done|]. apply result_bind_cong; [done|]. intros [line rest].
  destruct (is_ok_status _); [|done]. by apply clocked_drain_result.
Qed.

Lemma clocked_connect_via_proxy_result p host port :
  (clocked_connect_via_proxy p host port).1 =
    connect_via_proxy b64 (net_env PROXY_HANDSHAKE_TIMEOUT) p host port.
Proof.
  unfold clocked_connect_via_proxy, connect_via_proxy. destruct (px_kind p).
  - unfold clocked_connect_socks5, connect_socks5. by clock_step.
  - unfold clocked_connect_http, connect_http. clock_step. clock_step.
    { destruct (px_tls_to_proxy p); [|done]. by clock_step. }
    clock_step. apply clocked_read_response_result.
Qed.

(** [connect_ws] reads the URL first. *)
Lemma connect_ws_target env url proxy :
  connect_ws b64 url_parse env url proxy =
    '(host, port, is_wss) ← ws_target url;
    tcp ← match proxy with
          | Some p =>
              if we_proxy_timer env then Err (Timeout "proxy connect")
              else connect_via_proxy b64 (we_net env) p host port
          | None =>
              _ ← timeout "tcp connect" Io (ne_tcp (we_net env) (authority host port));
              Ok (ne_response (we_net env))
          end;
    _ ← (if (is_wss : bool) then
           _ ← map_err (λ e, Tls ("invalid sni: " +:+ e)) (we_sni env host);
           timeout "tls handshake" Tls (we_tls env)
         else Ok tt);
    _ ← map_err (λ e, WebSocket ("bad request: " +:+ e)) (we_request env);
    _ ← timeout "ws handshake" WebSocket (we_handshake env);
    Ok tcp.
Proof.
  unfold connect_ws, ws_target. destruct (map_err UrlParse (url_parse url)) as [parsed|]; [|done].
  cbn [mbind result_bind]. destruct (ok_or (u_host_str parsed) _) as [host|]; [|done].
  cbn [mbind result_bind]. destruct (ok_or (u_port_or_known_default parsed) _) as [port|]; [|done].
  cbn [mbind result_bind]. case_bool_decide; [done|]. by case_bool_decide.
Qed.

Lemma clocked_connect_ws_result url proxy :
  (clocked_connect_ws url proxy).1 = connect_ws b64 url_parse (ws_env url proxy) url proxy.
Proof.
  rewrite connect_ws_target. unfold clocked_connect_ws. rewrite clocked_bind_result. cbn [at_once fst].
  destruct (ws_target url) as [[[host port] is_wss]|] eqn:Hurl; [|done]. cbn [mbind result_bind].
  clock_step.
  { destruct proxy as [p|]; [|by clock_step]. unfold ws_env, cap. cbn [we_proxy_timer we_net].
    unfold proxy_timer. rewrite Hurl. destruct (_ <? _); [done|]. apply clocked_connect_via_proxy_result. }
  clock_step.
  { destruct is_wss; [|done]. by clock_step. }
  clock_step. by clock_step.
Qed.

(** ** Bounds *)

(** Nothing takes less than no time. *)
Record clock_runs : Prop := {
  cr_tcp addr : 0 ≤ op_took (dl_tcp d addr);
  cr_proxy_tls : 0 ≤ op_took (dl_proxy_tls d);
  cr_write bytes : 0 ≤ op_took (dl_write d bytes);
  cr_line i : 0 ≤ dl_line d i;
  cr_socks5 p t c : 0 ≤ op_took (dl_socks5 d p t c);
  cr_tls : 0 ≤ op_took (dl_tls d);
  cr_handshake : 0 ≤ op_took (dl_handshake d)
}.

(** The timers a connect attempt of 20 seconds leaves room for. *)
Definition quick_timers : list string := ["tcp connect"; "tls handshake"; "ws handshake"]%string.

(** At most [T], and a timer that is not quick fires after [slow] at the earliest. *)
Definition paced {A} (T slow : Z) (m : clocked A) : Prop :=
  0 ≤ m.2 ≤ T ∧ ∀ w, m.1 = Err (Timeout w) → w ∉ quick_timers → slow ≤ m.2.

Lemma paced_bind {A B} T1 T2 slow (m : clocked A) (k : A → clocked B) :
  0 ≤ T2 → paced T1 slow m → (∀ a, m.1 = Ok a → paced T2 (slow - m.2) (k a)) →
  paced (T1 + T2) slow (m ≫= k).
Proof.
  intros HT2 [Hm Hs] Hk. destruct m as [[a|e] t]; cbn [fst snd] in *; unfold mbind, clocked_bind.
  - destruct (Hk a eq_refl) as [Hk2 Hks]. destruct (k a) as [r t']. cbn [fst snd] in *.
    split; cbn [fst snd]; [lia|]. intros w Hw Hq. specialize (Hks w Hw Hq). lia.
  - split; cbn [fst snd]; [lia|]. intros w [= ->]. by apply Hs.
Qed.

Lemma paced_weaken {A} T T' slow slow' (m : clocked A) :
  T ≤ T' → slow' ≤ slow → paced T slow m → paced T' slow' m.
Proof. intros ?? [Hm Hs]. split; [lia|]. intros w Hw Hq. specialize (Hs w Hw Hq). lia. Qed.

Lemma paced_seq {A B} T1 T2 slow (m : clocked A) (k : A → clocked B) :
  0 ≤ T2 → paced T1 slow m → (∀ a, paced T2 slow (k a)) → paced (T1 + T2) slow (m ≫= k).
Proof.
  intros HT2 Hm Hk. apply paced_bind; [done..|]. intros a _. destruct Hm as [Hm _].
  eapply paced_weaken; [| |apply Hk]; lia.
Qed.

Lemma paced_at_once {A} (r : Result A) slow :
  (∀ w, r ≠ Err (Timeout w)) → paced 0 slow (at_once r).
Proof. intros Hr. split; [cbn; lia|]. by intros w ?%Hr. Qed.

Lemma paced_await {A} what conv budget (op : Op A) slow :
  (∀ e w, conv e ≠ Timeout w) → 0 ≤ op_took op → 0 ≤ budget →
  (what ∉ quick_timers → slow ≤ budget) → paced budget slow (await what conv budget op).
Proof.
  intros Hconv Ht Hb Hq. unfold await, timeout, within. split; cbn; [lia|].
  intros w. destruct (Z.ltb_spec budget (op_took op)); [intros [= <-] ?%Hq; lia|].
  destruct (op_result op); [done|]. intros [= Hw]. by edestruct Hconv.
Qed.

Lemma map_err_no_timeout {A} (conv : string → Error) (r : result string A) w :
  (∀ e w, conv e ≠ Timeout w) → map_err conv r ≠ Err (Timeout w).
Proof. intros Hconv. destruct r; [done|]. cbn. intros [= Hw]. by eapply Hconv. Qed.

Context (Hclock : clock_runs).

Lemma clocked_drain_paced n i elapsed stream :
  elapsed ≤ PROXY_HANDSHAKE_TIMEOUT →
  paced (PROXY_HANDSHAKE_TIMEOUT - elapsed) (PROXY_HANDSHAKE_TIMEOUT - elapsed)
    (clocked_drain n i elapsed stream).
Proof.
  revert i elapsed stream. induction n as [|n IH]; intros i elapsed stream He; cbn [clocked_drain].
  { eapply paced_weaken; [| |by apply paced_at_once]; [lia|done]. }
  pose proof (cr_line Hclock i) as Hi. unfold clocked_read_line.
  destruct (Z.ltb_spec PROXY_HANDSHAKE_TIMEOUT (elapsed + dl_line d i)) as [Hlt|Hge].
  { split; cbn; [lia|done]. }
  replace (PROXY_HANDSHAKE_TIMEOUT - elapsed) with
    (dl_line d i + (PROXY_HANDSHAKE_TIMEOUT - (elapsed + dl_line d i))) at 1 by lia.
  apply paced_bind; [lia| |].
  - split; cbn; [lia|]. intros w Hw. by apply map_err_no_timeout in Hw.
  - intros [line rest] _. cbn [snd]. destruct (ends_headers line).
    + eapply paced_weaken; [| |by apply paced_at_once]; [lia|done].
    + eapply paced_weaken; [| |by apply IH]; lia.
Qed.

Lemma clocked_read_response_paced stream :
  paced PROXY_HANDSHAKE_TIMEOUT PROXY_HANDSHAKE_TIMEOUT (clocked_read_response stream).
Proof.
  unfold clocked_read_response, clocked_read_line. pose proof (cr_line Hclock 0) as Hi.
  destruct (Z.ltb_spec PROXY_HANDSHAKE_TIMEOUT (0 + dl_line d 0)) as [Hlt|Hge].
  { split; cbn; [unfold PROXY_HANDSHAKE_TIMEOUT, from_secs; lia|done]. }
  replace PROXY_HANDSHAKE_TIMEOUT with (dl_line d 0 + (PROXY_HANDSHAKE_TIMEOUT - dl_line d 0)) at 1 by lia.
  apply paced_bind; [lia| |].
  - split; cbn; [lia|]. intros w Hw. by apply map_err_no_timeout in Hw.
  - intros [line rest] _. cbn [snd]. destruct (is_ok_status _).
    + apply clocked_drain_paced. lia.
    + eapply paced_weaken; [| |by apply paced_at_once]; [lia|done].
Qed.

Lemma clocked_connect_via_proxy_paced p host port :
  paced (from_secs 120) PROXY_HANDSHAKE_TIMEOUT (clocked_connect_via_proxy p host port).
Proof.
  assert (0 ≤ PROXY_HANDSHAKE_TIMEOUT) as Hpos by (unfold PROXY_HANDSHAKE_TIMEOUT, from_secs; lia).
  unfold clocked_connect_via_proxy. destruct (px_kind p).
  - apply (paced_weaken (PROXY_HANDSHAKE_TIMEOUT + 0) _ PROXY_HANDSHAKE_TIMEOUT);
      [unfold PROXY_HANDSHAKE_TIMEOUT, from_secs; lia|done|].
    apply paced_seq; [done| |by intros; apply paced_at_once].
    apply paced_await; [done|apply (cr_socks5 Hclock)|done|done].
  - change (from_secs 120) with (PROXY_HANDSHAKE_TIMEOUT + (PROXY_HANDSHAKE_TIMEOUT +
      (PROXY_HANDSHAKE_TIMEOUT + PROXY_HANDSHAKE_TIMEOUT))).
    apply paced_seq; [lia|apply paced_await; [done|apply (cr_tcp Hclock)|done|done]|intros _].
    apply paced_seq; [lia| |intros _].
    { destruct (px_tls_to_proxy p); [|by eapply paced_weaken; [| |by apply paced_at_once]].
      apply (paced_seq 0); [done|apply paced_at_once; intros w; by apply map_err_no_timeout|].
      intros _. by apply paced_await; [|apply (cr_proxy_tls Hclock)| |]. }
    apply paced_seq; [lia|apply paced_await; [done|apply (cr_write Hclock)|done|done]|intros _].
    apply clocked_read_response_paced.
Qed.

(** The timer around a computation cuts it off, and is late itself. *)
Lemma paced_cap {A} T what budget (m : clocked A) slow :
  0 ≤ budget → slow ≤ budget → paced T slow m → paced budget slow (cap what budget m).
Proof.
  intros Hb Hs [Hm Hw]. unfold cap. destruct (Z.ltb_spec budget m.2); [|split; [lia|done]].
  split; cbn [fst snd]; [lia|]. intros w _ _. lia.
Qed.

Definition DIAL_BUDGET (proxy : option ProxyConfig) : Z :=
  match proxy with Some _ => from_secs 75 | None => from_secs 45 end.

Lemma clocked_connect_ws_paced url proxy :
  paced (DIAL_BUDGET proxy) PROXY_HANDSHAKE_TIMEOUT (clocked_connect_ws url proxy).
Proof.
  set (T := match proxy with Some _ => PROXY_CONNECT_TIMEOUT | None => TCP_CONNECT_TIMEOUT end).
  replace (DIAL_BUDGET proxy) with
    (0 + (T + (TLS_HANDSHAKE_TIMEOUT + (0 + (WS_HANDSHAKE_TIMEOUT + 0))))) by by destruct proxy.
  assert (0 ≤ T) as HT by by destruct proxy.
  apply paced_seq; [|apply paced_at_once|intros [[host port] is_wss]].
  { by destruct proxy. }
  { intros w. unfold ws_target. destruct (url_parse url) as [u|]; [|done]. cbn [map_err mbind result_bind].
    destruct (u_host_str u); [|done]. cbn [ok_or mbind result_bind].
    destruct (u_port_or_known_default u); [|done]. cbn [ok_or mbind result_bind].
    case_bool_decide; [done|]. by case_bool_decide. }
  apply paced_seq; [done| |intros tcp].
  { subst T. destruct proxy as [p|].
    - eapply paced_cap; [done|done|apply clocked_connect_via_proxy_paced].
    - apply (paced_weaken (TCP_CONNECT_TIMEOUT + 0) _ PROXY_HANDSHAKE_TIMEOUT); [done|done|].
      apply paced_seq; [done| |by intros; apply paced_at_once].
      apply paced_await; [done|apply (cr_tcp Hclock)|done|]. intros []. by left. }
  apply paced_seq; [done| |intros _].
  { destruct is_wss; [|by eapply paced_weaken; [| |by apply paced_at_once]].
    apply (paced_seq 0); [done|apply paced_at_once; intros w; by apply map_err_no_timeout|].
    intros _. apply paced_await; [done|apply (cr_tls Hclock)|done|]. intros []. by right; left. }
  apply paced_seq; [done|apply paced_at_once; intros w; by apply map_err_no_timeout|intros _].
  apply paced_seq; [done| |by intros; apply paced_at_once].
  apply paced_await; [done|apply (cr_handshake Hclock)|done|]. intros []. by right; right; left.
Qed.

(** C28: A dial comes to an end, and to the right one.  Whatever the network does and however
    long it takes over each step, [connect_ws] under its own timers gives the answer of the
    untimed dial (with the timers' verdicts as its environment), within 45 seconds directly
    and within 75 through a proxy.  And inside the 20 seconds a connect attempt has for a
    server, no timer of the proxy handshake ever decides: the only timeouts such a dial can
    report are those of the TCP connect and the TLS and WebSocket handshakes. *)
Theorem dial_decides_in_time url proxy :
  let '(r, t) := clocked_connect_ws url proxy in
  r = connect_ws b64 url_parse (ws_env url proxy) url proxy ∧
  0 ≤ t ≤ DIAL_BUDGET proxy ∧
  (∀ w, r = Err (Timeout w) → t ≤ CONNECT_ATTEMPT_TIMEOUT → w ∈ quick_timers).
Proof.
  pose proof (clocked_connect_ws_result url proxy) as Hr.
  destruct (clocked_connect_ws_paced url proxy) as [Ht Hw].
  destruct (clocked_connect_ws url proxy) as [r t]. cbn [fst snd] in *.
  split; [done|]. split; [done|]. intros w Hrw Hle.
  destruct (decide (w ∈ quick_timers)) as [|Hq]; [done|]. specialize (Hw w Hrw Hq).
  unfold PROXY_HANDSHAKE_TIMEOUT, CONNECT_ATTEMPT_TIMEOUT, from_secs in *. lia.
Qed.
End dial.

(** ** A connect attempt over a dial *)

(** What the network does with one server: the dial, what the socket then delivers, the
    outcome of the logon write and how long the logon takes. *)
Record Exit := {
  ex_dial : Dial;
  ex_frames : list WsItem;
  ex_write : option string;
  ex_logon : Z
}.

Section attempt.
Context `{Message CMsgProtoBufHeader, Message CMsgMulti, Message CMsgClientLoggedOff,
          Message CMsgClientLogon, Message CMsgClientLogonResponse}.
Context (GzDecoder : list byte → list byte * option string).
Context (now : Instant) (account_name refresh_token : string).
Context (b64 : bstr → bstr) (url_parse : bstr → result string Url) (proxy : option ProxyConfig).

(** [CmConnection::connect] is [connect_ws] and the frames that follow it. *)
Definition exit_dial (ex : Exit) (url : string) : clocked bstr :=
  clocked_connect_ws b64 url_parse (ex_dial ex) (as_bytes url) proxy.
Definition exit_attempt (ex : Exit) : ServerAttempt :=
  {| sa_socket := λ url, _ ← (exit_dial ex url).1; Ok (ex_frames ex);
     sa_write := ex_write ex; sa_timeout := false |}.
Definition exit_took (ex : Exit) (server : CmServer) : Z :=
  let '(r, t) := exit_dial ex (ws_url server) in
  if is_ok r then t + ex_logon ex else t.

(** One [establish] over these exits. *)
Definition dialled (servers : list CmServer) (discovery : Z) (exits : nat → Exit) : Contact :=
  {| ct_discovered := Ok servers; ct_discovery := discovery;
     ct_env := λ i, exit_attempt (exits i);
     ct_took := λ i, match servers !! i with Some s => exit_took (exits i) s | None => 0 end |}.

(** Neither the socket nor the logon has a timer of its own. *)
Lemma stream_end_no_timeout read w : (stream_messages GzDecoder read).2 ≠ Ready (Timeout w).
Proof.
  induction read as [|[[m|e]|] read IH]; try done. destruct m as [data| | | | |]; try done; cbn [stream_messages].
  pose proof (frame_messages_clean GzDecoder data) as Hc.
  destruct (frame_messages GzDecoder data) as [[ms|e]|]; [| |done].
  - by destruct (stream_messages GzDecoder read).
  - cbn in *. intros [= ->]. done.
Qed.

Lemma logon_on_message_no_timeout c m w c' : logon_on_message c m ≠ Some (Err (Timeout w), c').
Proof.
  intros Hm. destruct (logon_refusals c m (Timeout w) c' Hm) as [_ [?|[Ha Hr]]]; [done|].
  by destruct (logon_eresult_retryable (refusal_code m)).
Qed.

Lemma logon_no_timeout c outcome w c' :
  logon GzDecoder now c account_name refresh_token outcome ≠ Some (Ready (Err (Timeout w)), c').
Proof.
  unfold logon, send, write_frame. destruct outcome; [done|]. set (c1 := Build_CmConnection _ _ _ _ _ _).
  generalize (S (length (cc_inbox c1 ++ (stream_messages GzDecoder (cc_read c1)).1))) as fuel.
  clearbody c1. intros fuel. revert c1. induction fuel as [|fuel IH]; intros c1; [done|].
  cbn [logon_loop]. pose proof (recv_spec GzDecoder now c1) as Hr.
  destruct (cc_inbox c1 ++ _) as [|m l].
  - destruct Hr as [c2 ->]. cbn [mbind option_bind].
    pose proof (stream_end_no_timeout (cc_read c1) w) as He. destruct (stream_messages _ _) as [? [|e]]; [done|].
    cbn in *. intros [= -> _]. by apply He.
  - destruct Hr as (c2 & -> & _). cbn [mbind option_bind].
    destruct (logon_on_message c2 m) as [[r c3]|] eqn:Hm; [|apply IH].
    intros [= -> ->]. by eapply logon_on_message_no_timeout.
Qed.

(** The timeouts an attempt can report within its budget. *)
Lemma attempt_timeout ex server w :
  clock_runs (ex_dial ex) → 0 ≤ ex_logon ex →
  server_attempt GzDecoder now account_name refresh_token
    (bounded (exit_attempt ex) (exit_took ex server)) server = Some (Some (Err (Timeout w))) →
  w ∈ quick_timers.
Proof.
  intros Hc Hl Ha. pose proof (server_attempt_in_time _ _ _ _ _ _ _ _ Ha) as Ht.
  destruct (clocked_connect_ws_paced b64 url_parse (ex_dial ex) Hc (as_bytes (ws_url server)) proxy) as [_ Hp].
  unfold server_attempt in Ha. cbn [bounded sa_timeout sa_socket sa_write exit_attempt] in Ha.
  rewrite bool_decide_eq_false_2 in Ha by lia. unfold exit_took, exit_dial in *.
  destruct (clocked_connect_ws _ _ _ _ _) as [[bytes|e] t]; cbn [fst snd mbind result_bind connect is_ok] in *.
  - destruct (logon _ _ _ _ _ _) as [[[|[lo|e]] c']|] eqn:Hlog; try done. cbn in Ha. simplify_eq.
    by apply logon_no_timeout in Hlog.
  - injection Ha as ->. destruct (decide (w ∈ quick_timers)) as [|Hq]; [done|].
    specialize (Hp w eq_refl Hq). unfold PROXY_HANDSHAKE_TIMEOUT, CONNECT_ATTEMPT_TIMEOUT, from_secs in *. lia.
Qed.

Definition reported (w : string) : Prop := w = "cm connect attempt"%string ∨ w ∈ quick_timers.

Lemma timed_loop_timeout exits took i servers last w t :
  (∀ n, clock_runs (ex_dial (exits n)) ∧ 0 ≤ ex_logon (exits n)) →
  (∀ k s, servers !! k = Some s → took (i + k)%nat = exit_took (exits (i + k)%nat) s) →
  (last = Some (Timeout w) → reported w) →
  timed_establish_loop GzDecoder now account_name refresh_token (λ n, exit_attempt (exits n)) took i
    servers last = Some (Err (Timeout w), t) →
  reported w.
Proof.
  intros Hex. revert i last t. induction servers as [|server servers IH]; intros i last t Htook Hlast;
    cbn [timed_establish_loop].
  { destruct last as [e|]; [|done]. cbn. intros [= -> _]. by apply Hlast. }
  assert (took i = exit_took (exits i) server) as Hi by (rewrite <-(Nat.add_0_r i) at 1 2; by apply Htook).
  assert (∀ k s, servers !! k = Some s → took (S i + k)%nat = exit_took (exits (S i + k)%nat) s) as Hk.
  { intros k s Hs. replace (S i + k)%nat with (i + S k)%nat by lia. by apply Htook. }
  rewrite Hi. intros (a & Ha & Hr)%bind_Some. destruct a as [[ok|e]|]; [done| |].
  - assert (e = Timeout w → reported w) as He.
    { intros ->. right. destruct (Hex i). by eapply attempt_timeout. }
    destruct e; try (apply bind_Some in Hr as ([r' t'] & Hrec & Hr); simplify_eq; eapply IH;
      [exact Hk| |exact Hrec]; intros [= ->]; by apply He). done.
  - apply bind_Some in Hr as ([r' t'] & Hrec & Hr). simplify_eq. eapply IH; [exact Hk| |exact Hrec].
    intros [= <-]. by left.
Qed.

(** What a failed connect can blame on time.  With every dial running under its own
    timers inside the attempt's 20 seconds, an [establish] that fails with a timeout names
    the attempt's own budget, the TCP connect, or the TLS or WebSocket handshake to the
    server; never a timer of the proxy handshake, which only fires once the attempt is
    over.  And it says so within 130 seconds. *)
Theorem connect_timeouts_named servers discovery exits w t :
  (∀ n, clock_runs (ex_dial (exits n)) ∧ 0 ≤ ex_logon (exits n)) →
  0 ≤ discovery ≤ TOTAL_TIMEOUT →
  timed_establish GzDecoder now account_name refresh_token (dialled servers discovery exits) =
    Some (Err (Timeout w), t) →
  reported w ∧ 0 ≤ t ≤ from_secs 130.
Proof.
  intros Hex Hd Hr. split.
  - cbn [timed_establish ct_discovered ct_env ct_took dialled] in Hr. unfold timed_establish in Hr.
    apply bind_Some in Hr as ([r t'] & Hl & Hr). simplify_eq.
    eapply timed_loop_timeout; [exact Hex| | |exact Hl]; [|done].
    intros k s Hs. cbn. by apply lookup_take_Some in Hs as [-> _].
  - eapply (timed_establish_bound _ _ _ _ (dialled servers discovery exits)); [exact Hd| |exact Hr].
    intros i. cbn.
    destruct (servers !! i) as [s|]; [|done]. destruct (Hex i) as [Hc Hl].
    destruct (clocked_connect_ws_paced b64 url_parse (ex_dial (exits i)) Hc (as_bytes (ws_url s)) proxy)
      as [Ht _]. unfold exit_took, exit_dial. destruct (clocked_connect_ws _ _ _ _ _) as [[] t'];
      cbn [is_ok snd] in *; lia.
Qed.
End attempt.

(** ** A slow exit *)
Section witnesses.
Import Wire.Instances.

Definition op_ok (took : Z) : Op unit := {| op_result := Ok tt; op_took := took |}.
(** A proxy that tunnels after three seconds, and a server whose TLS handshake hangs. *)
Definition hanging_tls : Dial :=
  {| dl_tcp := λ _, op_ok 1000; dl_proxy_sni := λ _, Ok tt; dl_proxy_tls := op_ok 0;
     dl_write := λ _, op_ok 500; dl_response := sample_status ++ crlf ++ as_bytes "tls";
     dl_line := λ _, 750; dl_socks5 := λ _ _ _, op_ok 99000; dl_sni := λ _, Ok tt;
     dl_tls := op_ok 1000000; dl_request := Ok tt; dl_handshake := op_ok 200 |}.
(** A SOCKS5 proxy that never answers. *)
Definition silent_socks : ProxyConfig :=
  {| px_kind := Socks5Proxy; px_host := as_bytes "10.0.0.1"; px_port := 1080;
     px_credentials := None; px_tls_to_proxy := false |}.
Definition cm_url : bstr → result string Url := λ _,
  Ok {| u_scheme := "wss"; u_host_str := Some (as_bytes "cm.example"); u_port := None;
        u_port_or_known_default := Some 443; u_username := []; u_password := None |}.
Definition slow_exit (n : nat) : Exit :=
  {| ex_dial := hanging_tls; ex_frames := []; ex_write := None; ex_logon := 100 |}.

Lemma hanging_tls_clock : clock_runs hanging_tls.
Proof. by split; intros; cbn. Qed.

Lemma dial_decides_in_time_witness :
  clocked_connect_ws id cm_url hanging_tls (as_bytes "wss://cm.example/") (Some sample_config_px) =
    (Err (Timeout "tls handshake"), 18000) ∧
  clocked_connect_ws id cm_url hanging_tls (as_bytes "wss://cm.example/") (Some silent_socks) =
    (Err (Timeout "socks5 handshake"), 30000) ∧
  "tls handshake"%string ∈ quick_timers.
Proof.
  split; [by vm_compute|]. split; [by vm_compute|].
  destruct (dial_decides_in_time id cm_url hanging_tls hanging_tls_clock (as_bytes "wss://cm.example/")
    (Some sample_config_px)) as (_ & _ & Hw).
  apply (Hw "tls handshake"%string); by vm_compute.
Defined.

Lemma connect_timeouts_named_witness :
  reported "tls handshake" ∧ 0 ≤ 91000 ≤ 130000.
Proof.
  apply (connect_timeouts_named stored 0 "bot" "token" id cm_url (Some sample_config_px)
    (repeat sample_server 9) 1000 slow_exit).
  - intros n. split; [apply hanging_tls_clock|done].
  - done.
  - by vm_compute.
Defined.
End witnesses.
