(* ===== verification/Session.v ===== *)
(** * The session as its clients see it

    [friends.rs] and [persona.rs] only use a [SessionHandle]: requests, notifications,
    the snapshot cache and the event subscription.  The class [SessionOps] is that
    interface, [SessionLaws] what its clients rely on, and [DriverSession] the instance
    that runs the driver of Driver.v: the client theorems are proved against the laws and
    the driver discharges them. *)
From S2P Require Import Prelude Errors Proto Wire Codec Connection Driver.
#[local] Set Default Goal Selector "!".

(** ** Asynchronous calls

    A call transforms the session and is ready with a [Result], or never returns. *)
Definition async (S A : Type) : Type := S → poll (Result A) * S.

#[export] Instance async_ret S : MRet (async S) := λ A a s, (Ready (Ok a), s).
#[export] Instance async_bind S : MBind (async S) := λ A B f m s,
  match m s with
  | (Ready (Ok a), s') => f a s'
  | (Ready (Err e), s') => (Ready (Err e), s')
  | (Pending, s') => (Pending, s')
  end.

(** [?] on a value that is already there. *)
Definition lift {S A} (r : Result A) : async S A := λ s, (Ready r, s).

(** ** The interface *)

(** What [broadcast::Receiver::recv] yields. *)
Inductive Recv :=
  | RecvMsg (msg : SteamMessage)
  | RecvLagged
  | RecvClosed.

(** A call that was made, and how it came out. *)
Inductive Entry :=
  | CalledRequest (emsg : Z) (body : list byte) (r : poll (Result SteamMessage))
  | CalledNotify (emsg : Z) (body : list byte) (r : poll (Result unit)).

Class SessionOps (S : Type) := {
  (** [dispatch_request] up to the raw reply. *)
  so_exchange : Z → list byte → Z → async S SteamMessage;
  so_notify : Z → list byte → async S unit;
  so_cached : S → Z → option (list byte);
  (** [subscribe]: the receiver's position in the stream of broadcasts. *)
  so_subscribe : S → nat;
  (** What the session's own task does between two statements of its caller: it runs on
      another thread, and a caller that does not wait does not stop it. *)
  so_preempt : S → S;
  (** What a receiver at this position yields to a waiter with this timeout, and whether
      the timer has fired by the end of it. *)
  so_wait : nat → Z → S → (list Recv * bool) * S
}.

Section operations.
Context {S : Type} `{SessionOps S}.

Definition dispatch_request {Req Resp} `{Message Req, Message Resp} (emsg : Z) (req : Req)
    (deadline : Z) (check_eresult : bool) : async S Resp := λ s,
  match so_exchange emsg (encode_to_vec req) deadline s with
  | (Ready r, s') => (Ready (finish_request check_eresult r), s')
  | (Pending, s') => (Pending, s')
  end.

Definition request_with_timeout {Req Resp} `{Message Req, Message Resp} (emsg : Z) (req : Req)
    (timeout : Z) : async S Resp :=
  dispatch_request emsg req timeout true.
Definition request {Req Resp} `{Message Req, Message Resp} (emsg : Z) (req : Req) : async S Resp :=
  request_with_timeout emsg req DEFAULT_REQUEST_TIMEOUT.
Definition request_ignoring_eresult {Req Resp} `{Message Req, Message Resp} (emsg : Z)
    (req : Req) : async S Resp :=
  dispatch_request emsg req DEFAULT_REQUEST_TIMEOUT false.
Definition notify {Req} `{Message Req} (emsg : Z) (req : Req) : async S unit :=
  so_notify emsg (encode_to_vec req).

(** The wait loop of the clients under its timer: skip what [on_msg] does not accept and
    lagged slots, stop at the first error or acceptance.  [timeout] polls the loop before
    the timer, so what has arrived is looked at first. *)
Fixpoint await_event {A} (on_msg : SteamMessage → Result (option A)) (late : Error)
    (elapsed : bool) (arrivals : list Recv) : poll (Result A) :=
  match arrivals with
  | [] => if elapsed then Ready (Err late) else Pending
  | RecvMsg msg :: rest =>
      match on_msg msg with
      | Err e => Ready (Err e)
      | Ok (Some a) => Ready (Ok a)
      | Ok None => await_event on_msg late elapsed rest
      end
  | RecvLagged :: rest => await_event on_msg late elapsed rest
  | RecvClosed :: _ => Ready (Err (WebSocket "session stopped"))
  end.

(** [timeout(.., wait)] on a receiver at [pos]. *)
Definition wait_event {A} (pos : nat) (timeout : Z) (on_msg : SteamMessage → Result (option A))
    (late : Error) : async S A := λ s,
  let '(arrivals, elapsed, s') := so_wait pos timeout s in
  (await_event on_msg late elapsed arrivals, s').
End operations.

(** ** The laws *)

(** The body of the first message of this type. *)
Fixpoint first_body (emsg : Z) (msgs : list SteamMessage) : option (list byte) :=
  match msgs with
  | [] => None
  | m :: msgs => if decide (sm_emsg m = emsg) then Some (sm_body m) else first_body emsg msgs
  end.

(** The messages among the arrivals; none was lost if no slot lagged. *)
Definition received (arrivals : list Recv) : list SteamMessage :=
  omap (λ r, match r with RecvMsg m => Some m | _ => None end) arrivals.

Class SessionLaws (S : Type) `{SessionOps S} := {
  so_ok : S → Prop;
  (** The calls made so far, the logons so far, and the messages pushed since the last. *)
  so_transcript : S → list Entry;
  so_logons : S → nat;
  so_pushed : S → list SteamMessage;
  (** The clock. *)
  so_now : S → Instant;
  (** A command sent now need not wait for a slot in the queue. *)
  so_room : S → Prop;
  (** The second is the first at some later point. *)
  so_since : S → S → Prop;
  since_preorder :: PreOrder so_since;
  since_law : ∀ s s',
    so_since s s' →
    so_now s ≤ so_now s' ∧ (so_logons s ≤ so_logons s')%nat ∧
    (so_ok s → so_ok s' ∧ (so_logons s' = so_logons s → so_pushed s `prefix_of` so_pushed s'));
  exchange_law : ∀ emsg body deadline s r s',
    so_exchange emsg body deadline s = (r, s') →
    so_transcript s' = so_transcript s ++ [CalledRequest emsg body r] ∧ so_since s s';
  notify_law : ∀ emsg body s r s',
    so_notify emsg body s = (r, s') →
    so_transcript s' = so_transcript s ++ [CalledNotify emsg body r] ∧ so_since s s';
  preempt_law : ∀ s, so_transcript (so_preempt s) = so_transcript s ∧ so_since s (so_preempt s);
  cached_law : ∀ s emsg,
    so_ok s → emsg ∈ POST_LOGIN_SNAPSHOT_EMSGS → so_cached s emsg = first_body emsg (so_pushed s);
  exchange_timer : ∀ emsg body deadline s s',
    so_room s → 0 < deadline → so_exchange emsg body deadline s = (Pending, s') → so_now s' < so_now s + deadline;
  wait_timer : ∀ pos timeout s arrivals elapsed s',
    so_wait pos timeout s = (arrivals, elapsed, s') →
    elapsed = bool_decide (so_now s + timeout ≤ so_now s');
  (** A receiver sees what was pushed since it subscribed, at [s0], however long before the
      wait that was. *)
  wait_law : ∀ s0 s timeout arrivals elapsed s',
    so_since s0 s → so_ok s0 → so_wait (so_subscribe s0) timeout s = (arrivals, elapsed, s') →
    so_since s s' ∧ so_transcript s' = so_transcript s ∧
    (so_logons s' = so_logons s0 → RecvLagged ∉ arrivals →
     so_pushed s' = so_pushed s0 ++ received arrivals ∧
     ∃ stop, arrivals = (RecvMsg <$> received arrivals) ++ stop ∧ stop ⊆ [RecvClosed])
}.

(** A call that started at [s] is not still waiting [timeout] later. *)
Definition answers_by {S A} `{SessionLaws S} (timeout : Z) (s : S) (end_ : poll (Result A) * S) : Prop :=
  match end_ with (Pending, s') => so_now s' < so_now s + timeout | (Ready _, _) => True end.

(** A call with a timer of [timeout] that started at [s]: it is not still waiting once the
    timer has run out, it reports a timeout no earlier than that, and it fails for no other
    reason than a body that does not decode or a session that is gone. *)
Definition keeps_timer {S A} `{SessionLaws S} (timeout : Z) (s : S) (end_ : poll (Result A) * S) : Prop :=
  match end_ with
  | (Pending, s') => so_now s' < so_now s + timeout
  | (Ready (Err (Timeout _)), s') => so_now s + timeout ≤ so_now s'
  | (Ready (Err (Codec _ | WebSocket _)), _) | (Ready (Ok _), _) => True
  | (Ready (Err _), _) => False
  end.

Lemma wait_event_keeps_timer {S A} `{SessionLaws S} pos timeout
    (on_msg : SteamMessage → Result (option A)) late (s : S) :
  (∀ msg e, on_msg msg = Err e → is_codec e = true) →
  keeps_timer timeout s (wait_event pos timeout on_msg (Timeout late) s).
Proof.
  intros Herr. unfold wait_event. destruct (so_wait pos timeout s) as [[arrivals elapsed] s'] eqn:Hw.
  apply wait_timer in Hw as ->. induction arrivals as [|[msg| |] arrivals IH]; cbn [await_event].
  - case_bool_decide; cbn; lia.
  - destruct (on_msg msg) as [[a|]|e] eqn:Hm; [done|done|]. apply Herr in Hm. by destruct e.
  - done.
  - done.
Qed.

(** ** The driver as a session

    The script says what the scheduler and the network do during each call: a run of
    driver events that starts with the call and ends when its caller is polled for the last
    time.  The call is queued as soon as there is room for it.  A call with no such run
    never returns.  [ds_preempt] says the same for the points between two statements of a
    caller: nothing happens there by default. *)
Record DriverSession := {
  ds_world : World;
  (** Logons so far, and the length of the event log at the last one. *)
  ds_logons : nat;
  ds_logon_at : nat;
  ds_script : list (list Event);
  ds_preempt : list (list Event);
  ds_transcript : list Entry
}.

Section driver_session.
Context `{Message CMsgProtoBufHeader, Message CMsgMulti, Message CMsgClientLoggedOff,
          Message CMsgClientLogon, Message CMsgClientLogonResponse}.
Context (GzDecoder : list byte → list byte * option string).

Definition new_logon (w w' : World) : bool :=
  match w_phase w, w_phase w' with
  | Attempting _, Connected _ _ => true
  | _, _ => false
  end.

(** A run of the driver, counting its logons. *)
Fixpoint play (w : World) (logons logon_at : nat) (evs : list Event) :
    option (World * nat * nat) :=
  match evs with
  | [] => Some (w, logons, logon_at)
  | ev :: evs =>
      w' ← step GzDecoder w ev;
      if new_logon w w' then play w' (S logons) (length (sd_events (w_driver w'))) evs
      else play w' logons logon_at evs
  end.

Definition free_slot (w : World) : nat := fresh (dom (sd_slots (w_driver w))).

(** [commands.send(..)] on a driver that is gone. *)
Definition send_error (w : World) : option Error :=
  match w_phase w with
  | Stopped _ => Some (WebSocket "session driver stopped")
  | _ => None
  end.

(** [commands.send(..).await]: while the queue is full, the run goes on.  [call] makes the
    command at the time it is queued; the answer is its channel, with what is left of the
    run, or the error of a send to a driver that is gone. *)
Fixpoint enqueue (w : World) (logons logon_at : nat) (call : Instant → Call) (evs : list Event) :
    option (Result nat * World * nat * nat * list Event) :=
  match send_error w with
  | Some e => Some (Err e, w, logons, logon_at, evs)
  | None =>
      match submit w (free_slot w) (call (w_now w)), evs with
      | Some w', _ => Some (Ok (free_slot w), w', logons, logon_at, evs)
      | None, [] => None
      | None, ev :: evs =>
          w' ← step GzDecoder w ev;
          if new_logon w w' then enqueue w' (S logons) (length (sd_events (w_driver w'))) call evs
          else enqueue w' logons logon_at call evs
      end
  end.

(** Queue [call] and play the rest of this part of the script: the call's channel at its
    end, and when it was queued. *)
Definition perform (s : DriverSession) (call : Instant → Call) :
    option (Result (Slot * Instant) * World * nat * nat * list (list Event)) :=
  let '(evs, script) := match ds_script s with [] => ([], []) | evs :: script => (evs, script) end in
  '(queued, w, logons, logon_at, evs) ← enqueue (ds_world s) (ds_logons s) (ds_logon_at s) call evs;
  match queued with
  | Err e => Some (Err e, w, logons, logon_at, evs :: script)
  | Ok k =>
      '(w', logons, logon_at) ← play w logons logon_at evs;
      slot ← sd_slots (w_driver w') !! k;
      Some (Ok (slot, w_now w), w', logons, logon_at, script)
  end.

Definition with_transcript (s : DriverSession) (e : Entry) : DriverSession :=
  {| ds_world := ds_world s; ds_logons := ds_logons s; ds_logon_at := ds_logon_at s;
     ds_script := ds_script s; ds_preempt := ds_preempt s;
     ds_transcript := ds_transcript s ++ [e] |}.
Definition after_run (s : DriverSession) (w : World) (logons logon_at : nat)
    (script : list (list Event)) (entries : list Entry) : DriverSession :=
  {| ds_world := w; ds_logons := logons; ds_logon_at := logon_at; ds_script := script;
     ds_preempt := ds_preempt s; ds_transcript := ds_transcript s ++ entries |}.

(** The driver's deadline is set when the call is made; the caller's timer only starts once
    the command is queued. *)
Definition driver_exchange (emsg : Z) (body : list byte) (timeout : Z) :
    async DriverSession SteamMessage := λ s,
  match perform s (λ now, CallRequest emsg body (w_now (ds_world s) + timeout - now)) with
  | None => (Pending, with_transcript s (CalledRequest emsg body Pending))
  | Some (q, w', logons, logon_at, script) =>
      let r := match q with
               | Err e => Ready (Err e)
               | Ok (slot, queued) => await_reply slot (bool_decide (queued + timeout ≤ w_now w'))
               end in
      (r, after_run s w' logons logon_at script [CalledRequest emsg body r])
  end.

Definition driver_notify (emsg : Z) (body : list byte) : async DriverSession unit := λ s,
  match perform s (λ _, CallNotify emsg body) with
  | None => (Pending, with_transcript s (CalledNotify emsg body Pending))
  | Some (q, w', logons, logon_at, script) =>
      let r := match q with Err e => Ready (Err e) | Ok (slot, _) => await_notify slot end in
      (r, after_run s w' logons logon_at script [CalledNotify emsg body r])
  end.

(** [SessionHandle::logoff]: what the acknowledgement says is ignored. *)
Definition driver_logoff : async DriverSession unit := λ s,
  match perform s (λ _, CallLogoff) with
  | None => (Pending, s)
  | Some (q, w', logons, logon_at, script) =>
      (match q with
       | Err e => Ready (Err e)
       | Ok ((SlotOpen | SlotClosed), _) => Pending
       | Ok ((SlotFull _ | SlotDropped), _) => Ready (Ok tt)
       end,
       after_run s w' logons logon_at script [])
  end.

(** A receiver that is polled at the end of the run: it lags behind when more messages
    are unread than the channel holds, and sees the channel close with the last of its
    senders, which the driver and every handle own. *)
Definition unread (pos : nat) (w : World) : list Recv :=
  let msgs := drop pos (sd_events (w_driver w)) in
  let lost := (length msgs - EVENT_CAPACITY)%nat in
  (if decide (lost = 0%nat) then [] else [RecvLagged]) ++ (RecvMsg <$> drop lost msgs) ++
  match w_phase w, w_handles w with Stopped _, false => [RecvClosed] | _, _ => [] end.

Definition driver_wait (pos : nat) (timeout : Z) (s : DriverSession) :
    (list Recv * bool) * DriverSession :=
  let s' :=
    match ds_script s with
    | [] => s
    | evs :: script =>
        match play (ds_world s) (ds_logons s) (ds_logon_at s) evs with
        | None => s
        | Some (w', logons, logon_at) => after_run s w' logons logon_at script []
        end
    end in
  (unread pos (ds_world s'), bool_decide (w_now (ds_world s) + timeout ≤ w_now (ds_world s')), s').

(** The driver's task runs by itself for a while. *)
Definition driver_preempt (s : DriverSession) : DriverSession :=
  match ds_preempt s with
  | [] => s
  | evs :: rest =>
      match play (ds_world s) (ds_logons s) (ds_logon_at s) evs with
      | None => s
      | Some (w', logons, logon_at) =>
          {| ds_world := w'; ds_logons := logons; ds_logon_at := logon_at;
             ds_script := ds_script s; ds_preempt := rest; ds_transcript := ds_transcript s |}
      end
  end.

#[export] Instance driver_session : SessionOps DriverSession := {
  so_exchange := driver_exchange;
  so_notify := driver_notify;
  so_cached := λ s, cached_snapshot (w_driver (ds_world s));
  so_subscribe := λ s, length (sd_events (w_driver (ds_world s)));
  so_preempt := driver_preempt;
  so_wait := driver_wait
}.

(** *** The driver keeps the laws *)

(** The cache holds the first body of each snapshot type pushed since [logon_at]. *)
Definition cache_ok (w : World) (logon_at : nat) : Prop :=
  (logon_at ≤ length (sd_events (w_driver w)))%nat ∧
  ∀ emsg, emsg ∈ POST_LOGIN_SNAPSHOT_EMSGS →
    sd_snapshots (w_driver w) !! emsg = first_body emsg (drop logon_at (sd_events (w_driver w))).

Lemma first_body_app emsg a b :
  first_body emsg (a ++ b) =
    match first_body emsg a with Some body => Some body | None => first_body emsg b end.
Proof. induction a as [|m a IH]; cbn; [done|]. by case_decide. Qed.

Lemma foldl_cache_lookup emsg msgs snapshots :
  emsg ∈ POST_LOGIN_SNAPSHOT_EMSGS →
  foldl cache_snapshot snapshots msgs !! emsg =
    match snapshots !! emsg with Some body => Some body | None => first_body emsg msgs end.
Proof.
  intros Hin. revert snapshots. induction msgs as [|m msgs IH]; intros sn; cbn [foldl first_body].
  { by destruct (sn !! emsg). }
  rewrite IH. unfold cache_snapshot. case_decide as He.
  - subst emsg. rewrite bool_decide_true by done.
    destruct (sn !! sm_emsg m) eqn:Hl; [by rewrite Hl|]. by rewrite lookup_insert_eq.
  - case_bool_decide; [|done]. destruct (sn !! sm_emsg m); [done|]. by rewrite lookup_insert_ne.
Qed.

Lemma routed_cache_ok w w' a : routed (w_driver w) (w_driver w') → cache_ok w a → cache_ok w' a.
Proof.
  intros (new & He & Hs) [Ha Hc]. split; [rewrite He, length_app; lia|]. intros emsg Hin.
  by rewrite Hs, foldl_cache_lookup, Hc, He, drop_app_le, first_body_app.
Qed.

Lemma step_new_logon w ev w' :
  step GzDecoder w ev = Some w' → new_logon w w' = true →
  sd_snapshots (w_driver w') = ∅.
Proof.
  unfold new_logon. intros Hstep%step_cases. destruct Hstep as
    [|? ?|? ? ? Hsub| | |? ? Hcmd|nh ns r Hw Hr|nh ns ? ? Hw ?|nh ns Hw ?|? ? Hw ?|? ? ? o Hw ?|? result close_by Hw ?];
    try (rewrite Hw); try done; try (cbn; by destruct (w_phase w)).
  - unfold submit in Hsub. case_decide; [|done].
    destruct (w_phase w) eqn:Hw; try done; (case_decide; [|done]); by simplify_eq.
  - unfold take_command in Hcmd. destruct (recv_command _ _) as [[c d]|]; [|done]. cbn in Hcmd.
    destruct (w_phase w) eqn:Hw; try done.
    destruct (answer_while_down _ _) as [slots stop]. destruct stop; simplify_eq; cbn; by rewrite ?Hw.
  - by destruct o as [[]|[]].
Qed.

Lemma step_cache_ok w ev w' a :
  step GzDecoder w ev = Some w' → cache_ok w a →
  cache_ok w' (if new_logon w w' then length (sd_events (w_driver w')) else a).
Proof.
  intros Hstep Hc. destruct (new_logon w w') eqn:Hn.
  - split; [done|]. intros emsg Hin. by rewrite (step_new_logon _ _ _ Hstep Hn), drop_all.
  - destruct (step_routed _ _ _ _ Hstep) as [Hr|(b & nh & ns & Hp & Hp' & _)].
    + by eapply routed_cache_ok.
    + unfold new_logon in Hn. by rewrite Hp, Hp' in Hn.
Qed.

(** A run: the clock and the number of logons only grow, the cache stays right, and without a
    logon the log is only added to. *)
Definition later (w : World) (logons a : nat) (w' : World) (logons' a' : nat) : Prop :=
  w_now w ≤ w_now w' ∧ (logons ≤ logons')%nat ∧ (cache_ok w a → cache_ok w' a') ∧
  (logons' = logons → a' = a ∧ routed (w_driver w) (w_driver w')).

Lemma later_refl w l a : later w l a w l a.
Proof. unfold later. split_and!; [lia|lia|done|done]. Qed.
Lemma later_trans w1 l1 a1 w2 l2 a2 w3 l3 a3 :
  later w1 l1 a1 w2 l2 a2 → later w2 l2 a2 w3 l3 a3 → later w1 l1 a1 w3 l3 a3.
Proof.
  intros (? & ? & ? & H12) (? & ? & ? & H23). unfold later. split_and!; [lia|lia|tauto|].
  intros ->. destruct H12 as [-> ?]; [lia|]. destruct H23 as [-> ?]; [lia|].
  split; [done|by etransitivity].
Qed.

Lemma step_later w l a ev w1 :
  step GzDecoder w ev = Some w1 →
  if new_logon w w1 then later w l a w1 (S l) (length (sd_events (w_driver w1)))
  else later w l a w1 l a.
Proof.
  intros Hs. pose proof (step_cache_ok _ _ _ a Hs) as Hc. pose proof (step_now _ _ _ _ Hs) as Hn.
  unfold later. destruct (new_logon w w1) eqn:Hl; split_and!; try done; try lia.
  intros _. split; [done|]. destruct (step_routed _ _ _ _ Hs) as [?|(b & nh & ns & Hp1 & Hp2 & _)]; [done|].
  unfold new_logon in Hl. by rewrite Hp1, Hp2 in Hl.
Qed.

Lemma submit_later w k call w1 l a : submit w k call = Some w1 → later w l a w1 l a.
Proof.
  intros Hs. pose proof (submit_routed _ _ _ _ Hs) as Hr. unfold later. split_and!; [|lia| |done].
  - unfold submit in Hs. case_decide; [|done].
    destruct (w_phase w); try (case_decide; [|done]); simplify_eq; cbn; lia.
  - intros Hc. by eapply routed_cache_ok.
Qed.

Lemma play_later evs w l a w' l' a' :
  play w l a evs = Some (w', l', a') → later w l a w' l' a'.
Proof.
  revert w l a. induction evs as [|ev evs IH]; intros w l a; cbn [play].
  { intros [= <- <- <-]. apply later_refl. }
  destruct (step GzDecoder w ev) as [w1|] eqn:Hs; [|done]. cbn [mbind option_bind].
  apply (step_later w l a) in Hs. destruct (new_logon w w1); intros Hp%IH; by eapply later_trans.
Qed.

Lemma enqueue_later call evs w l a q w' l' a' evs' :
  enqueue w l a call evs = Some (q, w', l', a', evs') → later w l a w' l' a'.
Proof.
  revert w l a. induction evs as [|ev evs IH]; intros w l a; cbn [enqueue];
    (destruct (send_error w); [intros [= <- <- <- <- <-]; apply later_refl|]);
    (destruct (submit w _ _) as [w1|] eqn:Hsub;
       [intros [= <- <- <- <- <-]; by eapply submit_later|]); [done|].
  destruct (step GzDecoder w ev) as [w1|] eqn:Hs; [|done]. cbn [mbind option_bind].
  apply (step_later w l a) in Hs. destruct (new_logon w w1); intros He%IH; by eapply later_trans.
Qed.

Lemma perform_later s call q w' l a script :
  perform s call = Some (q, w', l, a, script) →
  later (ds_world s) (ds_logons s) (ds_logon_at s) w' l a.
Proof.
  unfold perform. intros Hp. destruct (match ds_script s with [] => _ | _ => _ end) as [evs rest].
  destruct (enqueue _ _ _ _ _) as [[[[[[k|e] w] l1] b] evs']|] eqn:He; cbn in Hp; try done;
    apply enqueue_later in He; [|by simplify_eq].
  destruct (play _ _ _ _) as [[[w1 l2] a1]|] eqn:Hplay; [|done].
  cbn in Hp. destruct (sd_slots _ !! _); [|done]. cbn in Hp. simplify_eq.
  eapply later_trans; [exact He|by eapply play_later].
Qed.

(** With room in the queue a call is queued at once. *)
Lemma submit_room w call :
  w_handles w = true → (length (sd_commands (w_driver w)) < COMMAND_CAPACITY)%nat →
  ∃ w', submit w (free_slot w) call = Some w' ∧ w_now w' = w_now w.
Proof.
  intros Hh Hl. assert (sd_slots (w_driver w) !! free_slot w = None) as Hf.
  { apply (not_elem_of_dom (D := gset nat)). exact (is_fresh (dom (sd_slots (w_driver w)))). }
  unfold submit. rewrite decide_True by done.
  destruct (w_phase w); rewrite ?(decide_True _ _ Hl); by eexists.
Qed.

Lemma perform_room s call slot queued w' logons a script :
  w_handles (ds_world s) = true →
  (length (sd_commands (w_driver (ds_world s))) < COMMAND_CAPACITY)%nat →
  perform s call = Some (Ok (slot, queued), w', logons, a, script) → queued = w_now (ds_world s).
Proof.
  intros Hh Hl. destruct (submit_room _ (call (w_now (ds_world s))) Hh Hl) as (w1 & Hsub & Hnow).
  unfold perform. destruct (match ds_script s with [] => _ | _ => _ end) as [evs rest].
  destruct (enqueue _ _ _ _ _) as [[[[[[k|e] w] l] b] evs']|] eqn:He; cbn; try done.
  destruct (play _ _ _ _) as [[[w2 l2] a2]|]; [|done]. cbn. destruct (sd_slots _ !! _); [|done]. cbn.
  intros [= _ <- _ _ _ _].
  destruct evs as [|ev evs]; cbn [enqueue] in He; (destruct (send_error (ds_world s)); [done|]);
    rewrite Hsub in He; by simplify_eq.
Qed.

Lemma received_app a b : received (a ++ b) = received a ++ received b.
Proof. apply omap_app. Qed.
Lemma received_msgs msgs : received (RecvMsg <$> msgs) = msgs.
Proof. induction msgs; cbn; by f_equal. Qed.

(** Without a lag, a receiver sees exactly what was pushed since it subscribed. *)
Lemma unread_exact pos w new :
  drop pos (sd_events (w_driver w)) = new → RecvLagged ∉ unread pos w →
  ∃ stop, unread pos w = (RecvMsg <$> new) ++ stop ∧ stop ⊆ [RecvClosed] ∧
          received (unread pos w) = new.
Proof.
  unfold unread. intros ->. case_decide as Hl; [|set_solver]. intros _. rewrite Hl, drop_0. cbn.
  eexists. split; [done|]. rewrite received_app, received_msgs.
  split; destruct (w_phase w), (w_handles w); try set_solver; cbn; by rewrite ?app_nil_r.
Qed.

Definition driver_since (s s' : DriverSession) : Prop :=
  later (ds_world s) (ds_logons s) (ds_logon_at s) (ds_world s') (ds_logons s') (ds_logon_at s').

#[export] Instance driver_since_preorder : PreOrder driver_since.
Proof. split; [intros s; apply later_refl|]. intros s1 s2 s3. apply later_trans. Qed.

Lemma driver_wait_since pos timeout s : driver_since s (driver_wait pos timeout s).2.
Proof.
  unfold driver_wait. destruct (ds_script s) as [|evs script]; [apply later_refl|].
  destruct (play _ _ _ _) as [[[w' l'] a']|] eqn:Hp; [by eapply play_later|apply later_refl].
Qed.

(** What was pushed between two points of a session without a logon in between. *)
Lemma since_events s s' :
  driver_since s s' → ds_logons s' = ds_logons s →
  ds_logon_at s' = ds_logon_at s ∧
  ∃ new, sd_events (w_driver (ds_world s')) = sd_events (w_driver (ds_world s)) ++ new.
Proof. intros (_ & _ & _ & Hr) Hl. destruct (Hr Hl) as [? (new & ? & _)]. eauto. Qed.

#[export] Instance driver_laws : SessionLaws DriverSession.
Proof.
  refine {|
    so_ok := λ s, cache_ok (ds_world s) (ds_logon_at s);
    so_transcript := ds_transcript;
    so_logons := ds_logons;
    so_pushed := λ s, drop (ds_logon_at s) (sd_events (w_driver (ds_world s)));
    so_now := λ s, w_now (ds_world s);
    so_room := λ s, w_handles (ds_world s) = true ∧
                    (length (sd_commands (w_driver (ds_world s))) < COMMAND_CAPACITY)%nat;
    so_since := driver_since
  |}.
  - intros s s' Hs. destruct Hs as (Hn & Hl & Hc & Hr). split; [done|]. split; [done|].
    intros Hok. split; [by apply Hc|]. intros He. destruct (Hr He) as [-> (new & -> & _)].
    destruct Hok as [Hle _]. rewrite drop_app_le by done. by exists new.
  - intros emsg body deadline s r s' Hs. cbn in Hs. unfold driver_exchange in Hs.
    destruct (perform _ _) as [[[[[q w'] l'] a'] script]|] eqn:Hp; simplify_eq.
    + split; [done|]. by eapply perform_later.
    + split; [done|apply later_refl].
  - intros emsg body s r s' Hs. cbn in Hs. unfold driver_notify in Hs.
    destruct (perform _ _) as [[[[[q w'] l'] a'] script]|] eqn:Hp; simplify_eq.
    + split; [done|]. by eapply perform_later.
    + split; [done|apply later_refl].
  - intros s. cbn. unfold driver_preempt. destruct (ds_preempt s) as [|evs rest]; [done|].
    destruct (play _ _ _ _) as [[[w' l'] a']|] eqn:Hp; [|done]. split; [done|]. by eapply play_later.
  - intros s emsg [_ Hc] Hin. by apply Hc.
  - intros emsg body deadline s s' [Hh Hroom] Hd Hs. cbn in Hs. unfold driver_exchange in Hs.
    destruct (perform _ _) as [[[[[[[slot queued]|e] w'] l'] a'] script]|] eqn:Hp; simplify_eq; [|cbn; lia].
    apply perform_room in Hp as ->; [|done..]. cbn. destruct slot as [| |[]|]; cbn in *; try done; by case_bool_decide; [|lia].
  - intros pos timeout s arrivals elapsed s' Hs. cbn in Hs. unfold driver_wait in Hs. by simplify_eq.
  - intros s0 s timeout arrivals elapsed s' Hs0 Hok Hs. pose proof (driver_wait_since
      (length (sd_events (w_driver (ds_world s0)))) timeout s) as Hw.
    cbn in Hs. rewrite Hs in Hw. cbn [snd] in Hw. split; [done|].
    unfold driver_wait in Hs. injection Hs as Harr _ Hs'. rewrite Hs' in Harr. subst arrivals. split.
    { rewrite <-Hs'. destruct (ds_script s) as [|evs script]; [done|]. destruct (play _ _ _ _) as [[[w1 l1] a1]|]; [|done].
      cbn. by rewrite app_nil_r. }
    intros Hl Hn. destruct (since_events s0 s') as [Ha [new He]].
    { by eapply transitivity. }
    { exact Hl. }
    destruct (unread_exact (length (sd_events (w_driver (ds_world s0)))) (ds_world s') new)
      as (stop & Hu & Hsub & Hrec); [by rewrite He, drop_app_length|exact Hn|].
    change (received (unread (length (sd_events (w_driver (ds_world s0)))) (ds_world s')) = new) in Hrec.
    rewrite Hrec. split; [|by exists stop]. destruct Hok as [Hle _]. by rewrite Ha, He, drop_app_le.
Defined.

(** *** A wait on a stopped session

    Every caller holds a handle, and with it a sender of the broadcast channel. *)
Definition handle_kept (s : DriverSession) : Prop :=
  w_handles (ds_world s) = true ∧ Forall (λ evs, DropHandles ∉ evs) (ds_script s) ∧
  Forall (λ evs, DropHandles ∉ evs) (ds_preempt s).

Lemma play_stopped evs w logons a w' logons' a' r :
  play w logons a evs = Some (w', logons', a') → DropHandles ∉ evs →
  w_phase w = Stopped r → w_handles w = true →
  w_phase w' = Stopped r ∧ w_handles w' = true ∧
  sd_events (w_driver w') = sd_events (w_driver w).
Proof.
  revert w logons a. induction evs as [|ev evs IH]; intros w logons a; cbn [play].
  { by intros [= <- _ _]. }
  destruct (step GzDecoder w ev) as [w1|] eqn:Hs; [|done]. cbn [mbind option_bind].
  intros Hplay [Hev Hevs]%not_elem_of_cons Hp Hh.
  pose proof (step_stopped _ _ _ _ _ Hs Hp) as Hp1.
  assert (∀ l a, play w1 l a evs = Some (w', logons', a') →
    w_phase w' = Stopped r ∧ w_handles w' = true ∧
    sd_events (w_driver w') = sd_events (w_driver w)) as Hk.
  { intros l a1 Hpl. rewrite <-(step_log _ _ _ _ Hs) by congruence.
    eapply IH; [done..|]. by rewrite (step_handles _ _ _ _ Hs). }
  destruct (new_logon w w1); by eapply Hk.
Qed.

Lemma stopped_wait_is_empty s timeout r :
  handle_kept s → w_phase (ds_world s) = Stopped r → (so_wait (so_subscribe s) timeout s).1.1 = [].
Proof.
  intros (Hh & Hsc & _) Hp. cbn. unfold driver_wait. cbn [fst].
  assert (unread (length (sd_events (w_driver (ds_world s)))) (ds_world s) = []) as Hnone.
  { unfold unread. by rewrite drop_all, Hp, Hh. }
  destruct (ds_script s) as [|evs script] eqn:Hs; [done|].
  apply list.Forall_cons in Hsc as [Hevs _].
  destruct (play _ _ _ _) as [[[w' l'] a']|] eqn:Hplay; [|done].
  destruct (play_stopped _ _ _ _ _ _ _ _ Hplay Hevs Hp Hh) as (Hp' & Hh' & He).
  cbn. unfold unread. by rewrite He, drop_all, Hp', Hh'.
Qed.

(** What its task does between two statements changes nothing. *)
Lemma stopped_preempt s r :
  handle_kept s → w_phase (ds_world s) = Stopped r →
  handle_kept (so_preempt s) ∧ w_phase (ds_world (so_preempt s)) = Stopped r ∧
  so_subscribe (so_preempt s) = so_subscribe s.
Proof.
  intros Hk Hp. cbn. unfold driver_preempt. destruct (ds_preempt s) as [|evs rest] eqn:Hs; [done|].
  destruct (play _ _ _ _) as [[[w' l'] a']|] eqn:Hplay; [|done].
  destruct Hk as (Hh & Hsc & Hpr). rewrite Hs in Hpr. apply list.Forall_cons in Hpr as [Hevs Hrest].
  destruct (play_stopped _ _ _ _ _ _ _ _ Hplay Hevs Hp Hh) as (Hp' & Hh' & He).
  split; [done|]. split; [done|]. cbn. by rewrite He.
Qed.

(** *** Logging off *)

Lemma oneshot_send_full slots s v s' v' :
  slots !! s = Some (SlotFull v) → oneshot_send slots s' v' !! s = Some (SlotFull v).
Proof.
  intros Hs. unfold oneshot_send. case_decide; [|done]. rewrite lookup_insert_ne; [done|congruence].
Qed.

(** An answer that was sent stays. *)
Lemma fail_all_full pending slots reason s v :
  slots !! s = Some (SlotFull v) →
  fail_all_pending pending slots reason !! s = Some (SlotFull v).
Proof.
  intros Hs. unfold fail_all_pending.
  apply (map_fold_weak_ind (λ r _, r !! s = Some (SlotFull v))); [done|].
  intros j e m r _ Hr. by apply oneshot_send_full.
Qed.

Lemma oneshot_send_here slots s v :
  slots !! s = Some SlotOpen → oneshot_send slots s v !! s = Some (SlotFull v).
Proof. intros Hs. unfold oneshot_send. by rewrite decide_True, lookup_insert_eq. Qed.

(** Leaving the loop and closing: what every channel that is open ends with. *)
Lemma leave_then_close now handles d result k :
  let w1 := leave now handles d result in
  let w2 := on_closed now handles (w_driver w1) result in
  sd_slots d !! k = Some SlotOpen →
  (awaited (sd_pending d) k →
   sd_slots (w_driver w1) !! k =
     Some (SlotFull (ARequest (Err (WebSocket "session driver stopped")))) ∧
   sd_slots (w_driver w2) !! k =
     Some (SlotFull (ARequest (Err (WebSocket "session driver stopped"))))) ∧
  (¬ awaited (sd_pending d) k → k ∈ command_slot <$> sd_commands d →
   sd_slots (w_driver w2) !! k = Some SlotDropped).
Proof.
  intros w1 w2 Hk. unfold w2, on_closed, w1, leave. cbn [w_driver sd_slots set_slots set_state
    set_commands set_pending sd_commands]. rewrite foldl_drop_lookup.
  destruct (fail_all_pending_exact (sd_pending d) (sd_slots d) "session driver stopped" k)
    as [(_ & Ha & Hr)|[Hn Hr]]; rewrite Hr.
  - split; [|done]. intros _. split; [done|]. by rewrite decide_False by naive_solver.
  - split; [tauto|]. intros _ Hin. by rewrite decide_True.
Qed.

(** A full channel stays full. *)
Lemma leave_then_close_full now handles d result k v :
  let w1 := leave now handles d result in
  let w2 := on_closed now handles (w_driver w1) result in
  sd_slots d !! k = Some (SlotFull v) →
  sd_slots (w_driver w1) !! k = Some (SlotFull v) ∧ sd_slots (w_driver w2) !! k = Some (SlotFull v).
Proof.
  intros w1 w2 Hk. unfold w2, on_closed, w1, leave. cbn [w_driver sd_slots set_slots set_state
    set_commands set_pending sd_commands]. rewrite foldl_drop_lookup.
  rewrite (fail_all_full _ _ _ _ _ Hk). split; [done|]. by rewrite decide_False by naive_solver.
Qed.

(** How a session ended by [Logoff s] leaves the channels of [d]: the caller is
    acknowledged, every other caller whose request is in flight has the error, and the
    senders of the commands still queued are dropped. *)
Definition logoff_settles (d : SessionDriver) (s : nat) (rest : list Command) (w1 w2 : World) : Prop :=
  let stopped := Some (SlotFull (ARequest (Err (WebSocket "session driver stopped")))) in
  (sd_slots d !! s = Some SlotOpen →
   sd_slots (w_driver w1) !! s = Some (SlotFull ALogoff) ∧
   sd_slots (w_driver w2) !! s = Some (SlotFull ALogoff)) ∧
  (∀ j e, sd_pending d !! j = Some e → p_reply e ≠ s → sd_slots d !! p_reply e = Some SlotOpen →
   sd_slots (w_driver w1) !! p_reply e = stopped ∧ sd_slots (w_driver w2) !! p_reply e = stopped) ∧
  (∀ c, c ∈ rest → command_slot c ≠ s → sd_slots d !! command_slot c = Some SlotOpen →
   (∀ j e, sd_pending d !! j = Some e → p_reply e ≠ command_slot c) →
   sd_slots (w_driver w2) !! command_slot c = Some SlotDropped).

Lemma leave_closes_slots now handles d d' s :
  sd_slots d' = oneshot_send (sd_slots d) s ALogoff → sd_pending d' = sd_pending d →
  let w1 := leave now handles d' (Ok "session closed"%string) in
  logoff_settles d s (sd_commands d') w1 (on_closed now handles (w_driver w1) (Ok "session closed"%string)).
Proof.
  intros Hs Hp w1. unfold logoff_settles, w1. rewrite <-Hp. split_and!.
  - intros Ho. apply leave_then_close_full. rewrite Hs. by apply oneshot_send_here.
  - intros j e Hj Hne Ho. apply leave_then_close; [rewrite Hs; by apply oneshot_send_open|].
    by exists j, e.
  - intros c Hc Hne Ho Hn. apply leave_then_close; [rewrite Hs; by apply oneshot_send_open| |].
    + intros (j & e & Hj & He). by eapply Hn.
    + by apply list_elem_of_fmap_2.
Qed.

(** C26: Logging off ends the session, connected or not: taking a queued [Logoff] sends the
    goodbye if there is a socket to write it to, acknowledges the caller, answers every
    request still in flight with the error that the driver has stopped and closes; the next
    step publishes [LoggedOff] and the driver's task ends well, whatever else was queued:
    the commands behind the [Logoff] are dropped, and their callers see it. *)
Theorem logoff_ends_session w s rest outcome :
  running w → sd_commands (w_driver w) = Logoff s :: rest →
  ∃ w1 w2, step GzDecoder w (OnCommand outcome) = Some w1 ∧
    step GzDecoder w1 (OnClosed true) = Some w2 ∧
    w_phase w2 = Stopped (Ok tt) ∧
    sd_state (w_driver w2) = StLoggedOff "session closed" ∧
    sd_pending (w_driver w2) = ∅ ∧ sd_commands (w_driver w2) = [] ∧
    logoff_settles (w_driver w) s rest w1 w2 ∧
    sd_write (w_driver w2) = sd_write (w_driver w) ++
      match w_phase w, outcome with
      | Connected _ _, None =>
          [WsBinary (encode_raw EMSG_CLIENT_LOGOFF
             (session_header (sd_steam_id (w_driver w)) (sd_session_id (w_driver w)) None) [])]
      | _, _ => []
      end.
Proof.
  intros Hrun Hc. unfold running in Hrun. cbn [step]. unfold take_command, recv_command. rewrite Hc.
  cbn [mbind option_bind]. destruct (w_phase w) as [nh ns| | | |]; try done.
  - unfold on_command.
    destruct (send_frame_eq (set_commands (w_driver w) rest) EMSG_CLIENT_LOGOFF None [] outcome)
      as [wire Hs].
    rewrite Hs. do 2 eexists. split; [done|]. split; [done|].
    split_and!; try done; [by apply leave_closes_slots|].
    unfold send_frame, write_frame in Hs. cbn in Hs |- *. by destruct outcome; injection Hs as <-;
      rewrite ?app_nil_r.
  - do 2 eexists. split; [done|]. split; [done|].
    split_and!; try done; [by apply leave_closes_slots|cbn; by rewrite app_nil_r].
  - do 2 eexists. split; [done|]. split; [done|].
    split_and!; try done; [by apply leave_closes_slots|cbn; by rewrite app_nil_r].
Qed.
End driver_session.

(** ** A concrete logoff *)
Section witnesses.
Import Wire.Instances.

Lemma logoff_ends_session_witness :
  ∃ w2, run_events stored (after [Submit 0 (CallRequest 151 [] 30000); OnCommand None;
          Submit 1 CallLogoff; Submit 2 (CallRequest 152 [] 30000)])
          [OnCommand None; OnClosed true] = Some w2 ∧
        sd_state (w_driver w2) = StLoggedOff "session closed" ∧
        sd_slots (w_driver w2) !! 0%nat =
          Some (SlotFull (ARequest (Err (WebSocket "session driver stopped")))) ∧
        sd_slots (w_driver w2) !! 2%nat = Some SlotDropped.
Proof.
  destruct (logoff_ends_session stored (after [Submit 0 (CallRequest 151 [] 30000); OnCommand None;
    Submit 1 CallLogoff; Submit 2 (CallRequest 152 [] 30000)]) 1 [Request 152 [] 30000 2] None)
    as (w1 & w2 & H1 & H2 & _ & Hs & _ & _ & (_ & Hp & Hq) & _); [by vm_compute..|].
  exists w2. split; [cbn [run_events]; rewrite H1; cbn [mbind option_bind]; by rewrite H2|].
  split; [done|]. split.
  - destruct (Hp 1 {| p_reply := 0; p_deadline := 30000 |}) as [_ Hk]; [by vm_compute|done|by vm_compute|].
    exact Hk.
  - apply (Hq (Request 152 [] 30000 2)); [by apply list_elem_of_singleton|done|by vm_compute|].
    intros j e Hj. assert (sd_pending (w_driver (after [Submit 0 (CallRequest 151 [] 30000);
      OnCommand None; Submit 1 CallLogoff; Submit 2 (CallRequest 152 [] 30000)])) =
      {[1 := {| p_reply := 0; p_deadline := 30000 |}]}) as He by by vm_compute.
    rewrite He in Hj. by apply lookup_singleton_Some in Hj as [_ <-].
Defined.
End witnesses.
