(* ===== verification/Friends.v ===== *)
(** * Friends: [friends.rs]

    Relationships, nicknames, visibility, chat and groups as clients of the session
    interface (Session.v); the message types are prost's, a parameter as in Proto.v.  The
    post-login lists are written with the point between their subscription and their look at
    the cache at which the session's task may run. *)
From S2P Require Import Prelude Errors Proto Wire Codec Connection Driver Session.
#[local] Set Default Goal Selector "!".

(** ** Constants *)
Definition EMSG_CLIENT_REMOVE_FRIEND : Z := 714.
Definition EMSG_CLIENT_FRIENDS_LIST : Z := 767.
Definition EMSG_CLIENT_ADD_FRIEND : Z := 791.
Definition EMSG_CLIENT_FRIEND_MSG : Z := 718.
Definition EMSG_CLIENT_HIDE_FRIEND : Z := 5552.
Definition EMSG_CLIENT_FRIENDS_GROUPS_LIST : Z := 5553.
Definition EMSG_CLIENT_PLAYER_NICKNAME_LIST : Z := 5587.
Definition EMSG_AM_CLIENT_SET_PLAYER_NICKNAME : Z := 5588.
Definition EMSG_AM_CLIENT_CREATE_FRIENDS_GROUP : Z := 5560.
Definition EMSG_AM_CLIENT_DELETE_FRIENDS_GROUP : Z := 5562.
Definition EMSG_AM_CLIENT_MANAGE_FRIENDS_GROUP : Z := 5564.
Definition EMSG_AM_CLIENT_ADD_FRIEND_TO_GROUP : Z := 5566.
Definition EMSG_AM_CLIENT_REMOVE_FRIEND_FROM_GROUP : Z := 5568.
Definition ERESULT_OK_U32 : Z := eresult.OK.
Definition ERESULT_FAIL_U32 : Z := eresult.FAIL.
Definition FRIENDS_LIST_TIMEOUT : Z := from_secs 10.
Definition NICKNAMES_TIMEOUT : Z := from_secs 10.
Definition GROUPS_TIMEOUT : Z := from_secs 10.

(** ** Data *)
Inductive FriendRelationship :=
  | RelNone | Blocked | RequestRecipient | RelFriend | RequestInitiator | Ignored
  | IgnoredFriend | RelUnknown (value : Z).

Definition relationship_from_raw (value : Z) : FriendRelationship :=
  match value with
  | 0 => RelNone
  | 1 => Blocked
  | 2 => RequestRecipient
  | 3 => RelFriend
  | 4 => RequestInitiator
  | 5 => Ignored
  | 6 => IgnoredFriend
  | other => RelUnknown other
  end.

Record Friend := { fr_steam_id : Z; fr_relationship : FriendRelationship }.
Record AddedFriend := { ad_steam_id : Z; ad_persona_name : string; ad_eresult : Z }.
Record Nickname := { nn_steam_id : Z; nn_nickname : string }.
Record FriendsGroup := { fg_group_id : Z; fg_name : string; fg_members : list Z }.
Record NewFriendsGroup := { ng_group_id : Z; ng_name : string }.

Inductive ChatEntryType := Text | Typing | InviteGame | ChatUnknown (value : Z).
Definition chat_raw (t : ChatEntryType) : Z :=
  match t with Text => 1 | Typing => 2 | InviteGame => 3 | ChatUnknown other => other end.
Definition chat_from_raw (value : Z) : ChatEntryType :=
  match value with 1 => Text | 2 => Typing | 3 => InviteGame | other => ChatUnknown other end.

(** ** Messages *)
Record CMsgClientAddFriend := {
  af_steamid_to_add : option Z;
  af_accountname_or_email_to_add : option string
}.
Record CMsgClientAddFriendResponse := {
  afr_eresult : option Z;
  afr_steam_id_added : option Z;
  afr_persona_name_added : option string
}.
Record CMsgClientRemoveFriend := { rf_friendid : option Z }.
Record CMsgClientHideFriend := { hf_friendid : option Z; hf_hide : option bool }.
Record CMsgClientFriendMsg := {
  fm_steamid : option Z;
  fm_chat_entry_type : option Z;
  fm_message : option (list byte);
  fm_rest : list byte
}.
Record ListedFriend := { lf_ulfriendid : option Z; lf_efriendrelationship : option Z }.
Record CMsgClientFriendsList := {
  fl_bincremental : option bool;
  fl_friends : list ListedFriend;
  fl_rest : list byte
}.
Record PlayerNickname := { pn_steamid : option Z; pn_nickname : option string }.
Record CMsgClientPlayerNicknameList := {
  nl_removal : option bool;
  nl_incremental : option bool;
  nl_nicknames : list PlayerNickname
}.
Record ProtoFriendGroup := { pg_n_group_id : option Z; pg_str_group_name : option string }.
Record ProtoMembership := { pm_ul_steam_id : option Z; pm_n_group_id : option Z }.
Record CMsgClientFriendsGroupsList := {
  gl_bremoval : option bool;
  gl_bincremental : option bool;
  gl_friend_groups : list ProtoFriendGroup;
  gl_memberships : list ProtoMembership
}.
Record CMsgClientSetPlayerNickname := { sn_steamid : option Z; sn_nickname : option string }.
Record CMsgClientCreateFriendsGroup := {
  cg_steamid : option Z;
  cg_groupname : option string;
  cg_steamid_friends : list Z
}.
Record CMsgClientCreateFriendsGroupResponse := { cgr_eresult : option Z; cgr_groupid : option Z }.
Record CMsgClientDeleteFriendsGroup := { dg_steamid : option Z; dg_groupid : option Z }.
Record CMsgClientManageFriendsGroup := {
  mg_groupid : option Z;
  mg_groupname : option string;
  mg_steamid_friends_added : list Z;
  mg_steamid_friends_removed : list Z
}.
Record CMsgClientAddFriendToGroup := { ag_groupid : option Z; ag_steamiduser : option Z }.
Record CMsgClientRemoveFriendFromGroup := { rg_groupid : option Z; rg_steamiduser : option Z }.
(** The AM responses that carry an [eresult] only (one message type each in the
    source, with the same single field). *)
Record AmResponse := { am_eresult : option Z }.

(** ** Mapping the post-login lists *)
Definition is_full_friends (lst : CMsgClientFriendsList) : bool :=
  bool_decide (fl_bincremental lst ≠ Some true).
Definition is_full_nicknames (lst : CMsgClientPlayerNicknameList) : bool :=
  negb (unwrap_or (nl_incremental lst) false) && negb (unwrap_or (nl_removal lst) false).
Definition is_full_groups (lst : CMsgClientFriendsGroupsList) : bool :=
  negb (unwrap_or (gl_bincremental lst) false) && negb (unwrap_or (gl_bremoval lst) false).

Definition nicknames_from (lst : CMsgClientPlayerNicknameList) : list Nickname :=
  omap (λ n, steam_id ← pn_steamid n;
             Some {| nn_steam_id := steam_id; nn_nickname := unwrap_or (pn_nickname n) ""%string |})
    (nl_nicknames lst).

Definition groups_from (lst : CMsgClientFriendsGroupsList) : list FriendsGroup :=
  omap (λ g, group_id ← pg_n_group_id g;
             Some {| fg_group_id := group_id;
                     fg_name := unwrap_or (pg_str_group_name g) ""%string;
                     fg_members :=
                       omap (λ m, if bool_decide (pm_n_group_id m = Some group_id)
                                  then pm_ul_steam_id m else None) (gl_memberships lst) |})
    (gl_friend_groups lst).

Definition friends_from (lst : CMsgClientFriendsList) : list Friend :=
  omap (λ f, steam_id ← lf_ulfriendid f;
             Some {| fr_steam_id := steam_id;
                     fr_relationship :=
                       relationship_from_raw (unwrap_or (lf_efriendrelationship f) 0) |})
    (fl_friends lst).

(** ** Operations *)
Section friends.
Context {S : Type} `{SessionOps S}.
Context `{Message CMsgClientAddFriend, Message CMsgClientAddFriendResponse,
          Message CMsgClientRemoveFriend, Message CMsgClientHideFriend,
          Message CMsgClientFriendMsg, Message CMsgClientFriendsList,
          Message CMsgClientPlayerNicknameList, Message CMsgClientFriendsGroupsList,
          Message CMsgClientSetPlayerNickname, Message CMsgClientCreateFriendsGroup,
          Message CMsgClientCreateFriendsGroupResponse, Message CMsgClientDeleteFriendsGroup,
          Message CMsgClientManageFriendsGroup, Message CMsgClientAddFriendToGroup,
          Message CMsgClientRemoveFriendFromGroup, Message AmResponse}.

(** *** Relationships *)

(** What [add] makes of the response. *)
Definition added_from (response : CMsgClientAddFriendResponse) : Result AddedFriend :=
  let code := unwrap_or (afr_eresult response) eresult.FAIL in
  if decide (code ≠ eresult.OK ∧ code ≠ eresult.DUPLICATE_REQUEST) then
    Err (Remote ("add friend: eresult " +:+ pretty code))
  else
    steam_id ← ok_or (opt_filter (λ id, negb (id =? 0)) (afr_steam_id_added response))
      (Remote ("add friend: eresult " +:+ pretty code +:+ ", no steam id"));
    Ok {| ad_steam_id := steam_id;
          ad_persona_name := unwrap_or (afr_persona_name_added response) ""%string;
          ad_eresult := code |}.
Definition add (request : CMsgClientAddFriend) : async S AddedFriend :=
  response ← request_ignoring_eresult EMSG_CLIENT_ADD_FRIEND request;
  lift (added_from response).
Definition add_friend (steam_id : Z) : async S AddedFriend :=
  add {| af_steamid_to_add := Some steam_id; af_accountname_or_email_to_add := None |}.
Definition remove_friend (steam_id : Z) : async S unit :=
  notify EMSG_CLIENT_REMOVE_FRIEND {| rf_friendid := Some steam_id |}.

(** *** The post-login lists

    [request_friends_list], [request_nicknames] and [request_friends_groups_list] have the
    same body: subscribe, then the cached snapshot, then the wait loop.  The session's task may
    run in between (a push that arrives then is in the cache and past the subscription), and
    may already have run when the timer is armed. *)
Definition on_pushed_list {L A} `{Message L} (emsg : Z) (what : string) (full : L → bool)
    (from : L → list A) (msg : SteamMessage) : Result (option (list A)) :=
  if decide (sm_emsg msg = emsg) then
    l ← map_err (λ e, Codec ("decode " +:+ what +:+ ": " +:+ e)) (msg_decode (sm_body msg));
    if full l then Ok (Some (from l)) else Ok None
  else Ok None.

Definition post_login_list {L A} `{Message L} (emsg : Z) (what : string) (full : L → bool)
    (from : L → list A) (timeout : Z) (late : string) : async S (list A) := λ s,
  let events := so_subscribe s in
  let wait := wait_event events timeout (on_pushed_list emsg what full from) (Timeout late) in
  let s := so_preempt s in
  match so_cached s emsg with
  | Some body =>
      match map_err (λ e, Codec ("decode " +:+ what +:+ ": " +:+ e)) (msg_decode body) with
      | Err e => (Ready (Err e), s)
      | Ok l => if full l then (Ready (Ok (from l)), s) else wait s
      end
  | None => wait s
  end.

Definition request_friends_list : async S (list Friend) :=
  post_login_list EMSG_CLIENT_FRIENDS_LIST "friends list" is_full_friends friends_from
    FRIENDS_LIST_TIMEOUT "friends list".
Definition request_nicknames : async S (list Nickname) :=
  post_login_list EMSG_CLIENT_PLAYER_NICKNAME_LIST "nicknames" is_full_nicknames nicknames_from
    NICKNAMES_TIMEOUT "nicknames list".
Definition request_friends_groups_list : async S (list FriendsGroup) :=
  post_login_list EMSG_CLIENT_FRIENDS_GROUPS_LIST "groups list" is_full_groups groups_from
    GROUPS_TIMEOUT "friends groups list".

(** *** Nicknames *)

(** [let code = response.eresult.unwrap_or(FAIL); if code != OK { return Err(..) }]. *)
Definition am_accepts (what : string) (eresult : option Z) : Result unit :=
  let code := unwrap_or eresult ERESULT_FAIL_U32 in
  if decide (code ≠ ERESULT_OK_U32) then Err (Remote (what +:+ ": eresult " +:+ pretty code))
  else Ok tt.
Definition set_nickname (steam_id : Z) (nickname : string) : async S unit :=
  response ← request EMSG_AM_CLIENT_SET_PLAYER_NICKNAME
    {| sn_steamid := Some steam_id; sn_nickname := Some nickname |};
  lift (am_accepts "set nickname" (am_eresult response)).
Definition clear_nickname (steam_id : Z) : async S unit :=
  response ← request EMSG_AM_CLIENT_SET_PLAYER_NICKNAME
    {| sn_steamid := Some steam_id; sn_nickname := Some ""%string |};
  lift (am_accepts "clear nickname" (am_eresult response)).

(** *** Visibility and chat *)
Definition hide_friend (steam_id : Z) : async S unit :=
  notify EMSG_CLIENT_HIDE_FRIEND {| hf_friendid := Some steam_id; hf_hide := Some true |}.
Definition unhide_friend (steam_id : Z) : async S unit :=
  notify EMSG_CLIENT_HIDE_FRIEND {| hf_friendid := Some steam_id; hf_hide := Some false |}.
Definition send_message (steam_id : Z) (text : string) : async S unit :=
  notify EMSG_CLIENT_FRIEND_MSG
    {| fm_steamid := Some steam_id; fm_chat_entry_type := Some (chat_raw Text);
       fm_message := Some (as_bytes text); fm_rest := [] |}.
Definition send_typing (steam_id : Z) : async S unit :=
  notify EMSG_CLIENT_FRIEND_MSG
    {| fm_steamid := Some steam_id; fm_chat_entry_type := Some (chat_raw Typing);
       fm_message := None; fm_rest := [] |}.

(** *** Groups *)
Definition create_friends_group (name : string) (members : list Z) : async S NewFriendsGroup :=
  response ← request EMSG_AM_CLIENT_CREATE_FRIENDS_GROUP
    {| cg_steamid := None; cg_groupname := Some name; cg_steamid_friends := members |};
  _ ← lift (am_accepts "create friends group" (cgr_eresult response));
  group_id ← lift (ok_or (cgr_groupid response)
    (Remote "create friends group: OK without a groupid"));
  mret {| ng_group_id := group_id; ng_name := name |}.
Definition delete_friends_group (group_id : Z) : async S unit :=
  response ← request EMSG_AM_CLIENT_DELETE_FRIENDS_GROUP
    {| dg_steamid := None; dg_groupid := Some group_id |};
  lift (am_accepts "delete friends group" (am_eresult response)).
Definition rename_friends_group (group_id : Z) (new_name : string) : async S unit :=
  response ← request EMSG_AM_CLIENT_MANAGE_FRIENDS_GROUP
    {| mg_groupid := Some group_id; mg_groupname := Some new_name;
       mg_steamid_friends_added := []; mg_steamid_friends_removed := [] |};
  lift (am_accepts "rename friends group" (am_eresult response)).

(** [for &sid in steam_ids]. *)
Fixpoint for_each (body : Z → async S unit) (steam_ids : list Z) : async S unit :=
  match steam_ids with
  | [] => mret tt
  | sid :: steam_ids => _ ← body sid; for_each body steam_ids
  end.
Definition add_friends_to_group (group_id : Z) : list Z → async S unit :=
  for_each (λ sid,
    response ← request EMSG_AM_CLIENT_ADD_FRIEND_TO_GROUP
      {| ag_groupid := Some group_id; ag_steamiduser := Some sid |};
    lift (am_accepts ("add friend " +:+ pretty sid +:+ " to group " +:+ pretty group_id)
            (am_eresult response))).
Definition remove_friends_from_group (group_id : Z) : list Z → async S unit :=
  for_each (λ sid,
    response ← request EMSG_AM_CLIENT_REMOVE_FRIEND_FROM_GROUP
      {| rg_groupid := Some group_id; rg_steamiduser := Some sid |};
    lift (am_accepts ("remove friend " +:+ pretty sid +:+ " from group " +:+ pretty group_id)
            (am_eresult response))).
End friends.

(** ** Theorems *)

(** The wait loop returns the first list of its type, if that one is full. *)
Lemma await_first_list {L A} `{Message L} emsg what (full : L → bool) (from : L → list A) late
    elapsed msgs stop body l :
  first_body emsg msgs = Some body → msg_decode body = Ok l → full l = true →
  await_event (on_pushed_list emsg what full from) late elapsed ((RecvMsg <$> msgs) ++ stop) =
    Ready (Ok (from l)).
Proof.
  intros Hf Hd Hl. induction msgs as [|m msgs IH]; [done|]. cbn in Hf |- *.
  unfold on_pushed_list at 1. case_decide; [|by apply IH]. simplify_eq.
  rewrite Hd. cbn. by rewrite Hl.
Qed.

(** What a call makes of the raw answer to its one request. *)
Definition concluded {Resp A} `{Message Resp} (check_eresult : bool) (k : Resp → Result A)
    (a : poll (Result SteamMessage)) : poll (Result A) :=
  match a with
  | Pending => Pending
  | Ready r => Ready (resp ← finish_request check_eresult r; k resp)
  end.

Section theory.
Context {S : Type} `{SessionLaws S}.

Lemma request_then {Req Resp A} `{Message Req, Message Resp} emsg (req : Req) deadline check
    (k : Resp → Result A) s :
  (response ← dispatch_request emsg req deadline check; lift (k response)) s =
    let '(a, s') := so_exchange emsg (encode_to_vec req) deadline s in (concluded check k a, s').
Proof.
  unfold mbind, async_bind, dispatch_request, concluded.
  destruct (so_exchange _ _ _ _) as [[|r] s']; [done|]. by destruct (finish_request check r).
Qed.

(** A push of this type reaches the caller, whichever side of its cache read it falls on. *)
Lemma post_login_list_never_missed {L A} `{Message L} emsg what (full : L → bool)
    (from : L → list A) timeout late s arrivals elapsed s1 body l :
  so_ok s → emsg ∈ POST_LOGIN_SNAPSHOT_EMSGS →
  so_wait (so_subscribe s) timeout (so_preempt s) = (arrivals, elapsed, s1) → RecvLagged ∉ arrivals →
  so_logons s1 = so_logons s →
  first_body emsg (so_pushed s1) = Some body → msg_decode body = Ok l → full l = true →
  (post_login_list emsg what full from timeout late s).1 = Ready (Ok (from l)).
Proof.
  intros Hok Hin Hw Hn Hl Hf Hd Hfull. destruct (preempt_law s) as [_ Hpre].
  destruct (wait_law _ _ _ _ _ _ Hpre Hok Hw) as (Hpost & _ & Hlaw).
  destruct (Hlaw Hl Hn) as [Hp (stop & Ha & _)].
  destruct (since_law _ _ Hpre) as (_ & Hle & Hext). destruct (Hext Hok) as [Hok1 Hext1].
  destruct (since_law _ _ Hpost) as (_ & Hle' & Hext'). destruct (Hext' Hok1) as [_ Hext2].
  destruct Hext1 as [raced Hraced]; [lia|]. destruct Hext2 as [later Hlater]; [lia|].
  unfold post_login_list, wait_event. rewrite Hw, (cached_law _ _ Hok1 Hin).
  destruct (first_body emsg (so_pushed (so_preempt s))) as [b|] eqn:Hb.
  - rewrite Hlater, first_body_app, Hb in Hf. simplify_eq. rewrite Hd. cbn. by rewrite Hfull.
  - rewrite Hraced, first_body_app in Hb. rewrite Hp, first_body_app in Hf.
    destruct (first_body emsg (so_pushed s)); [done|]. cbn. rewrite Ha. by eapply await_first_list.
Qed.

Lemma on_pushed_list_error {L A} `{Message L} emsg what (full : L → bool) (from : L → list A) msg e :
  on_pushed_list emsg what full from msg = Err e → is_codec e = true.
Proof.
  unfold on_pushed_list. case_decide; [|done]. destruct (msg_decode (sm_body msg)) as [l|]; cbn.
  - by destruct (full l).
  - by intros [= <-].
Qed.

Lemma post_login_list_keeps_timer {L A} `{Message L} emsg what (full : L → bool)
    (from : L → list A) timeout late s :
  keeps_timer timeout (so_preempt s) (post_login_list emsg what full from timeout late s).
Proof.
  unfold post_login_list.
  pose proof (wait_event_keeps_timer (so_subscribe s) timeout (on_pushed_list emsg what full from)
    late (so_preempt s) (on_pushed_list_error _ _ _ _)) as Hw.
  destruct (so_cached (so_preempt s) emsg) as [body|]; [|done].
  destruct (msg_decode body) as [l|e]; cbn [map_err]; [|done]. by destruct (full l).
Qed.

Lemma request_answers_by {Req Resp A} `{Message Req, Message Resp} emsg (req : Req) check
    (k : Resp → async S A) s :
  so_room s → (∀ resp s', (k resp s').1 ≠ Pending) →
  answers_by DEFAULT_REQUEST_TIMEOUT s ((dispatch_request emsg req DEFAULT_REQUEST_TIMEOUT check ≫= k) s).
Proof.
  intros Hroom Hk. unfold mbind, async_bind, dispatch_request.
  destruct (so_exchange _ _ _ _) as [[|r] s1] eqn:Hx; [by eapply exchange_timer|].
  destruct (finish_request check r) as [resp|]; [|done]. specialize (Hk resp s1).
  by destruct (k resp s1) as [[] ?].
Qed.

(** A batch of edits that is still waiting at [s'] is waiting for one friend's answer: the
    edits before it were all accepted, and its own request is younger than [timeout] if the
    queue had room for it. *)
Definition edits_by (timeout : Z) (call : list Z → async S unit) (ids : list Z) (s : S) : Prop :=
  match call ids s with
  | (Pending, s') => ∃ accepted sid rest s0, ids = accepted ++ sid :: rest ∧
      call accepted s = (Ready (Ok tt), s0) ∧ (so_room s0 → so_now s' < so_now s0 + timeout)
  | (Ready _, _) => True
  end.

Lemma for_each_edits timeout (body : Z → async S unit) ids s :
  (∀ sid s, so_room s → answers_by timeout s (body sid s)) → edits_by timeout (for_each body) ids s.
Proof.
  intros Hbody. revert s. induction ids as [|sid ids IH]; intros s; [done|].
  unfold edits_by. cbn [for_each]. unfold mbind, async_bind.
  destruct (body sid s) as [[|[[]|e]] s1] eqn:Hb; [|specialize (IH s1); unfold edits_by in IH|done].
  - exists [], sid, ids, s. split; [done|]. split; [done|]. intros Hroom.
    specialize (Hbody sid s Hroom). by rewrite Hb in Hbody.
  - destruct (for_each body ids s1) as [[|r] s']; [|done].
    destruct IH as (accepted & sid' & rest & s0 & -> & Hacc & Hroom).
    exists (sid :: accepted), sid', rest, s0. split; [done|]. split; [|done]. cbn [for_each].
    unfold mbind, async_bind. by rewrite Hb.
Qed.

(** C32: The friends calls that have a timer keep it.  Whatever the session does meanwhile, a
    list call is decided once ten seconds have passed since it began to wait, reports a
    timeout no earlier, and fails otherwise only for a list that does not decode or a channel
    that is closed.  A call that asks Steam for one change (adding a friend, a nickname, a
    group's creation, deletion or new name) is answered, with its result or an error, within
    thirty seconds unless it finds the command queue full: waiting for room in it is under no
    timer.  A call that edits a group's members asks for one change per friend, each with
    thirty seconds of its own on the same condition.  (The calls that only notify Steam,
    removing or hiding a friend and the chat messages, wait for their write under no timer
    and are not among these.) *)
Theorem calls_keep_their_timers
    `{Message CMsgClientFriendsList, Message CMsgClientPlayerNicknameList,
      Message CMsgClientFriendsGroupsList, Message CMsgClientAddFriend,
      Message CMsgClientAddFriendResponse, Message CMsgClientSetPlayerNickname,
      Message CMsgClientCreateFriendsGroup, Message CMsgClientCreateFriendsGroupResponse,
      Message CMsgClientDeleteFriendsGroup, Message CMsgClientManageFriendsGroup,
      Message CMsgClientAddFriendToGroup, Message CMsgClientRemoveFriendFromGroup,
      Message AmResponse} steam_id group_id name members s :
  (keeps_timer (from_secs 10) (so_preempt s) (request_friends_list s) ∧
   keeps_timer (from_secs 10) (so_preempt s) (request_nicknames s) ∧
   keeps_timer (from_secs 10) (so_preempt s) (request_friends_groups_list s)) ∧
  (so_room s →
   answers_by (from_secs 30) s (add_friend steam_id s) ∧
   answers_by (from_secs 30) s (set_nickname steam_id name s) ∧
   answers_by (from_secs 30) s (clear_nickname steam_id s) ∧
   answers_by (from_secs 30) s (create_friends_group name members s) ∧
   answers_by (from_secs 30) s (delete_friends_group group_id s) ∧
   answers_by (from_secs 30) s (rename_friends_group group_id name s)) ∧
  edits_by (from_secs 30) (add_friends_to_group group_id) members s ∧
  edits_by (from_secs 30) (remove_friends_from_group group_id) members s.
Proof.
  split; [split_and!; apply post_login_list_keeps_timer|]. split.
  - intros Hroom. split_and!; (apply request_answers_by; [done|]); intros resp s'; try done.
    unfold mbind, async_bind, lift. destruct (am_accepts _ _); [|done]. by destruct (ok_or _ _).
  - split; apply for_each_edits; intros sid s0 Hroom; by apply request_answers_by.
Qed.

(** One request per id, in order, stopping at the first that is not accepted. *)
Definition batch (emsg : Z) (enc : Z → list byte)
    (verdict : Z → poll (Result SteamMessage) → poll (Result unit)) (ids : list Z) (s : S)
    (r : poll (Result unit)) (s' : S) : Prop :=
  ∃ done answers last,
    so_transcript s' = so_transcript s ++
      zip_with (λ sid a, CalledRequest emsg (enc sid) a) done answers ++ last ∧
    Forall2 (λ sid a, verdict sid a = Ready (Ok tt)) done answers ∧
    ((ids = done ∧ last = [] ∧ r = Ready (Ok tt)) ∨
     (∃ sid rest a, ids = done ++ sid :: rest ∧ last = [CalledRequest emsg (enc sid) a] ∧
                    r = verdict sid a ∧ r ≠ Ready (Ok tt))).

Lemma for_each_batch emsg enc verdict deadline (body : Z → async S unit) :
  (∀ sid s, body sid s = let '(a, s') := so_exchange emsg (enc sid) deadline s in
                         (verdict sid a, s')) →
  ∀ ids s r s', for_each body ids s = (r, s') → batch emsg enc verdict ids s r s'.
Proof.
  intros Hbody. induction ids as [|sid ids IH]; intros s r s'; cbn [for_each].
  { intros [= <- <-]. exists [], [], []. rewrite app_nil_r. split; [done|]. split; [done|]. by left. }
  unfold mbind, async_bind. rewrite Hbody.
  destruct (so_exchange emsg (enc sid) deadline s) as [a s1] eqn:Hx.
  apply exchange_law in Hx as [Ht _].
  assert (verdict sid a ≠ Ready (Ok tt) → batch emsg enc verdict (sid :: ids) s (verdict sid a) s1).
  { intros Hv. exists [], [], [CalledRequest emsg (enc sid) a]. split; [done|]. split; [done|].
    right. by exists sid, ids, a. }
  destruct (verdict sid a) as [|[[]|e]] eqn:Hv; [intros [= <- <-]; auto| |intros [= <- <-]; auto].
  intros Hr. destruct (IH _ _ _ Hr) as (ds & answers & last & Ht' & Hall & Hend).
  exists (sid :: ds), (a :: answers), last. split; [by rewrite Ht', Ht, <-(assoc_L (++))|].
  split; [by constructor|]. destruct Hend as [(-> & ?)|(sid' & rest & a' & -> & ?)]; [by left|].
  right. by exists sid', rest, a'.
Qed.

(** C11: The three post-login lists are never missed: whether Steam pushed the list before
    the call, in the race between the call's subscription and its look at the cache, or only
    while it waits, the caller gets exactly that list, provided the first push of its type
    since the logon is a full one, the session does not reconnect during the call and the
    subscription does not lag. *)
Theorem post_login_lists_never_missed
    `{Message CMsgClientFriendsList, Message CMsgClientPlayerNicknameList,
      Message CMsgClientFriendsGroupsList} s arrivals elapsed s1 :
  so_ok s → so_wait (so_subscribe s) (from_secs 10) (so_preempt s) = (arrivals, elapsed, s1) →
  RecvLagged ∉ arrivals →
  so_logons s1 = so_logons s →
  (∀ body l, first_body EMSG_CLIENT_FRIENDS_LIST (so_pushed s1) = Some body →
     msg_decode body = Ok l → is_full_friends l = true →
     (request_friends_list s).1 = Ready (Ok (friends_from l))) ∧
  (∀ body l, first_body EMSG_CLIENT_PLAYER_NICKNAME_LIST (so_pushed s1) = Some body →
     msg_decode body = Ok l → is_full_nicknames l = true →
     (request_nicknames s).1 = Ready (Ok (nicknames_from l))) ∧
  (∀ body l, first_body EMSG_CLIENT_FRIENDS_GROUPS_LIST (so_pushed s1) = Some body →
     msg_decode body = Ok l → is_full_groups l = true →
     (request_friends_groups_list s).1 = Ready (Ok (groups_from l))).
Proof.
  intros Hok Hw Hn Hl. split_and!; intros body l Hf Hd Hfull;
    (eapply post_login_list_never_missed; [done| |done..]); unfold POST_LOGIN_SNAPSHOT_EMSGS; set_solver.
Qed.

(** Editing a group sends one request per friend, in order, and stops at the first one
    Steam does not accept: every friend before it was accepted, its own answer is the
    call's result (naming the friend and the group), and nothing is sent after it. *)
Theorem group_edits_stop_at_first_refusal
    `{Message CMsgClientAddFriendToGroup, Message CMsgClientRemoveFriendFromGroup,
      Message AmResponse} group_id ids s r s' :
  (add_friends_to_group group_id ids s = (r, s') →
   batch EMSG_AM_CLIENT_ADD_FRIEND_TO_GROUP
     (λ sid, encode_to_vec {| ag_groupid := Some group_id; ag_steamiduser := Some sid |})
     (λ sid, concluded true (λ resp, am_accepts
        ("add friend " +:+ pretty sid +:+ " to group " +:+ pretty group_id) (am_eresult resp)))
     ids s r s') ∧
  (remove_friends_from_group group_id ids s = (r, s') →
   batch EMSG_AM_CLIENT_REMOVE_FRIEND_FROM_GROUP
     (λ sid, encode_to_vec {| rg_groupid := Some group_id; rg_steamiduser := Some sid |})
     (λ sid, concluded true (λ resp, am_accepts
        ("remove friend " +:+ pretty sid +:+ " from group " +:+ pretty group_id) (am_eresult resp)))
     ids s r s').
Proof.
  split; eapply for_each_batch; intros sid s0; apply request_then.
Qed.

(** Adding a friend succeeds exactly when the response body says OK or
    [DuplicateRequest] and names a non-zero account, whatever result the routing header
    mirrors; the answer then carries that account, name and code. *)
Theorem add_friend_exact `{Message CMsgClientAddFriend, Message CMsgClientAddFriendResponse}
    steam_id s msg s' added :
  so_exchange EMSG_CLIENT_ADD_FRIEND
    (encode_to_vec {| af_steamid_to_add := Some steam_id; af_accountname_or_email_to_add := None |})
    DEFAULT_REQUEST_TIMEOUT s = (Ready (Ok msg), s') →
  (add_friend steam_id s).1 = Ready (Ok added) ↔
  ∃ resp, msg_decode (sm_body msg) = Ok resp ∧
    afr_eresult resp = Some (ad_eresult added) ∧ (ad_eresult added = 1 ∨ ad_eresult added = 29) ∧
    afr_steam_id_added resp = Some (ad_steam_id added) ∧ ad_steam_id added ≠ 0 ∧
    ad_persona_name added = default ""%string (afr_persona_name_added resp).
Proof.
  intros Hx. unfold add_friend, add, request_ignoring_eresult. rewrite request_then, Hx. cbn.
  destruct (msg_decode (sm_body msg)) as [resp|e]; cbn; [|split; [done|by intros (? & ? & _)]].
  destruct resp as [[code|] [id|] name], added as [aid aname acode]; unfold added_from; cbn;
    unfold eresult.OK, eresult.DUPLICATE_REQUEST, eresult.FAIL; case_decide; cbn;
    try destruct (Z.eqb_spec id 0); cbn; split; try done;
    try (intros [= <- <- <-]); try (intros (? & [= <-] & ?)); cbn in *; destruct_and?; simplify_eq;
    try (by exfalso; lia); try (by destruct name).
  eexists. split; [done|]. cbn. split_and!; try done. lia.
Qed.
End theory.

(** ** Over the driver *)
Section stopped.
Context `{Message CMsgProtoBufHeader, Message CMsgMulti, Message CMsgClientLoggedOff,
          Message CMsgClientLogon, Message CMsgClientLogonResponse}.
Context `{Message CMsgClientFriendsList, Message CMsgClientPlayerNicknameList,
          Message CMsgClientFriendsGroupsList}.
Context (GzDecoder : list byte → list byte * option string).
#[local] Instance stopped_ops : SessionOps DriverSession := driver_session GzDecoder.

Lemma post_login_list_stopped {L A} `{Message L} emsg what (full : L → bool)
    (from : L → list A) timeout late (s : DriverSession) r :
  handle_kept s → w_phase (ds_world s) = Stopped r → so_cached (so_preempt s) emsg = None →
  let '(answer, s') := post_login_list emsg what full from timeout late s in
  answer = if bool_decide (w_now (ds_world (so_preempt s)) + timeout ≤ w_now (ds_world s'))
           then Ready (Err (Timeout late)) else Pending.
Proof.
  intros Hk Hp Hc. unfold post_login_list. rewrite Hc. unfold wait_event.
  destruct (stopped_preempt GzDecoder s r Hk Hp) as (Hk' & Hp' & Hsub).
  pose proof (stopped_wait_is_empty GzDecoder (so_preempt s) timeout r Hk' Hp') as Hw.
  pose proof (wait_timer (SessionLaws := driver_laws GzDecoder) (so_subscribe s) timeout
    (so_preempt s)) as Ht.
  rewrite Hsub in Hw.
  destruct (so_wait (so_subscribe s) timeout (so_preempt s)) as [[arrivals elapsed] s'].
  cbn [fst] in Hw. subst. by rewrite (Ht _ _ _ eq_refl).
Qed.

(** On a stopped session a post-login list that is not cached always times out, ten
    seconds after the call and no sooner: the caller's own handle keeps the broadcast
    channel open, so the "session stopped" error the three functions have an arm for is
    never the one they return. *)
Theorem stopped_session_lists_time_out (s : DriverSession) r :
  handle_kept s → w_phase (ds_world s) = Stopped r →
  let late w (s' : DriverSession) {A} : poll (Result A) :=
    if bool_decide (w_now (ds_world (so_preempt s)) + from_secs 10 ≤ w_now (ds_world s'))
    then Ready (Err (Timeout w)) else Pending in
  (so_cached (so_preempt s) EMSG_CLIENT_FRIENDS_LIST = None →
   let '(answer, s') := request_friends_list s in answer = late "friends list" s') ∧
  (so_cached (so_preempt s) EMSG_CLIENT_PLAYER_NICKNAME_LIST = None →
   let '(answer, s') := request_nicknames s in answer = late "nicknames list" s') ∧
  (so_cached (so_preempt s) EMSG_CLIENT_FRIENDS_GROUPS_LIST = None →
   let '(answer, s') := request_friends_groups_list s in answer = late "friends groups list" s').
Proof. intros Hk Hp. split_and!; intros Hc; by eapply post_login_list_stopped. Qed.
End stopped.

(** ** Witnesses: a session run by the driver *)
Section witnesses.
Import Wire.Instances.

Definition w_friends_list : wire CMsgClientFriendsList :=
  w_iso (λ '(a, b, c), Build_CMsgClientFriendsList a b c)
    (λ l, (fl_bincremental l, fl_friends l, fl_rest l))
    (w_pair (w_pair (w_option w_bool)
      (w_list (w_iso (λ '(a, b), Build_ListedFriend a b)
                 (λ f, (lf_ulfriendid f, lf_efriendrelationship f))
                 (w_pair (w_option (w_uint 8)) (w_option (w_uint 4)))))) w_bytes).
Definition w_nickname_list : wire CMsgClientPlayerNicknameList :=
  w_iso (λ '(a, b, c), Build_CMsgClientPlayerNicknameList a b c)
    (λ l, (nl_removal l, nl_incremental l, nl_nicknames l))
    (w_pair (w_pair (w_option w_bool) (w_option w_bool))
      (w_list (w_iso (λ '(a, b), Build_PlayerNickname a b) (λ n, (pn_steamid n, pn_nickname n))
                 (w_pair (w_option (w_uint 8)) (w_option w_string))))).
Definition w_groups_list : wire CMsgClientFriendsGroupsList :=
  w_iso (λ '(a, b, c, d), Build_CMsgClientFriendsGroupsList a b c d)
    (λ l, (gl_bremoval l, gl_bincremental l, gl_friend_groups l, gl_memberships l))
    (w_pair (w_pair (w_pair (w_option w_bool) (w_option w_bool))
      (w_list (w_iso (λ '(a, b), Build_ProtoFriendGroup a b)
                 (λ g, (pg_n_group_id g, pg_str_group_name g))
                 (w_pair (w_option (w_int 4)) (w_option w_string)))))
      (w_list (w_iso (λ '(a, b), Build_ProtoMembership a b)
                 (λ m, (pm_ul_steam_id m, pm_n_group_id m))
                 (w_pair (w_option (w_uint 8)) (w_option (w_int 4)))))).
Definition w_group_edit : wire (option Z * option Z) :=
  w_pair (w_option (w_int 4)) (w_option (w_uint 8)).

#[local] Instance friends_list_message : Message CMsgClientFriendsList :=
  wire_message w_friends_list.
#[local] Instance nickname_list_message : Message CMsgClientPlayerNicknameList :=
  wire_message w_nickname_list.
#[local] Instance groups_list_message : Message CMsgClientFriendsGroupsList :=
  wire_message w_groups_list.
#[local] Instance add_to_group_message : Message CMsgClientAddFriendToGroup :=
  wire_message (w_iso (λ '(a, b), Build_CMsgClientAddFriendToGroup a b)
    (λ m, (ag_groupid m, ag_steamiduser m)) w_group_edit).
#[local] Instance remove_from_group_message : Message CMsgClientRemoveFriendFromGroup :=
  wire_message (w_iso (λ '(a, b), Build_CMsgClientRemoveFriendFromGroup a b)
    (λ m, (rg_groupid m, rg_steamiduser m)) w_group_edit).
#[local] Instance am_response_message : Message AmResponse :=
  wire_message (w_iso Build_AmResponse am_eresult (w_option (w_uint 4))).
#[local] Instance add_friend_message : Message CMsgClientAddFriend :=
  wire_message (w_iso (λ '(a, b), Build_CMsgClientAddFriend a b)
    (λ m, (af_steamid_to_add m, af_accountname_or_email_to_add m))
    (w_pair (w_option (w_uint 8)) (w_option w_string))).
#[local] Instance add_friend_response_message : Message CMsgClientAddFriendResponse :=
  wire_message (w_iso (λ '(a, b, c), Build_CMsgClientAddFriendResponse a b c)
    (λ m, (afr_eresult m, afr_steam_id_added m, afr_persona_name_added m))
    (w_pair (w_pair (w_option (w_int 4)) (w_option (w_uint 8))) (w_option w_string))).

#[local] Instance set_nickname_message : Message CMsgClientSetPlayerNickname :=
  wire_message (w_iso (λ '(a, b), Build_CMsgClientSetPlayerNickname a b)
    (λ m, (sn_steamid m, sn_nickname m)) (w_pair (w_option (w_uint 8)) (w_option w_string))).
#[local] Instance create_group_message : Message CMsgClientCreateFriendsGroup :=
  wire_message (w_iso (λ '(a, b, c), Build_CMsgClientCreateFriendsGroup a b c)
    (λ m, (cg_steamid m, cg_groupname m, cg_steamid_friends m))
    (w_pair (w_pair (w_option (w_uint 8)) (w_option w_string)) (w_list (w_uint 8)))).
#[local] Instance create_group_response_message : Message CMsgClientCreateFriendsGroupResponse :=
  wire_message (w_iso (λ '(a, b), Build_CMsgClientCreateFriendsGroupResponse a b)
    (λ m, (cgr_eresult m, cgr_groupid m)) (w_pair (w_option (w_uint 4)) (w_option (w_int 4)))).
#[local] Instance delete_group_message : Message CMsgClientDeleteFriendsGroup :=
  wire_message (w_iso (λ '(a, b), Build_CMsgClientDeleteFriendsGroup a b)
    (λ m, (dg_steamid m, dg_groupid m)) (w_pair (w_option (w_uint 8)) (w_option (w_int 4)))).
#[local] Instance manage_group_message : Message CMsgClientManageFriendsGroup :=
  wire_message (w_iso (λ '(a, b, c, d), Build_CMsgClientManageFriendsGroup a b c d)
    (λ m, (mg_groupid m, mg_groupname m, mg_steamid_friends_added m, mg_steamid_friends_removed m))
    (w_pair (w_pair (w_pair (w_option (w_int 4)) (w_option w_string)) (w_list (w_uint 8))) (w_list (w_uint 8)))).

#[local] Instance sample_ops : SessionOps DriverSession := driver_session stored.
#[local] Instance sample_laws : SessionLaws DriverSession := driver_laws stored.

Definition session_with (script : list (list Event)) : DriverSession :=
  {| ds_world := sample_world; ds_logons := 1; ds_logon_at := 0; ds_script := script;
     ds_preempt := []; ds_transcript := [] |}.
(** ... whose task runs between two statements of a caller. *)
Definition racing (race : list Event) (s : DriverSession) : DriverSession :=
  {| ds_world := ds_world s; ds_logons := ds_logons s; ds_logon_at := ds_logon_at s;
     ds_script := ds_script s; ds_preempt := [race]; ds_transcript := ds_transcript s |}.
Definition sample_list : CMsgClientFriendsList :=
  {| fl_bincremental := Some false;
     fl_friends := [{| lf_ulfriendid := Some 76561198000000001; lf_efriendrelationship := Some 3 |}];
     fl_rest := [] |}.
Definition sample_push : list Event :=
  [Arrive (Some (Ok (WsBinary (encode EMSG_CLIENT_FRIENDS_LIST header_default sample_list))));
   OnRead].
(** The driver sends the request and Steam answers job [j]; the header mirrors [code]. *)
Definition answered {M} `{Message M} (j : Z) (code : Z) (m : M) : list Event :=
  [OnCommand None;
   Arrive (Some (Ok (WsBinary (encode 147 {| h_steamid := None; h_client_sessionid := None;
     h_jobid_source := None; h_jobid_target := Some j; h_eresult := Some code;
     h_error_message := None; h_rest := [] |} m))));
   OnRead].

Lemma sample_session_ok script : so_ok (session_with script).
Proof. split; [cbn; lia|]. by intros emsg _. Qed.

Lemma racing_session_ok race script : so_ok (racing race (session_with script)).
Proof. apply (sample_session_ok script). Qed.

(** The list is pushed while the call waits, before it, and in the race. *)
Lemma post_login_lists_never_missed_witness :
  (request_friends_list (session_with [sample_push])).1 = Ready (Ok (friends_from sample_list)) ∧
  (request_friends_list (racing sample_push (session_with [[Advance 10000]]))).1 =
    Ready (Ok (friends_from sample_list)) ∧
  friends_from sample_list =
    [{| fr_steam_id := 76561198000000001; fr_relationship := RelFriend |}].
Proof.
  split; [|split; [|done]].
  - eapply (post_login_lists_never_missed (session_with [sample_push]));
      [apply sample_session_ok|by vm_compute|by vm_compute; set_solver|done|by vm_compute..].
  - eapply (post_login_lists_never_missed (racing sample_push (session_with [[Advance 10000]])));
      [apply racing_session_ok|by vm_compute|by vm_compute; set_solver|done|by vm_compute..].
Defined.

(** The second friend is refused, the third is never asked for. *)
Definition edit_session : DriverSession :=
  session_with [answered 1 1 {| am_eresult := Some 1 |}; answered 2 1 {| am_eresult := Some 8 |};
                answered 3 1 {| am_eresult := Some 1 |}].

Lemma group_edits_stop_at_first_refusal_witness :
  let call := add_friends_to_group 7 [11; 22; 33] edit_session in
  call.1 = Ready (Err (Remote "add friend 22 to group 7: eresult 8")) ∧
  length (ds_transcript call.2) = 2%nat ∧
  batch EMSG_AM_CLIENT_ADD_FRIEND_TO_GROUP
    (λ sid, encode_to_vec {| ag_groupid := Some 7; ag_steamiduser := Some sid |})
    (λ sid, concluded true (λ resp, am_accepts
       ("add friend " +:+ pretty sid +:+ " to group " +:+ pretty 7) (am_eresult resp)))
    [11; 22; 33] edit_session call.1 call.2.
Proof.
  intros call. split; [by vm_compute|]. split; [by vm_compute|].
  apply (group_edits_stop_at_first_refusal 7 [11; 22; 33] edit_session), surjective_pairing.
Defined.

Definition duplicate_answer : CMsgClientAddFriendResponse :=
  {| afr_eresult := Some 29; afr_steam_id_added := Some 76561198000000001;
     afr_persona_name_added := Some "gordon"%string |}.
Definition added_sample : AddedFriend :=
  {| ad_steam_id := 76561198000000001; ad_persona_name := "gordon"; ad_eresult := 29 |}.

Lemma add_friend_exact_witness :
  (add_friend 76561198000000001 (session_with [answered 1 29 duplicate_answer])).1
    = Ready (Ok added_sample).
Proof.
  eapply (add_friend_exact 76561198000000001 (session_with [answered 1 29 duplicate_answer]) _ _
    added_sample); [by vm_compute|].
  exists duplicate_answer. by split_and!; vm_compute; auto.
Defined.

(** The request is written and never answered. *)
Definition unanswered_session : DriverSession := session_with [[OnCommand None; Advance 30000]].
(** The first friend is added, the second has been waited for since a second. *)
Definition slow_edit_session : DriverSession :=
  session_with [answered 1 1 {| am_eresult := Some 1 |}; [OnCommand None; Advance 1000]].
Lemma calls_keep_their_timers_witness :
  answers_by (from_secs 30) unanswered_session (set_nickname 11 "gordon" unanswered_session) ∧
  (set_nickname 11 "gordon" unanswered_session).1 = Ready (Err (Timeout "steam request")) ∧
  edits_by (from_secs 30) (add_friends_to_group 7) [11; 22; 33] slow_edit_session ∧
  (add_friends_to_group 7 [11; 22; 33] slow_edit_session).1 = Pending.
Proof.
  split; [|split; [by vm_compute|split; [|by vm_compute]]].
  - destruct (calls_keep_their_timers 11 7 "gordon" [] unanswered_session) as (_ & Hone & _).
    apply Hone. split; [done|]. vm_compute. lia.
  - destruct (calls_keep_their_timers 11 7 "gordon" [11; 22; 33] slow_edit_session)
      as (_ & _ & Hedits & _). exact Hedits.
Defined.

(** A notification has no such timer: an hour later its caller is still waiting for a driver
    that is stuck in a write. *)
#[local] Instance remove_friend_message : Message CMsgClientRemoveFriend :=
  wire_message (w_iso Build_CMsgClientRemoveFriend rf_friendid (w_option (w_uint 8))).
Lemma remove_friend_waits_for_its_write :
  let '(r, s') := remove_friend 11 (session_with [[Advance 3600000]]) in
  r = Pending ∧ w_now (ds_world s') = 3600000.
Proof. by vm_compute. Qed.

(** The command queue is full when the call is made, and a minute passes before the driver
    takes a command off it: the call is still waiting, at twice its timeout. *)
Definition full_queue : list Event := (λ n, Submit n (CallNotify 1 [])) <$> seq 0 COMMAND_CAPACITY.
Definition crowded_session : DriverSession :=
  {| ds_world := after full_queue; ds_logons := 1; ds_logon_at := 0;
     ds_script := [[Advance 60000; OnCommand None]]; ds_preempt := []; ds_transcript := [] |}.
Lemma full_queue_outlives_timeout :
  let '(r, s') := set_nickname 11 "gordon" crowded_session in
  r = Pending ∧ w_now (ds_world s') = w_now (ds_world crowded_session) + 2 * DEFAULT_REQUEST_TIMEOUT.
Proof. by vm_compute. Qed.

(** Somebody logged the session off before the lists were asked for. *)
Definition logged_off_session : DriverSession :=
  {| ds_world := after [Submit 0 CallLogoff; OnCommand None; OnClosed true]; ds_logons := 1;
     ds_logon_at := 0; ds_script := [[Advance 10000]]; ds_preempt := []; ds_transcript := [] |}.
Lemma stopped_session_lists_time_out_witness :
  (request_friends_list logged_off_session).1 = Ready (Err (Timeout "friends list")).
Proof.
  destruct (stopped_session_lists_time_out stored logged_off_session (Ok tt)) as (Hf & _ & _).
  - split; [by vm_compute|]. split; [|by apply list.Forall_nil_2].
    apply list.Forall_singleton. set_solver.
  - by vm_compute.
  - assert (so_cached (so_preempt logged_off_session) EMSG_CLIENT_FRIENDS_LIST = None) as Hc by by vm_compute.
    specialize (Hf Hc). destruct (request_friends_list logged_off_session) as [answer s'] eqn:Hr.
    cbn [fst]. rewrite Hf. apply (f_equal (λ x, w_now (ds_world x.2))) in Hr. cbn [snd] in Hr.
    rewrite <-Hr. by vm_compute.
Defined.
End witnesses.
