(* ===== verification/Persona.v ===== *)
(** * Player profiles: [persona.rs]

    Persona summaries (an unsolicited reply picked out of the session's events), public
    profile fields (a request), avatar URLs, and the keyless vanity lookup.  [reqwest] is
    a parameter, as in Discovery.v. *)
From S2P Require Import Prelude Errors Proto Wire Codec Discovery Connection Driver Session RustStr.
#[local] Set Default Goal Selector "!".

(** ** Constants *)
Definition EMSG_CLIENT_PERSONA_STATE : Z := 766.
Definition EMSG_CLIENT_REQUEST_FRIEND_DATA : Z := 815.
Definition EMSG_CLIENT_FRIEND_PROFILE_INFO : Z := 5535.
Definition PERSONA_FLAGS : Z := Z.lor (Z.lor (Z.lor (Z.lor 1 2) 16) 64) 256.
Definition REQUIRED_SUMMARY_FLAGS : Z := 2.
Definition SUMMARY_TIMEOUT : Z := from_secs 10.
Definition AVATAR_HOST : string := "https://avatars.steamstatic.com/".
Definition DEFAULT_AVATAR_HASH : string := "fef49e7fa7e1997310d705b2a6158ff8dc1cdfeb".

(** ** Data *)
Inductive PersonaState :=
  | Offline | Online | Busy | Away | Snooze | LookingToTrade | LookingToPlay | Invisible
  | PersonaUnknown (value : Z).
Definition persona_from_raw (value : Z) : PersonaState :=
  match value with
  | 0 => Offline
  | 1 => Online
  | 2 => Busy
  | 3 => Away
  | 4 => Snooze
  | 5 => LookingToTrade
  | 6 => LookingToPlay
  | 7 => Invisible
  | other => PersonaUnknown other
  end.

Record CurrentGame := { cg_app_id : Z; cg_game_id : Z; cg_name : string }.
Record PlayerSummary := {
  ps_steam_id : Z;
  ps_persona_name : string;
  ps_profile_url : string;
  ps_avatar_url : string;
  ps_avatar_hash : string;
  ps_state : PersonaState;
  ps_current_game : option CurrentGame
}.
Record ProfileInfo := {
  pi_steam_id : Z;
  pi_real_name : option string;
  pi_country : option string;
  pi_state : option string;
  pi_city : option string;
  pi_summary : option string;
  pi_created_at : option Z
}.

(** *** Messages *)
Record CMsgClientRequestFriendData := {
  rd_persona_state_requested : option Z;
  rd_friends : list Z
}.
Record PersonaFriend := {
  pf_friendid : option Z;
  pf_persona_state : option Z;
  pf_game_played_app_id : option Z;
  pf_player_name : option string;
  pf_avatar_hash : option (list byte);
  pf_game_name : option string;
  pf_gameid : option Z;
  pf_rest : list byte
}.
Record CMsgClientPersonaState := {
  pst_status_flags : option Z;
  pst_friends : list PersonaFriend
}.
Record CMsgClientFriendProfileInfo := { fpi_steamid_friend : option Z }.
Record CMsgClientFriendProfileInfoResponse := {
  fpr_eresult : option Z;
  fpr_steamid_friend : option Z;
  fpr_time_created : option Z;
  fpr_real_name : option string;
  fpr_city_name : option string;
  fpr_state_name : option string;
  fpr_country_name : option string;
  fpr_headline : option string;
  fpr_summary : option string
}.

(** ** URLs *)
Definition profile_url (steam_id : Z) : string :=
  "https://steamcommunity.com/profiles/" +:+ pretty steam_id.

Fixpoint hash_to_hex (hash : list byte) : string :=
  match hash with
  | [] => ""
  | b :: hash => hex_fixed 2 (byte_Z b) +:+ hash_to_hex hash
  end.

Inductive AvatarSize := Small | Medium | Full.
Definition avatar_url_sized (hash : list byte) (size : AvatarSize) : string :=
  let hex := hash_to_hex hash in
  let hex := if bool_decide (hex = ""%string) || forallb (λ b, byte_Z b =? 0) hash
             then DEFAULT_AVATAR_HASH else hex in
  let suffix := match size with
                | Small => ""
                | Medium => "_medium"
                | Full => "_full"
                end%string in
  AVATAR_HOST +:+ hex +:+ suffix +:+ ".jpg".
Definition avatar_url (hash : list byte) : string := avatar_url_sized hash Full.

(** [xml.find(..)?], twice, then [trim().parse().ok()]. *)
Definition extract_steam_id64 (xml : bstr) : option Z :=
  '(_, tail) ← split_once_str (as_bytes "<steamID64>") xml;
  '(value, _) ← split_once_str (as_bytes "</steamID64>") tail;
  result_ok (parse_u64 (trim value)).

(** ** HTTP: [client] is the outcome of [http::client(proxy)], [get] the GET of a URL,
    [B] what is read of the body. *)
Record Fetched (B : Type) := { ft_status : Z; ft_body : result string B }.
Arguments ft_status {B}.
Arguments ft_body {B}.

Section http.
Context (status_to_string : Z → string).
Context (client : Result unit).

Definition resolve_vanity_url (get : string → result string (Fetched bstr)) (name : string) :
    Result (option Z) :=
  let url := "https://steamcommunity.com/id/" +:+ name +:+ "?xml=1" in
  _ ← client;
  response ← map_err (λ e, Network ("vanity lookup: " +:+ e)) (get url);
  if negb (is_success (ft_status response)) then
    Err (Network ("vanity lookup: HTTP " +:+ status_to_string (ft_status response)))
  else
    body ← map_err (λ e, Network ("vanity lookup body: " +:+ e)) (ft_body response);
    Ok (extract_steam_id64 body).

Definition fetch_avatar (get : string → result string (Fetched (list byte))) (url : string) :
    Result (list byte) :=
  _ ← client;
  response ← map_err (λ e, Network ("fetch avatar: " +:+ e)) (get url);
  if negb (is_success (ft_status response)) then
    Err (Network ("fetch avatar: HTTP " +:+ status_to_string (ft_status response)))
  else
    map_err (λ e, Network ("fetch avatar body: " +:+ e)) (ft_body response).
End http.

(** ** Summaries and profiles *)
Section persona.
Context {S : Type} `{SessionOps S}.
Context `{Message CMsgClientRequestFriendData, Message CMsgClientPersonaState,
          Message CMsgClientFriendProfileInfo, Message CMsgClientFriendProfileInfoResponse}.

Definition current_game (friend : PersonaFriend) : option CurrentGame :=
  let game_id := unwrap_or (pf_gameid friend) 0 in
  let app_id := unwrap_or (pf_game_played_app_id friend) 0 in
  if decide (app_id ≠ 0 ∨ game_id ≠ 0) then
    Some {| cg_app_id := if decide (app_id ≠ 0) then app_id else wrap_u 32 game_id;
            cg_game_id := game_id;
            cg_name := unwrap_or (pf_game_name friend) ""%string |}
  else None.

Definition summary_from_persona_state (msg : SteamMessage) (steam_id : Z) :
    Result (option PlayerSummary) :=
  state ← map_err (λ e, Codec ("decode persona state: " +:+ e)) (msg_decode (sm_body msg));
  if decide (Z.land (unwrap_or (pst_status_flags state) 0) REQUIRED_SUMMARY_FLAGS
             ≠ REQUIRED_SUMMARY_FLAGS) then Ok None
  else
    match List.find (λ f, bool_decide (pf_friendid f = Some steam_id)) (pst_friends state) with
    | None => Ok None
    | Some friend =>
        let avatar := unwrap_or (pf_avatar_hash friend) [] in
        Ok (Some {| ps_steam_id := steam_id;
                    ps_persona_name := unwrap_or (pf_player_name friend) ""%string;
                    ps_profile_url := profile_url steam_id;
                    ps_avatar_url := avatar_url avatar;
                    ps_avatar_hash := hash_to_hex avatar;
                    ps_state := persona_from_raw (unwrap_or (pf_persona_state friend) 0);
                    ps_current_game := current_game friend |})
    end.

(** One turn of the wait loop. *)
Definition on_persona_state (steam_id : Z) (msg : SteamMessage) : Result (option PlayerSummary) :=
  if decide (sm_emsg msg ≠ EMSG_CLIENT_PERSONA_STATE) then Ok None
  else summary_from_persona_state msg steam_id.

Definition request_player_summary (steam_id : Z) : async S PlayerSummary := λ s,
  let events := so_subscribe s in
  (_ ← notify EMSG_CLIENT_REQUEST_FRIEND_DATA
         {| rd_persona_state_requested := Some PERSONA_FLAGS; rd_friends := [steam_id] |};
   wait_event events SUMMARY_TIMEOUT (on_persona_state steam_id) (Timeout "persona state")) s.

Definition profile_info_from_response (response : CMsgClientFriendProfileInfoResponse)
    (steam_id : Z) : Result ProfileInfo :=
  let code := unwrap_or (fpr_eresult response) eresult.FAIL in
  if decide (code ≠ eresult.OK) then Err (Remote ("profile info: eresult " +:+ pretty code))
  else
    let some_if_set := opt_filter (λ v : string, negb (bool_decide (v = ""%string))) in
    Ok {| pi_steam_id := unwrap_or (fpr_steamid_friend response) steam_id;
          pi_real_name := some_if_set (fpr_real_name response);
          pi_country := some_if_set (fpr_country_name response);
          pi_state := some_if_set (fpr_state_name response);
          pi_city := some_if_set (fpr_city_name response);
          pi_summary := some_if_set (fpr_summary response);
          pi_created_at := opt_filter (λ t, negb (t =? 0)) (fpr_time_created response) |}.

Definition request_profile_info (steam_id : Z) : async S ProfileInfo :=
  response ← request EMSG_CLIENT_FRIEND_PROFILE_INFO {| fpi_steamid_friend := Some steam_id |};
  lift (profile_info_from_response response steam_id).
End persona.

(** ** Avatar URLs *)
Definition hex_value (c : ascii) : Z :=
  let n := Z.of_N (N_of_ascii c) in if decide (n < 58) then n - 48 else n - 87.

Lemma hex_value_digit z : 0 ≤ z < 16 → hex_value (hex_digit z) = z.
Proof.
  intros Hz. rewrite <-(Z2Nat.id z) by lia. assert (Z.to_nat z < 16)%nat as Hn by lia.
  revert Hn. generalize (Z.to_nat z). intros n Hn. do 16 (destruct n as [|n]; [done|]). lia.
Qed.

(** Two digits per byte, from which the byte can be read back. *)
Lemma hex_byte b :
  ∃ c1 c2, hex_fixed 2 (byte_Z b) = String c1 (String c2 "") ∧
           Z_byte (16 * hex_value c1 + hex_value c2) = b.
Proof.
  eexists _, _. split; [reflexivity|]. pose proof (byte_Z_bound b).
  rewrite !hex_value_digit by (apply Z.mod_pos_bound; lia).
  rewrite (Z.mod_small (byte_Z b / 16)) by (split; [apply Z.div_pos|apply Z.div_lt_upper_bound]; lia).
  rewrite <-Z.div_mod by lia. apply Z_byte_byte_Z.
Qed.

Lemma string_app_cons c s t : String c s +:+ t = String c (s +:+ t).
Proof. done. Qed.
Lemma string_app_nil t : "" +:+ t = t.
Proof. done. Qed.

Lemma hash_to_hex_length hash : String.length (hash_to_hex hash) = (2 * length hash)%nat.
Proof.
  induction hash as [|b hash IH]; [done|]. cbn [hash_to_hex].
  destruct (hex_byte b) as (c1 & c2 & -> & _). rewrite !string_app_cons, string_app_nil. cbn. rewrite IH. lia.
Qed.

Lemma hash_to_hex_inj h1 h2 : hash_to_hex h1 = hash_to_hex h2 → h1 = h2.
Proof.
  revert h2. induction h1 as [|b1 h1 IH]; intros [|b2 h2]; cbn [hash_to_hex]; [done| | |].
  - by destruct (hex_byte b2) as (c1 & c2 & -> & _).
  - by destruct (hex_byte b1) as (c1 & c2 & -> & _).
  - destruct (hex_byte b1) as (c1 & c2 & -> & <-), (hex_byte b2) as (c1' & c2' & -> & <-).
    rewrite !string_app_cons, !string_app_nil. intros [= <- <- Heq]. f_equal. by apply IH.
Qed.

Lemma string_app_inj s1 s2 t1 t2 :
  String.length s1 = String.length s2 → s1 +:+ t1 = s2 +:+ t2 → s1 = s2 ∧ t1 = t2.
Proof.
  revert s2. induction s1 as [|c s1 IH]; intros [|c2 s2]; cbn; [done..|].
  rewrite !string_app_cons. intros [= Hl] [= <- Heq]. by destruct (IH s2 Hl Heq) as [-> ->].
Qed.

(** A hash that names an avatar of its own. *)
Definition custom (hash : list byte) : Prop := Exists (λ b, byte_Z b ≠ 0) hash.

Lemma custom_hex hash :
  custom hash ↔ bool_decide (hash_to_hex hash = ""%string) || forallb (λ b, byte_Z b =? 0) hash = false.
Proof.
  unfold custom. rewrite orb_false_iff, bool_decide_eq_false. split.
  - intros He. split.
    + intros Hh. apply (f_equal String.length) in Hh. rewrite hash_to_hex_length in Hh.
      destruct He; cbn in Hh; lia.
    + induction He as [b hash Hb|b hash _ IH]; cbn; [by rewrite (proj2 (Z.eqb_neq _ _) Hb)|].
      by rewrite IH, andb_false_r.
  - intros [_ Hf]. induction hash as [|b hash IH]; cbn in Hf; [done|].
    destruct (Z.eqb_spec (byte_Z b) 0); [right; by apply IH|by left].
Qed.

(** Avatar URLs are faithful: an account without an avatar (no hash, or an all-zero one)
    gets Steam's default image, and two avatars share a URL only if they are the same
    image in the same size. *)
Theorem avatar_urls_faithful size :
  (∀ hash, ¬ custom hash → avatar_url_sized hash size = avatar_url_sized [] size) ∧
  (∀ h1 h2 size2, custom h1 → custom h2 → length h1 = length h2 →
     avatar_url_sized h1 size = avatar_url_sized h2 size2 → h1 = h2 ∧ size = size2).
Proof.
  split.
  - intros hash Hc. unfold avatar_url_sized. rewrite custom_hex, not_false_iff_true in Hc. by rewrite Hc.
  - intros h1 h2 size2 H1%custom_hex H2%custom_hex Hl. unfold avatar_url_sized. rewrite H1, H2.
    intros Heq. apply (string_app_inj AVATAR_HOST AVATAR_HOST) in Heq as [_ Heq]; [|done].
    apply string_app_inj in Heq as [Hh Hs]; [|by rewrite !hash_to_hex_length, Hl].
    split; [by apply hash_to_hex_inj|]. by destruct size, size2.
Qed.

(** ** The vanity lookup *)

(** A community XML document whose first [<steamID64>] element holds [value]. *)
Definition vanity_document (pre value post : bstr) : bstr :=
  pre ++ as_bytes "<steamID64>" ++ value ++ as_bytes "</steamID64>" ++ post.
Definition tag_first (pre value post : bstr) : Prop :=
  ∀ k, (k < length pre)%nat →
    strip_prefix (as_bytes "<steamID64>") (drop k (vanity_document pre value post)) = None.

(** A vanity lookup reads back the id the site printed: the decimal number in the first
    [<steamID64>] element, surrounding whitespace ignored, and nothing at all when the
    number does not fit a [u64]. *)
Theorem vanity_lookup_exact pre w1 ds w2 post :
  Forall (λ b, is_ascii_ws b = true) w1 → Forall (λ b, is_ascii_ws b = true) w2 →
  ds ≠ [] → Forall (λ b, is_ascii_digit b = true) ds → tag_first pre (w1 ++ ds ++ w2) post →
  extract_steam_id64 (vanity_document pre (w1 ++ ds ++ w2) post) =
    if decide (decimal 0 ds ≤ u64_max) then Some (decimal 0 ds) else None.
Proof.
  intros Hw1 Hw2 Hn Hd Hfirst. unfold extract_steam_id64, vanity_document.
  rewrite split_once_str_at by exact Hfirst. cbn [mbind option_bind].
  assert (x3c ∉ w1 ++ ds ++ w2) as Hlt.
  { rewrite List.Forall_forall in Hw1, Hw2, Hd. rewrite !elem_of_app, !list_elem_of_In.
    intros [Hx%Hw1|[Hx%Hd|Hx%Hw2]]; done. }
  pose proof (split_once_str_first x3c (as_bytes "/steamID64>") _ post Hlt) as Hs.
  change (as_bytes "</steamID64>") with (x3c :: as_bytes "/steamID64>"). cbn [app] in Hs |- *.
  rewrite Hs. cbn [mbind option_bind]. rewrite trim_number by done. by apply parse_u64_decimal.
Qed.

(** ** Player summaries *)
Section theory.
Context {S : Type} `{SessionLaws S}.
Context `{Message CMsgClientRequestFriendData, Message CMsgClientPersonaState}.

(** An arrival the wait loop passes over. *)
Definition skipped (steam_id : Z) (a : Recv) : Prop :=
  match a with
  | RecvLagged => True
  | RecvClosed => False
  | RecvMsg msg => on_persona_state steam_id msg = Ok None
  end.

Lemma await_event_Ok {A} (on_msg : SteamMessage → Result (option A)) late elapsed arrivals a :
  await_event on_msg late elapsed arrivals = Ready (Ok a) ↔
  ∃ pre msg post, arrivals = pre ++ RecvMsg msg :: post ∧ on_msg msg = Ok (Some a) ∧
    Forall (λ x, match x with
                 | RecvLagged => True
                 | RecvClosed => False
                 | RecvMsg m => on_msg m = Ok None
                 end) pre.
Proof.
  split.
  - induction arrivals as [|[m| |] rest IH]; cbn; [by destruct elapsed| | |done].
    + destruct (on_msg m) as [[a'|]|e] eqn:Hm; [|intros Ha|done].
      * intros [= ->]. exists [], m, rest. auto.
      * destruct (IH Ha) as (pre & msg & post & -> & ? & ?). exists (RecvMsg m :: pre), msg, post.
        split_and!; auto.
    + intros Ha. destruct (IH Ha) as (pre & msg & post & -> & ? & ?).
      exists (RecvLagged :: pre), msg, post. split_and!; auto.
  - intros (pre & msg & post & -> & Hm & Hpre). induction Hpre as [|[m| |] pre Hx _ IH]; cbn; try done.
    + by rewrite Hm.
    + by rewrite Hx.
Qed.

(** An accepted persona state. *)
Lemma on_persona_state_Some steam_id msg summary :
  on_persona_state steam_id msg = Ok (Some summary) →
  sm_emsg msg = EMSG_CLIENT_PERSONA_STATE ∧
  ∃ state friend, msg_decode (sm_body msg) = Ok state ∧ friend ∈ pst_friends state ∧
    pf_friendid friend = Some steam_id ∧
    Z.testbit (default 0 (pst_status_flags state)) 1 = true ∧
    ps_steam_id summary = steam_id ∧
    ps_persona_name summary = default ""%string (pf_player_name friend) ∧
    ps_avatar_hash summary = hash_to_hex (default [] (pf_avatar_hash friend)) ∧
    ps_current_game summary = current_game friend.
Proof.
  unfold on_persona_state. case_decide as He; [done|]. intros Hs. split; [done|].
  unfold summary_from_persona_state in Hs. apply bind_ok in Hs as (state & Hd & Hs).
  apply map_err_ok in Hd. case_decide as Hf; [done|].
  destruct (List.find _ _) as [friend|] eqn:Hfind; [|done]. injection Hs as <-.
  apply List.find_some in Hfind as [Hin Hid%bool_decide_eq_true].
  exists state, friend. split_and!; try done; [by apply list_elem_of_In|].
  apply (f_equal (λ z, Z.testbit z 1)) in Hf. rewrite Z.land_spec in Hf. cbn in Hf.
  by rewrite andb_true_r in Hf.
Qed.

(** C38: A summary is the requested player's: one notification asks Steam for exactly this
    player, and the call returns a summary iff some persona state after it was accepted
    and everything before that one was passed over; the accepted message carried the
    player's own entry and a name, never a partial update or another account. *)
Theorem summary_is_the_requested steam_id s s1 arrivals elapsed s2 summary :
  so_notify EMSG_CLIENT_REQUEST_FRIEND_DATA
    (encode_to_vec {| rd_persona_state_requested := Some 339; rd_friends := [steam_id] |}) s
    = (Ready (Ok tt), s1) →
  so_wait (so_subscribe s) SUMMARY_TIMEOUT s1 = (arrivals, elapsed, s2) →
  ((request_player_summary steam_id s).1 = Ready (Ok summary) ↔
   ∃ pre msg post, arrivals = pre ++ RecvMsg msg :: post ∧ Forall (skipped steam_id) pre ∧
     on_persona_state steam_id msg = Ok (Some summary)) ∧
  ((request_player_summary steam_id s).1 = Ready (Ok summary) →
   ∃ msg state friend, RecvMsg msg ∈ arrivals ∧ sm_emsg msg = EMSG_CLIENT_PERSONA_STATE ∧
     msg_decode (sm_body msg) = Ok state ∧ friend ∈ pst_friends state ∧
     pf_friendid friend = Some steam_id ∧
     Z.testbit (default 0 (pst_status_flags state)) 1 = true ∧
     ps_steam_id summary = steam_id ∧
     ps_persona_name summary = default ""%string (pf_player_name friend)).
Proof.
  intros Hn Hw.
  assert ((request_player_summary steam_id s).1 =
          await_event (on_persona_state steam_id) (Timeout "persona state") elapsed arrivals) as ->.
  { unfold request_player_summary, notify. change PERSONA_FLAGS with 339.
    unfold mbind, async_bind. rewrite Hn. unfold wait_event. by rewrite Hw. }
  rewrite await_event_Ok. split; [|intros (pre & msg & post & -> & Hs & _)].
  - split; intros (pre & msg & post & ? & ? & ?); exists pre, msg, post; done.
  - apply on_persona_state_Some in Hs as (He & state & friend & ? & ? & ? & ? & ? & ? & _).
    exists msg, state, friend. split_and!; try done. apply elem_of_app. right. left.
Qed.
End theory.

(** ** Witnesses *)
Section witnesses.
Import Wire.Instances.

Lemma avatar_urls_faithful_witness :
  avatar_url_sized [x00; x00] Small = avatar_url_sized [] Small ∧ custom [xab; x00].
Proof.
  split; [|by left].
  apply (proj1 (avatar_urls_faithful Small)). intros Hc%custom_hex. by vm_compute in Hc.
Defined.

Lemma vanity_lookup_exact_witness :
  extract_steam_id64 (vanity_document (as_bytes "<profile> ") (as_bytes " 76561197960287930 ")
                        (as_bytes "</profile>")) = Some 76561197960287930.
Proof.
  refine (vanity_lookup_exact (as_bytes "<profile> ") (as_bytes " ") (as_bytes "76561197960287930")
    (as_bytes " ") (as_bytes "</profile>") _ _ _ _ _); [by repeat constructor..|done| |].
  - by repeat constructor.
  - intros k Hk. do 10 (destruct k as [|k]; [by vm_compute|]). cbn in Hk. lia.
Defined.

Definition w_persona_friend : wire PersonaFriend :=
  w_iso (λ '(a, b, c, d, e, f, g, h), Build_PersonaFriend a b c d e f g h)
    (λ p, (pf_friendid p, pf_persona_state p, pf_game_played_app_id p, pf_player_name p,
           pf_avatar_hash p, pf_game_name p, pf_gameid p, pf_rest p))
    (w_pair (w_pair (w_pair (w_pair (w_pair (w_pair (w_pair
      (w_option (w_uint 8)) (w_option (w_uint 4))) (w_option (w_uint 4))) (w_option w_string))
      (w_option w_bytes)) (w_option w_string)) (w_option (w_uint 8))) w_bytes).
#[local] Instance persona_state_message : Message CMsgClientPersonaState :=
  wire_message (w_iso (λ '(a, b), Build_CMsgClientPersonaState a b)
    (λ p, (pst_status_flags p, pst_friends p))
    (w_pair (w_option (w_uint 4)) (w_list w_persona_friend))).
#[local] Instance request_data_message : Message CMsgClientRequestFriendData :=
  wire_message (w_iso (λ '(a, b), Build_CMsgClientRequestFriendData a b)
    (λ p, (rd_persona_state_requested p, rd_friends p))
    (w_pair (w_option (w_uint 4)) (w_list (w_uint 8)))).
#[local] Instance persona_ops : SessionOps DriverSession := driver_session stored.
#[local] Instance persona_laws : SessionLaws DriverSession := driver_laws stored.

Definition persona_of (id : Z) (flags : Z) (name : option string) : list Event :=
  [Arrive (Some (Ok (WsBinary (encode EMSG_CLIENT_PERSONA_STATE header_default
     {| pst_status_flags := Some flags;
        pst_friends := [{| pf_friendid := Some id; pf_persona_state := Some 1;
                           pf_game_played_app_id := None; pf_player_name := name;
                           pf_avatar_hash := None; pf_game_name := None; pf_gameid := None;
                           pf_rest := [] |}] |}))));
   OnRead].
(** The request is written; then a partial update, another player, and the answer. *)
Definition persona_session : DriverSession :=
  {| ds_world := sample_world; ds_logons := 1; ds_logon_at := 0;
     ds_script := [[OnCommand None];
       persona_of 11 1 None ++ persona_of 22 339 (Some "other"%string)
         ++ persona_of 11 339 (Some "gordon"%string)];
     ds_preempt := []; ds_transcript := [] |}.
Definition persona_sample : PlayerSummary :=
  {| ps_steam_id := 11; ps_persona_name := "gordon";
     ps_profile_url := "https://steamcommunity.com/profiles/11";
     ps_avatar_url := avatar_url []; ps_avatar_hash := ""; ps_state := Online;
     ps_current_game := None |}.

Definition persona_asked : DriverSession :=
  (so_notify EMSG_CLIENT_REQUEST_FRIEND_DATA (encode_to_vec
     {| rd_persona_state_requested := Some 339; rd_friends := [11] |}) persona_session).2.
Definition persona_wait : list Recv * bool * DriverSession :=
  so_wait (so_subscribe persona_session) SUMMARY_TIMEOUT persona_asked.

Lemma summary_is_the_requested_witness :
  ∃ msg state friend, sm_emsg msg = EMSG_CLIENT_PERSONA_STATE ∧
    msg_decode (sm_body msg) = Ok state ∧ friend ∈ pst_friends state ∧
    pf_friendid friend = Some 11 ∧ Some "gordon"%string = pf_player_name friend.
Proof.
  destruct (summary_is_the_requested 11 persona_session persona_asked persona_wait.1.1 persona_wait.1.2
    persona_wait.2 persona_sample) as [_ Hs]; [by vm_compute|by vm_compute|].
  destruct Hs as (msg & state & friend & _ & ? & ? & ? & ? & ? & ? & Hn);
    [by vm_compute|].
  exists msg, state, friend. split_and!; try done.
  by destruct (pf_player_name friend); cbn in Hn; simplify_eq.
Defined.
End witnesses.
