(* ===== verification/Pool.v ===== *)
(** * [src/pool.rs]: proxy pool with health tracking

    Indexing is partial ([None] is a panic), so that "no call panics" is part of
    what is proved. *)
From S2P Require Import Prelude Errors RustStr Proxy.
#[local] Set Default Goal Selector "!".

(** ** Data *)
Record HealthPolicy := { dead_after : Z }.
Definition default_policy : HealthPolicy := {| dead_after := 3 |}.

Inductive ProxyStatus :=
  | Healthy
  | Unhealthy (consecutive_failures : Z).
Definition status_is_healthy (s : ProxyStatus) : bool :=
  match s with Healthy => true | Unhealthy _ => false end.

Record Lease := {
  le_index : nat;
  le_proxy : ProxyConfig
}.

Record Entry := {
  en_proxy : ProxyConfig;
  en_consecutive_failures : Z
}.

Record ProxyPool := {
  po_entries : list Entry;
  po_policy : HealthPolicy;
  po_cursor : nat
}.

(** ** Operations *)
Definition with_policy (proxies : list ProxyConfig) (policy : HealthPolicy) : ProxyPool :=
  {| po_entries := (λ p, {| en_proxy := p; en_consecutive_failures := 0 |}) <$> proxies;
     po_policy := policy; po_cursor := 0 |}.
Definition new (proxies : list ProxyConfig) : ProxyPool := with_policy proxies default_policy.

Definition pool_len (p : ProxyPool) : nat := length (po_entries p).
Definition pool_is_empty (p : ProxyPool) : bool := bool_decide (pool_len p = 0%nat).

Definition is_healthy (p : ProxyPool) (index : nat) : panicking bool :=
  e ← po_entries p !! index;
  Some (en_consecutive_failures e <? dead_after (po_policy p)).

(** [(0..len).filter(is_healthy).count()]. *)
Fixpoint count_healthy (p : ProxyPool) (indices : list nat) : panicking nat :=
  match indices with
  | [] => Some 0%nat
  | i :: rest => h ← is_healthy p i; n ← count_healthy p rest; Some (if (h : bool) then S n else n)
  end.
Definition healthy (p : ProxyPool) : panicking nat := count_healthy p (seq 0 (pool_len p)).

Definition lease (p : ProxyPool) (index : nat) : panicking Lease :=
  e ← po_entries p !! index; Some {| le_index := index; le_proxy := en_proxy e |}.

Definition set_cursor (p : ProxyPool) (c : nat) : ProxyPool :=
  {| po_entries := po_entries p; po_policy := po_policy p; po_cursor := c |}.

(** The [for step in 0..n] loop: the first healthy index, if any. *)
Fixpoint next_healthy (p : ProxyPool) (n : nat) (steps : list nat) : panicking (option nat) :=
  match steps with
  | [] => Some None
  | step :: steps =>
      let index := ((po_cursor p + step) mod n)%nat in
      h ← is_healthy p index;
      if (h : bool) then Some (Some index) else next_healthy p n steps
  end.

(** [(0..n).min_by_key(..)]: the first index of the least failure count. *)
Fixpoint least_failed_from (best : nat * Z) (i : nat) (es : list Entry) : nat * Z :=
  match es with
  | [] => best
  | e :: es =>
      least_failed_from
        (if en_consecutive_failures e <? best.2 then (i, en_consecutive_failures e) else best) (S i) es
  end.
Definition least_failed (p : ProxyPool) : panicking nat :=
  match po_entries p with
  | [] => None
  | e :: es => Some (least_failed_from (0%nat, en_consecutive_failures e) 1 es).1
  end.

Definition acquire (p : ProxyPool) : panicking (option Lease * ProxyPool) :=
  let n := pool_len p in
  if decide (n = 0%nat) then Some (None, p)
  else
    found ← next_healthy p n (seq 0 n);
    index ← match found with
            | Some index => Some index
            | None => least_failed p
            end;
    let p := set_cursor p ((index + 1) mod n)%nat in
    l ← lease p index;
    Some (Some l, p).

(** Replace the failure count of an entry. *)
Definition set_failures (p : ProxyPool) (i : nat) (e : Entry) (n : Z) : ProxyPool :=
  {| po_entries := <[i := {| en_proxy := en_proxy e; en_consecutive_failures := n |}]> (po_entries p);
     po_policy := po_policy p; po_cursor := po_cursor p |}.

Definition report_success (p : ProxyPool) (l : Lease) : ProxyPool :=
  match po_entries p !! le_index l with
  | None => p
  | Some e => set_failures p (le_index l) e 0
  end.

Definition report_failure (p : ProxyPool) (l : Lease) : ProxyPool :=
  match po_entries p !! le_index l with
  | None => p
  | Some e => set_failures p (le_index l) e (saturating_add 32 (en_consecutive_failures e) 1)
  end.

Definition status_of (p : ProxyPool) (e : Entry) : ProxyStatus :=
  if en_consecutive_failures e <? dead_after (po_policy p) then Healthy
  else Unhealthy (en_consecutive_failures e).
Definition status (p : ProxyPool) (l : Lease) : ProxyStatus :=
  match po_entries p !! le_index l with
  | Some e => status_of p e
  | None => Healthy
  end.
Definition statuses (p : ProxyPool) : list (bstr * ProxyStatus) :=
  (λ e, (display (en_proxy e), status_of p e)) <$> po_entries p.

(** ** The invariant: the cursor is an index, counters are [u32]s *)
Definition pool_ok (p : ProxyPool) : Prop :=
  (pool_len p ≠ 0%nat → (po_cursor p < pool_len p)%nat) ∧
  Forall (λ e, in_u 32 (en_consecutive_failures e)) (po_entries p).

Definition healthy_at (p : ProxyPool) (i : nat) : Prop := is_healthy p i = Some true.

Lemma is_healthy_total p i : (i < pool_len p)%nat → ∃ h, is_healthy p i = Some h.
Proof.
  intros Hi. unfold is_healthy. destruct (lookup_lt_is_Some_2 (po_entries p) i Hi) as [e ->].
  cbn. eauto.
Qed.

(** The scan finds the healthy index closest ahead of the cursor, or none. *)
Lemma next_healthy_spec p k m :
  (pool_len p ≠ 0)%nat →
  (∃ j, (k ≤ j < k + m)%nat ∧ next_healthy p (pool_len p) (seq k m) =
          Some (Some ((po_cursor p + j) mod pool_len p)%nat) ∧
        healthy_at p ((po_cursor p + j) mod pool_len p) ∧
        ∀ i, (k ≤ i < j)%nat → ¬ healthy_at p ((po_cursor p + i) mod pool_len p)) ∨
  (next_healthy p (pool_len p) (seq k m) = Some None ∧
   ∀ i, (k ≤ i < k + m)%nat → ¬ healthy_at p ((po_cursor p + i) mod pool_len p)).
Proof.
  intros Hn. revert k. induction m as [|m IH]; intros k; cbn [seq next_healthy].
  { right. split; [done|]. lia. }
  destruct (is_healthy_total p ((po_cursor p + k) mod pool_len p)) as [h Hh];
    [by apply Nat.mod_upper_bound|].
  rewrite Hh. cbn [mbind option_bind]. destruct h.
  - left. exists k. split; [lia|]. split; [done|]. split; [done|]. lia.
  - assert (¬ healthy_at p ((po_cursor p + k) mod pool_len p)) as Hk
      by (unfold healthy_at; by rewrite Hh).
    destruct (IH (S k)) as [(j & Hj & Heq & Hhj & Hlt)|[Heq Hlt]].
    + left. exists j. split; [lia|]. split; [done|]. split; [done|]. intros i Hi.
      destruct (decide (i = k)) as [->|]; [done|]. apply Hlt. lia.
    + right. split; [done|]. intros i Hi. destruct (decide (i = k)) as [->|]; [done|]. apply Hlt. lia.
Qed.

Lemma least_failed_from_spec best i es all :
  (best.1 < i)%nat → drop i all = es →
  (∃ e, all !! best.1 = Some e ∧ en_consecutive_failures e = best.2) →
  (∀ j e, (j < i)%nat → all !! j = Some e → best.2 ≤ en_consecutive_failures e) →
  ∃ e, all !! (least_failed_from best i es).1 = Some e ∧
       ∀ j e', all !! j = Some e' → en_consecutive_failures e ≤ en_consecutive_failures e'.
Proof.
  revert best i. induction es as [|x es IH]; intros best i Hb Hd (e & He & Hf) Hmin; cbn.
  - exists e. split; [done|]. intros j e' Hj. rewrite Hf. apply (Hmin j); [|done].
    apply lookup_lt_Some in Hj. assert (length (drop i all) = 0%nat) by by rewrite Hd.
    rewrite length_drop in *. lia.
  - assert (all !! i = Some x) as Hx.
    { rewrite <-(Nat.add_0_r i), <-lookup_drop, Hd. done. }
    assert (drop (S i) all = es) as Hd' by (by rewrite <-Nat.add_1_r, <-drop_drop, Hd).
    destruct (Z.ltb_spec (en_consecutive_failures x) best.2).
    + apply IH; cbn; [lia|done|by eauto|]. intros j e' Hj Hj'.
      destruct (decide (j = i)) as [->|]; [by simplify_eq|].
      pose proof (Hmin j e' ltac:(lia) Hj'). lia.
    + apply IH; [lia|done|by eauto|]. intros j e' Hj Hj'.
      destruct (decide (j = i)) as [->|]; [by simplify_eq|]. apply (Hmin j); [lia|done].
Qed.

Lemma least_failed_spec p :
  (pool_len p ≠ 0)%nat →
  ∃ i e, least_failed p = Some i ∧ po_entries p !! i = Some e ∧
    ∀ j e', po_entries p !! j = Some e' → en_consecutive_failures e ≤ en_consecutive_failures e'.
Proof.
  unfold pool_len, least_failed. destruct (po_entries p) as [|e es] eqn:He; [done|]. intros _.
  destruct (least_failed_from_spec (0%nat, en_consecutive_failures e) 1 es (e :: es))
    as (e' & Hl & Hmin); cbn; [lia|done|by eauto| |by eauto 10].
  intros j e' Hj. destruct j; [|lia]. cbn. by intros [= <-].
Qed.

(** What [acquire] returns and leaves behind. *)
Lemma acquire_eq p :
  (pool_len p ≠ 0)%nat →
  ∃ i e, po_entries p !! i = Some e ∧
    acquire p = Some (Some {| le_index := i; le_proxy := en_proxy e |},
                      set_cursor p ((i + 1) mod pool_len p)) ∧
    ((∃ j, (j < pool_len p)%nat ∧ i = ((po_cursor p + j) mod pool_len p)%nat ∧ healthy_at p i ∧
           ∀ k, (k < j)%nat → ¬ healthy_at p ((po_cursor p + k) mod pool_len p)) ∨
     ((∀ k, (k < pool_len p)%nat → ¬ healthy_at p ((po_cursor p + k) mod pool_len p)) ∧
      ∀ j e', po_entries p !! j = Some e' → en_consecutive_failures e ≤ en_consecutive_failures e')).
Proof.
  intros Hn. unfold acquire. rewrite decide_False by done. unfold lease.
  destruct (next_healthy_spec p 0 (pool_len p) Hn) as [(j & Hj & -> & Hh & Hlt)|[-> Hlt]];
    cbn [mbind option_bind].
  - set (i := ((po_cursor p + j) mod pool_len p)%nat) in *.
    destruct (lookup_lt_is_Some_2 (po_entries p) i) as [e He]; [by apply Nat.mod_upper_bound|].
    exists i, e. cbn. rewrite He. cbn. split; [done|]. split; [done|]. left. exists j.
    split; [lia|]. split; [done|]. split; [done|]. intros k Hk. apply Hlt. lia.
  - destruct (least_failed_spec p Hn) as (i & e & -> & He & Hmin). cbn [mbind option_bind].
    exists i, e. cbn. rewrite He. cbn. split; [done|]. split; [done|]. right. split; [|done].
    intros k Hk. apply Hlt. lia.
Qed.

(** Every index is some number of steps ahead of the cursor. *)
Lemma index_ahead c n i :
  (c < n)%nat → (i < n)%nat → ∃ k, (k < n)%nat ∧ ((c + k) mod n = i)%nat.
Proof.
  intros Hc Hi. destruct (decide (c ≤ i)%nat).
  - exists (i - c)%nat. split; [lia|]. replace (c + (i - c))%nat with i by lia. by apply Nat.mod_small.
  - exists (n - c + i)%nat. split; [lia|]. replace (c + (n - c + i))%nat with (i + 1 * n)%nat by lia.
    rewrite Nat.Div0.mod_add. by apply Nat.mod_small.
Qed.

Lemma set_cursor_ok p i : pool_ok p → pool_ok (set_cursor p ((i + 1) mod pool_len p)).
Proof. intros [_ Hc]. split; [|done]. intros Hn. by apply Nat.mod_upper_bound. Qed.

(** C21: [acquire] never panics, returns [None] only for an empty pool, and otherwise hands
    out a healthy proxy whenever one exists and a least-failed one when none does; it
    changes nothing but the cursor and keeps the pool's invariant. *)
Theorem acquire_correct p :
  pool_ok p →
  ∃ ol p', acquire p = Some (ol, p') ∧ pool_ok p' ∧ po_entries p' = po_entries p ∧
    match ol with
    | None => po_entries p = []
    | Some l => ∃ e, po_entries p !! le_index l = Some e ∧ le_proxy l = en_proxy e ∧
        (status_of p e = Healthy ∨
         (∀ j e', po_entries p !! j = Some e' → status_of p e' ≠ Healthy ∧
            en_consecutive_failures e ≤ en_consecutive_failures e'))
    end.
Proof.
  intros Hok. destruct (decide (pool_len p = 0%nat)) as [Hz|Hn].
  { exists None, p. unfold acquire. rewrite decide_True by done. split_and!; try done.
    by apply nil_length_inv. }
  destruct (acquire_eq p Hn) as (i & e & He & Hacq & Hcase).
  eexists _, _. split; [apply Hacq|]. split; [by apply set_cursor_ok|]. split; [done|].
  exists e. split; [done|]. split; [done|]. destruct Hcase as [(j & _ & _ & Hh & _)|[Hdead Hmin]].
  - left. unfold healthy_at, is_healthy in Hh. rewrite He in Hh. cbn in Hh. injection Hh as Hh.
    unfold status_of. by rewrite Hh.
  - right. intros j e' Hj. split; [|by eapply Hmin].
    destruct Hok as [Hc _]. destruct (index_ahead (po_cursor p) (pool_len p) j) as (k & Hk & Heq);
      [by apply Hc|by eapply lookup_lt_Some|].
    specialize (Hdead k Hk). rewrite Heq in Hdead. unfold healthy_at, is_healthy in Hdead.
    rewrite Hj in Hdead. cbn in Hdead. unfold status_of.
    by destruct (en_consecutive_failures e' <? dead_after (po_policy p)).
Qed.

(** ** Fairness *)

(** [m] calls of [acquire] with no report in between. *)
Fixpoint acquires (m : nat) (p : ProxyPool) : panicking (list nat * ProxyPool) :=
  match m with
  | O => Some ([], p)
  | S m =>
      '(ol, p) ← acquire p;
      '(idx, p) ← acquires m p;
      Some (match ol with Some l => le_index l :: idx | None => idx end, p)
  end.

Lemma cursor_advance c k n d :
  (n ≠ 0)%nat → (k < d)%nat →
  (((((c + k) mod n + 1) mod n) + (d - k - 1)) mod n = (c + d) mod n)%nat.
Proof.
  intros Hn Hk. rewrite Nat.Div0.add_mod_idemp_l.
  replace ((c + k) mod n + 1 + (d - k - 1))%nat with ((c + k) mod n + (d - k))%nat by lia.
  rewrite Nat.Div0.add_mod_idemp_l. f_equal. lia.
Qed.

Lemma acquire_reaches d : ∀ p,
  (pool_len p ≠ 0)%nat → (d < pool_len p)%nat → healthy_at p ((po_cursor p + d) mod pool_len p) →
  ∃ m idx p', (m ≤ d)%nat ∧ acquires (S m) p = Some (idx, p') ∧
              ((po_cursor p + d) mod pool_len p)%nat ∈ idx.
Proof.
  induction (lt_wf d) as [d _ IH]. intros p Hn Hd Hh.
  destruct (acquire_eq p Hn) as (i & e & He & Hacq & [(j & Hj & Hi & _ & Hlt)|[Hdead _]]);
    [|by destruct (Hdead d Hd)].
  destruct (decide (j = d)) as [->|Hne].
  { exists 0%nat. eexists _, _. split; [lia|]. cbn. rewrite Hacq. cbn. split; [done|]. subst. set_solver. }
  assert (j < d)%nat as Hjd by (destruct (decide (d < j)%nat) as [H'|]; [by destruct (Hlt d H')|lia]).
  set (p1 := set_cursor p ((i + 1) mod pool_len p)) in *.
  assert (((po_cursor p1 + (d - j - 1)) mod pool_len p1 = (po_cursor p + d) mod pool_len p)%nat) as Heq.
  { subst i. by apply (cursor_advance (po_cursor p) j (pool_len p) d). }
  destruct (IH (d - j - 1)%nat ltac:(lia) p1) as (m & idx & p' & Hm & Hrun & Hin).
  - done.
  - cbn. change (d - j - 1 < pool_len p)%nat. lia.
  - by rewrite Heq.
  - exists (S m). eexists (i :: idx), p'. split; [lia|]. cbn [acquires] in *. rewrite Hacq.
    cbn [mbind option_bind]. rewrite Hrun. cbn. split; [done|]. rewrite Heq in Hin. set_solver.
Qed.

(** C22: Rotation is fair: as long as its health does not change, a healthy proxy is handed
    out within one lap of the pool, however many others are dead. *)
Theorem acquire_fair p i :
  pool_ok p → healthy_at p i →
  ∃ m idx p', (m ≤ pool_len p)%nat ∧ acquires m p = Some (idx, p') ∧ i ∈ idx.
Proof.
  intros [Hc _] Hh.
  assert (i < pool_len p)%nat as Hi.
  { unfold healthy_at, is_healthy in Hh. destruct (po_entries p !! i) eqn:He; [|done].
    by eapply lookup_lt_Some. }
  destruct (index_ahead (po_cursor p) (pool_len p) i) as (d & Hd & <-); [apply Hc; lia|done|].
  destruct (acquire_reaches d p) as (m & idx & p' & Hm & Hrun & Hin); [lia|done|done|].
  exists (S m), idx, p'. split; [lia|done].
Qed.

(** ** Reports *)
Lemma set_failures_ok p i e n : pool_ok p → in_u 32 n → pool_ok (set_failures p i e n).
Proof.
  intros [Hc Hf] Hn. split.
  - unfold pool_len in *. cbn. by rewrite length_insert.
  - by apply Forall_insert.
Qed.

(** Reports keep the pool's invariant (the failure counter saturates instead of
    wrapping) and never touch another proxy, whatever lease they are given. *)
Theorem reports_preserve p l j :
  pool_ok p →
  pool_ok (report_success p l) ∧ pool_ok (report_failure p l) ∧
  (j ≠ le_index l → po_entries (report_success p l) !! j = po_entries p !! j ∧
                    po_entries (report_failure p l) !! j = po_entries p !! j).
Proof.
  intros Hok. unfold report_success, report_failure.
  destruct (po_entries p !! le_index l) as [e|] eqn:He; [|done].
  assert (in_u 32 (en_consecutive_failures e)) as [Hlo Hhi].
  { destruct Hok as [_ Hf]. rewrite Forall_lookup in Hf. by eapply Hf. }
  split; [apply set_failures_ok; [done|by split]|]. split.
  - apply set_failures_ok; [done|]. unfold saturating_add. split; lia.
  - intros Hj. cbn. by rewrite !list_lookup_insert_ne.
Qed.

(** [k] failed connects in a row. *)
Definition failures (k : nat) (p : ProxyPool) (l : Lease) : ProxyPool :=
  Nat.iter k (λ p, report_failure p l) p.

Lemma failures_count k p l e :
  po_entries p !! le_index l = Some e → in_u 32 (en_consecutive_failures e) →
  po_entries (failures k p l) !! le_index l =
    Some {| en_proxy := en_proxy e;
            en_consecutive_failures :=
              Z.min (en_consecutive_failures e + Z.of_nat k) (2 ^ 32 - 1) |} ∧
  po_policy (failures k p l) = po_policy p.
Proof.
  intros He [Hlo Hhi]. induction k as [|k [IH IHp]].
  - cbn. rewrite He. split; [|done]. destruct e. cbn in *. do 2 f_equal. lia.
  - change (failures (S k) p l) with (report_failure (failures k p l) l).
    unfold report_failure. rewrite IH.
    cbn [set_failures po_entries po_policy en_proxy en_consecutive_failures].
    rewrite list_lookup_insert_eq by (by eapply lookup_lt_Some). split; [|done].
    do 2 f_equal. unfold saturating_add. lia.
Qed.

(** A proxy is dead after exactly [dead_after] consecutive failures since its last
    success, stays dead under further ones, and one success revives it. *)
Theorem dies_after_consecutive_failures k p l :
  pool_ok p → 0 < dead_after (po_policy p) < 2 ^ 32 → (le_index l < pool_len p)%nat →
  status (failures k (report_success p l) l) l =
    if decide (Z.of_nat k < dead_after (po_policy p)) then Healthy
    else Unhealthy (Z.min (Z.of_nat k) (2 ^ 32 - 1)).
Proof.
  intros Hok Hd Hl. destruct (lookup_lt_is_Some_2 (po_entries p) (le_index l) Hl) as [e He].
  set (e0 := {| en_proxy := en_proxy e; en_consecutive_failures := 0 |}).
  assert (report_success p l = set_failures p (le_index l) e 0) as -> by
    (unfold report_success; by rewrite He).
  destruct (failures_count k (set_failures p (le_index l) e 0) l e0) as [Hk Hp].
  - cbn. by apply list_lookup_insert_eq.
  - by split.
  - unfold status. rewrite Hk. unfold status_of. rewrite Hp.
    cbn [en_consecutive_failures e0 po_policy set_failures].
    destruct (Z.ltb_spec (Z.min (0 + Z.of_nat k) (2 ^ 32 - 1)) (dead_after (po_policy p))).
    + rewrite decide_True by lia. done.
    + rewrite decide_False by lia. f_equal.
Qed.

Lemma with_policy_ok proxies policy : pool_ok (with_policy proxies policy).
Proof.
  split; [unfold pool_len; cbn; lia|]. cbn. apply Forall_fmap, Forall_true. intros x. by split.
Qed.

(** ** Concrete runs: three proxies, the second one dead *)
Definition sample_pool : ProxyPool :=
  failures 3 (new [sample_config_px; sample_config_px; sample_config_px])
    {| le_index := 1; le_proxy := sample_config_px |}.
Definition sample_lease : Lease := {| le_index := 2; le_proxy := sample_config_px |}.

Lemma sample_pool_ok : pool_ok sample_pool.
Proof. split; [vm_compute; lia|]. repeat constructor; vm_compute; done. Qed.

Lemma acquire_correct_witness :
  ∃ ol p', acquire sample_pool = Some (ol, p') ∧ pool_ok p'.
Proof.
  destruct (acquire_correct sample_pool sample_pool_ok) as (ol & p' & Ha & Hok & _). by exists ol, p'.
Defined.

Lemma acquire_fair_witness :
  ∃ m idx p', (m ≤ 3)%nat ∧ acquires m sample_pool = Some (idx, p') ∧ 2%nat ∈ idx.
Proof. apply (acquire_fair sample_pool 2 sample_pool_ok). by vm_compute. Defined.

Lemma reports_preserve_witness : pool_ok (report_failure sample_pool sample_lease).
Proof. apply (reports_preserve sample_pool sample_lease 0), sample_pool_ok. Defined.

Lemma dies_after_consecutive_failures_witness :
  status (failures 3 (report_success sample_pool sample_lease) sample_lease) sample_lease = Unhealthy 3.
Proof.
  rewrite dies_after_consecutive_failures; [by vm_compute|apply sample_pool_ok|cbn; lia|vm_compute; lia].
Defined.
