(* ===== verification/Totp.v ===== *)
(** * [src/auth/totp.rs]: the Steam Guard code

    HMAC-SHA1 and base64 are parameters; indexing is partial ([None] is a
    panic). *)
From S2P Require Import Prelude Errors RustStr.
#[local] Set Default Goal Selector "!".

Definition STEAM_ALPHABET : list byte := as_bytes "23456789BCDFGHJKMNPQRTVWXY".
Definition TIME_STEP_SECS : Z := 30.

Section totp.
(** [Hmac<Sha1>]: key, message, digest. *)
Context (hmac_sha1 : list byte → list byte → list byte).
(** [base64::engine::general_purpose::STANDARD.decode]. *)
Context (b64_decode : bstr → result string (list byte)).

(** The [for slot in &mut out] loop. *)
Fixpoint code_chars (slots : nat) (code : Z) : panicking (list byte) :=
  match slots with
  | O => Some []
  | S slots =>
      c ← STEAM_ALPHABET !! Z.to_nat (code mod 26);
      cs ← code_chars slots (code / 26);
      Some (c :: cs)
  end.

(** The truncated hash: four bytes at the offset the last nibble names. *)
Definition truncate (hash : list byte) : panicking Z :=
  last ← hash !! 19%nat;
  let offset := Z.to_nat (Z.land (byte_Z last) 0x0f) in
  b0 ← hash !! offset;
  b1 ← hash !! (offset + 1)%nat;
  b2 ← hash !! (offset + 2)%nat;
  b3 ← hash !! (offset + 3)%nat;
  Some (from_be_bytes [Z_byte (Z.land (byte_Z b0) 0x7f); b1; b2; b3]).

Definition generate_with_step (secret : list byte) (step : Z) : panicking bstr :=
  code ← truncate (hmac_sha1 secret (to_be_bytes 8 step));
  code_chars 5 code.

(** [now] is the wall clock: seconds since the epoch, [None] if before it. *)
Definition generate_auth_code (now : option Z) (shared_secret_b64 : bstr) (timestamp : option Z) :
    panicking (Result bstr) :=
  match map_err Base64 (b64_decode (trim shared_secret_b64)) with
  | Err e => Some (Err e)
  | Ok secret =>
      match (match timestamp with
             | Some t => Ok t
             | None => ok_or now (InvalidConfig "system clock before epoch")
             end) with
      | Err e => Some (Err e)
      | Ok ts => code ← generate_with_step secret (ts / TIME_STEP_SECS); Some (Ok code)
      end
  end.

(** ** Theorems *)

(** The value of a code: its characters as base-26 digits, least first. *)
Definition char_index (c : byte) : option nat := fst <$> list_find (λ x, x = c) STEAM_ALPHABET.
Fixpoint code_value (cs : list byte) : option Z :=
  match cs with
  | [] => Some 0
  | c :: cs => i ← char_index c; v ← code_value cs; Some (Z.of_nat i + 26 * v)
  end.

(** Every digit has a character, and the character names the digit. *)
Definition alphabet_entry_ok (k : nat) : bool :=
  match STEAM_ALPHABET !! k with
  | Some c => bool_decide (char_index c = Some k)
  | None => false
  end.
Lemma alphabet_checked : forallb alphabet_entry_ok (seq 0 26) = true.
Proof. vm_compute. reflexivity. Qed.

Lemma alphabet_lookup n :
  0 ≤ n < 26 → ∃ c, STEAM_ALPHABET !! Z.to_nat n = Some c ∧ char_index c = Some (Z.to_nat n).
Proof.
  intros Hn. pose proof alphabet_checked as Hall. rewrite forallb_forall in Hall.
  specialize (Hall (Z.to_nat n)). rewrite in_seq in Hall. unfold alphabet_entry_ok in Hall.
  destruct (STEAM_ALPHABET !! Z.to_nat n) as [c|]; [|discriminate Hall; lia].
  exists c. split; [done|]. eapply bool_decide_eq_true_1, Hall. lia.
Qed.

Lemma code_chars_total slots code :
  0 ≤ code → ∃ cs, code_chars slots code = Some cs ∧ length cs = slots ∧
    Forall (λ c, c ∈ STEAM_ALPHABET) cs ∧ code_value cs = Some (code mod 26 ^ Z.of_nat slots).
Proof.
  revert code. induction slots as [|slots IH]; intros code Hc; cbn [code_chars].
  { exists []. split_and!; try done. by rewrite Z.mod_1_r. }
  destruct (alphabet_lookup (code mod 26)) as (c & Hc' & Hi); [by apply Z.mod_pos_bound|].
  destruct (IH (code / 26)) as (cs & -> & Hlen & Hall & Hv); [by apply Z.div_pos|].
  rewrite Hc'. cbn [mbind option_bind]. exists (c :: cs). split_and!; [done| | |].
  - cbn. by rewrite Hlen.
  - constructor; [|done]. by eapply list_elem_of_lookup_2.
  - cbn [code_value]. rewrite Hi. cbn [mbind option_bind]. rewrite Hv. cbn [mbind option_bind].
    f_equal. pose proof (Z.mod_pos_bound code 26). rewrite Nat2Z.inj_succ, Z.pow_succ_r by lia.
    rewrite Z.rem_mul_r by (first [lia | apply Z.pow_pos_nonneg; lia]). lia.
Qed.

Lemma truncate_total hash :
  length hash = 20%nat → ∃ code, truncate hash = Some code ∧ in_u 31 code.
Proof.
  intros Hlen. unfold truncate.
  assert (∀ i, (i < 20)%nat → ∃ b, hash !! i = Some b) as Hget.
  { intros i Hi. apply lookup_lt_is_Some_2. lia. }
  destruct (Hget 19%nat) as [l ->]; [lia|]. cbn [mbind option_bind].
  assert (0 ≤ Z.land (byte_Z l) 15 < 16) as Hoff.
  { change 15 with (2 ^ 4 - 1). rewrite land_ones_mod by lia. by apply Z.mod_pos_bound. }
  set (o := Z.to_nat (Z.land (byte_Z l) 15)).
  destruct (Hget o) as [b0 ->]; [lia|]. destruct (Hget (o + 1)%nat) as [b1 ->]; [lia|].
  destruct (Hget (o + 2)%nat) as [b2 ->]; [lia|]. destruct (Hget (o + 3)%nat) as [b3 ->]; [lia|].
  cbn [mbind option_bind]. eexists. split; [done|].
  unfold from_be_bytes. cbn [rev app]. unfold in_u.
  change (from_le_bytes [b3; b2; b1; Z_byte (Z.land (byte_Z b0) 127)]) with
    (byte_Z b3 + 256 * (byte_Z b2 + 256 * (byte_Z b1 + 256 *
       (byte_Z (Z_byte (Z.land (byte_Z b0) 127)) + 256 * 0)))).
  assert (0 ≤ byte_Z (Z_byte (Z.land (byte_Z b0) 127)) < 128) as Htop.
  { rewrite byte_Z_Z_byte. change 127 with (2 ^ 7 - 1). rewrite land_ones_mod by lia.
    pose proof (Z.mod_pos_bound (byte_Z b0) (2 ^ 7)). rewrite Z.mod_small by lia. lia. }
  pose proof (byte_Z_bound b1). pose proof (byte_Z_bound b2). pose proof (byte_Z_bound b3). lia.
Qed.

(** An HMAC-SHA1 digest is 20 bytes. *)
Context (hmac_sha1_length : ∀ key msg, length (hmac_sha1 key msg) = 20%nat).

(** The Steam Guard generator never indexes out of bounds: for every secret and time
    step it yields exactly five characters of Steam's alphabet, the five low base-26
    digits of the 31-bit truncated hash. *)
Theorem guard_code_shape secret step :
  ∃ cs hash_code, generate_with_step secret step = Some cs ∧
    truncate (hmac_sha1 secret (to_be_bytes 8 step)) = Some hash_code ∧ in_u 31 hash_code ∧
    length cs = 5%nat ∧ Forall (λ c, c ∈ STEAM_ALPHABET) cs ∧
    code_value cs = Some (hash_code mod 26 ^ 5).
Proof.
  unfold generate_with_step.
  destruct (truncate_total (hmac_sha1 secret (to_be_bytes 8 step))) as (code & -> & Hcode); [done|].
  cbn [mbind option_bind]. destruct (code_chars_total 5 code) as (cs & -> & Hl & Ha & Hv);
    [apply Hcode|]. exists cs, code. by split_and!.
Qed.
End totp.

Lemma guard_code_shape_witness :
  ∃ cs, generate_with_step (λ _ _, repeat x0f 20) [] 7 = Some cs ∧ length cs = 5%nat.
Proof.
  destruct (guard_code_shape (λ _ _, repeat x0f 20) (λ _ _, eq_refl) [] 7)
    as (cs & hc & Hg & _ & _ & Hl & _). by exists cs.
Defined.
