(* ===== verification/SignIn.v ===== *)
(** * [src/auth/]: signing in

    [jwt.rs], [rsa_pw.rs], [credentials.rs], [token_store.rs], [webapi.rs] and
    [signin.rs].  The cryptographic crates, base64, [serde_json], [reqwest] and
    the caller's [TokenStore] are parameters; the requests the flow sends and the
    order it sends them in are the model's own. *)
From Stdlib Require Import Floats.SpecFloat.
From S2P Require Import Prelude Errors Proto RustStr Proxy Totp.
#[local] Set Default Goal Selector "!".

(** ** [jwt.rs] *)
Record RefreshTokenClaims := {
  cl_steam_id : Z;
  cl_exp : option Z
}.

(** A decoded payload, as the two lookups read it: [get("sub").and_then(as_str)]
    and [get("exp").and_then(as_u64)]. *)
Record JwtJson := {
  js_sub : option bstr;
  js_exp : option Z
}.

Section jwt.
Context (b64url_decode : bstr → result string bstr).
Context (json_from_slice : bstr → result string JwtJson).

Definition decode_payload (jwt : bstr) : Result JwtJson :=
  match split_char x2e jwt with
  | [header; payload; signature] =>
      if bool_decide (header = []) || bool_decide (payload = []) || bool_decide (signature = []) then
        Err (AuthRejected "jwt: empty segment")
      else
        bytes ← map_err (λ e, AuthRejected ("jwt b64: " +:+ e)) (b64url_decode payload);
        map_err (λ e, AuthRejected ("jwt json: " +:+ e)) (json_from_slice bytes)
  | _ => Err (AuthRejected "jwt: expected 3 segments")
  end.

Definition refresh_token_claims (jwt : bstr) : Result RefreshTokenClaims :=
  v ← decode_payload jwt;
  sub ← ok_or (js_sub v) (AuthRejected "jwt: no sub claim");
  steam_id ← map_err (λ e, AuthRejected ("jwt sub: " +:+ e)) (parse_u64 sub);
  Ok {| cl_steam_id := steam_id; cl_exp := js_exp v |}.

Definition steam_id_from_refresh_token (jwt : bstr) : Result Z :=
  c ← refresh_token_claims jwt; Ok (cl_steam_id c).
End jwt.

(** ** [rsa_pw.rs] *)
Definition encrypt_password {N K : Type} (parse_bytes16 : bstr → option N)
    (public_key : N → N → result string K) (encrypt : K → bstr → result string bstr)
    (b64 : bstr → bstr) (password mod_hex exp_hex : bstr) : Result bstr :=
  n ← ok_or (parse_bytes16 mod_hex) (AuthRejected "rsa: bad modulus hex");
  e ← ok_or (parse_bytes16 exp_hex) (AuthRejected "rsa: bad exponent hex");
  pk ← map_err (λ err, AuthRejected ("rsa: " +:+ err)) (public_key n e);
  ct ← map_err (λ err, AuthRejected ("rsa encrypt: " +:+ err)) (encrypt pk password);
  Ok (b64 ct).

(** ** [credentials.rs] *)
Record PasswordCredentials := {
  pw_account_name : bstr;
  pw_password : bstr;
  pw_shared_secret : option bstr
}.
Inductive Credentials :=
  | Password (c : PasswordCredentials)
  | RefreshToken (token : bstr).

(** ** [token_store.rs]: the persistence hook, as an interface

    A store is a state with fallible [load] and [save]. *)
Class TokenStore (S : Type) := {
  store_load : S → bstr → result string (option bstr);
  store_save : S → bstr → bstr → result string S
}.
(** What the trait's documentation promises: [save] replaces the account's token
    and no other. *)
Class TokenStoreLaws (S : Type) `{TokenStore S} := {
  load_save_same : ∀ s s' a t, store_save s a t = Ok s' → store_load s' a = Ok (Some t);
  load_save_other : ∀ s s' a b t, store_save s a t = Ok s' → a ≠ b → store_load s' b = store_load s b
}.

(** ** [SignInOutcome] and [map_non_ok_eresult] *)
Inductive SignInOutcome :=
  | Success (steam_id : Z) (refresh_token : bstr) (access_token : option bstr)
  | NeedsMobileGuardCode
  | GuardCodeRejected
  | NeedsEmailGuardCode (email_domain : bstr)
  | InvalidCredentials
  | TokenRejected
  | RateLimited (retry_hint : option Z).

Definition RATE_LIMIT_BACKOFF : Z := 60000.

Definition map_non_ok_eresult (er : Z) : option SignInOutcome :=
  if decide (er = eresult.INVALID_PASSWORD) then Some InvalidCredentials
  else if decide (er = eresult.ACCOUNT_LOGON_DENIED) then Some (NeedsEmailGuardCode [])
  else if decide (er = eresult.ACCOUNT_LOGIN_DENIED_NEED_TWO_FACTOR) then Some NeedsMobileGuardCode
  else if decide (er = eresult.TWO_FACTOR_CODE_MISMATCH) then Some GuardCodeRejected
  else if decide (er ∈ [eresult.RATE_LIMIT_EXCEEDED; eresult.ACCOUNT_LOGIN_DENIED_THROTTLE]) then
    Some (RateLimited (Some RATE_LIMIT_BACKOFF))
  else None.

(** ** [webapi.rs] *)
Definition BASE_URL : string := "https://api.steampowered.com/IAuthenticationService/".
Definition raw_url_for (method : string) : string := BASE_URL +:+ method +:+ "/v1/".

Inductive HttpMethod := Get | Post.

(** [WebApiClient::new]: the HTTP client of [src/http.rs], built for the proxy. *)
Definition web_api_client (proxy_all : bstr → result string unit) (build : result string unit)
    (proxy : option ProxyConfig) : Result unit :=
  _ ← client proxy_all build proxy; Ok tt.

(** A reply: the [x-eresult] header ([Err] when it is not ASCII) and the body. *)
Record WebReply := {
  wr_eresult : option (result unit bstr);
  wr_body : result string (list byte)
}.
(** A request as it leaves: verb, URL and the base64 form or query value. *)
Record WebRequest := {
  wq_method : HttpMethod;
  wq_url : string;
  wq_payload : bstr
}.

Section webapi.
Context (b64 : list byte → bstr).

(** [WebApiClient::call]; [send] is the [reqwest] round trip. *)
Definition call {Req Resp} `{Message Req, Message Resp} (url_ok : string → option string)
    (send : WebRequest → result string WebReply) (method : string) (http_method : HttpMethod)
    (req : Req) : Result (Z * Resp) :=
  _ ← match url_ok (raw_url_for method) with None => Ok tt | Some e => Err (UrlParse e) end;
  let payload_b64 := b64 (encode_to_vec req) in
  response ← map_err (λ e, Network (method +:+ ": " +:+ e))
    (send {| wq_method := http_method; wq_url := raw_url_for method; wq_payload := payload_b64 |});
  er_header ← ok_or (wr_eresult response)
    (AuthRejected (method +:+ ": response missing x-eresult header"));
  er_text ← map_err (λ _, AuthRejected (method +:+ ": x-eresult not ascii")) er_header;
  er ← map_err (λ _, AuthRejected (method +:+ ": x-eresult not an integer")) (parse_i32 er_text);
  body ← map_err (λ e, Network (method +:+ " read body: " +:+ e)) (wr_body response);
  resp ← map_err (λ e, AuthRejected ("decode " +:+ method +:+ " response: " +:+ e)) (msg_decode body);
  Ok (er, resp).
End webapi.

(** ** The messages of [IAuthenticationService] *)
Record RsaKeyRequest := { rq_account_name : option bstr }.
Record RsaKeyReply := {
  rs_publickey_mod : option bstr;
  rs_publickey_exp : option bstr;
  rs_timestamp : option Z
}.
Record DeviceDetails := {
  dd_device_friendly_name : option bstr;
  dd_platform_type : option Z;
  dd_os_type : option Z
}.
Record BeginRequest := {
  bq_device_friendly_name : option bstr;
  bq_account_name : option bstr;
  bq_encrypted_password : option bstr;
  bq_encryption_timestamp : option Z;
  bq_remember_login : option bool;
  bq_platform_type : option Z;
  bq_persistence : option Z;
  bq_device_details : option DeviceDetails
}.
Record AllowedConfirmation := {
  ac_confirmation_type : option Z;
  ac_associated_message : option bstr
}.
Record BeginReply := {
  br_client_id : option Z;
  br_request_id : option (list byte);
  br_interval : option spec_float;
  br_allowed_confirmations : list AllowedConfirmation;
  br_steamid : option Z
}.
Record GuardRequest := {
  gq_client_id : option Z;
  gq_steamid : option Z;
  gq_code : option bstr;
  gq_code_type : option Z
}.
Record GuardReply := { gr_rest : list byte }.
Record PollRequest := {
  pq_client_id : option Z;
  pq_request_id : option (list byte)
}.
Record PollReply := {
  pr_new_client_id : option Z;
  pr_refresh_token : option bstr;
  pr_access_token : option bstr
}.

(** ** [signin.rs] *)
Definition GUARD_TYPE_NONE : Z := 1.
Definition GUARD_TYPE_EMAIL_CODE : Z := 2.
Definition GUARD_TYPE_DEVICE_CODE : Z := 3.
Definition PLATFORM_STEAM_CLIENT : Z := 1.
Definition OS_TYPE_WINDOWS_10 : Z := 16.
Definition SESSION_PERSISTENT : Z := 1.
Definition TOKEN_EXPIRY_SLACK_SECS : Z := 60.
Definition POLL_DEFAULT_INTERVAL_SECS : Z := 5.
Definition POLL_BUDGET : Z := 120000.

(** [rotate_client_id]. *)
Definition rotate_client_id (current : Z) (hint : option Z) : Z :=
  unwrap_or (opt_filter (λ id, negb (id =? 0)) hint) current.

(** A positive finite [f32] [m * 2^e] against an integer, and rounded to the
    nearest integer, halves away from zero ([f32::round]). *)
Definition f32_lt_int (m : positive) (e k : Z) : bool :=
  if decide (0 ≤ e) then Z.pos m * 2 ^ e <? k else Z.pos m <? k * 2 ^ (- e).
Definition f32_gt_int (m : positive) (e k : Z) : bool :=
  if decide (0 ≤ e) then k <? Z.pos m * 2 ^ e else k * 2 ^ (- e) <? Z.pos m.
Definition f32_round (m : positive) (e : Z) : Z :=
  if decide (0 ≤ e) then Z.pos m * 2 ^ e else (2 * Z.pos m + 2 ^ (- e)) / (2 * 2 ^ (- e)).

(** [compute_poll_interval], in milliseconds: [clamp(1.0, 60.0).round()]. *)
Definition compute_poll_interval (steam_interval : option spec_float) : Z :=
  match steam_interval with
  | Some (S754_finite false m e) =>
      1000 * (if f32_lt_int m e 1 then 1 else if f32_gt_int m e 60 then 60 else f32_round m e)
  | _ => 1000 * POLL_DEFAULT_INTERVAL_SECS
  end.

Inductive EarlyExit (T : Type) :=
  | Continue (v : T)
  | Outcome (o : SignInOutcome).
Arguments Continue {T} v.
Arguments Outcome {T} o.

Record RsaKeyResponse := {
  rk_mod_hex : bstr;
  rk_exp_hex : bstr;
  rk_timestamp : Z
}.
Record BeginSession := {
  bs_client_id : Z;
  bs_request_id : list byte;
  bs_session_steamid : Z;
  bs_poll_interval : Z;
  bs_guards : list Z;
  bs_email_domain_hint : option bstr
}.

(** The [for c in &resp.allowed_confirmations] loop. *)
Definition non_empty (o : option bstr) : option bstr :=
  opt_filter (λ s, negb (bool_decide (s = []))) o.
Fixpoint collect_guards (cs : list AllowedConfirmation) (guards : list Z) (hint : option bstr) :
    list Z * option bstr :=
  match cs with
  | [] => (guards, hint)
  | c :: cs =>
      match ac_confirmation_type c with
      | None => collect_guards cs guards hint
      | Some ct =>
          collect_guards cs (guards ++ [ct])
            (if bool_decide (ct = GUARD_TYPE_EMAIL_CODE) && bool_decide (hint = None)
             then non_empty (ac_associated_message c) else hint)
      end
  end.

(** [{:?}] of a [Vec<i32>]. *)
Fixpoint join_ints (l : list Z) : string :=
  match l with
  | [] => ""
  | [x] => pretty x
  | x :: l => pretty x +:+ ", " +:+ join_ints l
  end.
Definition debug_ints (l : list Z) : string := "[" +:+ join_ints l +:+ "]".

(** A step of the flow: [None] is a panic, [Err] leaves [execute] with an error. *)
Definition pbind {A B} (m : panicking (Result A)) (k : A → panicking (Result B)) :
    panicking (Result B) :=
  match m with
  | None => None
  | Some (Err e) => Some (Err e)
  | Some (Ok a) => k a
  end.

(** The non-OK handling all four calls share. *)
Definition reject {T} (what : string) (er : Z) : Result (EarlyExit T) :=
  match map_non_ok_eresult er with
  | Some outcome => Ok (Outcome outcome)
  | None => Err (AuthRejected (what +:+ " eresult " +:+ pretty er))
  end.

Lemma compute_poll_interval_range i : 1000 ≤ compute_poll_interval i ≤ 60000.
Proof.
  unfold compute_poll_interval, POLL_DEFAULT_INTERVAL_SECS.
  destruct i as [[| | |[] m e]|]; try lia.
  unfold f32_lt_int, f32_gt_int, f32_round. destruct (decide (0 ≤ e)) as [He|He].
  - destruct (Z.ltb_spec (Z.pos m * 2 ^ e) 1); [lia|].
    destruct (Z.ltb_spec 60 (Z.pos m * 2 ^ e)); lia.
  - pose proof (Z.pow_pos_nonneg 2 (- e) ltac:(lia) ltac:(lia)) as Hp.
    set (p := 2 ^ (- e)) in *. clearbody p.
    destruct (Z.ltb_spec (Z.pos m) (1 * p)); [lia|]. destruct (Z.ltb_spec (60 * p) (Z.pos m)); [lia|].
    assert (1 ≤ (2 * Z.pos m + p) / (2 * p)) by (apply Z.div_le_lower_bound; lia).
    assert ((2 * Z.pos m + p) / (2 * p) < 61) by (apply Z.div_lt_upper_bound; lia).
    lia.
Qed.

(** Saturation aside, the expiry test compares against a minute from now. *)
Lemma expiry_test exp now :
  0 ≤ now → saturating_sub exp TOKEN_EXPIRY_SLACK_SECS ≤ now ↔ exp ≤ now + 60.
Proof. unfold saturating_sub, TOKEN_EXPIRY_SLACK_SECS. lia. Qed.

Section flow.
Context `{Message RsaKeyRequest, Message RsaKeyReply, Message BeginRequest, Message BeginReply,
          Message GuardRequest, Message GuardReply, Message PollRequest, Message PollReply}.
Context (b64 : list byte → bstr) (b64_decode : bstr → result string (list byte))
        (b64url_decode : bstr → result string bstr)
        (json_from_slice : bstr → result string JwtJson)
        (hmac_sha1 : list byte → list byte → list byte)
        (url_ok : string → option string)
        (encrypt : bstr → bstr → bstr → Result bstr).
(** The network's answer to the [i]-th call, the wall clock, and for the [i]-th poll
    how long its call took and how much later than asked its sleep woke. *)
Record WebEnv := {
  we_send : nat → WebRequest → result string WebReply;
  we_clock : option Z;
  we_call_time : nat → Z;
  we_oversleep : nat → Z
}.
Context (env : WebEnv).

Definition fetch_rsa_key (account_name : bstr) : Result (EarlyExit RsaKeyResponse) :=
  '(er, resp) ← call (Resp := RsaKeyReply) b64 url_ok (we_send env 0) "GetPasswordRSAPublicKey" Get
                  {| rq_account_name := Some account_name |};
  if decide (er ≠ eresult.OK) then reject "GetPasswordRSAPublicKey" er
  else
    mod_hex ← ok_or (rs_publickey_mod resp) (AuthRejected "rsa response: missing modulus");
    exp_hex ← ok_or (rs_publickey_exp resp) (AuthRejected "rsa response: missing exponent");
    timestamp ← ok_or (rs_timestamp resp) (AuthRejected "rsa response: missing timestamp");
    Ok (Continue {| rk_mod_hex := mod_hex; rk_exp_hex := exp_hex; rk_timestamp := timestamp |}).

Definition begin_request (account_name encrypted_password_b64 : bstr) (timestamp : Z) :
    BeginRequest :=
  {| bq_device_friendly_name := Some (as_bytes "steamroids");
     bq_account_name := Some account_name;
     bq_encrypted_password := Some encrypted_password_b64;
     bq_encryption_timestamp := Some timestamp;
     bq_remember_login := Some true;
     bq_platform_type := Some PLATFORM_STEAM_CLIENT;
     bq_persistence := Some SESSION_PERSISTENT;
     bq_device_details :=
       Some {| dd_device_friendly_name := Some (as_bytes "steamroids");
               dd_platform_type := Some PLATFORM_STEAM_CLIENT;
               dd_os_type := Some OS_TYPE_WINDOWS_10 |} |}.

Definition begin_session (account_name encrypted_password_b64 : bstr) (encryption_timestamp : Z) :
    Result (EarlyExit BeginSession) :=
  '(er, resp) ← call (Resp := BeginReply) b64 url_ok (we_send env 1)
                  "BeginAuthSessionViaCredentials" Post
                  (begin_request account_name encrypted_password_b64 encryption_timestamp);
  if decide (er ≠ eresult.OK) then reject "BeginAuthSessionViaCredentials" er
  else
    client_id ← ok_or (br_client_id resp) (AuthRejected "BeginAuth response: missing client_id");
    request_id ← ok_or (br_request_id resp) (AuthRejected "BeginAuth response: missing request_id");
    session_steamid ← ok_or (br_steamid resp) (AuthRejected "BeginAuth response: missing steamid");
    let '(guards, hint) := collect_guards (br_allowed_confirmations resp) [] None in
    Ok (Continue {| bs_client_id := client_id; bs_request_id := request_id;
                    bs_session_steamid := session_steamid;
                    bs_poll_interval := compute_poll_interval (br_interval resp);
                    bs_guards := guards; bs_email_domain_hint := hint |}).

Definition resolve_guard (begin : BeginSession) (shared_secret : option bstr) :
    panicking (Result (EarlyExit unit)) :=
  if decide (GUARD_TYPE_DEVICE_CODE ∈ bs_guards begin) then
    match shared_secret with
    | None => Some (Ok (Outcome NeedsMobileGuardCode))
    | Some secret =>
        pbind (generate_auth_code hmac_sha1 b64_decode (we_clock env) secret None) (λ code,
        Some ('(er, _) ← call (Resp := GuardReply) b64 url_ok (we_send env 2)
                "UpdateAuthSessionWithSteamGuardCode" Post
                {| gq_client_id := Some (bs_client_id begin);
                   gq_steamid := Some (bs_session_steamid begin);
                   gq_code := Some code; gq_code_type := Some GUARD_TYPE_DEVICE_CODE |};
              if decide (er ≠ eresult.OK) then reject "UpdateAuthSessionWithSteamGuardCode" er
              else Ok (Continue tt)))
    end
  else if decide (GUARD_TYPE_EMAIL_CODE ∈ bs_guards begin) then
    Some (Ok (Outcome (NeedsEmailGuardCode (unwrap_or (bs_email_domain_hint begin) []))))
  else if decide (bs_guards begin ≠ [] ∧ (GUARD_TYPE_NONE ∉ bs_guards begin)) then
    Some (Err (AuthRejected ("unsupported confirmation types: " +:+ debug_ints (bs_guards begin))))
  else Some (Ok (Continue tt)).

(** One poll answer: [inl] ends the flow, [inr] carries the rotated request. *)
Definition on_poll (begin : BeginSession) (req : PollRequest) (answer : Result (Z * PollReply)) :
    Result SignInOutcome + PollRequest :=
  match answer with
  | Err e => inl (Err e)
  | Ok (er, resp) =>
      if decide (er ≠ eresult.OK) then
        inl (match map_non_ok_eresult er with
             | Some outcome => Ok outcome
             | None => Err (AuthRejected ("PollAuthSessionStatus eresult " +:+ pretty er))
             end)
      else
        let req := {| pq_client_id := Some (rotate_client_id
                        (unwrap_or (pq_client_id req) (bs_client_id begin)) (pr_new_client_id resp));
                      pq_request_id := pq_request_id req |} in
        match non_empty (pr_refresh_token resp) with
        | Some rt =>
            let steam_id := match steam_id_from_refresh_token b64url_decode json_from_slice rt with
                            | Ok id => id
                            | Err _ => bs_session_steamid begin
                            end in
            inl (Ok (Success steam_id rt (non_empty (pr_access_token resp))))
        | None => inr req
        end
  end.

(** The poll loop: poll [i] at time [now] (milliseconds); [None] is exhausted fuel. *)
Fixpoint poll_loop (fuel i : nat) (now deadline : Z) (begin : BeginSession) (req : PollRequest) :
    panicking (Result SignInOutcome) :=
  match fuel with
  | O => None
  | S fuel =>
      let now := if decide (i = 0%nat) then now
                 else now + bs_poll_interval begin + we_oversleep env i in
      if decide (i ≠ 0%nat ∧ deadline ≤ now) then Some (Err (Timeout "auth poll exceeded 120s"))
      else
        match on_poll begin req (call b64 url_ok (we_send env (3 + i)) "PollAuthSessionStatus" Post req) with
        | inl r => Some r
        | inr req => poll_loop fuel (S i) (now + we_call_time env i) deadline begin req
        end
  end.
(** The same loop with what it says about time: when each poll begins, and when the loop
    ends. *)
Fixpoint clocked_poll_loop (fuel i : nat) (now deadline : Z) (begin : BeginSession) (req : PollRequest) :
    panicking (Result SignInOutcome) * list Z * Z :=
  match fuel with
  | O => (None, [], now)
  | S fuel =>
      let now := if decide (i = 0%nat) then now
                 else now + bs_poll_interval begin + we_oversleep env i in
      if decide (i ≠ 0%nat ∧ deadline ≤ now) then (Some (Err (Timeout "auth poll exceeded 120s")), [], now)
      else
        match on_poll begin req (call b64 url_ok (we_send env (3 + i)) "PollAuthSessionStatus" Post req) with
        | inl r => (Some r, [now], now + we_call_time env i)
        | inr req =>
            let '(r, starts, ended) := clocked_poll_loop fuel (S i) (now + we_call_time env i) deadline begin req in
            (r, now :: starts, ended)
        end
  end.
(** One second is the least interval, so 121 rounds outlast the two-minute budget. *)
Definition poll_for_token (begin : BeginSession) : panicking (Result SignInOutcome) :=
  poll_loop 121 0 0 POLL_BUDGET begin
    {| pq_client_id := Some (bs_client_id begin); pq_request_id := Some (bs_request_id begin) |}.

Definition clocked_poll_for_token (begin : BeginSession) : panicking (Result SignInOutcome) * list Z * Z :=
  clocked_poll_loop 121 0 0 POLL_BUDGET begin
    {| pq_client_id := Some (bs_client_id begin); pq_request_id := Some (bs_request_id begin) |}.

Definition execute_password_flow (http_client : Result unit) (creds : PasswordCredentials) :
    panicking (Result SignInOutcome) :=
  pbind (Some http_client) (λ _,
  pbind (Some (fetch_rsa_key (pw_account_name creds))) (λ key,
  match key with
  | Outcome o => Some (Ok o)
  | Continue key =>
      pbind (Some (encrypt (pw_password creds) (rk_mod_hex key) (rk_exp_hex key))) (λ encrypted_b64,
      pbind (Some (begin_session (pw_account_name creds) encrypted_b64 (rk_timestamp key))) (λ begin,
      match begin with
      | Outcome o => Some (Ok o)
      | Continue begin =>
          pbind (resolve_guard begin (pw_shared_secret creds)) (λ guard,
          match guard with
          | Outcome o => Some (Ok o)
          | Continue _ => poll_for_token begin
          end)
      end))
  end)).

Definition now_unix : Z := unwrap_or (we_clock env) 0.

Definition execute_refresh_token_flow (token : bstr) : Result SignInOutcome :=
  claims ← refresh_token_claims b64url_decode json_from_slice token;
  match cl_exp claims with
  | Some exp =>
      if decide (saturating_sub exp TOKEN_EXPIRY_SLACK_SECS ≤ now_unix) then Ok TokenRejected
      else Ok (Success (cl_steam_id claims) token None)
  | None => Ok (Success (cl_steam_id claims) token None)
  end.

Definition execute (http_client : Result unit) (credentials : Credentials) :
    panicking (Result SignInOutcome) :=
  match credentials with
  | Password creds => execute_password_flow http_client creds
  | RefreshToken token => Some (execute_refresh_token_flow token)
  end.

(** [execute_with_store], threading the store; its final state is returned with
    the outcome. *)
Definition save_on_success {S} `{TokenStore S} (s : S) (account : bstr) (outcome : SignInOutcome) :
    Result SignInOutcome * S :=
  match outcome with
  | Success _ refresh_token _ =>
      match store_save s account refresh_token with
      | Ok s => (Ok outcome, s)
      | Err e => (Err (Errors.TokenStore e), s)
      end
  | _ => (Ok outcome, s)
  end.

Definition password_and_save {S} `{TokenStore S} (s : S) (http_client : Result unit)
    (creds : PasswordCredentials) : panicking (Result SignInOutcome * S) :=
  match execute_password_flow http_client creds with
  | None => None
  | Some (Err e) => Some (Err e, s)
  | Some (Ok outcome) => Some (save_on_success s (pw_account_name creds) outcome)
  end.

Definition execute_with_store {S} `{TokenStore S} (s : S) (http_client : Result unit)
    (credentials : Credentials) : panicking (Result SignInOutcome * S) :=
  match credentials with
  | RefreshToken token => Some (execute_refresh_token_flow token, s)
  | Password creds =>
      match store_load s (pw_account_name creds) with
      | Err e => Some (Err (Errors.TokenStore e), s)
      | Ok None => password_and_save s http_client creds
      | Ok (Some token) =>
          match (match execute_refresh_token_flow token with
                 | Ok o => Ok o
                 | Err (AuthRejected _) => Ok TokenRejected
                 | Err e => Err e
                 end) with
          | Err e => Some (Err e, s)
          | Ok (Success id rt at_) => Some (save_on_success s (pw_account_name creds) (Success id rt at_))
          | Ok TokenRejected => password_and_save s http_client creds
          | Ok other => Some (Ok other, s)
          end
      end
  end.

(** ** JWTs *)
Lemma split_char_three c l h p s :
  split_char c l = [h; p; s] → l = h ++ c :: p ++ c :: s ∧ (c ∉ h) ∧ (c ∉ p) ∧ (c ∉ s).
Proof.
  assert (∀ l ps, split_char c l = ps → ∃ p qs, ps = p :: qs ∧ (c ∉ p) ∧
    (qs = [] ∧ l = p ∨ ∃ l', l = p ++ c :: l' ∧ split_char c l' = qs)) as Hhd.
  { clear. intros l. induction l as [|x l IH]; intros ps <-; cbn.
    - exists [], []. set_solver.
    - case_decide as Hx; [subst; exists [], (split_char c l); set_solver|].
      destruct (IH _ eq_refl) as (p & qs & -> & Hp & Hcase). exists (x :: p), qs.
      split; [done|]. split; [set_solver|].
      destruct Hcase as [[-> ->] | (l' & -> & Hl')]; [by left|right]. by exists l'. }
  intros Hs. destruct (Hhd l _ Hs) as (p1 & q1 & [= <- <-] & H1' & [[? _]|(l1 & -> & Hl1)]); [done|].
  destruct (Hhd l1 _ Hl1) as (p2 & q2 & [= <- <-] & H2' & [[? _]|(l2 & -> & Hl2)]); [done|].
  destruct (Hhd l2 _ Hl2) as (p3 & q3 & [= <- <-] & H3' & [[_ ->]|(l3 & -> & Hl3)]); [done|].
  by destruct (Hhd l3 _ Hl3) as (? & ? & ? & _).
Qed.

Lemma jwt_errors token e :
  refresh_token_claims b64url_decode json_from_slice token = Err e → is_auth_rejected e = true.
Proof.
  unfold refresh_token_claims, decode_payload. intros [Hd|(v & _ & Hr)]%bind_err.
  - repeat case_match; try (by simplify_eq). apply bind_err in Hd as [Hd|(b & _ & Hd)].
    + by destruct (b64url_decode _); simplify_eq/=.
    + by destruct (json_from_slice _); simplify_eq/=.
  - apply bind_err in Hr as [Hr|(sub & _ & Hr)]; [by destruct (js_sub v); simplify_eq/=|].
    apply bind_err in Hr as [Hr|(id & _ & Hr)]; [|done].
    by destruct (parse_u64 sub); simplify_eq/=.
Qed.

(** Only a token of exactly three non-empty dot-separated segments is ever accepted,
    the claims come from its middle segment, and the Steam id is a genuine [u64]; every
    refusal is an [AuthRejected]. *)
Theorem jwt_claims_sound token :
  match refresh_token_claims b64url_decode json_from_slice token with
  | Err e => is_auth_rejected e = true
  | Ok c => ∃ h p s bytes v sub,
      token = h ++ x2e :: p ++ x2e :: s ∧ (h ≠ [] ∧ p ≠ [] ∧ s ≠ []) ∧
      b64url_decode p = Ok bytes ∧ json_from_slice bytes = Ok v ∧
      js_sub v = Some sub ∧ parse_u64 sub = Ok (cl_steam_id c) ∧ in_u 64 (cl_steam_id c) ∧
      cl_exp c = js_exp v
  end.
Proof.
  destruct (refresh_token_claims _ _ token) as [c|e] eqn:Hc; [|by eapply jwt_errors].
  unfold refresh_token_claims in Hc. apply bind_ok in Hc as (v & Hv & Hc).
  apply bind_ok in Hc as (sub & Hsub & Hc). apply bind_ok in Hc as (id & Hid%map_err_ok & [= <-]).
  unfold decode_payload in Hv. destruct (split_char x2e token) as [|h [|p [|s [|]]]] eqn:Hs; try done.
  apply split_char_three in Hs as (-> & _).
  repeat (case_bool_decide; [done|]). cbn in Hv.
  apply bind_ok in Hv as (bytes & Hb%map_err_ok & Hj%map_err_ok).
  exists h, p, s, bytes, v, sub. destruct (js_sub v); simplify_eq/=.
  split_and!; try done; by eapply parse_u64_range.
Qed.

(** ** The refresh-token flow *)

(** C40: The refresh-token flow is offline and exact: a token that does not decode is an
    [AuthRejected] error; one that decodes is [TokenRejected] iff it expires within the
    next minute, and otherwise handed back unchanged with the Steam id it names. *)
Theorem refresh_flow_exact token :
  0 ≤ now_unix →
  match refresh_token_claims b64url_decode json_from_slice token with
  | Err e => execute_refresh_token_flow token = Err e ∧ is_auth_rejected e = true
  | Ok c =>
      execute_refresh_token_flow token =
        Ok (match cl_exp c with
            | Some exp => if decide (exp ≤ now_unix + 60) then TokenRejected
                          else Success (cl_steam_id c) token None
            | None => Success (cl_steam_id c) token None
            end)
  end.
Proof using Type.
  intros Hnow. unfold execute_refresh_token_flow.
  destruct (refresh_token_claims _ _ token) as [c|e] eqn:Hc; cbn; [|by apply jwt_errors in Hc].
  destruct (cl_exp c) as [exp|]; [|done].
  pose proof (expiry_test exp now_unix Hnow) as Hiff.
  destruct (decide (exp ≤ now_unix + 60)) as [Hle|Hgt]; [by rewrite decide_True by by apply Hiff|].
  rewrite decide_False; [done|]. by intros ?%Hiff.
Qed.

(** ** Polling *)
(** Delays of the environment are never negative. *)
Definition time_flows : Prop := ∀ i, 0 ≤ we_call_time env i ∧ 0 ≤ we_oversleep env i.

(** The first poll is at once, the next one an interval and the time of the call later. *)
Lemma clocked_poll_loop_result fuel i now deadline begin req :
  (clocked_poll_loop fuel i now deadline begin req).1.1 = poll_loop fuel i now deadline begin req.
Proof.
  revert i now req. induction fuel as [|fuel IH]; intros i now req; [done|].
  cbn [clocked_poll_loop poll_loop]. case_decide; [done|]. destruct (on_poll _ _ _) as [r|req']; [done|].
  rewrite <-IH. by destruct (clocked_poll_loop fuel _ _ _ _ _) as [[r starts] ended].
Qed.

(** Bounds on how long a call takes and on how late a sleep wakes. *)
Definition at_most (call_time oversleep : Z) : Prop :=
  ∀ i, we_call_time env i ≤ call_time ∧ we_oversleep env i ≤ oversleep.

(** A loop past its first round, with fuel for the time that is left: it returns, its polls are
    a second or more apart and before the deadline, and it is over an interval after it. *)
Lemma clocked_poll_loop_later fuel i now deadline begin req :
  1000 ≤ bs_poll_interval begin ≤ 60000 → time_flows → i ≠ 0%nat →
  (0 < fuel)%nat → deadline ≤ now + 1000 * Z.of_nat fuel →
  let '(r, starts, ended) := clocked_poll_loop fuel i now deadline begin req in
  (∃ o, r = Some o) ∧ Forall (λ t, now + 1000 ≤ t < deadline) starts ∧
  (starts ≠ [] → 1000 * Z.of_nat (length starts) < deadline - now) ∧
  (∀ C O, at_most C O → 0 ≤ C → 0 ≤ O → ended ≤ Z.max now (deadline + C) + 60000 + O).
Proof.
  intros Hint Ht. revert i now req.
  induction fuel as [|fuel IH]; intros i now req Hi Hf Hb; [lia|]. cbn [clocked_poll_loop].
  rewrite (decide_False _ _ Hi). destruct (Ht i) as [Hc Ho]. case_decide as Hd.
  { split_and!; [eauto|constructor|done|]. intros C O Hmost _ _. destruct (Hmost i). lia. }
  assert (now + bs_poll_interval begin + we_oversleep env i < deadline) as Hbefore by (apply Z.nle_gt; tauto).
  destruct (on_poll _ _ _) as [r|req'].
  { split_and!; [eauto|by apply list.Forall_singleton; lia|cbn; lia|].
    intros C O Hmost _ _. destruct (Hmost i). lia. }
  set (s := now + bs_poll_interval begin + we_oversleep env i) in *.
  specialize (IH (S i) (s + we_call_time env i) req').
  destruct (clocked_poll_loop fuel (S i) _ _ _ _) as [[r starts] ended].
  destruct IH as (Hr & Hall & Hlen & Hend); [done|lia|lia|]. split_and!; [done| | |].
  - constructor; [lia|]. apply (list.Forall_impl _ _ _ Hall). cbn. lia.
  - intros _. cbn [length]. destruct (decide (starts = [])) as [->|Hne]; [cbn; lia|].
    specialize (Hlen Hne). lia.
  - intros C O Hmost HC HO. specialize (Hend C O Hmost HC HO). destruct (Hmost i). lia.
Qed.

Lemma clocked_poll_loop_first fuel now deadline begin req :
  clocked_poll_loop (S fuel) 0 now deadline begin req =
    match on_poll begin req (call b64 url_ok (we_send env 3) "PollAuthSessionStatus" Post req) with
    | inl r => (Some r, [now], now + we_call_time env 0)
    | inr req =>
        let '(r, starts, ended) := clocked_poll_loop fuel 1 (now + we_call_time env 0) deadline begin req in
        (r, now :: starts, ended)
    end.
Proof. reflexivity. Qed.

Lemma poll_for_token_clocked begin :
  1000 ≤ bs_poll_interval begin ≤ 60000 → time_flows →
  let '(r, starts, ended) := clocked_poll_for_token begin in
  poll_for_token begin = r ∧ (∃ o, r = Some o) ∧
  (1 ≤ length starts ≤ 120)%nat ∧ Forall (λ t, 0 ≤ t < POLL_BUDGET) starts ∧
  (∀ C O, at_most C O → 0 ≤ C → 0 ≤ O → ended ≤ POLL_BUDGET + C + 60000 + O).
Proof.
  intros Hint Ht. unfold clocked_poll_for_token, poll_for_token. rewrite <-clocked_poll_loop_result.
  rewrite (clocked_poll_loop_first 120). destruct (Ht 0%nat) as [Hc _].
  destruct (on_poll _ _ _) as [r|req'].
  { split_and!; [done|eauto|cbn; lia|cbn; lia|by apply list.Forall_singleton|].
    intros C O Hmost HC HO. destruct (Hmost 0%nat). unfold POLL_BUDGET. lia. }
  pose proof (clocked_poll_loop_later 120 1 (0 + we_call_time env 0) POLL_BUDGET begin req' Hint Ht) as Hl.
  destruct (clocked_poll_loop 120 1 _ _ _ _) as [[r starts] ended].
  destruct Hl as (Hr & Hall & Hlen & Hend); [done|lia|unfold POLL_BUDGET; lia|].
  unfold POLL_BUDGET in *. split_and!; [done|exact Hr|cbn; lia| | |].
  - cbn [length]. destruct (decide (starts = [])) as [->|Hne]; [cbn; lia|]. specialize (Hlen Hne). lia.
  - constructor; [lia|]. apply (list.Forall_impl _ _ _ Hall). cbn. lia.
  - intros C O Hmost HC HO. specialize (Hend C O Hmost HC HO). destruct (Hmost 0%nat). lia.
Qed.

Lemma begin_session_interval acc enc ts begin :
  begin_session acc enc ts = Ok (Continue begin) → 1000 ≤ bs_poll_interval begin ≤ 60000.
Proof.
  unfold begin_session. intros ([er resp] & _ & Hb)%bind_ok. revert Hb. case_decide.
  { unfold reject. by destruct (map_non_ok_eresult er). }
  intros (? & _ & (? & _ & (? & _ & Hb)%bind_ok)%bind_ok)%bind_ok.
  destruct (collect_guards _ _ _) as [gs hint]. injection Hb as <-. apply compute_poll_interval_range.
Qed.

Context (hmac_sha1_length : ∀ key msg, length (hmac_sha1 key msg) = 20%nat).

Lemma generate_auth_code_total clock secret ts :
  ∃ r, generate_auth_code hmac_sha1 b64_decode clock secret ts = Some r.
Proof.
  unfold generate_auth_code. destruct (map_err _ _) as [sec|]; [|eauto].
  destruct (match ts with Some t => Ok t | None => _ end) as [t|]; [|eauto].
  unfold generate_with_step.
  destruct (truncate_total (hmac_sha1 sec (to_be_bytes 8 (t / TIME_STEP_SECS)))) as (code & -> & Hcode);
    [done|]. cbn [mbind option_bind].
  destruct (code_chars_total 5 code) as (cs & -> & _); [apply Hcode|]. cbn. eauto.
Qed.

Lemma resolve_guard_total begin secret : ∃ r, resolve_guard begin secret = Some r.
Proof.
  unfold resolve_guard. repeat case_decide; try (by eauto). destruct secret as [sec|]; [|eauto].
  destruct (generate_auth_code_total (we_clock env) sec None) as [r ->].
  destruct r as [code|]; cbn [pbind]; eauto.
Qed.

Lemma execute_password_flow_total http creds :
  time_flows → ∃ r, execute_password_flow http creds = Some r.
Proof.
  intros Ht. unfold execute_password_flow.
  destruct http as [[]|]; cbn [pbind]; [|eauto].
  destruct (fetch_rsa_key _) as [[key|o]|]; cbn [pbind]; [|by eauto..].
  destruct (encrypt _ _ _) as [enc|]; cbn [pbind]; [|eauto].
  destruct (begin_session _ _ _) as [[begin|o]|] eqn:Hb; cbn [pbind]; [|by eauto..].
  apply begin_session_interval in Hb.
  destruct (resolve_guard_total begin (pw_shared_secret creds)) as [r ->].
  destruct r as [[|o]|]; cbn [pbind]; [|by eauto..].
  pose proof (poll_for_token_clocked begin Hb Ht) as Hp.
  destruct (clocked_poll_for_token begin) as [[r starts] ended]. destruct Hp as (-> & Hr & _). exact Hr.
Qed.

(** C39: Signing in always comes to an end without panicking: whatever Steam answers and
    however slowly, every flow returns an outcome or an error.  The polling phase of a session
    that was begun makes at most 120 polls, and every one of them begins within the two-minute
    budget; what the budget does not bound is the last poll's own call and the sleep after it,
    so with calls of at most [C] milliseconds and sleeps that wake at most [O] late the phase
    is over a minute, [C] and [O] after the budget. *)
Theorem sign_in_terminates http credentials :
  time_flows →
  (∃ r, execute http credentials = Some r) ∧
  (∀ account enc timestamp begin, begin_session account enc timestamp = Ok (Continue begin) →
   let '(r, starts, ended) := clocked_poll_for_token begin in
   poll_for_token begin = r ∧ (∃ o, r = Some o) ∧
   (1 ≤ length starts ≤ 120)%nat ∧ Forall (λ t, 0 ≤ t < POLL_BUDGET) starts ∧
   (∀ C O, at_most C O → 0 ≤ C → 0 ≤ O → ended ≤ POLL_BUDGET + C + 60000 + O)).
Proof.
  intros Ht. split.
  - destruct credentials as [creds|token]; cbn [execute]; [|eauto]. by apply execute_password_flow_total.
  - intros account enc ts begin Hb%begin_session_interval. by apply poll_for_token_clocked.
Qed.

(** ** Successes are Steam's *)
Lemma map_non_ok_not_success er o :
  map_non_ok_eresult er = Some o → (∀ id rt a, o ≠ Success id rt a) ∧ o ≠ TokenRejected.
Proof. unfold map_non_ok_eresult. repeat case_decide; intros [= <-]; done. Qed.

Lemma non_empty_Some o s : non_empty o = Some s ↔ o = Some s ∧ s ≠ [].
Proof.
  unfold non_empty. destruct o as [t|]; cbn; [|naive_solver].
  case_bool_decide; cbn; naive_solver.
Qed.

Lemma poll_loop_success fuel i now deadline begin req id rt a :
  poll_loop fuel i now deadline begin req = Some (Ok (Success id rt a)) →
  rt ≠ [] ∧ a ≠ Some [] ∧ ∃ j (q : PollRequest) resp, (i ≤ j)%nat ∧
    call b64 url_ok (we_send env (3 + j)) "PollAuthSessionStatus" Post q = Ok (eresult.OK, resp) ∧
    pr_refresh_token resp = Some rt ∧
    (steam_id_from_refresh_token b64url_decode json_from_slice rt = Ok id ∨ id = bs_session_steamid begin).
Proof.
  revert i now req. induction fuel as [|fuel IH]; intros i now req; cbn [poll_loop]; [done|].
  set (now' := if decide (i = 0%nat) then now else _). clearbody now'.
  case_decide; [done|].
  destruct (on_poll begin req _) as [r|req'] eqn:Hp.
  - intros [= ->]. unfold on_poll in Hp.
    destruct (call _ _ _ _ _ req) as [[er resp]|e] eqn:Hc; [|by simplify_eq].
    case_decide as Her.
    { destruct (map_non_ok_eresult er) as [o|] eqn:Hm; simplify_eq.
      apply map_non_ok_not_success in Hm as [Hm _]. by destruct (Hm id rt a). }
    destruct (non_empty (pr_refresh_token resp)) as [rt'|] eqn:Hrt; [|done].
    injection Hp as Hid -> <-. apply non_empty_Some in Hrt as [Hrt Hne].
    split; [done|]. split.
    { intros Ha. apply non_empty_Some in Ha as [_ ?]. done. }
    exists i, req, resp. split; [lia|]. rewrite Her in Hc.
    split; [done|]. split; [done|].
    destruct (steam_id_from_refresh_token _ _ rt); [left|right]; congruence.
  - intros Hrun. destruct (IH _ _ _ Hrun) as (? & ? & j & q & resp & Hj & Hrest).
    split; [done|]. split; [done|]. exists j, q, resp. split; [lia|done].
Qed.

Lemma poll_loop_not_rejected fuel i now deadline begin req :
  poll_loop fuel i now deadline begin req ≠ Some (Ok TokenRejected).
Proof.
  revert i now req. induction fuel as [|fuel IH]; intros i now req; cbn [poll_loop]; [done|].
  set (now' := if decide (i = 0%nat) then now else _). clearbody now'.
  case_decide; [done|]. destruct (on_poll begin req _) as [r|req'] eqn:Hp; [|apply IH].
  intros [= ->]. unfold on_poll in Hp. destruct (call _ _ _ _ _ req) as [[er resp]|e]; [|done].
  revert Hp. case_decide.
  - destruct (map_non_ok_eresult er) as [o|] eqn:Hm; intros; simplify_eq.
    by apply map_non_ok_not_success in Hm as [_ ?].
  - by destruct (non_empty (pr_refresh_token resp)).
Qed.

(** The same of the whole poll phase. *)
Lemma poll_for_token_sound begin o :
  poll_for_token begin = Some (Ok o) →
  o ≠ TokenRejected ∧
  ∀ id rt a, o = Success id rt a →
    rt ≠ [] ∧ a ≠ Some [] ∧ ∃ j (q : PollRequest) resp,
      call b64 url_ok (we_send env (3 + j)) "PollAuthSessionStatus" Post q = Ok (eresult.OK, resp) ∧
      pr_refresh_token resp = Some rt.
Proof.
  unfold poll_for_token. generalize 121%nat as fuel. intros fuel Hp. split.
  - intros ->. by eapply poll_loop_not_rejected.
  - intros id rt a ->.
    destruct (poll_loop_success _ _ _ _ _ _ _ _ _ Hp) as (? & ? & j & q & resp & _ & Hc & Hrt & _).
    split; [done|]. split; [done|]. by exists j, q, resp.
Qed.

(** The password flow's shortcuts never claim success. *)
Definition not_success (o : SignInOutcome) : Prop :=
  (∀ id rt a, o ≠ Success id rt a) ∧ o ≠ TokenRejected.

Lemma reject_outcome {T} what er (o : SignInOutcome) :
  reject (T := T) what er = Ok (Outcome o) → not_success o.
Proof.
  unfold reject. destruct (map_non_ok_eresult er) eqn:Hm; [|done]. intros [= <-].
  by eapply map_non_ok_not_success.
Qed.

Lemma reject_continue {T} what er (v : T) : reject what er ≠ Ok (Continue v).
Proof. unfold reject. by destruct (map_non_ok_eresult er). Qed.

Lemma fetch_rsa_key_outcome acc o : fetch_rsa_key acc = Ok (Outcome o) → not_success o.
Proof.
  unfold fetch_rsa_key. intros ([er resp] & _ & Hr)%bind_ok. revert Hr. case_decide.
  - apply reject_outcome.
  - by intros (? & _ & (? & _ & (? & _ & ?)%bind_ok)%bind_ok)%bind_ok.
Qed.

Lemma begin_session_outcome acc enc ts o : begin_session acc enc ts = Ok (Outcome o) → not_success o.
Proof.
  unfold begin_session. intros ([er resp] & _ & Hr)%bind_ok. revert Hr. case_decide.
  - apply reject_outcome.
  - intros (? & _ & (? & _ & (? & _ & Hb)%bind_ok)%bind_ok)%bind_ok.
    by destruct (collect_guards _ _ _).
Qed.

Lemma resolve_guard_outcome begin secret o :
  resolve_guard begin secret = Some (Ok (Outcome o)) → not_success o.
Proof.
  unfold resolve_guard. case_decide; [|case_decide; [by intros [= <-]|by case_decide]].
  destruct secret as [sec|]; [|by intros [= <-]].
  destruct (generate_auth_code _ _ _ _ _) as [[code|]|]; cbn [pbind]; try done. intros [= Hr].
  apply bind_ok in Hr as ([er resp] & _ & Hr). revert Hr. case_decide; [apply reject_outcome|done].
Qed.

(** A refresh token Steam itself sent in an OK poll answer. *)
Definition issued (rt : bstr) : Prop :=
  rt ≠ [] ∧ ∃ j (q : PollRequest) resp,
    call b64 url_ok (we_send env (3 + j)) "PollAuthSessionStatus" Post q = Ok (eresult.OK, resp) ∧
    pr_refresh_token resp = Some rt.

Lemma password_flow_sound http creds o :
  execute_password_flow http creds = Some (Ok o) →
  o ≠ TokenRejected ∧
  ∀ id rt a, o = Success id rt a →
    rt ≠ [] ∧ a ≠ Some [] ∧ ∃ j (q : PollRequest) resp,
      call b64 url_ok (we_send env (3 + j)) "PollAuthSessionStatus" Post q = Ok (eresult.OK, resp) ∧
      pr_refresh_token resp = Some rt.
Proof.
  assert (∀ o', not_success o' → o = o' → o ≠ TokenRejected ∧
    ∀ id rt a, o = Success id rt a → rt ≠ [] ∧ a ≠ Some [] ∧ ∃ j (q : PollRequest) resp,
      call b64 url_ok (we_send env (3 + j)) "PollAuthSessionStatus" Post q = Ok (eresult.OK, resp) ∧
      pr_refresh_token resp = Some rt) as Hshort.
  { intros o' [Hn Ht] ->. split; [done|]. intros id rt a Heq. by destruct (Hn id rt a). }
  unfold execute_password_flow. destruct http as [[]|]; cbn [pbind]; [|done].
  destruct (fetch_rsa_key _) as [[key|o']|] eqn:Hk; cbn [pbind]; [| |done].
  2: { intros [= ->]. eapply Hshort; [by eapply fetch_rsa_key_outcome|done]. }
  destruct (encrypt _ _ _) as [enc|]; cbn [pbind]; [|done].
  destruct (begin_session _ _ _) as [[begin|o']|] eqn:Hb; cbn [pbind]; [| |done].
  2: { intros [= ->]. eapply Hshort; [by eapply begin_session_outcome|done]. }
  destruct (resolve_guard begin _) as [[[[]|o']|]|] eqn:Hg; cbn [pbind]; [| |done..].
  2: { intros [= ->]. eapply Hshort; [by eapply resolve_guard_outcome|done]. }
  apply poll_for_token_sound.
Qed.
Lemma password_flow_issued http creds id rt a :
  execute_password_flow http creds = Some (Ok (Success id rt a)) → issued rt.
Proof. intros [_ Hs]%password_flow_sound. by destruct (Hs id rt a eq_refl) as (Hne & _ & Hpoll). Qed.

(** C18: The password flow reports [Success] only with a non-empty refresh token that
    Steam itself sent in an OK poll answer, never on an error code or an early exit;
    and it never answers [TokenRejected], which is the refresh-token flow's verdict. *)
Theorem password_success_is_genuine http creds o :
  execute_password_flow http creds = Some (Ok o) →
  o ≠ TokenRejected ∧
  ∀ id rt a, o = Success id rt a →
    rt ≠ [] ∧ a ≠ Some [] ∧ ∃ j (q : PollRequest) resp,
      call b64 url_ok (we_send env (3 + j)) "PollAuthSessionStatus" Post q = Ok (eresult.OK, resp) ∧
      pr_refresh_token resp = Some rt.
Proof. apply password_flow_sound. Qed.

(** ** Guards *)

(** The confirmations Steam allows are read faithfully: every typed entry is kept in
    order, and the mailbox hint is the first non-empty message of an email entry. *)
Theorem collect_guards_spec cs :
  collect_guards cs [] None =
    (omap ac_confirmation_type cs,
     head (omap (λ c, if decide (ac_confirmation_type c = Some GUARD_TYPE_EMAIL_CODE)
                      then non_empty (ac_associated_message c) else None) cs)).
Proof.
  assert (∀ guards hint, collect_guards cs guards hint =
    (guards ++ omap ac_confirmation_type cs,
     match hint with
     | Some h => Some h
     | None => head (omap (λ c, if decide (ac_confirmation_type c = Some GUARD_TYPE_EMAIL_CODE)
                                then non_empty (ac_associated_message c) else None) cs)
     end)) as Hgen; [|by rewrite Hgen].
  induction cs as [|c cs IH]; intros guards hint; cbn.
  { rewrite app_nil_r. by destruct hint. }
  destruct (ac_confirmation_type c) as [ct|]; cbn; rewrite IH; [|by destruct hint].
  rewrite <-app_assoc. cbn. f_equal. destruct hint as [h|]; cbn.
  { by rewrite andb_false_r. }
  rewrite andb_true_r.
  case_bool_decide as Hct.
  - rewrite decide_True by congruence. by destruct (non_empty (ac_associated_message c)).
  - by rewrite decide_False by congruence.
Qed.

(** ** The token store *)
Section store.
Context {S : Type} `{TokenStore S}.

(** The token outlives the next minute. *)
Definition token_fresh (c : RefreshTokenClaims) : bool :=
  match cl_exp c with Some exp => now_unix + 60 <? exp | None => true end.

Lemma refresh_flow_fresh token c :
  0 ≤ now_unix → refresh_token_claims b64url_decode json_from_slice token = Ok c →
  execute_refresh_token_flow token =
    Ok (if token_fresh c then Success (cl_steam_id c) token None else TokenRejected).
Proof using Type.
  intros Hnow Hc. unfold execute_refresh_token_flow, token_fresh. rewrite Hc. cbn.
  destruct (cl_exp c) as [exp|]; [|done]. pose proof (expiry_test exp now_unix Hnow) as Hiff.
  destruct (Z.ltb_spec (now_unix + 60) exp) as [Hlt|Hle].
  - rewrite decide_False; [done|]. intros Hx%Hiff. by apply Z.lt_nge in Hlt.
  - by rewrite decide_True by by apply Hiff.
Qed.

(** C19: A stored token is reused exactly when it is good: if it passes the refresh-token
    flow it is returned and saved again without touching the network, and if it is
    expired or corrupt the password flow runs as if nothing had been stored; a bad store
    entry is never fatal. *)
Theorem stored_token_decides (s : S) http creds token :
  0 ≤ now_unix → store_load s (pw_account_name creds) = Ok (Some token) →
  execute_with_store s http (Password creds) =
    match refresh_token_claims b64url_decode json_from_slice token with
    | Ok c =>
        if token_fresh c
        then Some (save_on_success s (pw_account_name creds) (Success (cl_steam_id c) token None))
        else password_and_save s http creds
    | Err _ => password_and_save s http creds
    end.
Proof.
  intros Hnow Hl. unfold execute_with_store. rewrite Hl.
  destruct (refresh_token_claims _ _ token) as [c|e] eqn:Hc.
  - rewrite (refresh_flow_fresh _ _ Hnow Hc). by destruct (token_fresh c).
  - pose proof (jwt_errors _ _ Hc) as He. unfold execute_refresh_token_flow. rewrite Hc. cbn.
    by destruct e.
Qed.

Lemma save_on_success_store `{!TokenStoreLaws S} (s : S) account o r s' :
  save_on_success s account o = (r, s') →
  match r with
  | Ok (Success id rt a) => store_load s' account = Ok (Some rt) ∧
      ∀ b, account ≠ b → store_load s' b = store_load s b
  | _ => s' = s
  end.
Proof.
  unfold save_on_success. destruct o; try by intros [= <- <-].
  destruct (store_save s account refresh_token) as [s1|e] eqn:Hs; intros [= <- <-]; [|done].
  split; [by eapply load_save_same|]. intros b Hb. by eapply load_save_other.
Qed.

(** After a sign-in that succeeded, the store holds exactly the token that was
    returned, ready for the next start, and every other account's entry is as it was; a
    sign-in that did not succeed leaves the store untouched. *)
Theorem store_follows_outcome `{!TokenStoreLaws S} (s : S) http creds r s' :
  execute_with_store s http (Password creds) = Some (r, s') →
  match r with
  | Ok (Success id rt a) => store_load s' (pw_account_name creds) = Ok (Some rt) ∧
      ∀ b, pw_account_name creds ≠ b → store_load s' b = store_load s b
  | _ => s' = s
  end.
Proof.
  assert (∀ r s', password_and_save s http creds = Some (r, s') →
    match r with
    | Ok (Success id rt a) => store_load s' (pw_account_name creds) = Ok (Some rt) ∧
        ∀ b, pw_account_name creds ≠ b → store_load s' b = store_load s b
    | _ => s' = s
    end) as Hpw.
  { clear r s'. intros r s'. unfold password_and_save.
    destruct (execute_password_flow http creds) as [[o|e]|]; [|by intros [= <- <-]|done].
    intros [= Hs]. by eapply save_on_success_store. }
  unfold execute_with_store.
  destruct (store_load s (pw_account_name creds)) as [[token|]|e]; [|apply Hpw|by intros [= <- <-]].
  destruct (execute_refresh_token_flow token) as [o|e].
  - destruct o; try (by intros [= <- <-]); [|apply Hpw]. intros Hs%(inj Some).
    by apply save_on_success_store in Hs.
  - destruct e; try (by intros [= <- <-]). apply Hpw.
Qed.
End store.
End flow.

(** ** Concrete runs *)

(** An in-memory store. *)
Definition MemoryStore : Type := bstr → option bstr.
#[export] Instance memory_store : TokenStore MemoryStore := {|
  store_load := λ s a, Ok (s a);
  store_save := λ s a t, Ok (λ b, if decide (b = a) then Some t else s b)
|}.
#[export] Instance memory_store_laws : TokenStoreLaws MemoryStore.
Proof.
  split; intros s s'.
  - intros a t [= <-]. cbn. by rewrite decide_True.
  - intros a b t [= <-] Hne. cbn. by rewrite decide_False by congruence.
Qed.

Section witnesses.
(** A service that answers every call OK with a fixed message. *)
Definition canned {M} (m : M) : Message M :=
  {| encode_to_vec := λ _, []; encoded_len := λ _, 0; msg_decode := λ _, Ok m |}.
#[local] Instance rq_canned : Message RsaKeyRequest := canned {| rq_account_name := None |}.
#[local] Instance rs_canned : Message RsaKeyReply := canned
  {| rs_publickey_mod := Some (as_bytes "c5"); rs_publickey_exp := Some (as_bytes "03");
     rs_timestamp := Some 7 |}.
#[local] Instance bq_canned : Message BeginRequest := canned (begin_request [] [] 0).
#[local] Instance br_canned : Message BeginReply := canned
  {| br_client_id := Some 11; br_request_id := Some [x01]; br_interval := None;
     br_allowed_confirmations := [{| ac_confirmation_type := Some 3; ac_associated_message := None |}];
     br_steamid := Some 76561198000000000 |}.
#[local] Instance gq_canned : Message GuardRequest := canned
  {| gq_client_id := None; gq_steamid := None; gq_code := None; gq_code_type := None |}.
#[local] Instance gr_canned : Message GuardReply := canned {| gr_rest := [] |}.
#[local] Instance pq_canned : Message PollRequest := canned
  {| pq_client_id := None; pq_request_id := None |}.
#[local] Instance pr_canned : Message PollReply := canned
  {| pr_new_client_id := Some 12; pr_refresh_token := Some (as_bytes "h.p.s");
     pr_access_token := None |}.

Definition ok_env : WebEnv :=
  {| we_send := λ _ _, Ok {| wr_eresult := Some (Ok (as_bytes "1")); wr_body := Ok [] |};
     we_clock := Some 1000; we_call_time := λ _, 5; we_oversleep := λ _, 1 |}.
Definition sample_json (_ : bstr) : result string JwtJson :=
  Ok {| js_sub := Some (as_bytes "76561198000000000"); js_exp := Some 5000 |}.
Definition sample_encrypt (_ _ _ : bstr) : Result bstr := Ok (as_bytes "cipher").
Definition sample_creds : PasswordCredentials :=
  {| pw_account_name := as_bytes "bot"; pw_password := as_bytes "hunter2";
     pw_shared_secret := Some (as_bytes "c2VjcmV0") |}.
Definition zero_hmac (_ _ : list byte) : list byte := repeat x00 20.

(** A Steam that never issues a token, asked every five seconds over calls of ten. *)
#[local] Definition pr_empty : Message PollReply := canned
  {| pr_new_client_id := None; pr_refresh_token := None; pr_access_token := None |}.
Definition slow_env : WebEnv :=
  {| we_send := λ _ _, Ok {| wr_eresult := Some (Ok (as_bytes "1")); wr_body := Ok [] |};
     we_clock := Some 1000; we_call_time := λ _, 10000; we_oversleep := λ _, 1 |}.
Definition slow_begin : BeginSession :=
  {| bs_client_id := 11; bs_request_id := [x01]; bs_session_steamid := 76561198000000000;
     bs_poll_interval := 5000; bs_guards := [3]; bs_email_domain_hint := None |}.
Lemma sign_in_terminates_witness :
  (∃ r, execute id Ok Ok sample_json zero_hmac (λ _, None) sample_encrypt ok_env (Ok tt)
          (Password sample_creds) = Some r) ∧
  let '(r, starts, ended) :=
    clocked_poll_for_token (H6 := pr_empty) id Ok sample_json (λ _, None) slow_env slow_begin in
  r = Some (Err (Timeout "auth poll exceeded 120s")) ∧ length starts = 8%nat ∧
  ended ≤ POLL_BUDGET + 10000 + 60000 + 1.
Proof.
  split.
  { destruct (sign_in_terminates id Ok Ok sample_json zero_hmac (λ _, None) sample_encrypt ok_env (λ _ _, eq_refl)
      (Ok tt) (Password sample_creds)) as [Hr _]; [by split|exact Hr]. }
  destruct (sign_in_terminates (H6 := pr_empty) id Ok Ok sample_json zero_hmac (λ _, None) sample_encrypt slow_env
    (λ _ _, eq_refl) (Ok tt) (Password sample_creds)) as [_ Hp]; [by split|].
  assert (begin_session id (λ _, None) slow_env [] [] 7 = Ok (Continue slow_begin)) as Hb by by vm_compute.
  specialize (Hp [] [] 7 slow_begin Hb).
  destruct (clocked_poll_for_token _ _ _ _ _ _) as [[r starts] ended] eqn:Hc.
  assert (r = Some (Err (Timeout "auth poll exceeded 120s")) ∧ length starts = 8%nat) as [Hr Hl].
  { by vm_compute in Hc; simplify_eq. }
  split; [done|]. split; [done|]. destruct Hp as (_ & _ & _ & _ & Hend).
  apply Hend; [by split|done|done].
Defined.

Lemma password_success_is_genuine_witness :
  ∃ i rt a, execute_password_flow id Ok Ok sample_json zero_hmac (λ _, None) sample_encrypt ok_env
              (Ok tt) sample_creds = Some (Ok (Success i rt a)) ∧ rt ≠ [].
Proof.
  exists 76561198000000000, (as_bytes "h.p.s"), None. split; [by vm_compute|].
  eapply (password_success_is_genuine id Ok Ok sample_json zero_hmac (λ _, None) sample_encrypt ok_env
    (Ok tt) sample_creds); [by vm_compute|done].
Defined.

Lemma refresh_flow_exact_witness :
  execute_refresh_token_flow Ok sample_json ok_env (as_bytes "h.p.s") =
    Ok (Success 76561198000000000 (as_bytes "h.p.s") None).
Proof.
  pose proof (refresh_flow_exact Ok sample_json ok_env (as_bytes "h.p.s")) as Hf.
  vm_compute in Hf |- *. apply Hf. done.
Defined.

Definition empty_store : MemoryStore := λ _, None.
Definition stale_store : MemoryStore := λ _, Some (as_bytes "truncated").

Lemma stored_token_decides_witness :
  execute_with_store id Ok Ok sample_json zero_hmac (λ _, None) sample_encrypt ok_env stale_store
    (Ok tt) (Password sample_creds) =
  password_and_save id Ok Ok sample_json zero_hmac (λ _, None) sample_encrypt ok_env stale_store
    (Ok tt) sample_creds.
Proof.
  rewrite (stored_token_decides id Ok Ok sample_json zero_hmac (λ _, None) sample_encrypt ok_env
    stale_store (Ok tt) sample_creds (as_bytes "truncated")); done.
Defined.

Lemma store_follows_outcome_witness :
  ∃ s', execute_with_store id Ok Ok sample_json zero_hmac (λ _, None) sample_encrypt ok_env empty_store
          (Ok tt) (Password sample_creds) =
          Some (Ok (Success 76561198000000000 (as_bytes "h.p.s") None), s') ∧
        store_load s' (as_bytes "bot") = Ok (Some (as_bytes "h.p.s")).
Proof.
  eexists. split; [by vm_compute|].
  eapply (store_follows_outcome id Ok Ok sample_json zero_hmac (λ _, None) sample_encrypt ok_env
    empty_store (Ok tt) sample_creds (Ok (Success 76561198000000000 (as_bytes "h.p.s") None))).
  by vm_compute.
Defined.
End witnesses.
