(* ===== verification/Redaction.v ===== *)
(** * Secrets stay out of [Debug] output

    The hand-written [fmt::Debug] implementations of [auth/credentials.rs],
    [auth/signin.rs] and [transport/proxy.rs], the derived ones of the types that embed
    them, and the [SignIn] builder.  A [Debug] implementation is modelled by the calls it
    makes on its [Formatter]: equal calls render equally, whatever the format flags. *)
From S2P Require Import Prelude Errors Proto RustStr Proxy SignIn.
#[local] Set Default Goal Selector "!".

(** ** Formatter calls *)
Inductive Fmt :=
  (** [<str as Debug>], [<u64 as Debug>], [<bool as Debug>], [<Duration as Debug>]. *)
  | FStr (s : bstr)
  | FInt (z : Z)
  | FBool (b : bool)
  | FDuration (ms : Z)
  (** [write_str], and a unit variant of a derived implementation. *)
  | FWord (s : string)
  (** [debug_tuple(name).field(..)..finish()]. *)
  | FTuple (name : string) (fields : list Fmt)
  (** [debug_struct(name).field(label, ..)..finish()]. *)
  | FStruct (name : string) (fields : list Fmt)
  | FField (label : string) (value : Fmt).

(** [<Option<T> as Debug>]. *)
Definition fmt_option {A} (f : A → Fmt) (o : option A) : Fmt :=
  match o with Some a => FTuple "Some" [f a] | None => FWord "None" end.

(** ** [credentials.rs] *)
Definition REDACTED : bstr := as_bytes "<redacted>".

Definition fmt_password_credentials (c : PasswordCredentials) : Fmt :=
  FStruct "PasswordCredentials"
    [FField "account_name" (FStr (pw_account_name c)); FField "password" (FStr REDACTED);
     FField "shared_secret" (fmt_option FStr ((λ _, REDACTED) <$> pw_shared_secret c))].
Definition fmt_refresh_token (token : bstr) : Fmt := FTuple "RefreshToken" [FStr REDACTED].
(** [#[derive(Debug)]]. *)
Definition fmt_credentials (c : Credentials) : Fmt :=
  match c with
  | Password p => FTuple "Password" [fmt_password_credentials p]
  | RefreshToken t => FTuple "RefreshToken" [fmt_refresh_token t]
  end.

(** [Credentials::password] and [Credentials::refresh_token]. *)
Definition password (account_name pass : bstr) (shared_secret : option bstr) : Credentials :=
  Password {| pw_account_name := account_name; pw_password := pass;
              pw_shared_secret := shared_secret |}.
Definition refresh_token (token : bstr) : Credentials := RefreshToken token.

(** ** [proxy.rs] *)
Definition fmt_proxy_credentials (c : ProxyCredentials) : Fmt :=
  FStruct "ProxyCredentials"
    [FField "username" (FStr (pc_username c)); FField "password" (FStr (as_bytes "<redacted>"))].
(** [#[derive(Debug)]]. *)
Definition fmt_proxy_config (c : ProxyConfig) : Fmt :=
  FStruct "ProxyConfig"
    [FField "kind" (FWord (match px_kind c with Socks5Proxy => "Socks5" | HttpConnectProxy => "HttpConnect" end));
     FField "host" (FStr (px_host c)); FField "port" (FInt (px_port c));
     FField "credentials" (fmt_option fmt_proxy_credentials (px_credentials c));
     FField "tls_to_proxy" (FBool (px_tls_to_proxy c))].

(** ** [signin.rs] *)
Definition fmt_sign_in_outcome (o : SignInOutcome) : Fmt :=
  match o with
  | Success steam_id _ access_token =>
      FStruct "Success"
        [FField "steam_id" (FInt steam_id); FField "refresh_token" (FStr (as_bytes "<redacted>"));
         FField "access_token" (fmt_option FStr ((λ _, as_bytes "<redacted>") <$> access_token))]
  | NeedsMobileGuardCode => FWord "NeedsMobileGuardCode"
  | GuardCodeRejected => FWord "GuardCodeRejected"
  | NeedsEmailGuardCode email_domain =>
      FStruct "NeedsEmailGuardCode" [FField "email_domain" (FStr email_domain)]
  | InvalidCredentials => FWord "InvalidCredentials"
  | TokenRejected => FWord "TokenRejected"
  | RateLimited retry_hint =>
      FStruct "RateLimited" [FField "retry_hint" (fmt_option FDuration retry_hint)]
  end.

(** The builder. *)
Record SignInBuilder := {
  sb_credentials : Credentials;
  sb_proxy : option ProxyConfig
}.
Definition with_password (account pass : bstr) : SignInBuilder :=
  {| sb_credentials := password account pass None; sb_proxy := None |}.
Definition with_refresh_token (token : bstr) : SignInBuilder :=
  {| sb_credentials := refresh_token token; sb_proxy := None |}.
Definition shared_secret (b : SignInBuilder) (secret : bstr) : SignInBuilder :=
  match sb_credentials b with
  | Password p =>
      {| sb_credentials := Password {| pw_account_name := pw_account_name p;
                                       pw_password := pw_password p;
                                       pw_shared_secret := Some secret |};
         sb_proxy := sb_proxy b |}
  | RefreshToken _ => b
  end.
Definition proxy (b : SignInBuilder) (p : ProxyConfig) : SignInBuilder :=
  {| sb_credentials := sb_credentials b; sb_proxy := Some p |}.
(** [#[derive(Debug)]]. *)
Definition fmt_sign_in (b : SignInBuilder) : Fmt :=
  FStruct "SignIn" [FField "credentials" (fmt_credentials (sb_credentials b));
                    FField "proxy" (fmt_option fmt_proxy_config (sb_proxy b))].

(** ** What an observer of the logs may tell apart *)

(** Both present or both absent. *)
Definition same_presence {A} (o1 o2 : option A) : Prop := is_Some o1 ↔ is_Some o2.

Definition credentials_public (c1 c2 : Credentials) : Prop :=
  match c1, c2 with
  | Password p1, Password p2 =>
      pw_account_name p1 = pw_account_name p2 ∧
      same_presence (pw_shared_secret p1) (pw_shared_secret p2)
  | RefreshToken _, RefreshToken _ => True
  | _, _ => False
  end.
Definition proxy_public (c1 c2 : ProxyConfig) : Prop :=
  px_kind c1 = px_kind c2 ∧ px_host c1 = px_host c2 ∧ px_port c1 = px_port c2 ∧
  px_tls_to_proxy c1 = px_tls_to_proxy c2 ∧
  pc_username <$> px_credentials c1 = pc_username <$> px_credentials c2.
Definition outcome_public (o1 o2 : SignInOutcome) : Prop :=
  match o1, o2 with
  | Success id1 _ a1, Success id2 _ a2 => id1 = id2 ∧ same_presence a1 a2
  | _, _ => o1 = o2
  end.
Definition sign_in_public (b1 b2 : SignInBuilder) : Prop :=
  credentials_public (sb_credentials b1) (sb_credentials b2) ∧
  option_Forall2 proxy_public (sb_proxy b1) (sb_proxy b2).

Lemma same_presence_const {A B} (o1 o2 : option A) (b : B) :
  same_presence o1 o2 ↔ (λ _, b) <$> o1 = (λ _, b) <$> o2.
Proof.
  unfold same_presence. destruct o1 as [a1|], o2 as [a2|]; cbn; split; intros HH; try done.
  - destruct HH as [HH _]. by destruct HH.
  - destruct HH as [_ HH]. by destruct HH.
Qed.

Lemma fmt_option_inj {A} (f : A → Fmt) o1 o2 :
  (∀ a b, f a = f b → a = b) → fmt_option f o1 = fmt_option f o2 ↔ o1 = o2.
Proof.
  intros Hf. split; [|by intros ->]. destruct o1, o2; cbn; try done. intros [= H]. f_equal. by apply Hf.
Qed.

Lemma fmt_option_iff {A} (f : A → Fmt) (R : A → A → Prop) o1 o2 :
  (∀ a b, f a = f b ↔ R a b) → fmt_option f o1 = fmt_option f o2 ↔ option_Forall2 R o1 o2.
Proof.
  intros Hf. split.
  - destruct o1, o2; cbn; try done; intros Heq; constructor. apply Hf. by injection Heq.
  - destruct 1 as [a b Hab|]; cbn; [|done]. apply Hf in Hab. by rewrite Hab.
Qed.

Lemma fmt_credentials_public c1 c2 : fmt_credentials c1 = fmt_credentials c2 ↔ credentials_public c1 c2.
Proof.
  destruct c1 as [p1|t1], c2 as [p2|t2]; cbn; [|done..].
  rewrite (same_presence_const _ _ REDACTED). unfold fmt_password_credentials. split.
  - intros Heq. injection Heq as Ha Hs. split; [done|]. apply (fmt_option_inj FStr); [by intros ? ? [=]|done].
  - intros [-> ->]. done.
Qed.

Lemma fmt_proxy_config_public c1 c2 : fmt_proxy_config c1 = fmt_proxy_config c2 ↔ proxy_public c1 c2.
Proof.
  unfold fmt_proxy_config, proxy_public.
  assert (∀ o1 o2, fmt_option fmt_proxy_credentials o1 = fmt_option fmt_proxy_credentials o2 ↔
    pc_username <$> o1 = pc_username <$> o2) as Hc.
  { intros [c|] [c'|]; cbn; split; try done; unfold fmt_proxy_credentials; intros [= ->]; done. }
  split.
  - intros Heq. injection Heq as Hk Hh Hp Hcr Ht. apply Hc in Hcr. split_and!; try done.
    by destruct (px_kind c1), (px_kind c2).
  - intros (-> & -> & -> & -> & Hcr%Hc). by rewrite Hcr.
Qed.

(** C37: Logs leak no secret and hide nothing else: two sign-ins print the same [Debug] output
    exactly when they agree on what is public (account name, whether a second factor is set,
    proxy address and user name), and so do two outcomes (account id, whether there is an
    access token); passwords, shared secrets, refresh tokens and access tokens never make a
    difference. *)
Theorem debug_reveals_exactly_the_public :
  (∀ b1 b2, fmt_sign_in b1 = fmt_sign_in b2 ↔ sign_in_public b1 b2) ∧
  (∀ o1 o2, fmt_sign_in_outcome o1 = fmt_sign_in_outcome o2 ↔ outcome_public o1 o2).
Proof.
  split.
  - intros [c1 p1] [c2 p2]. unfold fmt_sign_in, sign_in_public. cbn. rewrite <-fmt_credentials_public.
    rewrite <-(fmt_option_iff _ _ _ _ fmt_proxy_config_public).
    generalize (fmt_credentials c1), (fmt_credentials c2), (fmt_option fmt_proxy_config p1),
      (fmt_option fmt_proxy_config p2). intros f1 f2 g1 g2. split; [by intros [= -> ->]|by intros [-> ->]].
  - intros o1 o2. destruct o1, o2; cbn [fmt_sign_in_outcome outcome_public]; split; try done;
      try (by intros [=]).
    + intros Heq. injection Heq as -> Ha. split; [done|]. apply (same_presence_const _ _ (as_bytes "<redacted>")).
      apply (fmt_option_inj FStr); [by intros ? ? [=]|done].
    + intros [-> Ha]. apply (same_presence_const _ _ (as_bytes "<redacted>")) in Ha. by rewrite Ha.
    + by intros [= ->].
    + by intros [= ->].
    + intros Heq. injection Heq as Hr. f_equal. apply (fmt_option_inj FDuration); [by intros ? ? [=]|done].
    + by intros [= ->].
Qed.

(** ** The builder *)

(** The builder's steps commute and the last one of a kind wins; a shared secret is kept
    only where there is a password it can accompany. *)
Theorem builder_steps b s s' p p' :
  proxy (shared_secret b s) p = shared_secret (proxy b p) s ∧
  shared_secret (shared_secret b s) s' = shared_secret b s' ∧
  proxy (proxy b p) p' = proxy b p' ∧
  (∀ token, shared_secret (with_refresh_token token) s = with_refresh_token token) ∧
  (∀ account pass, sb_credentials (shared_secret (with_password account pass) s) =
                   password account pass (Some s)).
Proof. destruct b as [[c|t] px]; by split_and!. Qed.
