(* ===== verification/Gc.v ===== *)
(** * [src/gc/]: the Game Coordinator relay

    [envelope.rs] (GC frames nested in [CMsgGCClient]) and [coordinator.rs] (the
    pump that tracks readiness, and type-correlated requests).  The pump's
    [select!] loop is a step function on events; what it sends through the
    session is a log. *)
From S2P Require Import Prelude Errors Proto Wire Codec Connection Driver.
#[local] Set Default Goal Selector "!".

(** ** [gc/mod.rs] and [envelope.rs] *)
Definition GC_CLIENT_WELCOME : Z := 4004.
Definition GC_CLIENT_HELLO : Z := 4006.
Definition GC_CLIENT_CONNECTION_STATUS : Z := 4009.
Definition EMSG_CLIENT_TO_GC : Z := 5452.
Definition EMSG_CLIENT_FROM_GC : Z := 5453.

Record GcMessage := {
  gm_appid : Z;
  gm_msgtype : Z;
  gm_header : GcHeader;
  gm_body : list byte
}.

Definition jobid_target (m : GcMessage) : option Z :=
  opt_filter (λ j, negb (j =? 0) && negb (j =? u64_max)) (gh_job_id_target (gm_header m)).

Section envelope.
Context `{Message GcHeader, Message CMsgGcClient}.

Definition wrap (appid msgtype : Z) (header : GcHeader) (body : list byte) : CMsgGcClient :=
  let payload := encode_raw msgtype header body in
  {| gcc_appid := Some appid; gcc_msgtype := Some (Z.lor msgtype PROTO_MASK);
     gcc_payload := Some payload; gcc_rest := [] |}.

Definition unwrap (msg : SteamMessage) : panicking (Result (option GcMessage)) :=
  match map_err (λ e, Codec ("decode CMsgGCClient: " +:+ e)) (msg_decode (sm_body msg)) with
  | Err e => Some (Err e)
  | Ok client =>
      let appid := unwrap_or (gcc_appid client) 0 in
      let payload := unwrap_or (gcc_payload client) [] in
      parts ← unframe payload;
      Some (match parts with
            | Err e => Err e
            | Ok None => Ok None
            | Ok (Some parts) =>
                header ← map_err (λ e, Codec ("decode GC header: " +:+ e))
                                 (msg_decode (fp_header parts));
                Ok (Some {| gm_appid := appid; gm_msgtype := fp_msg_type parts;
                            gm_header := header; gm_body := fp_body parts |})
            end)
  end.
End envelope.

(** ** [coordinator.rs] *)
Definition EMSG_CLIENT_GAMES_PLAYED : Z := 742.
Definition GC_EVENT_CAPACITY : nat := 64.
Definition HELLO_RETRY_INTERVAL : Z := from_secs 2.
Definition MAX_HELLO_ATTEMPTS : Z := 20.
(** [GcConnectionStatus::HaveSession]. *)
Definition HAVE_SESSION : Z := 0.

Record GamesPlayed := { gp_game_ids : list (option Z) }.
Record ClientHello := {
  ch_version : option Z;
  ch_client_session_need : option Z;
  ch_client_launcher : option Z;
  ch_steam_launcher : option Z
}.
Record ConnectionStatus := { cst_status : option Z }.

(** A message handed to [SessionHandle::notify]. *)
Inductive Notified :=
  | NGamesPlayed (emsg : Z) (m : GamesPlayed)
  | NToGc (emsg : Z) (m : CMsgGcClient).

Section coordinator.
Context `{Message GcHeader, Message CMsgGcClient, Message ClientHello, Message ConnectionStatus}.
Context (appid hello_version : Z).

Definition hello_envelope : CMsgGcClient :=
  let body := {| ch_version := Some hello_version; ch_client_session_need := Some 0;
                 ch_client_launcher := Some 0; ch_steam_launcher := Some 0 |} in
  wrap appid GC_CLIENT_HELLO gc_header_default (encode_to_vec body).

(** [send_hello] and [launch]: what they hand to the session.  [launch] stops if
    announcing the game fails ([announced] is that write's outcome). *)
Definition send_hello : list Notified := [NToGc EMSG_CLIENT_TO_GC hello_envelope].
Definition launch (announced : Result unit) : list Notified :=
  NGamesPlayed EMSG_CLIENT_GAMES_PLAYED {| gp_game_ids := [Some appid] |} ::
  (if is_ok announced then send_hello else []).

Definition has_gc_session (body : list byte) : bool :=
  match msg_decode body with
  | Ok status => match cst_status status with
                 | None => true
                 | Some s => s =? HAVE_SESSION
                 end
  | Err _ => false
  end.

(** *** The pump *)
Record Pump := {
  pu_ready : bool;
  pu_hello_attempts : Z;
  pu_next_hello : Instant;
  pu_published : bool;
  pu_sent : list Notified;
  pu_events : list GcMessage;
  pu_running : bool
}.

(** What wakes the pump. *)
Inductive PumpEvent :=
  | CoordinatorsDropped
  | StateChanged (state : SessionState) (announced : Result unit)
  | StateGone
  | HelloTick
  | FromSession (msg : SteamMessage)
  | Lagged
  | Closed.

Definition pump_start (now : Instant) : Pump :=
  {| pu_ready := false; pu_hello_attempts := 0; pu_next_hello := now + HELLO_RETRY_INTERVAL;
     pu_published := false; pu_sent := []; pu_events := []; pu_running := true |}.
Definition pump_stop (p : Pump) : Pump :=
  {| pu_ready := pu_ready p; pu_hello_attempts := pu_hello_attempts p;
     pu_next_hello := pu_next_hello p; pu_published := pu_published p; pu_sent := pu_sent p;
     pu_events := pu_events p; pu_running := false |}.
(** Readiness lost: the hello budget is re-armed and the loss published. *)
Definition lose_ready (now : Instant) (p : Pump) : Pump :=
  {| pu_ready := false; pu_hello_attempts := 0; pu_next_hello := now + HELLO_RETRY_INTERVAL;
     pu_published := false; pu_sent := pu_sent p; pu_events := pu_events p;
     pu_running := pu_running p |}.
Definition gain_ready (p : Pump) : Pump :=
  {| pu_ready := true; pu_hello_attempts := pu_hello_attempts p; pu_next_hello := pu_next_hello p;
     pu_published := true; pu_sent := pu_sent p; pu_events := pu_events p;
     pu_running := pu_running p |}.
Definition notify_all (p : Pump) (ns : list Notified) : Pump :=
  {| pu_ready := pu_ready p; pu_hello_attempts := pu_hello_attempts p;
     pu_next_hello := pu_next_hello p; pu_published := pu_published p; pu_sent := pu_sent p ++ ns;
     pu_events := pu_events p; pu_running := pu_running p |}.
Definition broadcast (p : Pump) (m : GcMessage) : Pump :=
  {| pu_ready := pu_ready p; pu_hello_attempts := pu_hello_attempts p;
     pu_next_hello := pu_next_hello p; pu_published := pu_published p; pu_sent := pu_sent p;
     pu_events := pu_events p ++ [m]; pu_running := pu_running p |}.

(** [hello.tick()]: the next tick is one interval after this one. *)
Definition on_tick (now : Instant) (p : Pump) : Pump :=
  let p := {| pu_ready := pu_ready p; pu_hello_attempts := pu_hello_attempts p;
              pu_next_hello := now + HELLO_RETRY_INTERVAL; pu_published := pu_published p;
              pu_sent := pu_sent p; pu_events := pu_events p; pu_running := pu_running p |} in
  if negb (pu_ready p) && (pu_hello_attempts p <? MAX_HELLO_ATTEMPTS) then
    {| pu_ready := pu_ready p; pu_hello_attempts := pu_hello_attempts p + 1;
       pu_next_hello := pu_next_hello p; pu_published := pu_published p;
       pu_sent := pu_sent p ++ send_hello; pu_events := pu_events p; pu_running := pu_running p |}
  else p.

(** A GC message of this app. *)
Definition on_gc_message (now : Instant) (p : Pump) (gc_msg : GcMessage) : Pump :=
  let p :=
    if decide (gm_msgtype gc_msg = GC_CLIENT_WELCOME) then gain_ready p
    else if decide (gm_msgtype gc_msg = GC_CLIENT_CONNECTION_STATUS) then
      if has_gc_session (gm_body gc_msg) then p else lose_ready now p
    else p in
  broadcast p gc_msg.

(** [None]: not enabled (stopped, or the timer has not expired), or a panic. *)
Definition pump_step (now : Instant) (p : Pump) (ev : PumpEvent) : option Pump :=
  if pu_running p then
    match ev with
    | CoordinatorsDropped | StateGone | Closed => Some (pump_stop p)
    | StateChanged state announced =>
        let ready_again := is_ready state in
        let p := lose_ready now p in
        Some (if ready_again then notify_all p (launch announced) else p)
    | HelloTick => if decide (pu_next_hello p ≤ now) then Some (on_tick now p) else None
    | FromSession steam_msg =>
        if decide (sm_emsg steam_msg ≠ EMSG_CLIENT_FROM_GC) then Some p
        else
          r ← unwrap steam_msg;
          Some (match r with
                | Ok (Some gc_msg) => if decide (gm_appid gc_msg = appid)
                                      then on_gc_message now p gc_msg else p
                | _ => p
                end)
    | Lagged => Some p
    end
  else None.

Fixpoint pump_run (p : Pump) (evs : list (Instant * PumpEvent)) : option Pump :=
  match evs with
  | [] => Some p
  | (now, ev) :: evs => p ← pump_step now p ev; pump_run p evs
  end.

(** *** Requests *)

(** What [rx.recv()] yields to a waiting request. *)
Inductive GcRecv :=
  | RMsg (m : GcMessage)
  | RLagged
  | RClosed.

(** The wait loop of [request_matching] over what arrives within the budget;
    [Err (Timeout ..)] when none of it settles the request. *)
Fixpoint await_matching {Resp} `{Message Resp} (response_type : Z) (accept : Resp → bool)
    (arrivals : list GcRecv) : Result Resp :=
  match arrivals with
  | [] => Err (Timeout "GC response")
  | RMsg m :: rest =>
      if decide (gm_msgtype m = response_type) then
        match map_err (λ e, Codec ("decode GC response: " +:+ e)) (msg_decode (gm_body m)) with
        | Err e => Err e
        | Ok decoded => if accept decoded then Ok decoded
                        else await_matching response_type accept rest
        end
      else await_matching response_type accept rest
  | RLagged :: rest => await_matching response_type accept rest
  | RClosed :: _ => Err (WebSocket "GC pump stopped")
  end.

(** [wait_ready]: the readiness values seen, in order, before the timer; [None] in
    the list is the pump going away. *)
Fixpoint wait_ready (current : bool) (changes : list (option bool)) : Result unit :=
  if current then Ok tt
  else match changes with
       | [] => Err (Timeout "GC welcome")
       | None :: _ => Err (WebSocket "GC pump stopped")
       | Some r :: rest => wait_ready r rest
       end.

(** [send]. *)
Definition gc_send {M} `{Message M} (msgtype : Z) (body : M) : list Notified :=
  [NToGc EMSG_CLIENT_TO_GC (wrap appid msgtype gc_header_default (encode_to_vec body))].

(** [request_matching]: readiness first, then the send, then the wait; the second
    component is what was handed to the session. *)
Definition request_matching {Req Resp} `{Message Req, Message Resp} (send_type : Z) (body : Req)
    (response_type : Z) (accept : Resp → bool) (current : bool) (changes : list (option bool))
    (sent : Result unit) (arrivals : list GcRecv) : Result Resp * list Notified :=
  match wait_ready current changes with
  | Err e => (Err e, [])
  | Ok _ => (_ ← sent; await_matching response_type accept arrivals, gc_send send_type body)
  end.
(** [request]. *)
Definition gc_request {Req Resp} `{Message Req, Message Resp} (send_type : Z) (body : Req)
    (response_type : Z) (current : bool) (changes : list (option bool)) (sent : Result unit)
    (arrivals : list GcRecv) : Result Resp * list Notified :=
  request_matching send_type body response_type (λ _, true) current changes sent arrivals.
End coordinator.

(** ** Envelope theorems *)
Section envelope_laws.
Context `{Message GcHeader, Message CMsgGcClient}.

Lemma unwrap_total msg :
  ∃ r, unwrap msg = Some r ∧ (∀ e, r = Err e → is_codec e = true).
Proof.
  unfold unwrap. destruct (msg_decode (sm_body msg)) as [client|e]; cbn [map_err];
    [|eexists; split; [done|]; by intros ? [= <-]].
  destruct (unframe_total (unwrap_or (gcc_payload client) [])) as [r Hr]. rewrite Hr.
  cbn [mbind option_bind]. eexists. split; [done|]. intros e.
  destruct r as [[parts|]|e']; [| done |].
  - destruct (msg_decode (fp_header parts)); cbn; [done|]. by intros [= <-].
  - intros [= <-]. by eapply unframe_err.
Qed.

Context `{!MessageLaws GcHeader, !MessageLaws CMsgGcClient}.

Lemma wrap_wf appid msgtype header body :
  in_u 32 appid → in_u 31 msgtype → msg_wf (wrap appid msgtype header body).
Proof.
  intros Ha [Hlo Hhi]. unfold msg_wf, gc_client_wf, wrap. cbn. split; [done|].
  change PROTO_MASK with (2 ^ 31). rewrite lor_pow2 by lia. unfold in_u. lia.
Qed.

(** A GC message survives the relay: what [wrap] nests in the envelope, [unwrap]
    takes out again, with the app id, the bare message type, the header and the body
    bytes unchanged. *)
Theorem gc_envelope_round_trip appid msgtype (header : GcHeader) body emsg (h : CMsgProtoBufHeader) :
  in_u 32 appid → in_u 31 msgtype → msg_wf header → encoded_len header < 2 ^ 32 →
  unwrap {| sm_emsg := emsg; sm_header := h;
            sm_body := encode_to_vec (wrap appid msgtype header body) |} =
    Some (Ok (Some {| gm_appid := appid; gm_msgtype := msgtype; gm_header := header;
                      gm_body := body |})).
Proof.
  intros Ha Ht Hh Hlen. unfold unwrap. cbn [sm_body].
  rewrite decode_encode by by apply wrap_wf. cbn [map_err wrap gcc_payload gcc_appid unwrap_or].
  rewrite encode_raw_frame by done. rewrite unframe_frame_of by by apply encode_raw_parts_wf.
  cbn [mbind option_bind fp_header fp_msg_type fp_body]. rewrite decode_encode by done. cbn.
  by rewrite Z.mod_small.
Qed.
End envelope_laws.

(** ** Pump theorems *)
Section pump_laws.
Context `{Message GcHeader, Message CMsgGcClient, Message ClientHello, Message ConnectionStatus}.
Context (appid hello_version : Z).

(** The GC message of this app an event carries. *)
Definition own_message (ev : PumpEvent) : option GcMessage :=
  match ev with
  | FromSession msg =>
      if decide (sm_emsg msg = EMSG_CLIENT_FROM_GC) then
        match unwrap msg with
        | Some (Ok (Some m)) => if decide (gm_appid m = appid) then Some m else None
        | _ => None
        end
      else None
  | _ => None
  end.

(** The abstract readiness signal: a session change or a lost GC session clears it,
    a welcome sets it, nothing else touches it. *)
Definition readiness_signal (ev : PumpEvent) : option bool :=
  match ev with
  | StateChanged _ _ => Some false
  | _ => m ← own_message ev;
         if decide (gm_msgtype m = GC_CLIENT_WELCOME) then Some true
         else if decide (gm_msgtype m = GC_CLIENT_CONNECTION_STATUS)
         then if has_gc_session (gm_body m) then None else Some false
         else None
  end.
Definition readiness_after (ready : bool) (evs : list (Instant * PumpEvent)) : bool :=
  foldl (λ r ev, default r (readiness_signal ev.2)) ready evs.

Lemma pump_step_spec now p ev p' :
  pump_step appid hello_version now p ev = Some p' →
  pu_ready p' = default (pu_ready p) (readiness_signal ev) ∧
  pu_published p' = default (pu_published p) (readiness_signal ev) ∧
  pu_events p' = pu_events p ++ option_list (own_message ev).
Proof.
  unfold pump_step. destruct (pu_running p); [|done].
  destruct ev as [|state ann| | |msg| |]; try (intros [= <-]; cbn; by rewrite app_nil_r).
  - intros [= <-]. destruct (is_ready state); cbn; by rewrite app_nil_r.
  - case_decide; [|done]. intros [= <-]. unfold on_tick. cbn.
    destruct (negb (pu_ready p) && _); cbn; by rewrite app_nil_r.
  - unfold readiness_signal, own_message. case_decide as He.
    { intros [= <-]. rewrite decide_False by done. cbn. by rewrite app_nil_r. }
    rewrite decide_True by done.
    destruct (unwrap msg) as [[[m|]|e]|]; cbn [mbind option_bind]; [| |by intros [= <-]; rewrite app_nil_r|done].
    2: { intros [= <-]. cbn. by rewrite app_nil_r. }
    case_decide as Ha; intros [= <-]; cbn [mbind option_bind]; [|cbn; by rewrite app_nil_r].
    unfold on_gc_message. case_decide; [done|]. case_decide; [|done].
    by destruct (has_gc_session (gm_body m)).
Qed.

Lemma pump_run_spec p evs p' :
  pump_run appid hello_version p evs = Some p' → pu_published p = pu_ready p →
  pu_ready p' = readiness_after (pu_ready p) evs ∧ pu_published p' = pu_ready p' ∧
  pu_events p' = pu_events p ++ omap (λ ev, own_message ev.2) evs.
Proof.
  revert p. induction evs as [|[now ev] evs IH]; intros p; cbn [pump_run].
  { intros [= <-] Hp. cbn. by rewrite app_nil_r. }
  destruct (pump_step _ _ now p ev) as [p1|] eqn:Hs; cbn [mbind option_bind]; [|done].
  intros Hrun Hp. apply pump_step_spec in Hs as (Hr & Hpub & Hev).
  destruct (IH p1 Hrun) as (Hr' & Hpub' & Hev'); [by rewrite Hr, Hpub, Hp|].
  split; [|split; [done|]].
  - by rewrite Hr', Hr.
  - rewrite Hev', Hev, <-app_assoc. cbn. by destruct (own_message ev).
Qed.

(** C20: The pump implements its abstract signal: whatever the order of messages, session
    changes, ticks and lags, the readiness it holds and publishes is the latest verdict
    of the GC and the session (welcome, or lost), and its subscribers receive exactly
    this app's GC messages, in order. *)
Theorem pump_refines_signal p evs p' :
  pump_run appid hello_version p evs = Some p' → pu_published p = pu_ready p →
  pu_ready p' = readiness_after (pu_ready p) evs ∧ pu_published p' = pu_ready p' ∧
  pu_events p' = pu_events p ++ omap (λ ev, own_message ev.2) evs.
Proof. apply pump_run_spec. Qed.


End pump_laws.

(** ** Request theorems *)
Section request_laws.
Context `{Message GcHeader, Message CMsgGcClient} {Req Resp : Type} `{Message Req, Message Resp}.

(** An arrival the wait loop passes over. *)
Definition passed_over (response_type : Z) (accept : Resp → bool) (a : GcRecv) : Prop :=
  match a with
  | RLagged => True
  | RClosed => False
  | RMsg m => gm_msgtype m = response_type →
              ∃ d, msg_decode (gm_body m) = Ok d ∧ accept d = false
  end.

Lemma await_matching_skip response_type accept pre rest :
  Forall (passed_over response_type accept) pre →
  await_matching response_type accept (pre ++ rest) = await_matching response_type accept rest.
Proof.
  intros Hpre. induction Hpre as [|a pre Ha _ IH]; [done|]. cbn [app await_matching].
  destruct a as [m| |]; [|done|done]. case_decide as Ht; [|done].
  destruct (Ha Ht) as (d & -> & Hd). cbn [map_err]. by rewrite Hd.
Qed.

(** A GC request is answered by exactly the first reply it accepts: earlier messages
    of other types, replies its filter rejects and lag notices are passed over, so
    requests that filter on what the GC echoes never take each other's replies; and
    nothing is sent before the GC has welcomed the session. *)
Theorem request_matching_exact appid send_type (body : Req) response_type (accept : Resp → bool)
    current changes sent arrivals d :
  (request_matching appid send_type body response_type accept current changes sent arrivals).1 = Ok d ↔
  wait_ready current changes = Ok tt ∧ sent = Ok tt ∧
  ∃ pre m post, arrivals = pre ++ RMsg m :: post ∧ Forall (passed_over response_type accept) pre ∧
    gm_msgtype m = response_type ∧ msg_decode (gm_body m) = Ok d ∧ accept d = true.
Proof.
  unfold request_matching.
  assert (∀ arrivals, await_matching response_type accept arrivals = Ok d ↔
    ∃ pre m post, arrivals = pre ++ RMsg m :: post ∧ Forall (passed_over response_type accept) pre ∧
      gm_msgtype m = response_type ∧ msg_decode (gm_body m) = Ok d ∧ accept d = true) as Haw.
  { clear arrivals. intros arrivals. split.
    - induction arrivals as [|a arrivals IH]; cbn; [done|].
      assert (passed_over response_type accept a → await_matching response_type accept arrivals = Ok d →
        ∃ pre m post, a :: arrivals = pre ++ RMsg m :: post ∧
          Forall (passed_over response_type accept) pre ∧ gm_msgtype m = response_type ∧
          msg_decode (gm_body m) = Ok d ∧ accept d = true) as Hskip.
      { intros Ha Hrest. destruct (IH Hrest) as (pre & m & post & -> & Hpre & Hm).
        exists (a :: pre), m, post. split; [done|]. split; [by constructor|done]. }
      destruct a as [m| |]; [|by apply Hskip|done]. case_decide as Ht; [|apply Hskip; by intros ?].
      destruct (msg_decode (gm_body m)) as [d'|] eqn:Hd; cbn [map_err]; [|done].
      destruct (accept d') eqn:Hacc; [|by apply Hskip; intros _; exists d'].
      intros [= ->]. exists [], m, arrivals. by split_and!.
    - intros (pre & m & post & -> & Hpre & Ht & Hd & Hacc). rewrite await_matching_skip by done.
      cbn [await_matching]. rewrite decide_True by done. rewrite Hd. cbn [map_err]. by rewrite Hacc. }
  destruct (wait_ready current changes) as [[]|e]; cbn [fst].
  2: { split; [done|]. intros (Hw & _). discriminate Hw. }
  rewrite bind_ok. split.
  - intros ([] & Hs & Hr). split; [done|]. split; [done|]. by apply Haw.
  - intros (_ & Hs & Hr). exists tt. split; [done|]. by apply Haw.
Qed.
End request_laws.

(** ** [src/cs2.rs] *)
Definition APP_ID : Z := 730.
Definition GC_HELLO_VERSION : Z := 2000244.
Definition GC_CLIENT_REQUEST_PLAYERS_PROFILE : Z := 9127.
Definition GC_PLAYERS_PROFILE : Z := 9128.
Definition REQUEST_LEVEL : Z := 32.

Record ProfileRequest := { prq_account_id : option Z; prq_request_level : option Z }.
Record Ranking := { rk_rank_id : option Z; rk_wins : option Z }.
Record Medals := { md_display_items : list Z; md_featured : option Z }.
Record AccountProfile := {
  ap_account_id : option Z;
  ap_ranking : option Ranking;
  ap_player_level : option Z;
  ap_player_cur_xp : option Z;
  ap_medals : option Medals
}.
Record PlayersProfile := { pp_account_profiles : list AccountProfile }.

Record PlayerProfile := {
  pf_account_id : Z;
  pf_level : Z;
  pf_current_xp : Z;
  pf_competitive_rank : option Z;
  pf_competitive_wins : option Z;
  pf_medals : list Z;
  pf_featured_medal : option Z
}.

Definition account_id_from_steam_id (steam_id : Z) : Z := wrap_u 32 steam_id.

Definition profile_of (account_id : Z) (p : AccountProfile) : bool :=
  bool_decide (ap_account_id p = Some account_id).
Definition find_profile (account_id : Z) (r : PlayersProfile) : option AccountProfile :=
  List.find (profile_of account_id) (pp_account_profiles r).
Definition to_profile (account_id : Z) (p : AccountProfile) : PlayerProfile :=
  let '(medals, featured) := match ap_medals p with
                             | Some m => (md_display_items m, md_featured m)
                             | None => ([], None)
                             end in
  {| pf_account_id := account_id; pf_level := unwrap_or (ap_player_level p) 0;
     pf_current_xp := unwrap_or (ap_player_cur_xp p) 0;
     pf_competitive_rank := ap_ranking p ≫= rk_rank_id;
     pf_competitive_wins := ap_ranking p ≫= rk_wins;
     pf_medals := medals; pf_featured_medal := featured |}.

Section cs2.
Context `{Message GcHeader, Message CMsgGcClient, Message ProfileRequest, Message PlayersProfile}.

Definition request_player_profile (gc_appid account_id : Z) (current : bool)
    (changes : list (option bool)) (sent : Result unit) (arrivals : list GcRecv) :
    Result PlayerProfile * list Notified :=
  if decide (gc_appid ≠ APP_ID) then
    (Err (InvalidConfig ("GameCoordinator is attached to app " +:+ pretty gc_appid
                         +:+ ", not CS2 (" +:+ pretty APP_ID +:+ ")")), [])
  else
    let '(response, notified) :=
      request_matching gc_appid GC_CLIENT_REQUEST_PLAYERS_PROFILE
        {| prq_account_id := Some account_id; prq_request_level := Some REQUEST_LEVEL |}
        GC_PLAYERS_PROFILE (λ r, existsb (profile_of account_id) (pp_account_profiles r))
        current changes sent arrivals in
    (response ← response;
     profile ← ok_or (find_profile account_id response)
       (Network ("GC PlayersProfile carried no profile for account " +:+ pretty account_id));
     Ok (to_profile account_id profile), notified).

Lemma find_profile_accepted account_id r :
  existsb (profile_of account_id) (pp_account_profiles r) = true →
  ∃ p, find_profile account_id r = Some p ∧ ap_account_id p = Some account_id.
Proof.
  intros (p & Hp & Hid)%existsb_exists. unfold find_profile.
  destruct (List.find (profile_of account_id) (pp_account_profiles r)) as [q|] eqn:Hf.
  - exists q. split; [done|]. apply find_some in Hf as [_ Hq]. by apply bool_decide_eq_true in Hq.
  - by rewrite (find_none _ _ Hf p Hp) in Hid.
Qed.

Lemma await_matching_accepts {Resp} `{Message Resp} response_type (accept : Resp → bool) arrivals d :
  await_matching response_type accept arrivals = Ok d → accept d = true.
Proof.
  induction arrivals as [|[m| |] arrivals IH]; cbn; [done| |done|done]. case_decide; [|done].
  destruct (msg_decode (gm_body m)) as [d'|]; cbn; [|done].
  destruct (accept d') eqn:Ha; [|done]. by intros [= <-].
Qed.

(** A CS2 profile request never reports another player's profile and its "carried no
    profile" error cannot happen: the reply accepted for an account always contains that
    account, and the profile returned is that entry's. *)
Theorem player_profile_is_the_requested gc_appid account_id current changes sent arrivals :
  match (request_player_profile gc_appid account_id current changes sent arrivals).1 with
  | Ok profile => gc_appid = APP_ID ∧ ∃ r p, p ∈ pp_account_profiles r ∧
      ap_account_id p = Some account_id ∧ profile = to_profile account_id p
  | Err e => ∀ s, e ≠ Network s ∨ sent = Err e
  end.
Proof.
  unfold request_player_profile. case_decide as Ha; [by left|]. cbn.
  unfold request_matching.
  destruct (wait_ready current changes) as [[]|e] eqn:Hw; cbn.
  2: { intros s. left. revert Hw. clear. revert current.
       induction changes as [|[r|] changes IH]; intros []; cbn; try done; try (by intros [= <-]). apply IH. }
  destruct sent as [[]|e]; cbn; [|by right].
  destruct (await_matching _ _ _) as [r|e] eqn:Hr; cbn.
  - apply await_matching_accepts in Hr as Hacc.
    destruct (find_profile_accepted _ _ Hacc) as (p & Hp & Hid). rewrite Hp. cbn. split; [done|].
    exists r, p. split_and!; [|done|done]. unfold find_profile in Hp.
    by apply find_some in Hp as [Hin%list_elem_of_In _].
  - intros s. left. revert Hr. clear. induction arrivals as [|[m| |] arrivals IH]; cbn;
      [by intros [= <-]| |done|by intros [= <-]].
    case_decide; [|done]. destruct (msg_decode (gm_body m)) as [d|]; cbn; [|by intros [= <-]].
    by destruct (existsb _ _).
Qed.
End cs2.

(** ** Concrete runs *)
Section witnesses.
Import Wire.Instances.
#[local] Existing Instances gc_header_message_laws gc_client_message_laws.

#[local] Instance status_wire : Message ConnectionStatus :=
  wire_message (w_iso Build_ConnectionStatus cst_status (w_option (w_int 4))).
#[local] Instance hello_wire : Message ClientHello :=
  {| encode_to_vec := λ _, []; encoded_len := λ _, 0; msg_decode := λ _, Err "unused"%string |}.

Definition relayed (appid msgtype : Z) (body : list byte) : SteamMessage :=
  {| sm_emsg := EMSG_CLIENT_FROM_GC; sm_header := header_default;
     sm_body := encode_to_vec (wrap appid msgtype gc_header_default body) |}.

Lemma gc_envelope_round_trip_witness :
  unwrap (relayed 730 9127 [x08; x01]) =
    Some (Ok (Some {| gm_appid := 730; gm_msgtype := 9127; gm_header := gc_header_default;
                      gm_body := [x08; x01] |})).
Proof.
  apply gc_envelope_round_trip; [split; lia|split; lia| |by vm_compute].
  unfold msg_wf, gc_header_wf. by split.
Defined.

(** A welcome, a message of another app, a tick, then the GC loses the session. *)
Definition sample_run : list (Instant * PumpEvent) :=
  [(10, FromSession (relayed 730 4004 [])); (20, FromSession (relayed 570 9127 []));
   (2500, HelloTick); (2600, FromSession (relayed 730 4009
      (encode_to_vec {| cst_status := Some 2 |})))].
Definition after_sample (n : nat) : Pump :=
  default (pump_start 0) (pump_run 730 2000244 (pump_start 0) (take n sample_run)).

Lemma pump_refines_signal_witness :
  pu_ready (after_sample 3) = true ∧ pu_published (after_sample 4) = pu_ready (after_sample 4).
Proof.
  split; [by vm_compute|].
  apply (pump_refines_signal 730 2000244 (pump_start 0) sample_run); by vm_compute.
Defined.

End witnesses.
