(* ===== verification/GcSystem.v ===== *)
(** * The Game Coordinator's pump over a running session

    [GameCoordinator::attach] subscribes to the session, spawns the pump and announces
    the app itself.  Here the pump of Gc.v runs beside the driver of Driver.v: it reads
    the driver's broadcasts through a receiver of bounded capacity, its state changes
    through a [watch] receiver that coalesces, and its sends are commands in the driver's
    queue whose acknowledgements it awaits.  A system event is a step of one of the
    tasks, so an event sequence is an interleaving the scheduler may choose. *)
From S2P Require Import Prelude Errors Proto Wire Codec Connection Driver Gc.
#[local] Set Default Goal Selector "!".

(** ** State *)

(** Where a task is in [launch] or [send_hello]: about to queue ([None]) or awaiting the
    acknowledgement on its channel; done with its result. *)
Inductive Launch :=
  | Announcing (ack : option nat)
  | SayingHello (ack : option nat)
  | Launched (r : Result unit).

(** [sy_pos] is the position of the pump's [broadcast::Receiver] in the driver's
    broadcasts; [sy_version] counts the states the driver published, [sy_seen] those the
    pump's [watch::Receiver] has marked seen.  [sy_caller] is [attach] itself, [sy_sending]
    the send the pump's current arm awaits, [sy_clones] whether a [GameCoordinator] (or
    the [attach] that will return it) is alive. *)
Record System := {
  sy_world : World;
  sy_version : nat;
  sy_pump : Pump;
  sy_pos : nat;
  sy_seen : nat;
  sy_sending : Launch;
  sy_caller : Launch;
  sy_clones : bool
}.

Inductive SysEvent :=
  (** The driver, the network, the clock and the session's other clients. *)
  | SDriver (ev : Event)
  (** The arms of the pump's [select!]. *)
  | SDropped
  | SStateChanged
  | SStateGone
  | SHelloTick
  | SReceive
  | SLagged
  (** The sends of the pump and of [attach]. *)
  | SPumpSubmit (s : nat)
  | SPumpAck
  | SCallerSubmit (s : nat)
  | SCallerAck
  | SDropClones.

Definition with_world (sy : System) (w : World) (version : nat) : System :=
  {| sy_world := w; sy_version := version; sy_pump := sy_pump sy; sy_pos := sy_pos sy;
     sy_seen := sy_seen sy; sy_sending := sy_sending sy; sy_caller := sy_caller sy;
     sy_clones := sy_clones sy |}.
Definition with_pump (sy : System) (p : Pump) (pos seen : nat) (sending : Launch) : System :=
  {| sy_world := sy_world sy; sy_version := sy_version sy; sy_pump := p; sy_pos := pos;
     sy_seen := seen; sy_sending := sending; sy_caller := sy_caller sy;
     sy_clones := sy_clones sy |}.
Definition with_caller (sy : System) (caller : Launch) (clones : bool) : System :=
  {| sy_world := sy_world sy; sy_version := sy_version sy; sy_pump := sy_pump sy;
     sy_pos := sy_pos sy; sy_seen := sy_seen sy; sy_sending := sy_sending sy;
     sy_caller := caller; sy_clones := clones |}.

(** The driver's [self.state.send(..)]: on leaving the connected loop to reconnect, on a
    new logon and at the end. *)
Definition publishes (w w' : World) : bool :=
  match w_phase w, w_phase w' with
  | Connected _ _, Backoff _ _ | Attempting _, Connected _ _ | Closing _ _, Stopped _ => true
  | _, _ => false
  end.

(** The channel a task awaits, and whether it is between two awaits of its loop. *)
Definition awaited_ack (l : Launch) : option nat :=
  match l with Announcing ack | SayingHello ack => ack | Launched _ => None end.
Definition launched (l : Launch) : bool :=
  match l with Launched _ => true | _ => false end.

(** The broadcasts the pump has not read. *)
Definition backlog (sy : System) : nat :=
  length (sd_events (w_driver (sy_world sy))) - sy_pos sy.

(** ** Awaited channels *)

(** The receiving end of channel [s] is alive. *)
Definition waiting (sl : Slots) (s : nat) : Prop := ∃ v, sl !! s = Some v ∧ v ≠ SlotClosed.
(** Only its owner drops a receiving end. *)
Definition keeps (sl sl' : Slots) : Prop := ∀ s, waiting sl s → waiting sl' s.

#[export] Instance keeps_preorder : PreOrder keeps.
Proof. split; [by intros sl s|]. intros sl1 sl2 sl3 H12 H23 s Hs. by apply H23, H12. Qed.

Lemma keeps_insert sl s v : v ≠ SlotClosed → keeps sl (<[s := v]> sl).
Proof.
  intros Hv s' [v' Hs]. destruct (decide (s = s')) as [<-|].
  - exists v. by rewrite lookup_insert_eq.
  - exists v'. by rewrite lookup_insert_ne.
Qed.
Lemma keeps_send sl s v : keeps sl (oneshot_send sl s v).
Proof. unfold oneshot_send. case_decide; [|done]. by apply keeps_insert. Qed.
Lemma keeps_drop sl s : keeps sl (oneshot_drop sl s).
Proof. unfold oneshot_drop. case_decide; [|done]. by apply keeps_insert. Qed.
#[local] Hint Resolve keeps_send keeps_drop : core.

Lemma keeps_drop_all ss sl : keeps sl (foldl oneshot_drop sl ss).
Proof.
  revert sl. induction ss as [|s ss IH]; intros sl; [done|]. cbn.
  by etransitivity; [|apply IH].
Qed.
Lemma keeps_fail_all pending sl reason : keeps sl (fail_all_pending pending sl reason).
Proof.
  unfold fail_all_pending. apply (map_fold_weak_ind (λ r _, keeps sl r)); [done|].
  intros j e m r _ Hr. by etransitivity.
Qed.
Lemma keeps_sweep now pending sl : keeps sl (sweep_pending now pending sl).2.
Proof.
  intros s [v Hv]. unfold waiting.
  destruct (sweep_slots_exact now pending sl s) as [(_ & _ & ->)|[_ ->]]; [by eexists|by exists v].
Qed.
Lemma keeps_dispatch d msg : keeps (sd_slots d) (sd_slots (dispatch d msg)).
Proof. unfold dispatch. destruct (_ ≫= _) as [[]|]; [apply keeps_send|done]. Qed.
Lemma keeps_foldl_dispatch msgs d : keeps (sd_slots d) (sd_slots (foldl dispatch d msgs)).
Proof.
  revert d. induction msgs as [|m msgs IH]; intros d; [done|]. cbn.
  etransitivity; [apply keeps_dispatch|apply IH].
Qed.
Lemma keeps_exit now handles d exit :
  keeps (sd_slots d) (sd_slots (w_driver (on_exit now handles d exit))).
Proof.
  destruct exit; [apply keeps_fail_all..|]. cbn.
  etransitivity; [apply (keeps_foldl_dispatch (sd_inbox d))|apply keeps_fail_all].
Qed.
Lemma keeps_arm now handles nh ns d r :
  keeps (sd_slots d) (sd_slots r.1) →
  keeps (sd_slots d) (sd_slots (w_driver (after_arm now handles nh ns r))).
Proof.
  intros Hr. destruct r as [d' [exit|]]; [|done]. etransitivity; [apply Hr|apply keeps_exit].
Qed.

Section system.
Context `{Message CMsgProtoBufHeader, Message CMsgMulti, Message CMsgClientLoggedOff,
          Message CMsgClientLogon, Message CMsgClientLogonResponse}.
Context `{Message GcHeader, Message CMsgGcClient, Message ClientHello, Message ConnectionStatus,
          Message GamesPlayed}.
Context (GzDecoder : list byte → list byte * option string).
Context (appid hello_version : Z).

(** [SessionHandle::notify] on each message of [launch]. *)
Definition notified_call (n : Notified) : Call :=
  match n with
  | NGamesPlayed emsg m => CallNotify emsg (encode_to_vec m)
  | NToGc emsg m => CallNotify emsg (encode_to_vec m)
  end.
Definition launch_call (l : Launch) : option Call :=
  match l with
  | Announcing None =>
      Some (notified_call (NGamesPlayed EMSG_CLIENT_GAMES_PLAYED {| gp_game_ids := [Some appid] |}))
  | SayingHello None =>
      Some (notified_call (NToGc EMSG_CLIENT_TO_GC (hello_envelope appid hello_version)))
  | _ => None
  end.

(** The next [commands.send(..)] of [launch], into channel [s]. *)
Definition launch_submit (w : World) (l : Launch) (s : nat) : option (World * Launch) :=
  call ← launch_call l;
  w' ← submit w s call;
  Some (w', match l with Announcing _ => Announcing (Some s) | _ => SayingHello (Some s) end).

(** The end of the await: [launch] goes on to the hello once the app is announced. *)
Definition launch_ack (w : World) (l : Launch) : option Launch :=
  s ← awaited_ack l;
  slot ← sd_slots (w_driver w) !! s;
  match await_notify slot with
  | Pending => None
  | Ready (Err e) => Some (Launched (Err e))
  | Ready (Ok tt) => Some (match l with Announcing _ => SayingHello None | _ => Launched (Ok tt) end)
  end.

(** [attach], up to the await of its own [launch]: [version] states have been published
    so far; the clone of the handle's [watch::Receiver] has seen none of them. *)
Definition attach (w : World) (version : nat) : System :=
  {| sy_world := w; sy_version := version; sy_pump := pump_start (w_now w);
     sy_pos := length (sd_events (w_driver w)); sy_seen := 0; sy_sending := Launched (Ok tt);
     sy_caller := Announcing None; sy_clones := true |}.

(** What [attach] returns, once it does. *)
Definition attach_result (sy : System) : option (Result unit) :=
  match sy_caller sy with Launched r => Some r | _ => None end.

(** Events of the driver the other tasks of the system allow: the pump and every
    coordinator hold a handle, and a channel they await is theirs. *)
Definition driver_event_ok (sy : System) (ev : Event) : bool :=
  match ev with
  | DropHandles => negb (pu_running (sy_pump sy)) && negb (sy_clones sy)
  | DropReceiver s => bool_decide (awaited_ack (sy_sending sy) ≠ Some s) &&
                      bool_decide (awaited_ack (sy_caller sy) ≠ Some s)
  | _ => true
  end.

(** An arm of the pump's loop, which is polled only between sends. *)
Definition pump_arm (sy : System) (ev : PumpEvent) (pos seen : nat) (sending : Launch) :
    option System :=
  if launched (sy_sending sy) then
    p ← pump_step appid hello_version (w_now (sy_world sy)) (sy_pump sy) ev;
    Some (with_pump sy p pos seen sending)
  else None.

(** The outcome a launch has while its announcement is still under way: the log of what
    the pump sent gains the hello when the announcement is acknowledged. *)
Definition unannounced : Result unit := Err (WebSocket "announcing").

Definition sys_step (sy : System) (ev : SysEvent) : option System :=
  let w := sy_world sy in
  let log := sd_events (w_driver w) in
  let idle := Launched (Ok tt) in
  match ev with
  | SDriver ev =>
      if driver_event_ok sy ev then
        w' ← step GzDecoder w ev;
        Some (with_world sy w' (if publishes w w' then S (sy_version sy) else sy_version sy))
      else None
  | SDropped =>
      if sy_clones sy then None
      else pump_arm sy CoordinatorsDropped (sy_pos sy) (sy_seen sy) idle
  | SStateChanged =>
      if decide (sy_seen sy < sy_version sy)%nat then
        pump_arm sy (StateChanged (sd_state (w_driver w)) unannounced) (sy_pos sy) (sy_version sy)
          (if is_ready (sd_state (w_driver w)) then Announcing None else idle)
      else None
  | SStateGone =>
      match w_phase w with
      | Stopped _ => if decide (sy_seen sy = sy_version sy)
                     then pump_arm sy StateGone (sy_pos sy) (sy_seen sy) idle else None
      | _ => None
      end
  | SHelloTick =>
      pump_arm sy HelloTick (sy_pos sy) (sy_seen sy)
        (if negb (pu_ready (sy_pump sy)) && (pu_hello_attempts (sy_pump sy) <? MAX_HELLO_ATTEMPTS)
         then SayingHello None else idle)
  | SReceive =>
      if decide (backlog sy ≤ EVENT_CAPACITY)%nat then
        msg ← log !! sy_pos sy;
        pump_arm sy (FromSession msg) (S (sy_pos sy)) (sy_seen sy) idle
      else None
  | SLagged =>
      if decide (EVENT_CAPACITY < backlog sy)%nat
      then pump_arm sy Lagged (length log - EVENT_CAPACITY) (sy_seen sy) idle else None
  | SPumpSubmit s =>
      '(w', l) ← launch_submit w (sy_sending sy) s;
      Some (with_pump (with_world sy w' (sy_version sy)) (sy_pump sy) (sy_pos sy) (sy_seen sy) l)
  | SPumpAck =>
      l ← launch_ack w (sy_sending sy);
      let p := match l with
               | SayingHello None => notify_all (sy_pump sy) (send_hello appid hello_version)
               | _ => sy_pump sy
               end in
      Some (with_pump sy p (sy_pos sy) (sy_seen sy) l)
  | SCallerSubmit s =>
      '(w', l) ← launch_submit w (sy_caller sy) s;
      Some (with_caller (with_world sy w' (sy_version sy)) l (sy_clones sy))
  | SCallerAck =>
      l ← launch_ack w (sy_caller sy);
      (** [attach]'s [?] drops what would have been the coordinator. *)
      Some (with_caller sy l (match l with Launched (Err _) => false | _ => sy_clones sy end))
  | SDropClones =>
      if launched (sy_caller sy) then Some (with_caller sy (sy_caller sy) false) else None
  end.

Fixpoint sys_run (sy : System) (evs : list SysEvent) : option System :=
  match evs with
  | [] => Some sy
  | ev :: evs => sy' ← sys_step sy ev; sys_run sy' evs
  end.

(** ** Projections *)

(** The broadcasts an event sequence of the pump read. *)
Definition heard (evs : list (Instant * PumpEvent)) : list SteamMessage :=
  omap (λ ev, match ev.2 with FromSession msg => Some msg | _ => None end) evs.

Lemma pump_run_app p evs1 evs2 :
  pump_run appid hello_version p (evs1 ++ evs2) =
    (p ← pump_run appid hello_version p evs1; pump_run appid hello_version p evs2).
Proof.
  revert p. induction evs1 as [|[now ev] evs1 IH]; intros p; [done|].
  cbn [pump_run app]. destruct (pump_step _ _ now p ev); [apply IH|done].
Qed.

Lemma run_events_snoc w evs w' ev w'' :
  run_events GzDecoder w evs = Some w' → step GzDecoder w' ev = Some w'' →
  run_events GzDecoder w (evs ++ [ev]) = Some w''.
Proof.
  revert w. induction evs as [|e evs IH]; intros w; cbn [run_events app].
  { intros [= ->] Hs. by rewrite Hs. }
  destruct (step GzDecoder w e) as [w1|]; [|done]. cbn [mbind option_bind]. apply IH.
Qed.

(** An invariant of the steps holds along a run. *)
Lemma sys_run_ind (P : System → Prop) (Q : SysEvent → Prop) sy evs sy' :
  (∀ sy ev sy', P sy → Q ev → sys_step sy ev = Some sy' → P sy') →
  P sy → Forall Q evs → sys_run sy evs = Some sy' → P sy'.
Proof.
  intros Hstep HP HQ. revert sy HP. induction HQ as [|ev evs Hev _ IH]; intros sy HP; cbn [sys_run].
  { by intros [= <-]. }
  destruct (sys_step sy ev) as [sy1|] eqn:Hs; [|done]. cbn [mbind option_bind]. apply IH. by eapply Hstep.
Qed.

(** The pump of the system as a run of the pump alone; while the app is being announced
    the run ends in the state change that started it. *)
Definition pump_projects (t0 : Instant) (sy : System) (evs : list (Instant * PumpEvent)) : Prop :=
  pump_run appid hello_version (pump_start t0) evs = Some (sy_pump sy) ∧
  match sy_sending sy with
  | Announcing _ => ∃ evs' now st,
      evs = evs' ++ [(now, StateChanged st unannounced)] ∧ is_ready st = true
  | _ => True
  end.

(** What the pump has heard of a driver log that was [start] messages long. *)
Definition hears (start : nat) (gapless : Prop) (sy : System) (msgs : list SteamMessage) : Prop :=
  let log := sd_events (w_driver (sy_world sy)) in
  (start ≤ sy_pos sy ≤ length log)%nat ∧
  msgs `sublist_of` drop start (take (sy_pos sy) log) ∧
  (gapless → msgs = drop start (take (sy_pos sy) log)).

Lemma step_events w ev w' :
  step GzDecoder w ev = Some w' →
  ∃ new, sd_events (w_driver w') = sd_events (w_driver w) ++ new.
Proof.
  intros [(new & He & _)|(b & nh & ns & _ & _ & _ & He)]%step_routed; [by exists new|].
  exists []. by rewrite app_nil_r.
Qed.

Lemma launch_submit_inv w l s w' l' :
  launch_submit w l s = Some (w', l') →
  (∃ call, step GzDecoder w (Submit s call) = Some w') ∧ awaited_ack l = None ∧
  match l with Announcing _ => l' = Announcing (Some s) | _ => l' = SayingHello (Some s) end.
Proof.
  unfold launch_submit. intros (call & Hc & Hw)%bind_Some. apply bind_Some in Hw as (w1 & Hs & Hw).
  simplify_eq. split; [by exists call|]. by destruct l as [[]|[]|].
Qed.

Lemma launch_ack_inv w l l' :
  launch_ack w l = Some l' →
  launched l' = true ∨ (l' = SayingHello None ∧ ∃ ack, l = Announcing ack).
Proof.
  unfold launch_ack. intros (s & Hs & Hl)%bind_Some. apply bind_Some in Hl as (slot & _ & Hl).
  destruct (await_notify slot) as [|[[]|e]]; simplify_eq; [|by left].
  destruct l as [ack|ack|]; [right; split; [done|by exists ack]|by left..].
Qed.

Lemma pump_arm_inv sy ev pos seen sending sy' :
  pump_arm sy ev pos seen sending = Some sy' →
  launched (sy_sending sy) = true ∧ ∃ p,
    pump_step appid hello_version (w_now (sy_world sy)) (sy_pump sy) ev = Some p ∧
    sy' = with_pump sy p pos seen sending.
Proof.
  unfold pump_arm. destruct (launched _); [|done]. intros (p & Hp & Hs)%bind_Some.
  split; [done|]. exists p. by simplify_eq.
Qed.

Lemma heard_snoc evs now ev :
  heard (evs ++ [(now, ev)]) =
    heard evs ++ match ev with FromSession msg => [msg] | _ => [] end.
Proof. unfold heard. rewrite omap_app. by destruct ev. Qed.

(** An arm of the pump extends its run by one event. *)
Lemma pump_arm_projects t0 sy ev pos seen sending sy' evs :
  pump_arm sy ev pos seen sending = Some sy' → pump_projects t0 sy evs →
  (launched sending = true ∨ (∃ ack, sending = SayingHello ack) ∨
   ∃ st, ev = StateChanged st unannounced ∧ is_ready st = true) →
  pump_projects t0 sy' (evs ++ [(w_now (sy_world sy), ev)]).
Proof.
  intros (_ & p & Hp & ->)%pump_arm_inv [Hr _] Hs. split.
  - rewrite pump_run_app, Hr. cbn [mbind option_bind pump_run]. by rewrite Hp.
  - cbn. destruct sending as [ack| |]; [|done..]. destruct Hs as [?|[[? ?]|(st & -> & Hst)]]; [done..|].
    by exists evs, (w_now (sy_world sy)), st.
Qed.

(** The announcement is acknowledged: the run's last event had that outcome. *)
Lemma announced_projects t0 evs p st now :
  pump_run appid hello_version (pump_start t0) (evs ++ [(now, StateChanged st unannounced)]) = Some p →
  is_ready st = true →
  pump_run appid hello_version (pump_start t0) (evs ++ [(now, StateChanged st (Ok tt))]) =
    Some (notify_all p (send_hello appid hello_version)).
Proof.
  rewrite !pump_run_app. intros (q & Hq & Hp)%bind_Some Hst. rewrite Hq. revert Hp. cbn.
  unfold pump_step. destruct (pu_running q); [|done]. rewrite Hst. cbn. intros [= <-].
  unfold notify_all. cbn. by rewrite <-app_assoc.
Qed.

(** Both projections of a system attached to [w0]. *)
Definition projects (w0 : World) (gapless : Prop) (sy : System) : Prop := ∃ devs pevs,
  run_events GzDecoder w0 devs = Some (sy_world sy) ∧
  pump_projects (w_now w0) sy pevs ∧
  hears (length (sd_events (w_driver w0))) gapless sy (heard pevs).

Lemma hears_driver start gapless sy msgs w' version ev :
  hears start gapless sy msgs → step GzDecoder (sy_world sy) ev = Some w' →
  hears start gapless (with_world sy w' version) msgs.
Proof.
  intros (Hp & Hs & Hg) [new He]%step_events. unfold hears. cbn. rewrite He, length_app.
  rewrite take_app_le by lia. split; [lia|done].
Qed.

Lemma hears_receive start gapless sy msgs msg p seen sending :
  hears start gapless sy msgs → sd_events (w_driver (sy_world sy)) !! sy_pos sy = Some msg →
  hears start gapless (with_pump sy p (S (sy_pos sy)) seen sending) (msgs ++ [msg]).
Proof.
  intros (Hp & Hs & Hg) Hm. unfold hears. cbn. apply lookup_lt_Some in Hm as Hlt.
  rewrite (take_S_r _ _ _ Hm), drop_app_le by (rewrite length_take; lia).
  split; [lia|]. split; [by apply sublist_app|]. intros Hgap. by rewrite <-Hg.
Qed.

Lemma hears_lagged start gapless sy msgs p seen sending :
  hears start gapless sy msgs → (EVENT_CAPACITY < backlog sy)%nat →
  hears start False (with_pump sy p (length (sd_events (w_driver (sy_world sy))) - EVENT_CAPACITY)
    seen sending) msgs.
Proof.
  unfold backlog. intros (Hp & Hs & _) Hlag. unfold hears. cbn. split; [lia|]. split; [|done].
  etransitivity; [apply Hs|]. set (n := (_ - EVENT_CAPACITY)%nat). set (log := sd_events _) in *.
  rewrite <-(take_drop (sy_pos sy) (take n log)), take_take, Nat.min_l by lia.
  rewrite drop_app_le by (rewrite length_take; lia). by apply sublist_inserts_r.
Qed.

Lemma driver_projects w0 gapless sy ev w' version :
  projects w0 gapless sy → step GzDecoder (sy_world sy) ev = Some w' →
  projects w0 gapless (with_world sy w' version).
Proof.
  intros (devs & pevs & Hd & Hp & Hh) Hs. exists (devs ++ [ev]), pevs.
  split; [by eapply run_events_snoc|]. split; [done|]. by eapply hears_driver.
Qed.

Lemma arm_projects w0 gapless sy ev pos seen sending sy' :
  projects w0 gapless sy → pump_arm sy ev pos seen sending = Some sy' →
  (launched sending = true ∨ (∃ ack, sending = SayingHello ack) ∨
   ∃ st, ev = StateChanged st unannounced ∧ is_ready st = true) →
  (∀ msgs p, hears (length (sd_events (w_driver w0))) gapless sy msgs →
     hears (length (sd_events (w_driver w0))) gapless (with_pump sy p pos seen sending)
       (msgs ++ match ev with FromSession msg => [msg] | _ => [] end)) →
  projects w0 gapless sy'.
Proof.
  intros (devs & pevs & Hd & Hp & Hh) Ha Hl Hhear.
  exists devs, (pevs ++ [(w_now (sy_world sy), ev)]).
  pose proof (pump_arm_projects _ _ _ _ _ _ _ _ Ha Hp Hl) as Hproj.
  apply pump_arm_inv in Ha as (_ & p & _ & ->). rewrite heard_snoc. by auto.
Qed.

Lemma silent_arm_projects w0 gapless sy ev seen sending sy' :
  projects w0 gapless sy → pump_arm sy ev (sy_pos sy) seen sending = Some sy' →
  (launched sending = true ∨ (∃ ack, sending = SayingHello ack) ∨
   ∃ st, ev = StateChanged st unannounced ∧ is_ready st = true) →
  (∀ msg, ev ≠ FromSession msg) → projects w0 gapless sy'.
Proof.
  intros Hp Ha Hl Hev. eapply arm_projects; [done..|]. intros msgs p Hh.
  destruct ev; try (by rewrite app_nil_r). by destruct (Hev msg).
Qed.

Lemma ack_projects w0 gapless sy l :
  projects w0 gapless sy → launch_ack (sy_world sy) (sy_sending sy) = Some l →
  projects w0 gapless (with_pump sy
    (match l with
     | SayingHello None => notify_all (sy_pump sy) (send_hello appid hello_version)
     | _ => sy_pump sy
     end) (sy_pos sy) (sy_seen sy) l).
Proof.
  intros (devs & pevs & Hd & [Hr Ht] & Hh) [Hl|[-> [ack Hl]]]%launch_ack_inv.
  { destruct l; try done. by exists devs, pevs. }
  rewrite Hl in Ht. destruct Ht as (evs & now & st & -> & Hst).
  exists devs, (evs ++ [(now, StateChanged st (Ok tt))]). split; [done|]. split.
  - split; [|done]. by eapply announced_projects.
  - by rewrite heard_snoc in Hh |- *.
Qed.

Lemma sys_step_projects w0 (gapless : Prop) sy ev sy' :
  projects w0 gapless sy → (gapless → ev ≠ SLagged) → sys_step sy ev = Some sy' →
  projects w0 gapless sy'.
Proof.
  intros Hp Hgap Hstep. destruct ev as [ev| | | | | | |s| |s| |]; cbn [sys_step] in Hstep.
  - destruct (driver_event_ok sy ev); [|done]. apply bind_Some in Hstep as (w' & Hs & Hsy).
    simplify_eq. by eapply driver_projects.
  - destruct (sy_clones sy); [done|]. eapply silent_arm_projects; [done..|by left|done].
  - case_decide; [|done]. eapply silent_arm_projects; [done..| |done].
    destruct (is_ready _) eqn:Hr; [right; right; by eexists|by left].
  - destruct (w_phase _); try done. case_decide; [|done].
    eapply silent_arm_projects; [done..|by left|done].
  - eapply silent_arm_projects; [done..| |done].
    destruct (negb _ && _); [right; left; by eexists|by left].
  - case_decide; [|done]. apply bind_Some in Hstep as (msg & Hm & Hsy).
    eapply arm_projects; [done..|by left|]. intros msgs p Hh. by apply hears_receive.
  - case_decide as Hlag; [|done]. eapply arm_projects; [done..|by left|]. intros msgs p Hh.
    rewrite app_nil_r.
    destruct (hears_lagged _ _ _ _ p (sy_seen sy) (Launched (Ok tt)) Hh Hlag) as (? & ? & _).
    split; [done|]. split; [done|]. intros Hg. by destruct (Hgap Hg).
  - apply bind_Some in Hstep as ([w' l] & Hl & Hsy). simplify_eq.
    apply launch_submit_inv in Hl as ([call Hs] & _ & Hl).
    destruct (driver_projects _ _ _ _ _ (sy_version sy) Hp Hs) as (devs & pevs & ? & [Hr Ht] & ?).
    exists devs, pevs. split; [done|]. split; [|done]. split; [done|]. cbn in *.
    by destruct (sy_sending sy); subst l.
  - apply bind_Some in Hstep as (l & Hl & Hsy). simplify_eq. by apply ack_projects.
  - apply bind_Some in Hstep as ([w' l] & Hl & Hsy). simplify_eq.
    apply launch_submit_inv in Hl as ([call Hs] & _).
    apply (driver_projects _ _ _ _ _ (sy_version sy) Hp Hs).
  - apply bind_Some in Hstep as (l & _ & Hsy). simplify_eq. done.
  - destruct (launched _); simplify_eq. done.
Qed.

Lemma attach_projects w version gapless : projects w gapless (attach w version).
Proof.
  exists [], []. split; [done|]. split; [done|]. unfold hears. cbn.
  rewrite drop_ge by (rewrite length_take; lia). split; [lia|]. by split.
Qed.

(** The coordinator composes with the session: whatever the interleaving, what the
    session does beside an attached pump is a run of the driver, what the pump does is a
    run of the pump, the messages that run reads are broadcasts the driver made after
    [attach] subscribed, in the driver's order, and unless the receiver lagged they are
    all of them up to where it has read. *)
Theorem coordinator_refines_its_parts w version evs sy :
  sys_run (attach w version) evs = Some sy →
  ∃ devs pevs,
    run_events GzDecoder w devs = Some (sy_world sy) ∧
    pump_run appid hello_version (pump_start (w_now w)) pevs = Some (sy_pump sy) ∧
    (let seen := drop (length (sd_events (w_driver w)))
                   (take (sy_pos sy) (sd_events (w_driver (sy_world sy)))) in
     heard pevs `sublist_of` seen ∧ (SLagged ∉ evs → heard pevs = seen)).
Proof.
  intros Hrun.
  assert (projects w (SLagged ∉ evs) sy) as (devs & pevs & Hd & [Hp _] & _ & Hs & Hg).
  { refine (sys_run_ind (projects w (SLagged ∉ evs)) (λ ev, ev ∈ evs) _ _ _ _ _ _ Hrun).
    - intros sy1 ev sy2 Hp Hin. apply sys_step_projects; [done|]. intros Hn ->. done.
    - apply attach_projects.
    - by apply list.Forall_forall. }
  by exists devs, pevs.
Qed.


(** ** Steps of the driver beside the pump *)
Lemma on_command_keeps d command o : keeps (sd_slots d) (sd_slots (on_command d command o).1).
Proof.
  unfold on_command. destruct command as [[emsg body dl s|emsg body s|s]|]; [| | |done].
  - destruct (send_frame_eq (set_next_jobid d (unwrap_or (checked_add 64 (sd_next_jobid d) 1) 1))
      emsg (Some (sd_next_jobid d)) body o) as [wire ->].
    destruct o; cbn; [auto|]. destruct (sd_pending d !! _); [auto|done].
  - destruct (send_frame_eq d emsg None body o) as [wire ->]. cbn. auto.
  - destruct (send_frame_eq d EMSG_CLIENT_LOGOFF None [] o) as [wire ->]. cbn. auto.
Qed.

Lemma take_command_keeps w o w' :
  take_command w o = Some w' → keeps (sd_slots (w_driver w)) (sd_slots (w_driver w')).
Proof.
  unfold take_command. intros ([command d] & Hr & Hw)%bind_Some.
  assert (sd_slots d = sd_slots (w_driver w)) as <-.
  { unfold recv_command in Hr. destruct (sd_commands (w_driver w)), (w_handles w); by simplify_eq. }
  assert (keeps (sd_slots d) (answer_while_down (sd_slots d) command).1) as Hk
    by (destruct command as [[]|]; cbn; first [done|auto]).
  destruct (w_phase w) as [nh ns| | | |]; try done.
  - simplify_eq. apply keeps_arm, on_command_keeps.
  - destruct (answer_while_down _ _) as [slots []]; simplify_eq; [|done].
    etransitivity; [apply Hk|apply keeps_fail_all].
  - destruct (answer_while_down _ _) as [slots []]; simplify_eq; [|done].
    etransitivity; [apply Hk|apply keeps_fail_all].
Qed.

Lemma submit_keeps w s call w' :
  submit w s call = Some w' →
  keeps (sd_slots (w_driver w)) (sd_slots (w_driver w')) ∧ waiting (sd_slots (w_driver w')) s.
Proof.
  unfold submit. case_decide as Hs; [|done].
  assert (∀ v, v ≠ SlotClosed → keeps (sd_slots (w_driver w)) (<[s := v]> (sd_slots (w_driver w))) ∧
    waiting (<[s := v]> (sd_slots (w_driver w))) s) as Hi.
  { intros v Hv. split; [by apply keeps_insert|]. exists v. by rewrite lookup_insert_eq. }
  destruct (w_phase w); try (case_decide; [|done]); intros [= <-]; by apply Hi.
Qed.

Lemma step_waiting w ev w' s :
  step GzDecoder w ev = Some w' → ev ≠ DropReceiver s →
  waiting (sd_slots (w_driver w)) s → waiting (sd_slots (w_driver w')) s.
Proof.
  intros Hstep%step_cases Hev Hs. destruct Hstep as
    [|? ?|? ? ? Hsub|s' Hs'| |o ? Hcmd|nh ns r Hw Hr|nh ns ? ? Hw ?|nh ns Hw ?|? ? Hw ?|? ? ? o Hw ?|? result close_by Hw ?];
    try done.
  - apply submit_keeps in Hsub as [Hk _]. by apply Hk.
  - destruct Hs as [v Hv]. exists v. cbn. rewrite lookup_insert_ne; [done|congruence].
  - by eapply take_command_keeps.
  - eapply keeps_arm; [|done]. unfold on_read in Hr.
    destruct (read_message _ _ _ _ _) as [[[[res rd] ib] lv]|]; cbn [mbind option_bind] in Hr; [|done].
    destruct res as [|[msg|e]]; [by simplify_eq| |by simplify_eq].
    case_decide; simplify_eq; [done|]. apply (keeps_dispatch (set_reader _ rd ib lv)).
  - eapply keeps_arm; [|done]. unfold on_heartbeat.
    destruct (send_frame_eq (w_driver w) EMSG_CLIENT_HEARTBEAT None [] o1) as [wire ->].
    by destruct o1, o2.
  - eapply keeps_arm; [|done]. unfold on_sweep. destruct (read_idle_expired _ _ _); [done|].
    apply keeps_sweep.
  - destruct o as [[]|[]]; try done. by apply keeps_fail_all.
  - by apply keeps_drop_all.
Qed.

(** ** The system's invariant *)

(** The task awaits a channel whose receiving end it holds. *)
Definition held_by (w : World) (l : Launch) : Prop :=
  ∀ s, awaited_ack l = Some s → waiting (sd_slots (w_driver w)) s.

Record sys_ok (sy : System) : Prop := {
  so_reachable : reachable GzDecoder (sy_world sy);
  so_handle : pu_running (sy_pump sy) = true ∨ sy_clones sy = true → w_handles (sy_world sy) = true;
  so_seen : (sy_seen sy ≤ sy_version sy)%nat;
  so_sending : held_by (sy_world sy) (sy_sending sy);
  so_caller : held_by (sy_world sy) (sy_caller sy)
}.

Lemma held_by_step w ev w' l :
  held_by w l → step GzDecoder w ev = Some w' →
  (∀ s, ev = DropReceiver s → awaited_ack l ≠ Some s) → held_by w' l.
Proof.
  intros Hh Hs Hev s Hl. eapply step_waiting; [done| |by apply Hh]. intros ->. by apply (Hev s).
Qed.

Lemma sys_ok_driver sy ev w' version :
  sys_ok sy → driver_event_ok sy ev = true → step GzDecoder (sy_world sy) ev = Some w' →
  (sy_version sy ≤ version)%nat → sys_ok (with_world sy w' version).
Proof.
  intros [Hr Hh Hseen Hs Hc] Hev Hstep Hv. split; cbn; [by eapply reach_step| |lia|..].
  - intros Hrun. rewrite (step_handles _ _ _ _ Hstep); [by apply Hh|]. intros ->. cbn in Hev.
    destruct Hrun as [Hx|Hx]; rewrite Hx in Hev; [done|]. by destruct (pu_running _).
  - eapply held_by_step; [done..|]. intros s -> Ha. cbn in Hev. rewrite Ha in Hev.
    by rewrite bool_decide_false in Hev by tauto.
  - eapply held_by_step; [done..|]. intros s -> Ha. cbn in Hev. rewrite Ha in Hev.
    by rewrite andb_comm, bool_decide_false in Hev by tauto.
Qed.

Lemma sys_ok_arm sy ev pos seen sending sy' :
  sys_ok sy → pump_arm sy ev pos seen sending = Some sy' → (seen ≤ sy_version sy)%nat →
  awaited_ack sending = None → sys_ok sy'.
Proof.
  intros [Hr Hh Hseen Hs Hc] (_ & p & Hp & ->)%pump_arm_inv Hle Hn. split; cbn; [done| |done| |done].
  - intros Hrun. apply Hh. destruct Hrun as [_|?]; [left|by right].
    unfold pump_step in Hp. by destruct (pu_running (sy_pump sy)).
  - intros s Hs'. congruence.
Qed.

Lemma launch_submit_held w l s w' l' l2 :
  launch_submit w l s = Some (w', l') → held_by w l2 → held_by w' l' ∧ held_by w' l2.
Proof.
  unfold launch_submit. intros (call & _ & Hl)%bind_Some. apply bind_Some in Hl as (w1 & Hs & Hl).
  simplify_eq. apply submit_keeps in Hs as [Hk Hs]. intros Hh. split.
  - intros s'. by destruct l; intros [= <-].
  - intros s' Hl'. by apply Hk, Hh.
Qed.

Lemma launch_ack_held w l l' w' : launch_ack w l = Some l' → held_by w' l'.
Proof. intros [Hl|[-> _]]%launch_ack_inv s; [by destruct l'|done]. Qed.

Lemma sys_step_ok sy ev sy' : sys_ok sy → sys_step sy ev = Some sy' → sys_ok sy'.
Proof.
  intros Hok Hstep. pose proof Hok as [Hr Hh Hseen Hsend Hcall].
  destruct ev as [ev| | | | | | |s| |s| |]; cbn [sys_step] in Hstep.
  - destruct (driver_event_ok sy ev) eqn:Hev; [|done]. apply bind_Some in Hstep as (w' & Hs & Hsy).
    simplify_eq. eapply sys_ok_driver; [done..|]. destruct (publishes _ _); lia.
  - destruct (sy_clones sy); [done|]. by eapply sys_ok_arm.
  - case_decide; [|done]. eapply sys_ok_arm; [done..|]. by destruct (is_ready _).
  - destruct (w_phase _); try done. case_decide; [|done]. by eapply sys_ok_arm.
  - eapply sys_ok_arm; [done..|]. by destruct (negb _ && _).
  - case_decide; [|done]. apply bind_Some in Hstep as (msg & _ & Ha). by eapply sys_ok_arm.
  - case_decide; [|done]. by eapply sys_ok_arm.
  - apply bind_Some in Hstep as ([w' l] & Hl & Hsy). simplify_eq.
    pose proof (launch_submit_held _ _ _ _ _ _ Hl Hcall) as [Hl' Hc'].
    apply launch_submit_inv in Hl as ([call Hs] & _).
    by destruct (sys_ok_driver sy (Submit s call) w' (sy_version sy) Hok) as [? ? ? _ _].
  - apply bind_Some in Hstep as (l & Hl & Hsy). simplify_eq. split; cbn; [done| |done| |done].
    + intros Hrun. apply Hh. by destruct l as [|[]|].
    + by eapply launch_ack_held.
  - apply bind_Some in Hstep as ([w' l] & Hl & Hsy). simplify_eq.
    pose proof (launch_submit_held _ _ _ _ _ _ Hl Hsend) as [Hl' Hc'].
    apply launch_submit_inv in Hl as ([call Hs] & _).
    by destruct (sys_ok_driver sy (Submit s call) w' (sy_version sy) Hok) as [? ? ? _ _].
  - apply bind_Some in Hstep as (l & Hl & Hsy). simplify_eq. split; cbn; [done| |done|done|].
    + intros Hrun. apply Hh. destruct Hrun as [?|Hc]; [by left|right]. by destruct l as [| |[]].
    + by eapply launch_ack_held.
  - destruct (launched _); simplify_eq. split; cbn; try done. intros [?|?]; [|done]. apply Hh. by left.
Qed.

Lemma attach_ok w version :
  reachable GzDecoder w → w_handles w = true → sys_ok (attach w version).
Proof. intros Hr Hh. split; cbn; [done..|lia|done|done]. Qed.

Lemma sys_run_ok sy evs sy' : sys_ok sy → sys_run sy evs = Some sy' → sys_ok sy'.
Proof.
  intros Hok. eapply (sys_run_ind sys_ok (λ _, True)); [|done|by apply Forall_true].
  intros ? ? ? ? _. by apply sys_step_ok.
Qed.

(** ** The pump ends with the session *)

(** What the pump does next on its own once the driver is gone. *)
Definition own_event (sy : System) : SysEvent :=
  match sy_sending sy with
  | Announcing None | SayingHello None =>
      SPumpSubmit (fresh (dom (sd_slots (w_driver (sy_world sy)))))
  | Announcing (Some _) | SayingHello (Some _) => SPumpAck
  | Launched _ => if decide (sy_seen sy = sy_version sy) then SStateGone else SStateChanged
  end.
Fixpoint wind_down (fuel : nat) (sy : System) : option System :=
  match fuel with
  | O => Some sy
  | S fuel => if pu_running (sy_pump sy)
              then sy' ← sys_step sy (own_event sy); wind_down fuel sy'
              else Some sy
  end.

(** How many of these steps are left at most. *)
Definition wind_down_rank (sy : System) : nat :=
  match sy_sending sy with
  | Launched _ => if decide (sy_seen sy = sy_version sy) then 1 else 2
  | SayingHello (Some _) => 3
  | SayingHello None => 4
  | Announcing (Some _) => 5
  | Announcing None => 6
  end.

Lemma launch_ack_stopped w r l s :
  reachable GzDecoder w → w_phase w = Stopped r → held_by w l → awaited_ack l = Some s →
  is_Some (launch_ack w l).
Proof.
  intros [Hcov Hset]%reachable_settled Hp Hh Hs. rewrite Hp in Hset. destruct Hset as [Hpe Hcm].
  destruct (Hh s Hs) as (v & Hv & Hne). unfold launch_ack. rewrite Hs. cbn. rewrite Hv. cbn.
  assert (v ≠ SlotOpen) as Ho.
  { intros ->. destruct (Hcov s Hv) as [Hin|[Hin|(j & e & Hj & _)]].
    - by apply elem_of_nil in Hin.
    - rewrite Hcm in Hin. by apply elem_of_nil in Hin.
    - by rewrite Hpe in Hj. }
  destruct v as [| |[|[[]|]|]|]; by eauto.
Qed.

Lemma stopped_not_ready w r :
  reachable GzDecoder w → w_phase w = Stopped r → is_ready (sd_state (w_driver w)) = false.
Proof.
  intros Hp%reachable_published Hw. unfold published in Hp. rewrite Hw in Hp.
  by destruct r, (sd_state (w_driver w)).
Qed.

Lemma submit_stopped w r call :
  w_phase w = Stopped r → w_handles w = true →
  ∃ w', submit w (fresh (dom (sd_slots (w_driver w)))) call = Some w' ∧ w_phase w' = Stopped r.
Proof.
  intros Hp Hh. unfold submit. rewrite decide_True.
  - rewrite Hp. eexists. split; [done|]. cbn. done.
  - split; [|done]. apply not_elem_of_dom, is_fresh.
Qed.

(** A task of a stopped session is never stuck. *)
Lemma wind_down_step sy r :
  sys_ok sy → w_phase (sy_world sy) = Stopped r → pu_running (sy_pump sy) = true →
  ∃ sy', sys_step sy (own_event sy) = Some sy' ∧ sys_ok sy' ∧
    w_phase (sy_world sy') = Stopped r ∧
    (pu_running (sy_pump sy') = true → (wind_down_rank sy' < wind_down_rank sy)%nat).
Proof.
  intros Hok Hp Hrun. pose proof Hok as [Hr Hh Hseen Hs _].
  assert (∀ l, sy_sending sy = l → launch_call l ≠ None → ∃ sy',
    sys_step sy (SPumpSubmit (fresh (dom (sd_slots (w_driver (sy_world sy)))))) = Some sy' ∧
    w_phase (sy_world sy') = Stopped r ∧ (wind_down_rank sy' < wind_down_rank sy)%nat) as Hsubmit.
  { intros l Hl Hc. cbn [sys_step]. unfold launch_submit. rewrite Hl.
    destruct (launch_call l) as [call|] eqn:Hcall; [|done]. cbn [mbind option_bind].
    destruct (submit_stopped (sy_world sy) r call) as (w' & -> & Hw'); [done|by apply Hh; left|].
    cbn. eexists. split; [done|]. split; [done|]. unfold wind_down_rank. cbn. rewrite Hl.
    destruct l as [[]|[]|]; done || lia. }
  assert (∀ s, awaited_ack (sy_sending sy) = Some s → ∃ sy',
    sys_step sy SPumpAck = Some sy' ∧ w_phase (sy_world sy') = Stopped r ∧
    (wind_down_rank sy' < wind_down_rank sy)%nat) as Hack.
  { intros s Ha. destruct (launch_ack_stopped _ _ _ _ Hr Hp Hs Ha) as [l Hl]. cbn [sys_step].
    rewrite Hl. cbn [mbind option_bind]. eexists. split; [done|]. split; [done|].
    apply launch_ack_inv in Hl. unfold wind_down_rank. cbn.
    destruct Hl as [Hl|[-> [ack Hl]]]; [|rewrite Hl in *; cbn in Ha; subst ack; lia].
    destruct l; try done. destruct (sy_sending sy) as [[]|[]|]; try done; case_decide; lia. }
  enough (∃ sy', sys_step sy (own_event sy) = Some sy' ∧ w_phase (sy_world sy') = Stopped r ∧
    (pu_running (sy_pump sy') = true → (wind_down_rank sy' < wind_down_rank sy)%nat))
    as (sy' & Hstep & Hp' & Hk).
  { exists sy'. split; [done|]. split; [by eapply sys_step_ok|done]. }
  unfold own_event. destruct (sy_sending sy) as [[s|]|[s|]|res] eqn:Hl.
  1,3: destruct (Hack s) as (sy' & ? & ? & ?); [done|]; by exists sy'.
  1,2: destruct (Hsubmit _ eq_refl) as (sy' & ? & ? & ?); [done|]; by exists sy'.
  case_decide as Hv; cbn [sys_step]; unfold pump_arm; rewrite Hl; cbn [launched]; unfold pump_step;
    rewrite Hrun.
  - rewrite Hp, decide_True by done. cbn. eexists. split; [done|]. by split.
  - rewrite decide_True by lia. cbn. rewrite (stopped_not_ready _ _ Hr Hp). eexists. split; [done|].
    split; [done|]. intros _. unfold wind_down_rank. cbn. rewrite Hl, decide_True by done.
    rewrite decide_False by done. lia.
Qed.

Lemma wind_down_stops fuel sy r :
  sys_ok sy → w_phase (sy_world sy) = Stopped r → (wind_down_rank sy ≤ fuel)%nat →
  ∃ sy', wind_down fuel sy = Some sy' ∧ pu_running (sy_pump sy') = false.
Proof.
  revert sy. induction fuel as [|fuel IH]; intros sy Hok Hp Hf; cbn [wind_down].
  { unfold wind_down_rank in Hf. destruct (sy_sending sy) as [[]|[]|]; try lia. case_decide; lia. }
  destruct (pu_running (sy_pump sy)) eqn:Hrun; [|by exists sy].
  destruct (wind_down_step sy r Hok Hp Hrun) as (sy1 & -> & Hok1 & Hp1 & Hk). cbn [mbind option_bind].
  destruct (pu_running (sy_pump sy1)) eqn:Hrun1; [apply IH; [done..|specialize (Hk eq_refl); lia]|].
  exists sy1. split; [|done]. destruct fuel; cbn; by rewrite ?Hrun1.
Qed.

(** C15: The pump ends with its session: whatever it was doing when the driver stopped (even
    mid-announcement, its command queued or not), at most six steps of its own end it, each
    enabled without anybody's help, so no pump outlives a stopped session and keeps its
    handle. *)
Theorem pump_ends_with_session w version evs sy r :
  reachable GzDecoder w → w_handles w = true →
  sys_run (attach w version) evs = Some sy → w_phase (sy_world sy) = Stopped r →
  ∃ sy', wind_down 6 sy = Some sy' ∧ pu_running (sy_pump sy') = false.
Proof.
  intros Hr Hh Hrun Hp. eapply wind_down_stops; [|done|].
  - eapply sys_run_ok; [by apply attach_ok|done].
  - unfold wind_down_rank. destruct (sy_sending sy) as [[]|[]|]; try lia. case_decide; lia.
Qed.

(** ** Readiness and the session *)

(** A world and the number of states published since the session was spawned. *)
Inductive watched : World → nat → Prop :=
  | watched_spawn now config attempt w :
      spawn_session now config attempt = Ok w → watched w 0
  | watched_step w n ev w' :
      watched w n → step GzDecoder w ev = Some w' →
      watched w' (if publishes w w' then S n else n).

(** The session is gone, for now or for good. *)
Definition away (w : World) : bool :=
  match w_phase w with Backoff _ _ | Attempting _ | Stopped _ => true | _ => false end.

(** The session goes away only by publishing it, and an absent session broadcasts
    nothing. *)
Lemma step_away w ev w' :
  step GzDecoder w ev = Some w' → away w' = true →
  publishes w w' = true ∨ (away w = true ∧ sd_events (w_driver w') = sd_events (w_driver w)).
Proof.
  intros Hstep Haway.
  assert (publishes w w' = true ∨ away w = true) as [?|Ha]; [|by left|].
  { revert Haway. unfold publishes, away. apply step_cases in Hstep. destruct Hstep as
      [|? ?|? ? ? Hsub|s' Hs'| |o ? Hcmd|nh ns r Hw Hr|nh ns ? ? Hw ?|nh ns Hw ?|? ? Hw ?|? ? ? o Hw ?|? result close_by Hw ?];
      try (by right); rewrite ?Hw.
    - unfold submit in Hsub. case_decide; [|done].
      destruct (w_phase w) eqn:Hw; try (case_decide; [|done]); simplify_eq; cbn; rewrite ?Hw; by right.
    - unfold take_command in Hcmd. apply bind_Some in Hcmd as ([command d] & _ & Hc).
      destruct (w_phase w) as [nh ns| | | |] eqn:Hw; try done; try (by right).
      simplify_eq. destruct (on_command _ _ _) as [d' [[]|]]; cbn; by auto.
    - destruct r as [d' [[]|]]; cbn; by auto.
    - destruct (on_heartbeat _ _ _) as [d' [[]|]]; cbn; by auto.
    - destruct (on_sweep _ _) as [d' [[]|]]; cbn; by auto.
    - by right.
    - by right.
    - by left. }
  right. split; [done|]. eapply step_log; [done|]. intros nh ns Hw. unfold away in Ha. by rewrite Hw in Ha.
Qed.

Lemma watched_reachable w n : watched w n → reachable GzDecoder w.
Proof. induction 1; by econstructor. Qed.

Lemma watched_away w n : watched w n → away w = true → (0 < n)%nat.
Proof.
  induction 1 as [now config attempt w Hw|w n ev w' _ IH Hstep]; intros Ha.
  { by apply spawn_session_inv in Hw as (d & -> & _). }
  destruct (step_away _ _ _ Hstep Ha) as [->|[Ha' _]]; [lia|]. specialize (IH Ha').
  destruct (publishes w w'); lia.
Qed.

(** The arm that resets readiness waits until the session's broadcasts are read. *)
Definition orderly (sy : System) (ev : SysEvent) : bool :=
  match ev with SStateChanged => (backlog sy =? 0)%nat | _ => true end.
Fixpoint orderly_run (sy : System) (evs : list SysEvent) : option System :=
  match evs with
  | [] => Some sy
  | ev :: evs => if orderly sy ev then sy' ← sys_step sy ev; orderly_run sy' evs else None
  end.

(** An absence the pump has been told of left it not ready, with nothing more to read. *)
Definition current (sy : System) : Prop :=
  away (sy_world sy) = true → sy_seen sy = sy_version sy →
  pu_published (sy_pump sy) = false ∧ backlog sy = 0%nat.

Lemma submit_world w s call w' :
  submit w s call = Some w' →
  w_phase w' = w_phase w ∧ sd_events (w_driver w') = sd_events (w_driver w).
Proof.
  unfold submit. case_decide; [|done].
  destruct (w_phase w) eqn:Hw; try (case_decide; [|done]); intros [= <-]; by rewrite <-?Hw.
Qed.
Lemma launch_submit_world w l s w' l' :
  launch_submit w l s = Some (w', l') →
  w_phase w' = w_phase w ∧ sd_events (w_driver w') = sd_events (w_driver w).
Proof.
  unfold launch_submit. intros (call & _ & Hl)%bind_Some. apply bind_Some in Hl as (w1 & Hs & Hl).
  simplify_eq. by eapply submit_world.
Qed.

(** A change of the system that leaves the session and the pump's view of it alone. *)
Lemma current_same sy sy' :
  current sy → w_phase (sy_world sy') = w_phase (sy_world sy) →
  sd_events (w_driver (sy_world sy')) = sd_events (w_driver (sy_world sy)) →
  sy_version sy' = sy_version sy → sy_seen sy' = sy_seen sy → sy_pos sy' = sy_pos sy →
  (pu_published (sy_pump sy) = false → pu_published (sy_pump sy') = false) → current sy'.
Proof.
  unfold current, away, backlog. intros Hc -> -> -> -> -> Hr Ha Hs.
  destruct (Hc Ha Hs). auto.
Qed.

(** Arms that carry no message to the pump. *)
Lemma current_arm sy ev sending sy' :
  current sy → pump_arm sy ev (sy_pos sy) (sy_seen sy) sending = Some sy' →
  readiness_signal appid ev = None → current sy'.
Proof.
  intros Hc (_ & p & Hp & ->)%pump_arm_inv Hsig. eapply current_same; [done..|]. cbn.
  apply pump_step_spec in Hp as (_ & -> & _). by rewrite Hsig.
Qed.

Lemma sys_step_current sy ev sy' :
  sys_ok sy → current sy → orderly sy ev = true → sys_step sy ev = Some sy' → current sy'.
Proof.
  intros Hok Hc Ho Hstep. pose proof (so_seen _ Hok) as Hseen.
  destruct ev as [ev| | | | | | |s| |s| |]; cbn [sys_step] in Hstep.
  - destruct (driver_event_ok sy ev); [|done]. apply bind_Some in Hstep as (w' & Hs & Hsy).
    simplify_eq. intros Ha. cbn. destruct (step_away _ _ _ Hs Ha) as [->|[Ha' Hlog]]; [lia|].
    destruct (publishes _ _); [lia|]. intros Hv. destruct (Hc Ha' Hv) as [? Hb]. split; [done|].
    unfold backlog in *. cbn. by rewrite Hlog.
  - destruct (sy_clones sy); [done|]. by eapply current_arm.
  - case_decide; [|done]. apply pump_arm_inv in Hstep as (_ & p & Hp & ->). intros _ _.
    apply Nat.eqb_eq in Ho. split; [|done]. cbn. by apply pump_step_spec in Hp as (_ & -> & _).
  - destruct (w_phase _); try done. case_decide; [|done]. by eapply current_arm.
  - by eapply current_arm.
  - case_decide; [|done]. apply bind_Some in Hstep as (msg & Hm & Ha).
    apply pump_arm_inv in Ha as (_ & p & _ & ->). intros Ha Hv. destruct (Hc Ha Hv) as [_ Hb].
    apply lookup_lt_Some in Hm. unfold backlog in Hb. lia.
  - case_decide as Hlag; [|done]. apply pump_arm_inv in Hstep as (_ & p & _ & ->). intros Ha Hv.
    destruct (Hc Ha Hv) as [_ Hb]. unfold backlog in *. lia.
  - apply bind_Some in Hstep as ([w' l] & [Hw He]%launch_submit_world & Hsy). simplify_eq.
    by eapply current_same.
  - apply bind_Some in Hstep as (l & _ & Hsy). simplify_eq. eapply current_same; [done..|].
    by destruct l as [|[]|].
  - apply bind_Some in Hstep as ([w' l] & [Hw He]%launch_submit_world & Hsy). simplify_eq.
    by eapply current_same.
  - apply bind_Some in Hstep as (l & _ & Hsy). simplify_eq. by eapply current_same.
  - destruct (launched _); simplify_eq. by eapply current_same.
Qed.

(** C16: Readiness is current when broadcasts are read before resets: if the pump takes a
    state change only once it has read what the session broadcast before, a coordinator
    that publishes itself ready and has seen every state change belongs to a session that is
    logged on (or closing its socket): never to one that is reconnecting or has stopped. *)
Theorem ready_is_current w version evs sy :
  watched w version → w_handles w = true → orderly_run (attach w version) evs = Some sy →
  pu_published (sy_pump sy) = true → sy_seen sy = sy_version sy → away (sy_world sy) = false.
Proof.
  intros Hw Hh Hrun Hr Hv.
  assert (sys_ok sy ∧ current sy) as [_ Hc].
  { assert (sys_ok (attach w version)) as Hok by (apply attach_ok; [by eapply watched_reachable|done]).
    assert (current (attach w version)) as Hc.
    { intros Ha. cbn in Ha |- *. pose proof (watched_away _ _ Hw Ha). lia. }
    clear - Hok Hc Hrun. revert Hok Hc Hrun. generalize (attach w version) as sy0.
    induction evs as [|ev evs IH]; intros sy0 Hok Hc; cbn [orderly_run]; [by intros [= <-]|].
    destruct (orderly sy0 ev) eqn:Ho; [|done]. destruct (sys_step sy0 ev) as [sy1|] eqn:Hs; [|done].
    cbn [mbind option_bind]. apply IH; [by eapply sys_step_ok|by eapply sys_step_current]. }
  destruct (away (sy_world sy)) eqn:Ha; [|done]. destruct (Hc Ha Hv). congruence.
Qed.
End system.

(** ** Concrete runs *)
Section witnesses.
Import Wire.Instances.
#[local] Instance status_wire : Message ConnectionStatus :=
  wire_message (w_iso Build_ConnectionStatus cst_status (w_option (w_int 4))).
#[local] Instance hello_wire : Message ClientHello :=
  {| encode_to_vec := λ _, [x01]; encoded_len := λ _, 1; msg_decode := λ _, Err "unused"%string |}.
#[local] Instance games_wire : Message GamesPlayed :=
  {| encode_to_vec := λ _, [x02]; encoded_len := λ _, 1; msg_decode := λ _, Err "unused"%string |}.

(** [attach] announces the app and says hello, then the GC's welcome is broadcast. *)
Definition attach_events : list SysEvent :=
  [SCallerSubmit 0; SDriver (OnCommand None); SCallerAck; SCallerSubmit 1;
   SDriver (OnCommand None); SCallerAck].
Definition welcome_events : list SysEvent :=
  [SDriver (Arrive (Some (Ok (WsBinary (frame_of_msg (relayed 730 GC_CLIENT_WELCOME []))))));
   SDriver OnRead].
Definition logoff_events : list SysEvent :=
  [SDriver (Submit 9 CallLogoff); SDriver (OnCommand None); SDriver (OnClosed true)].
Definition system_after (evs : list SysEvent) : System :=
  default (attach sample_world 0) (sys_run stored 730 2000244 (attach sample_world 0) evs).

Lemma sample_watched : watched stored sample_world 0.
Proof.
  by apply (watched_spawn stored 0 sample_config (λ _, Ok (sample_conn_on, logged_on_sample))).
Qed.

(** The witnesses' runs do run. *)
Lemma system_after_run evs :
  is_Some (sys_run stored 730 2000244 (attach sample_world 0) evs) →
  sys_run stored 730 2000244 (attach sample_world 0) evs = Some (system_after evs).
Proof. intros [sy Hs]. unfold system_after. by rewrite Hs. Qed.

Lemma coordinator_refines_its_parts_witness :
  ∃ pevs, pump_run 730 2000244 (pump_start 0) pevs =
            Some (sy_pump (system_after (attach_events ++ welcome_events ++ [SReceive]))) ∧
          heard pevs = [relayed 730 GC_CLIENT_WELCOME []].
Proof.
  set (evs := attach_events ++ welcome_events ++ [SReceive]).
  destruct (coordinator_refines_its_parts stored 730 2000244 sample_world 0 evs
    (system_after evs)) as (devs & pevs & _ & Hp & _ & Hg).
  - apply system_after_run. vm_compute. by eexists.
  - exists pevs. split; [done|]. rewrite Hg; [by vm_compute|].
    subst evs. cbn. intros Hin. repeat (apply elem_of_cons in Hin as [?|Hin]; [done|]).
    by apply elem_of_nil in Hin.
Defined.


(** The driver stops while the pump's retried hello is still queued. *)
Definition mid_hello : list SysEvent :=
  attach_events ++ [SDriver (Advance 2000); SHelloTick; SDriver (Submit 9 CallLogoff);
    SPumpSubmit 2; SDriver (OnCommand None); SDriver (OnClosed true)].
Lemma pump_ends_with_session_witness :
  ∃ sy', wind_down stored 730 2000244 6 (system_after mid_hello) = Some sy' ∧
         pu_running (sy_pump sy') = false.
Proof.
  apply (pump_ends_with_session stored 730 2000244 sample_world 0 mid_hello _ (Ok tt)).
  - apply sample_reachable.
  - done.
  - apply system_after_run. vm_compute. by eexists.
  - by vm_compute.
Defined.

Lemma ready_is_current_witness :
  ∃ sy, orderly_run stored 730 2000244 (attach sample_world 0)
          (attach_events ++ welcome_events ++ [SReceive]) = Some sy ∧
        pu_published (sy_pump sy) = true ∧ away (sy_world sy) = false.
Proof.
  exists (system_after (attach_events ++ welcome_events ++ [SReceive])).
  split; [by vm_compute|]. split; [by vm_compute|].
  apply (ready_is_current stored 730 2000244 sample_world 0
    (attach_events ++ welcome_events ++ [SReceive])); by apply sample_watched || by vm_compute.
Defined.

(** Without that order readiness can go stale: a welcome that was broadcast before the
    session ended may be read after the reset, and the pump then ends with the coordinator
    latched ready over a session that is gone, so that [wait_ready] succeeds. *)
Theorem stale_welcome_latches :
  ∃ sy, sys_run stored 730 2000244 (attach sample_world 0)
          (attach_events ++ welcome_events ++ logoff_events ++
           [SStateChanged; SReceive; SStateGone]) = Some sy ∧
        w_phase (sy_world sy) = Stopped (Ok tt) ∧ pu_running (sy_pump sy) = false ∧
        wait_ready (pu_published (sy_pump sy)) [None] = Ok tt.
Proof. eexists. split; [by vm_compute|]. by vm_compute. Qed.
End witnesses.
