(* ===== verification/GcRequest.v ===== *)
(** * A Game Coordinator request, end to end

    One request through every layer: [GameCoordinator::request_matching] wraps it, the
    session's handle queues it, the driver frames and writes it, Steam's answer is read,
    unframed and broadcast by the driver, relayed by the pump of the attached coordinator
    (GcSystem.v), and accepted by the waiting request. *)
From S2P Require Import Prelude Errors Proto Wire Codec Connection Driver Gc GcSystem.
#[local] Set Default Goal Selector "!".

(** A task is connected, its queue and socket are quiet. *)
Record quiescent (w : World) (nh ns : Instant) : Prop := {
  qu_phase : w_phase w = Connected nh ns;
  qu_handles : w_handles w = true;
  qu_commands : sd_commands (w_driver w) = [];
  qu_read : sd_read (w_driver w) = [];
  qu_inbox : sd_inbox (w_driver w) = []
}.

Section request.
Context `{Message CMsgProtoBufHeader, Message CMsgMulti, Message CMsgClientLoggedOff,
          Message CMsgClientLogon, Message CMsgClientLogonResponse}.
Context `{Message GcHeader, Message CMsgGcClient, Message ClientHello, Message ConnectionStatus,
          Message GamesPlayed}.
Context `{!MessageLaws CMsgProtoBufHeader, !MessageLaws GcHeader, !MessageLaws CMsgGcClient}.
Context (GzDecoder : list byte → list byte * option string).
Context (appid hello_version : Z).

(** The driver after a notification was queued and written, and after an unsolicited
    message was read. *)
Definition notified (d : SessionDriver) (emsg : Z) (body : list byte) (s : nat) : SessionDriver :=
  set_slots (set_write (set_commands d []) (sd_write d ++
      [WsBinary (encode_raw emsg (session_header (sd_steam_id d) (sd_session_id d) None) body)]))
    (<[s := SlotFull (ANotify (Ok tt))]> (sd_slots d)).

Lemma step_notify w nh ns s emsg body :
  quiescent w nh ns → sd_slots (w_driver w) !! s = None →
  run_events GzDecoder w [Submit s (CallNotify emsg body); OnCommand None] =
    Some (with_driver w (notified (w_driver w) emsg body s)).
Proof.
  intros [Hp Hh Hc _ _] Hs. cbn [run_events step]. unfold submit. rewrite decide_True, Hp, Hc by done.
  cbn [length]. rewrite decide_True by (unfold COMMAND_CAPACITY; lia).
  cbn [mbind option_bind step app]. unfold take_command, recv_command.
  cbn. unfold oneshot_send. rewrite decide_True by apply lookup_insert_eq.
  rewrite insert_insert_eq. unfold with_driver, notified. by rewrite Hp.
Qed.

Lemma step_push w nh ns emsg (h : CMsgProtoBufHeader) body :
  w_phase w = Connected nh ns → sd_read (w_driver w) = [] → sd_inbox (w_driver w) = [] →
  in_u 31 emsg → emsg ≠ EMSG_MULTI → emsg ≠ EMSG_CLIENT_LOGGED_OFF →
  msg_wf h → encoded_len h < 2 ^ 32 →
  run_events GzDecoder w [Arrive (Some (Ok (WsBinary (encode_raw emsg h body)))); OnRead] =
    Some (with_driver w (dispatch (set_reader (w_driver w) [] [] (w_now w))
      {| sm_emsg := emsg; sm_header := h; sm_body := body |})).
Proof.
  intros Hp Hr Hi He Hm Hl Hh Hlen.
  cbn [run_events step mbind option_bind with_driver w_phase w_driver w_now w_handles]. rewrite Hp.
  rewrite (on_read_frame _ _ _ emsg h body); try done; [|cbn; by rewrite Hr].
  cbn [mbind option_bind after_arm]. unfold with_driver. by rewrite Hp.
Qed.

(** A stretch of the driver during which it stays connected. *)
Lemma sys_run_driver sy devs w' nh ns :
  w_phase (sy_world sy) = Connected nh ns →
  Forall (λ ev, driver_event_ok sy ev = true) devs →
  (∀ k w1, run_events GzDecoder (sy_world sy) (take k devs) = Some w1 → w_phase w1 = Connected nh ns) →
  run_events GzDecoder (sy_world sy) devs = Some w' →
  sys_run GzDecoder appid hello_version sy (SDriver <$> devs) =
    Some (with_world sy w' (sy_version sy)).
Proof.
  intros Hp Hok. revert sy Hp Hok. induction devs as [|ev devs IH]; intros sy Hp Hok Hpre Hrun.
  { cbn in Hrun. injection Hrun as <-. cbn. by destruct sy. }
  apply list.Forall_cons in Hok as [Hev Hok]. cbn [run_events fmap list_fmap sys_run sys_step] in *.
  rewrite Hev. destruct (step GzDecoder (sy_world sy) ev) as [w1|] eqn:Hs; [|done].
  cbn [mbind option_bind] in *.
  assert (w_phase w1 = Connected nh ns) as Hp1.
  { apply (Hpre 1%nat). cbn [take run_events]. by rewrite Hs. }
  unfold publishes at 1. rewrite Hp, Hp1.
  apply (IH (with_world sy w1 (sy_version sy))); [done|done| |done].
  intros k w2 Hk. apply (Hpre (S k)). cbn [take run_events]. by rewrite Hs.
Qed.

Lemma run_events_app w evs1 evs2 :
  run_events GzDecoder w (evs1 ++ evs2) =
    (w ← run_events GzDecoder w evs1; run_events GzDecoder w evs2).
Proof.
  revert w. induction evs1 as [|ev evs1 IH]; intros w; [done|]. cbn [run_events app].
  destruct (step GzDecoder w ev); [apply IH|done].
Qed.

Lemma sys_run_app sy evs1 evs2 :
  sys_run GzDecoder appid hello_version sy (evs1 ++ evs2) =
    (sy ← sys_run GzDecoder appid hello_version sy evs1;
     sys_run GzDecoder appid hello_version sy evs2).
Proof.
  revert sy. induction evs1 as [|ev evs1 IH]; intros sy; [done|]. cbn [sys_run app].
  destruct (sys_step _ _ _ sy ev); [apply IH|done].
Qed.

(** The driver's part: the request goes out, the answer is broadcast. *)
Definition exchanged (w : World) (emsg : Z) (body : list byte) (s : nat) (msg : SteamMessage) : World :=
  with_driver w (dispatch (set_reader (notified (w_driver w) emsg body s) [] [] (w_now w)) msg).

Definition exchange_events (s : nat) (emsg : Z) (body : list byte) (frame : list byte) : list Event :=
  [Submit s (CallNotify emsg body); OnCommand None; Arrive (Some (Ok (WsBinary frame))); OnRead].

Lemma exchange_runs w nh ns s emsg body emsg' (h : CMsgProtoBufHeader) body' :
  quiescent w nh ns → sd_slots (w_driver w) !! s = None →
  in_u 31 emsg' → emsg' ≠ EMSG_MULTI → emsg' ≠ EMSG_CLIENT_LOGGED_OFF →
  msg_wf h → encoded_len h < 2 ^ 32 →
  let evs := exchange_events s emsg body (encode_raw emsg' h body') in
  run_events GzDecoder w evs =
    Some (exchanged w emsg body s {| sm_emsg := emsg'; sm_header := h; sm_body := body' |}) ∧
  ∀ k w1, run_events GzDecoder w (take k evs) = Some w1 → w_phase w1 = Connected nh ns.
Proof.
  intros Hq Hs He Hm Hl Hh Hlen. cbn zeta. pose proof Hq as [Hp _ _ Hr Hi].
  pose proof (step_notify w nh ns s emsg body Hq Hs) as Hn.
  assert (run_events GzDecoder w (exchange_events s emsg body (encode_raw emsg' h body')) =
    Some (exchanged w emsg body s {| sm_emsg := emsg'; sm_header := h; sm_body := body' |})) as Hrun.
  { change (exchange_events _ _ _ _) with ([Submit s (CallNotify emsg body); OnCommand None] ++
      [Arrive (Some (Ok (WsBinary (encode_raw emsg' h body')))); OnRead]).
    rewrite run_events_app, Hn. cbn [mbind option_bind]. by eapply step_push. }
  split; [done|]. intros k w1. unfold exchange_events in *.
  destruct k as [|[|[|[|k]]]]; cbn [take].
  - by intros [= <-].
  - cbn [run_events step]. destruct (submit w s _) as [w2|] eqn:Hsub; [|done]. cbn. intros [= <-].
    by apply submit_world in Hsub as [-> _].
  - rewrite Hn. by intros [= <-].
  - change [?a; ?b; ?c] with ([a; b] ++ [c]). rewrite run_events_app, Hn. cbn. by intros [= <-].
  - rewrite take_nil, Hrun. by intros [= <-].
Qed.

(** The pump's part: the broadcast is relayed. *)
Lemma receive_relays sy msg m :
  pu_running (sy_pump sy) = true → launched (sy_sending sy) = true →
  sd_events (w_driver (sy_world sy)) = take (sy_pos sy) (sd_events (w_driver (sy_world sy))) ++ [msg] →
  (sy_pos sy < length (sd_events (w_driver (sy_world sy))))%nat →
  sm_emsg msg = EMSG_CLIENT_FROM_GC → unwrap msg = Some (Ok (Some m)) → gm_appid m = appid →
  ∃ sy', sys_step GzDecoder appid hello_version sy SReceive = Some sy' ∧
    sy_world sy' = sy_world sy ∧ pu_events (sy_pump sy') = pu_events (sy_pump sy) ++ [m].
Proof.
  intros Hrun Hl Hlog Hlt He Hu Ha. set (log := sd_events _) in *.
  assert (length log = S (sy_pos sy)) as Hlen.
  { apply (f_equal length) in Hlog. rewrite length_app, length_take in Hlog. cbn in Hlog. lia. }
  assert (log !! sy_pos sy = Some msg) as Hm.
  { rewrite Hlog. apply list_lookup_middle. rewrite length_take. lia. }
  cbn [sys_step]. unfold backlog. fold log.
  rewrite decide_True by (unfold EVENT_CAPACITY; lia). rewrite Hm. cbn [mbind option_bind].
  unfold pump_arm. rewrite Hl. unfold pump_step. rewrite Hrun, decide_False by tauto.
  rewrite Hu. cbn [mbind option_bind]. rewrite decide_True by done. eexists. split; [done|]. split; [done|].
  cbn. unfold on_gc_message. case_decide; [done|]. case_decide; [|done]. by destruct (has_gc_session _).
Qed.

(** ** The round trip *)
Context {Req Resp : Type} `{Message Req, Message Resp, !MsgWf Resp, !MessageLaws Resp}.

(** C14: A GC request and its answer meet: over an attached, idle coordinator the request
    leaves as one frame from which Steam unwraps exactly the app, message type and body that
    were asked for, its sender is told the write succeeded, and the frame Steam answers with
    is relayed to the app's subscribers as one message, which the waiting request decodes
    into the very response the GC encoded and returns if its filter accepts it. *)
Theorem gc_request_round_trip sy nh ns s send_type (req : Req) response_type (resp : Resp)
    (h : CMsgProtoBufHeader) (gh : GcHeader) :
  let d := w_driver (sy_world sy) in
  quiescent (sy_world sy) nh ns → sd_slots d !! s = None →
  pu_running (sy_pump sy) = true → launched (sy_sending sy) = true →
  sy_pos sy = length (sd_events d) →
  in_u 64 (sd_steam_id d) → in_i 32 (sd_session_id d) →
  encoded_len (session_header (sd_steam_id d) (sd_session_id d) None) < 2 ^ 32 →
  in_u 32 appid → in_u 31 send_type → in_u 31 response_type →
  msg_wf h → encoded_len h < 2 ^ 32 → h_jobid_target h = None →
  msg_wf gh → encoded_len gh < 2 ^ 32 → encoded_len gc_header_default < 2 ^ 32 → msg_wf resp →
  let request := wrap appid send_type gc_header_default (encode_to_vec req) in
  let answer := encode_raw EMSG_CLIENT_FROM_GC h
                  (encode_to_vec (wrap appid response_type gh (encode_to_vec resp))) in
  let reply := {| gm_appid := appid; gm_msgtype := response_type; gm_header := gh;
                  gm_body := encode_to_vec resp |} in
  ∃ sy' sent frame,
    sys_run GzDecoder appid hello_version sy
      ((SDriver <$> exchange_events s EMSG_CLIENT_TO_GC (encode_to_vec request) answer) ++ [SReceive])
      = Some sy' ∧
    sd_write (w_driver (sy_world sy')) = sd_write d ++ [WsBinary frame] ∧
    try_decode frame = Some (Ok (Some sent)) ∧ sm_emsg sent = EMSG_CLIENT_TO_GC ∧
    unwrap sent = Some (Ok (Some {| gm_appid := appid; gm_msgtype := send_type;
                                    gm_header := gc_header_default; gm_body := encode_to_vec req |})) ∧
    sd_slots (w_driver (sy_world sy')) !! s = Some (SlotFull (ANotify (Ok tt))) ∧
    pu_events (sy_pump sy') = pu_events (sy_pump sy) ++ [reply] ∧
    ∀ accept : Resp → bool, accept resp = true →
      await_matching response_type accept [RMsg reply] = Ok resp.
Proof.
  intros d Hq Hs Hrun Hl Hpos Hid Hsid Hlen Ha Hst Hrt Hh Hhl Ht Hgh Hghl Hgdl Hresp
    request answer reply.
  set (sent := {| sm_emsg := EMSG_CLIENT_TO_GC;
                  sm_header := session_header (sd_steam_id d) (sd_session_id d) None;
                  sm_body := encode_to_vec request |}).
  set (pushed := {| sm_emsg := EMSG_CLIENT_FROM_GC; sm_header := h;
    sm_body := encode_to_vec (wrap appid response_type gh (encode_to_vec resp)) |}).
  destruct (exchange_runs (sy_world sy) nh ns s EMSG_CLIENT_TO_GC (encode_to_vec request)
    EMSG_CLIENT_FROM_GC h (sm_body pushed)) as [Hdrv Hpre]; [done..|].
  set (w' := exchanged (sy_world sy) EMSG_CLIENT_TO_GC (encode_to_vec request) s pushed) in Hdrv.
  assert (w_driver w' = set_routes (set_reader (notified d EMSG_CLIENT_TO_GC (encode_to_vec request) s)
    [] [] (w_now (sy_world sy))) (sd_pending d) (sd_events d ++ [pushed])
    (cache_snapshot (sd_snapshots d) pushed) (<[s := SlotFull (ANotify (Ok tt))]> (sd_slots d))) as Hw'.
  { cbn [w' exchanged with_driver w_driver]. unfold dispatch, reply_target. cbn [pushed sm_header].
    by rewrite Ht. }
  destruct (receive_relays (with_world sy w' (sy_version sy)) pushed reply) as (sy' & Hrecv & Hworld & Hev);
    [done|done| | |done| |done|].
  - cbn [with_world sy_world sy_pos]. rewrite Hw'. cbn. by rewrite Hpos, take_app_length.
  - cbn [with_world sy_world sy_pos]. rewrite Hw'. cbn. rewrite length_app. cbn. lia.
  - by apply gc_envelope_round_trip.
  - exists sy', sent, (encode_raw EMSG_CLIENT_TO_GC
      (session_header (sd_steam_id d) (sd_session_id d) None) (encode_to_vec request)).
    split_and!.
    + rewrite sys_run_app. rewrite (sys_run_driver sy _ w' nh ns); [|apply Hq|by repeat constructor|done|done].
      cbn [mbind option_bind sys_run]. by rewrite Hrecv.
    + rewrite Hworld. cbn [with_world sy_world]. by rewrite Hw'.
    + by rewrite try_decode_encode_raw.
    + done.
    + by apply gc_envelope_round_trip.
    + rewrite Hworld. cbn [with_world sy_world]. rewrite Hw'. cbn. by rewrite lookup_insert_eq.
    + done.
    + intros accept Hacc. cbn. rewrite decide_True by done. rewrite decode_encode by done. cbn.
      by rewrite Hacc.
Qed.
End request.

(** ** A concrete request *)
Section witnesses.
Import Wire.Instances.
#[local] Existing Instances header_message_laws gc_header_message_laws gc_client_message_laws
  logged_off_message_laws.
#[local] Instance status_wire : Message ConnectionStatus :=
  wire_message (w_iso Build_ConnectionStatus cst_status (w_option (w_int 4))).
#[local] Instance hello_wire : Message ClientHello :=
  {| encode_to_vec := λ _, [x01]; encoded_len := λ _, 1; msg_decode := λ _, Err "unused"%string |}.
#[local] Instance games_wire : Message GamesPlayed :=
  {| encode_to_vec := λ _, [x02]; encoded_len := λ _, 1; msg_decode := λ _, Err "unused"%string |}.

Lemma gc_request_round_trip_witness :
  ∃ sy', sys_run stored 730 2000244 (system_after attach_events)
           ((SDriver <$> exchange_events 9 EMSG_CLIENT_TO_GC
              (encode_to_vec (wrap 730 9127 gc_header_default
                 (encode_to_vec {| lo_eresult := Some 7 |})))
              (encode_raw EMSG_CLIENT_FROM_GC header_default
                 (encode_to_vec (wrap 730 9128 gc_header_default
                    (encode_to_vec {| lo_eresult := Some 8 |}))))) ++ [SReceive]) = Some sy' ∧
         gm_body <$> pu_events (sy_pump sy') = [encode_to_vec {| lo_eresult := Some 8 |}].
Proof.
  destruct (gc_request_round_trip stored 730 2000244 (system_after attach_events) 1000 1000 9 9127
    {| lo_eresult := Some 7 |} 9128 {| lo_eresult := Some 8 |} header_default gc_header_default)
    as (sy' & sent & frame & Hrun & _ & _ & _ & _ & _ & Hev & _);
    [by split; vm_compute|by vm_compute..|split; lia|split; lia|split; lia|done|by vm_compute|done
    |done|by vm_compute|by vm_compute|by vm_compute|].
  exists sy'. split; [done|]. rewrite Hev. by vm_compute.
Defined.
End witnesses.
