(* ===== verification/GcClock.v ===== *)
(** * How long a game-coordinator request may take

    The timers of src/gc/coordinator.rs and src/cs2.rs.  Gc.v says what [wait_ready],
    [request_matching] and [request_player_profile] come to when it is given what arrives in
    time; here every change of readiness, the send and every message carry their times,
    counted from the start of the call, and the code's timers decide.  The timed functions
    are shown to come to the answers of Gc.v and to come to them in time. *)
From S2P Require Import Prelude Errors RustStr Proto Wire Codec Connection Driver Gc.
#[local] Set Default Goal Selector "!".

Definition PROFILE_TIMEOUT : Z := from_secs 15.

(** ** The timed functions *)

(** [timeout(deadline, ..)] around the loop of [wait_ready], [t] into the call: the loop is
    polled before the timer, so a change at the deadline still counts. *)
Fixpoint clocked_wait_ready (deadline t : Z) (current : bool) (changes : list (Z * option bool)) :
    Result unit * Z :=
  if current then (Ok tt, t)
  else match changes with
       | [] => (Err (Timeout "GC welcome"), deadline)
       | (t', change) :: rest =>
           if deadline <? t' then (Err (Timeout "GC welcome"), deadline)
           else match change with
                | None => (Err (WebSocket "GC pump stopped"), t')
                | Some r => clocked_wait_ready deadline t' r rest
                end
       end.

(** The loop of [request_matching] under a timer that fires at [until]; a message that came
    before [t] has been waiting in the channel. *)
Fixpoint clocked_await_matching {Resp} `{Message Resp} (response_type : Z) (accept : Resp → bool)
    (until t : Z) (arrivals : list (Z * GcRecv)) : Result Resp * Z :=
  match arrivals with
  | [] => (Err (Timeout "GC response"), until)
  | (t', a) :: rest =>
      if until <? t' then (Err (Timeout "GC response"), until)
      else
        let t := Z.max t t' in
        match a with
        | RMsg m =>
            if decide (gm_msgtype m = response_type) then
              match map_err (λ e, Codec ("decode GC response: " +:+ e)) (msg_decode (gm_body m)) with
              | Err e => (Err e, t)
              | Ok decoded => if accept decoded then (Ok decoded, t)
                              else clocked_await_matching response_type accept until t rest
              end
            else clocked_await_matching response_type accept until t rest
        | RLagged => clocked_await_matching response_type accept until t rest
        | RClosed => (Err (WebSocket "GC pump stopped"), t)
        end
  end.

(** What the rest of the program does during a request: whether the GC is ready and what
    becomes of that, how the send ends and how long it takes, what the channel delivers. *)
Record GcCall := {
  gk_current : bool;
  gk_changes : list (Z * option bool);
  gk_sent : Result unit;
  gk_send_took : Z;
  gk_arrivals : list (Z * GcRecv)
}.

Section requests.
Context `{Message GcHeader, Message CMsgGcClient}.
Context (appid : Z).

(** What is handed to the session is listed with the time it is handed over. *)
Definition clocked_request_matching {Req Resp} `{Message Req, Message Resp} (send_type : Z) (body : Req)
    (response_type : Z) (deadline : Z) (accept : Resp → bool) (c : GcCall) :
    Result Resp * list (Z * Notified) * Z :=
  match clocked_wait_ready deadline 0 (gk_current c) (gk_changes c) with
  | (Err e, elapsed) => (Err e, [], elapsed)
  | (Ok _, elapsed) =>
      let budget := Z.max 0 (deadline - elapsed) in
      let sends := (λ n, (elapsed, n)) <$> gc_send appid send_type body in
      let t := elapsed + gk_send_took c in
      match gk_sent c with
      | Err e => (Err e, sends, t)
      | Ok _ =>
          let '(r, t) := clocked_await_matching response_type accept (t + budget) t (gk_arrivals c) in
          (r, sends, t)
      end
  end.
End requests.

Definition clocked_request_player_profile `{Message GcHeader, Message CMsgGcClient, Message ProfileRequest,
    Message PlayersProfile} (gc_appid account_id : Z) (c : GcCall) :
    Result PlayerProfile * list (Z * Notified) * Z :=
  if decide (gc_appid ≠ APP_ID) then
    (Err (InvalidConfig ("GameCoordinator is attached to app " +:+ pretty gc_appid
                         +:+ ", not CS2 (" +:+ pretty APP_ID +:+ ")")), [], 0)
  else
    let '(response, notified, t) :=
      clocked_request_matching gc_appid GC_CLIENT_REQUEST_PLAYERS_PROFILE
        {| prq_account_id := Some account_id; prq_request_level := Some REQUEST_LEVEL |}
        GC_PLAYERS_PROFILE PROFILE_TIMEOUT
        (λ r, existsb (profile_of account_id) (pp_account_profiles r)) c in
    (response ← response;
     profile ← ok_or (find_profile account_id response)
       (Network ("GC PlayersProfile carried no profile for account " +:+ pretty account_id));
     Ok (to_profile account_id profile), notified, t).

(** ** Forgetting the clock *)

(** What has come by [until]. *)
Fixpoint by_time {A} (until : Z) (l : list (Z * A)) : list A :=
  match l with
  | [] => []
  | (t, a) :: rest => if until <? t then [] else a :: by_time until rest
  end.

Lemma clocked_wait_ready_result deadline t current changes :
  (clocked_wait_ready deadline t current changes).1 = wait_ready current (by_time deadline changes).
Proof.
  revert t current. induction changes as [|[t' change] changes IH]; intros t current; cbn.
  - by destruct current.
  - destruct current; [by destruct (_ <? _)|]. destruct (deadline <? t'); [done|]. by destruct change.
Qed.

Lemma clocked_await_matching_result {Resp} `{Message Resp} response_type (accept : Resp → bool) until t
    arrivals :
  (clocked_await_matching response_type accept until t arrivals).1 =
    await_matching response_type accept (by_time until arrivals).
Proof.
  revert t. induction arrivals as [|[t' a] arrivals IH]; intros t; cbn; [done|].
  destruct (until <? t'); [done|]. cbn. destruct a as [m| |]; [|done|done].
  case_decide; [|done]. destruct (msg_decode (gm_body m)) as [d|]; cbn; [|done].
  by destruct (accept d).
Qed.

(** ** When the answers come *)

(** Time does not run backwards. *)
Definition call_clock (c : GcCall) : Prop :=
  Forall (λ x, 0 ≤ x.1) (gk_changes c) ∧ 0 ≤ gk_send_took c.

Lemma clocked_wait_ready_time deadline t current changes :
  0 ≤ t ≤ deadline → Forall (λ x, 0 ≤ x.1) changes →
  let '(r, t') := clocked_wait_ready deadline t current changes in
  0 ≤ t' ≤ deadline ∧ (∀ w, r = Err (Timeout w) → t' = deadline).
Proof.
  revert t current. induction changes as [|[t' change] changes IH]; intros t current Ht Hc; cbn.
  - destruct current; (split; [lia|done]).
  - apply list.Forall_cons in Hc as [H0 Hc]. cbn in H0. destruct current; [split; [lia|done]|].
    destruct (Z.ltb_spec deadline t'); [split; [lia|done]|].
    destruct change; [|split; [lia|done]]. apply IH; [lia|done].
Qed.

Lemma clocked_await_matching_time {Resp} `{Message Resp} response_type (accept : Resp → bool) until t
    arrivals :
  t ≤ until →
  let '(r, t') := clocked_await_matching response_type accept until t arrivals in
  t ≤ t' ≤ until ∧ (∀ w, r = Err (Timeout w) → t' = until).
Proof.
  revert t. induction arrivals as [|[t' a] arrivals IH]; intros t Ht; cbn; [split; [lia|done]|].
  destruct (Z.ltb_spec until t'); [split; [lia|done]|].
  assert (Z.max t t' ≤ until) as Hm by lia. specialize (IH _ Hm).
  assert (let '(r, t'') := clocked_await_matching response_type accept until (Z.max t t') arrivals in
          t ≤ t'' ≤ until ∧ (∀ w, r = Err (Timeout w) → t'' = until)) as Hrec.
  { destruct (clocked_await_matching _ _ _ _ _). destruct IH. split; [lia|done]. }
  destruct a as [m| |]; [|done|split; [lia|done]]. case_decide; [|done].
  destruct (msg_decode (gm_body m)) as [d|]; cbn; [|split; [lia|done]].
  destruct (accept d); [split; [lia|done]|done].
Qed.

Section laws.
Context `{Message GcHeader, Message CMsgGcClient} {Req Resp : Type} `{Message Req, Message Resp}.

(** Until when a request counts replies: the budget is taken before the send, so the time
    the send takes comes on top of the deadline. *)
Definition reply_until (deadline : Z) (c : GcCall) : Z := deadline + gk_send_took c.

Lemma clocked_request_matching_spec appid send_type (body : Req) response_type deadline
    (accept : Resp → bool) c :
  0 ≤ deadline → call_clock c →
  let '(r, sent, t) := clocked_request_matching appid send_type body response_type deadline accept c in
  (r, sent.*2) = request_matching appid send_type body response_type accept (gk_current c)
    (by_time deadline (gk_changes c)) (gk_sent c) (by_time (reply_until deadline c) (gk_arrivals c)) ∧
  Forall (λ x, 0 ≤ x.1 ≤ deadline) sent ∧
  0 ≤ t ≤ reply_until deadline c ∧ (sent = [] → t ≤ deadline) ∧
  (∀ w, r = Err (Timeout w) → gk_sent c = Ok tt →
     (sent = [] ∧ t = deadline) ∨ (sent ≠ [] ∧ t = reply_until deadline c)).
Proof.
  intros Hd [Hc Hs]. unfold clocked_request_matching, request_matching, reply_until.
  rewrite <-(clocked_wait_ready_result deadline 0).
  pose proof (clocked_wait_ready_time deadline 0 (gk_current c) (gk_changes c)) as Hw.
  destruct (clocked_wait_ready _ _ _ _) as [[[]|e] elapsed]; cbn [fst];
    (destruct Hw as [Hb Hto]; [lia|done|]); cycle 1.
  { split_and!; try lia; [done|by constructor|]. intros w [= ->] _. left. split; [done|]. by eapply Hto. }
  assert (Forall (λ x : Z * Notified, 0 ≤ x.1 ≤ deadline) ((λ n, (elapsed, n)) <$> gc_send appid send_type body))
    as Hsends by by apply list.Forall_singleton.
  destruct (gk_sent c) as [[]|e]; cbn [mbind result_bind]; cycle 1.
  { split_and!; try done; lia. }
  replace (elapsed + gk_send_took c + Z.max 0 (deadline - elapsed)) with (deadline + gk_send_took c) by lia.
  rewrite <-(clocked_await_matching_result response_type accept _ (elapsed + gk_send_took c)).
  pose proof (clocked_await_matching_time response_type accept (deadline + gk_send_took c)
    (elapsed + gk_send_took c) (gk_arrivals c)) as Ha.
  destruct (clocked_await_matching _ _ _ _ _) as [r t]; cbn [fst]. destruct Ha as [Ht Hr]; [lia|].
  split_and!; try done; [lia..|]. intros w Hw _. right. split; [done|]. by eapply Hr.
Qed.
End laws.

Section theorems.
Context `{Message GcHeader, Message CMsgGcClient}.

(** C30: A GC request keeps its deadline, up to the time its own send takes: it comes to
    exactly what [request_matching] makes of the changes seen by the deadline and of the
    messages that came by the deadline plus the send's time.  Its message is handed to the
    session by the deadline or not at all (writing it may take the session longer: that is
    the send's time, which no timer bounds), and a call that hands nothing over is over by
    the deadline.  A timeout is reported at the deadline when the welcome is missing, and
    when the reply is, later by exactly what the send took. *)
Theorem gc_request_keeps_its_deadline {Req Resp} `{Message Req, Message Resp} appid send_type (body : Req)
    response_type deadline (accept : Resp → bool) c :
  0 ≤ deadline → call_clock c →
  let '(r, sent, t) := clocked_request_matching appid send_type body response_type deadline accept c in
  (r, sent.*2) = request_matching appid send_type body response_type accept (gk_current c)
    (by_time deadline (gk_changes c)) (gk_sent c) (by_time (reply_until deadline c) (gk_arrivals c)) ∧
  Forall (λ x, 0 ≤ x.1 ≤ deadline) sent ∧
  0 ≤ t ≤ reply_until deadline c ∧ (sent = [] → t ≤ deadline) ∧
  (∀ w, r = Err (Timeout w) → gk_sent c = Ok tt →
     (sent = [] ∧ t = deadline) ∨ (sent ≠ [] ∧ t = reply_until deadline c)).
Proof. apply clocked_request_matching_spec. Qed.

(** A profile request is [request_player_profile] on what came in time, and is over 15
    seconds and the time of its send after it began. *)
Lemma profile_request_in_time `{Message ProfileRequest, Message PlayersProfile} gc_appid account_id c :
  call_clock c →
  let '(r, sent, t) := clocked_request_player_profile gc_appid account_id c in
  (r, sent.*2) = request_player_profile gc_appid account_id (gk_current c)
    (by_time PROFILE_TIMEOUT (gk_changes c)) (gk_sent c)
    (by_time (reply_until PROFILE_TIMEOUT c) (gk_arrivals c)) ∧
  0 ≤ t ≤ from_secs 15 + gk_send_took c.
Proof.
  intros Hc. unfold clocked_request_player_profile, request_player_profile.
  case_decide; [split; [done|]; destruct Hc; unfold from_secs; lia|].
  pose proof (clocked_request_matching_spec gc_appid GC_CLIENT_REQUEST_PLAYERS_PROFILE
    {| prq_account_id := Some account_id; prq_request_level := Some REQUEST_LEVEL |} GC_PLAYERS_PROFILE
    PROFILE_TIMEOUT (λ r, existsb (profile_of account_id) (pp_account_profiles r)) c) as Hr.
  destruct (clocked_request_matching _ _ _ _ _ _ _) as [[r sent] t].
  destruct Hr as (He & _ & Ht & _); [done|done|]. rewrite <-He. by split.
Qed.
End theorems.

(** ** A slow send *)
Section witnesses.
Import Wire.Instances.

(** The GC welcomes after two seconds, the send takes four, the reply comes at 18. *)
Definition slow_call : GcCall :=
  {| gk_current := false; gk_changes := [(2000, Some true)]; gk_sent := Ok tt; gk_send_took := 4000;
     gk_arrivals := [(3000, RLagged);
       (18000, RMsg {| gm_appid := 730; gm_msgtype := 9128; gm_header := gc_header_default;
                      gm_body := encode_to_vec header_default |})] |}.
Lemma slow_call_clock : call_clock slow_call.
Proof. split; [by repeat constructor|done]. Qed.

(** A reply three seconds after the deadline of 15 seconds is still taken. *)
Lemma gc_request_keeps_its_deadline_witness :
  let '(r, sent, t) := clocked_request_matching 730 9127 header_default 9128 (from_secs 15)
    (λ _ : CMsgProtoBufHeader, true) slow_call in
  r = Ok header_default ∧ from_secs 15 < t ≤ reply_until (from_secs 15) slow_call ∧
  Forall (λ x, 0 ≤ x.1 ≤ from_secs 15) sent.
Proof.
  pose proof (gc_request_keeps_its_deadline 730 9127 header_default 9128 (from_secs 15)
    (λ _ : CMsgProtoBufHeader, true) slow_call) as Hk.
  assert (∃ out, clocked_request_matching 730 9127 header_default 9128 (from_secs 15)
    (λ _ : CMsgProtoBufHeader, true) slow_call = (Ok header_default, out, 18000)) as [out Hc]
    by (eexists; by vm_compute).
  rewrite Hc in Hk |- *. destruct Hk as (_ & Hsends & Ht & _); [done|apply slow_call_clock|].
  split; [done|]. split; [split; [done|apply Ht]|exact Hsends].
Defined.
End witnesses.
