(* ===== verification/Host.v ===== *)
(** * The machine the example programs run on

    A program of examples/ talks to its process (environment variables, the terminal, exit
    codes), to the file system and, once it has one, to a session.  [Machine] is that state
    and [io] the monad of the programs: explicit state, with the ways a program can end.
    The environment does not change while a program runs and is an argument of it. *)
From S2P Require Import Prelude Errors RustStr Proxy Proto Codec Connection Driver Session Totp SignIn Redaction.
#[local] Set Default Goal Selector "!".

(** ** What a program prints

    The pieces of a formatted line: literal text, a [{}] argument that is a string, and a
    [{:?}] argument, as the calls its [Debug] implementation makes. *)
Inductive Piece :=
  | Txt (s : string)
  | Str (s : bstr)
  | Dbg (f : Fmt).
Inductive Line :=
  | Out (pieces : list Piece)
  | ErrOut (pieces : list Piece).

(** ** How a program ends

    [Box<dyn Error>] by what it was made from. *)
Inductive BoxError :=
  | FromStr (s : string)
  | FromError (e : Error)
  | FromParseInt (e : string)
  | FromIo (e : string).

(** [Hung]: an await that never completes. *)
Inductive ended (A : Type) :=
  | Done (a : A)
  | Failed (e : BoxError)
  | Exited (code : Z)
  | Panicked
  | Hung.
Arguments Done {A} a.
Arguments Failed {A} e.
Arguments Exited {A} code.
Arguments Panicked {A}.
Arguments Hung {A}.

(** The process's exit status. *)
Definition exit_status {A} (r : ended A) : option Z :=
  match r with
  | Done _ => Some 0
  | Failed _ => Some 1
  | Exited code => Some code
  | Panicked => Some 101
  | Hung => None
  end.

#[export] Instance byte_countable : Countable byte.
Proof. apply (inj_countable Byte.to_N Byte.of_N). apply Byte.of_to_N. Defined.

(** ** The machine

    [ma_deny path] is the error of writing to [path]; [ma_session] the session the
    program's handle refers to, once it has spawned one. *)
Record Machine (S : Type) := {
  ma_files : gmap bstr bstr;
  ma_deny : bstr → option string;
  ma_lines : list Line;
  ma_session : option S
}.
Arguments ma_files {S} _.
Arguments ma_deny {S} _.
Arguments ma_lines {S} _.
Arguments ma_session {S} _.
Arguments Build_Machine {S} _ _ _ _.

Definition io (S A : Type) : Type := Machine S → ended A * Machine S.
#[export] Instance io_ret S : MRet (io S) := λ A a m, (Done a, m).
#[export] Instance io_bind S : MBind (io S) := λ A B k p m,
  match p m with
  | (Done a, m') => k a m'
  | (Failed e, m') => (Failed e, m')
  | (Exited code, m') => (Exited code, m')
  | (Panicked, m') => (Panicked, m')
  | (Hung, m') => (Hung, m')
  end.

Section operations.
Context {S : Type}.

(** *** The process *)
Definition print (l : Line) : io S unit := λ m,
  (Done tt, {| ma_files := ma_files m; ma_deny := ma_deny m; ma_lines := ma_lines m ++ [l];
               ma_session := ma_session m |}).
Definition println (l : list Piece) : io S unit := print (Out l).
Definition eprintln (l : list Piece) : io S unit := print (ErrOut l).
Definition exit {A} (code : Z) : io S A := λ m, (Exited code, m).

(** *** [?] on the error types the programs meet *)
Definition ask {E A} (box : E → BoxError) (r : result E A) : io S A := λ m,
  (match r with Ok a => Done a | Err e => Failed (box e) end, m).
(** A call that may panic. *)
Definition run {A} (r : panicking A) : io S A := λ m,
  (match r with Some a => Done a | None => Panicked end, m).
(** [expect]. *)
Definition expect {A} (o : option A) : io S A := run o.

(** *** Files *)

(** [fs::read_to_string]: [None] for any error, bytes that are not UTF-8 among them. *)
Definition read_to_string (path : bstr) : io S (option bstr) := λ m,
  (Done (opt_filter (λ s, bool_decide (from_utf8_lossy s = s)) (ma_files m !! path)), m).
Definition write (path contents : bstr) : io S (result string unit) := λ m,
  match ma_deny m path with
  | Some e => (Done (Err e), m)
  | None => (Done (Ok tt), {| ma_files := <[path := contents]> (ma_files m); ma_deny := ma_deny m;
                              ma_lines := ma_lines m; ma_session := ma_session m |})
  end.

(** *** The session *)
Definition with_session (m : Machine S) (s : S) : Machine S :=
  {| ma_files := ma_files m; ma_deny := ma_deny m; ma_lines := ma_lines m; ma_session := Some s |}.
(** [spawn_session(config).await]. *)
Definition open_session (spawned : panicking (Result S)) : io S (Result unit) := λ m,
  match spawned with
  | None => (Panicked, m)
  | Some (Err e) => (Done (Err e), m)
  | Some (Ok s) => (Done (Ok tt), with_session m s)
  end.
(** An awaited call on the handle. *)
Definition call {A} (op : async S A) : io S (Result A) := λ m,
  match ma_session m with
  | None => (Panicked, m)
  | Some s =>
      match op s with
      | (Ready r, s') => (Done r, with_session m s')
      | (Pending, s') => (Hung, with_session m s')
      end
  end.
End operations.

(** ** Running programs *)

Lemma io_bind_done {S A B} (p : io S A) (k : A → io S B) m a m' :
  p m = (Done a, m') → (p ≫= k) m = k a m'.
Proof. intros Hp. unfold mbind, io_bind. by rewrite Hp. Qed.

(** What holds of the machine after every run of a program that starts in a machine of which
    it holds; [Q] is about the value it ends with. *)
Definition preserves {S A} (I : Machine S → Prop) (p : io S A) (Q : A → Prop) : Prop :=
  ∀ m, I m → I (p m).2 ∧ ∀ a, (p m).1 = Done a → Q a.

Section preserves.
Context {S : Type} (I : Machine S → Prop).

Lemma preserves_weaken {A} (p : io S A) (Q Q' : A → Prop) :
  (∀ a, Q a → Q' a) → preserves I p Q → preserves I p Q'.
Proof. intros HQ Hp m Hm. destruct (Hp m Hm) as [HI Ha]. split; [done|]. intros a Hr. by apply HQ, Ha. Qed.
Lemma preserves_ret {A} (a : A) : preserves I (mret a) (λ x, x = a).
Proof. intros m Hm. split; [done|]. by intros x [= ->]. Qed.
Lemma preserves_exit {A} code (Q : A → Prop) : preserves I (exit code) Q.
Proof. intros m Hm. split; [done|]. by intros x [=]. Qed.
Lemma preserves_ask {E A} box (r : result E A) : preserves I (ask box r) (λ a, r = Ok a).
Proof. intros m Hm. split; [done|]. intros a. destruct r; cbn; [by intros [= ->]|done]. Qed.
Lemma preserves_run {A} (r : panicking A) : preserves I (run r) (λ a, r = Some a).
Proof. intros m Hm. split; [done|]. intros a. destruct r; cbn; [by intros [= ->]|done]. Qed.
Lemma preserves_print l : (∀ m, I m → I (print l m).2) → preserves I (print l) (λ _, True).
Proof. intros Hl m Hm. split; [by apply Hl|done]. Qed.
Lemma preserves_session {A} (p : io S A) :
  (∀ m s, I m → I (with_session m s)) → (∀ m, (p m).2 = m ∨ ∃ s, (p m).2 = with_session m s) →
  preserves I p (λ _, True).
Proof. intros Hw Hp m Hm. split; [|done]. destruct (Hp m) as [->|[s ->]]; [done|by apply Hw]. Qed.
Lemma preserves_bind {A B} (p : io S A) (k : A → io S B) Q R :
  preserves I p Q → (∀ a, Q a → preserves I (k a) R) → preserves I (p ≫= k) R.
Proof.
  intros Hp Hk m Hm. destruct (Hp m Hm) as [HI Ha]. unfold mbind, io_bind.
  destruct (p m) as [[a|e|c| |] m']; cbn in *; try done. apply Hk; [by apply Ha|done].
Qed.
End preserves.

(** Calls and spawns change the session only. *)
Lemma call_session {S A} (op : async S A) (m : Machine S) :
  (call op m).2 = m ∨ ∃ s, (call op m).2 = with_session m s.
Proof. unfold call. destruct (ma_session m) as [s|]; [|by left]. destruct (op s) as [[|r] s']; right; by exists s'. Qed.
Lemma open_session_session {S} (r : panicking (Result S)) (m : Machine S) :
  (open_session r m).2 = m ∨ ∃ s, (open_session r m).2 = with_session m s.
Proof. destruct r as [[s|e]|]; [right; by exists s|by left|by left]. Qed.

(** ** Two runs side by side *)

(** A call that answers the same on two sessions that are related, and leaves them related. *)
Definition respects {S A} (RS : S → S → Prop) (op1 op2 : async S A) : Prop :=
  ∀ s1 s2, RS s1 s2 → (op1 s1).1 = (op2 s2).1 ∧ RS (op1 s1).2 (op2 s2).2.

Create HintDb respects.

(** A relation every operation of the session respects: its users cannot tell the two
    sessions apart. *)
Class Indistinguishable {S} `{SessionOps S} (RS : S → S → Prop) : Prop := {
  ind_exchange emsg body timeout : respects RS (so_exchange emsg body timeout) (so_exchange emsg body timeout);
  ind_notify emsg body : respects RS (so_notify emsg body) (so_notify emsg body);
  ind_cached s1 s2 emsg : RS s1 s2 → so_cached s1 emsg = so_cached s2 emsg;
  ind_subscribe s1 s2 : RS s1 s2 → so_subscribe s1 = so_subscribe s2;
  ind_preempt s1 s2 : RS s1 s2 → RS (so_preempt s1) (so_preempt s2);
  ind_wait pos timeout s1 s2 :
    RS s1 s2 → (so_wait pos timeout s1).1 = (so_wait pos timeout s2).1 ∧
               RS (so_wait pos timeout s1).2 (so_wait pos timeout s2).2
}.

(** Calls built from the operations cannot tell them apart either. *)
Section respects.
Context {S : Type} `{Indistinguishable S RS}.

Lemma respects_lift {A} (r : Result A) : respects RS (lift r) (lift r).
Proof. by intros s1 s2 Hs. Qed.
Lemma respects_bind {A B} (op : async S A) (k : A → async S B) :
  respects RS op op → (∀ a, respects RS (k a) (k a)) → respects RS (op ≫= k) (op ≫= k).
Proof.
  intros Hop Hk s1 s2 Hs. destruct (Hop s1 s2 Hs) as [Hr Hs']. unfold mbind, async_bind.
  destruct (op s1) as [[|[a|e]] s1'], (op s2) as [[|[b|e']] s2']; cbn in *; simplify_eq; try done.
  by apply Hk.
Qed.
Lemma respects_dispatch {Req Resp} `{Message Req, Message Resp} emsg (req : Req) timeout check :
  respects RS (dispatch_request (Resp := Resp) emsg req timeout check) (dispatch_request emsg req timeout check).
Proof.
  intros s1 s2 Hs. unfold dispatch_request.
  destruct (ind_exchange emsg (encode_to_vec req) timeout s1 s2 Hs) as [Hr Hs'].
  destruct (so_exchange emsg (encode_to_vec req) timeout s1) as [[|r1] s1'],
    (so_exchange emsg (encode_to_vec req) timeout s2) as [[|r2] s2']; cbn in *; by simplify_eq.
Qed.
Lemma respects_notify {Req} `{Message Req} emsg (req : Req) : respects RS (notify emsg req) (notify emsg req).
Proof. apply ind_notify. Qed.
Lemma respects_wait {A} pos timeout (on_msg : SteamMessage → Result (option A)) late :
  respects RS (wait_event pos timeout on_msg late) (wait_event pos timeout on_msg late).
Proof.
  intros s1 s2 Hs. unfold wait_event. destruct (ind_wait pos timeout s1 s2 Hs) as [Hr Hs'].
  destruct (so_wait pos timeout s1) as [[arr1 el1] s1'], (so_wait pos timeout s2) as [[arr2 el2] s2'].
  cbn in *. by simplify_eq.
Qed.
End respects.

#[export] Hint Resolve respects_lift respects_bind respects_dispatch respects_notify respects_wait : respects.

Section same.
Context {S : Type} (RS : S → S → Prop).

(** Machines that look the same from the terminal, with sessions that are related; what
    their files hold may differ. *)
Definition alike (m1 m2 : Machine S) : Prop :=
  ma_deny m1 = ma_deny m2 ∧ ma_lines m1 = ma_lines m2 ∧ option_Forall2 RS (ma_session m1) (ma_session m2).

Definition ended_alike {A B} (R : A → B → Prop) (r1 : ended A) (r2 : ended B) : Prop :=
  match r1, r2 with
  | Done a, Done b => R a b
  | Failed e1, Failed e2 => e1 = e2
  | Exited c1, Exited c2 => c1 = c2
  | Panicked, Panicked | Hung, Hung => True
  | _, _ => False
  end.

(** What spawning comes to, but for the sessions. *)
Definition spawned_alike (r1 r2 : panicking (Result S)) : Prop :=
  match r1, r2 with
  | Some (Ok s1), Some (Ok s2) => RS s1 s2
  | Some (Err e1), Some (Err e2) => e1 = e2
  | None, None => True
  | _, _ => False
  end.

(** On alike machines the two programs end alike, with values related by [R]. *)
Definition same {A B} (R : A → B → Prop) (p1 : io S A) (p2 : io S B) : Prop :=
  ∀ m1 m2, alike m1 m2 →
    ended_alike R (p1 m1).1 (p2 m2).1 ∧ alike (p1 m1).2 (p2 m2).2.

Lemma same_ret {A B} (R : A → B → Prop) a b : R a b → same R (mret a : io S A) (mret b).
Proof. by intros HR m1 m2 Hm. Qed.
Lemma same_bind {A B A' B'} (R : A → B → Prop) (R' : A' → B' → Prop) (p1 : io S A) (p2 : io S B) k1 k2 :
  same R p1 p2 → (∀ a b, R a b → same R' (k1 a) (k2 b)) → same R' (p1 ≫= k1) (p2 ≫= k2).
Proof.
  intros Hp Hk m1 m2 Hm. destruct (Hp m1 m2 Hm) as [Hr Hm']. unfold mbind, io_bind.
  destruct (p1 m1) as [[a|e|c| |] m1'], (p2 m2) as [[b|e'|c'| |] m2']; cbn in *; try done.
  by apply Hk.
Qed.
Lemma same_bind_eq {A A' B'} (R' : A' → B' → Prop) (p1 p2 : io S A) k1 k2 :
  same eq p1 p2 → (∀ a, same R' (k1 a) (k2 a)) → same R' (p1 ≫= k1) (p2 ≫= k2).
Proof. intros Hp Hk. eapply same_bind; [exact Hp|]. by intros a ? <-. Qed.
Lemma same_print l : same eq (print l : io S unit) (print l).
Proof. intros m1 m2 (Hd & Hl & Hs). split; [done|]. unfold alike. cbn. by rewrite Hl. Qed.
Lemma same_exit {A B} (R : A → B → Prop) code : same R (exit code : io S A) (exit code).
Proof. by intros m1 m2 Hm. Qed.
Lemma same_ask {E A} box (r : result E A) : same eq (ask box r : io S A) (ask box r).
Proof. intros m1 m2 Hm. split; [|done]. by destruct r. Qed.
Lemma same_write path c1 c2 : same eq (write path c1 : io S _) (write path c2).
Proof.
  intros m1 m2 Hm. pose proof Hm as (Hd & Hl & Hs). unfold write. rewrite Hd.
  by destruct (ma_deny m2 path).
Qed.
Lemma alike_with m1 m2 s1 s2 : alike m1 m2 → RS s1 s2 → alike (with_session m1 s1) (with_session m2 s2).
Proof. intros (Hd & Hl & _) Hs. split_and!; [done..|by constructor]. Qed.
Lemma same_call {A} (op1 op2 : async S A) : respects RS op1 op2 → same eq (call op1) (call op2).
Proof.
  intros Hop m1 m2 Hm. pose proof Hm as (_ & _ & Hs). unfold call.
  destruct (ma_session m1) as [s1|], (ma_session m2) as [s2|]; inversion Hs as [? ? Hs'|]; [|done].
  destruct (Hop s1 s2 Hs') as [Hr Hs2].
  destruct (op1 s1) as [[|r1] s1'], (op2 s2) as [[|r2] s2']; cbn in *; simplify_eq;
    by (split; [|apply alike_with]).
Qed.
Lemma same_open (r1 r2 : panicking (Result S)) :
  spawned_alike r1 r2 → same eq (open_session r1) (open_session r2).
Proof.
  intros Hr m1 m2 Hm. destruct r1 as [[s1|e1]|], r2 as [[s2|e2]|]; cbn in Hr; simplify_eq; try done.
  split; [done|by apply alike_with].
Qed.
Lemma ended_alike_eq {A} (r1 r2 : ended A) : ended_alike eq r1 r2 → r1 = r2.
Proof. destruct r1, r2; cbn; congruence || done. Qed.

(** The same from one machine, for programs that read its files. *)
Definition same_at {A B} (R : A → B → Prop) (m : Machine S) (p1 : io S A) (p2 : io S B) : Prop :=
  ended_alike R (p1 m).1 (p2 m).1 ∧ alike (p1 m).2 (p2 m).2.
Lemma same_at_intro {A B} (R : A → B → Prop) m p1 p2 :
  option_Forall2 RS (ma_session m) (ma_session m) → same R p1 p2 → same_at R m p1 p2.
Proof. intros Hm Hs. by apply Hs. Qed.
Lemma same_at_bind {A B A' B'} (R : A → B → Prop) (R' : A' → B' → Prop) m (p1 : io S A) (p2 : io S B) k1 k2 :
  same_at R m p1 p2 → (∀ a b, R a b → same R' (k1 a) (k2 b)) → same_at R' m (p1 ≫= k1) (p2 ≫= k2).
Proof.
  intros [Hr Hm] Hk. unfold same_at, mbind, io_bind.
  destruct (p1 m) as [[a|e|c| |] m1'], (p2 m) as [[b|e'|c'| |] m2']; cbn in *; try done.
  by apply Hk.
Qed.
(** A step that only looks. *)
Lemma same_at_look {A A' B'} (R' : A' → B' → Prop) m (p1 p2 : io S A) k1 k2 :
  option_Forall2 RS (ma_session m) (ma_session m) →
  p1 m = p2 m → (p2 m).2 = m → (∀ a, same_at R' m (k1 a) (k2 a)) → same_at R' m (p1 ≫= k1) (p2 ≫= k2).
Proof.
  intros Hs Hp Hm Hk. unfold same_at, mbind, io_bind. rewrite Hp.
  destruct (p2 m) as [[a|e|c| |] m']; cbn in *; subst; try done. apply Hk.
Qed.
End same.

(** One step of two runs of the same code. *)
Ltac same_step := lazymatch goal with
  | |- same _ _ (mbind _ _) _ => apply same_bind_eq; [|intros ?]
  | |- same _ _ (println _) _ => apply same_print
  | |- same _ _ (eprintln _) _ => apply same_print
  | |- same _ _ (exit _) _ => apply same_exit
  | |- same _ _ (ask _ _) _ => apply same_ask
  | |- same _ _ (write _ _) _ => apply same_write
  | |- same _ _ (call _) _ => apply same_call; eauto with respects
  | |- same _ _ (open_session _) _ => apply same_open
  | |- same _ _ (mret _) _ => apply same_ret; reflexivity
  | |- same _ _ (match _ with _ => _ end) _ => case_match
  end.
Ltac same_code := repeat (cbn beta iota; same_step).
