(* ===== verification/Programs.v ===== *)
(** * The example programs

    examples/01_totp.rs, 04_signin_credentials.rs, 05_signin_refresh_token.rs,
    07_scan_one_profile.rs, 08_profile_details.rs, 09_friends.rs, 10_account_dump.rs and
    11_persist_login.rs: the programs that put the library's parts together, from the
    environment variables to the exit code.  [Steam] is the library as they see it, a record
    of its operations; EndToEnd.v builds one from the components. *)
From S2P Require Import Prelude Errors RustStr Proxy Proto Wire Codec Connection Driver Session Friends Persona.
From S2P Require Import Totp SignIn Redaction Gc Host.
#[local] Set Default Goal Selector "!".

(** ** The library *)
Record Steam (S : Type) := {
  st_execute : SignInBuilder → panicking (Result SignInOutcome);
  st_spawn : SessionConfig → panicking (Result S);
  st_steam_id : S → Z;
  st_vanity : bstr → option ProxyConfig → Result (option Z);
  st_avatar : string → option ProxyConfig → Result (list byte);
  (** [cs2::attach(handle.clone())], and the coordinator's calls. *)
  st_attach : async S unit;
  st_wait_ready : Z → async S unit;
  st_profile : Z → async S PlayerProfile;
  st_logoff : async S unit;
  (** [join.await]. *)
  st_join : async S unit
}.
Arguments st_execute {S} _.
Arguments st_spawn {S} _.
Arguments st_steam_id {S} _.
Arguments st_vanity {S} _.
Arguments st_avatar {S} _.
Arguments st_attach {S} _.
Arguments st_wait_ready {S} _.
Arguments st_profile {S} _.
Arguments st_logoff {S} _.
Arguments st_join {S} _.

(** ** Formatting *)

(** [#[derive(Debug)]] of the enumerations that are printed. *)
Definition fmt_relationship (r : FriendRelationship) : Fmt :=
  match r with
  | RelNone => FWord "None"
  | Blocked => FWord "Blocked"
  | RequestRecipient => FWord "RequestRecipient"
  | RelFriend => FWord "Friend"
  | RequestInitiator => FWord "RequestInitiator"
  | Ignored => FWord "Ignored"
  | IgnoredFriend => FWord "IgnoredFriend"
  | RelUnknown value => FTuple "Unknown" [FInt value]
  end.
Definition fmt_persona_state (s : PersonaState) : Fmt :=
  match s with
  | Offline => FWord "Offline"
  | Online => FWord "Online"
  | Busy => FWord "Busy"
  | Away => FWord "Away"
  | Snooze => FWord "Snooze"
  | LookingToTrade => FWord "LookingToTrade"
  | LookingToPlay => FWord "LookingToPlay"
  | Invisible => FWord "Invisible"
  | PersonaUnknown value => FTuple "Unknown" [FInt value]
  end.

(** [location.join(", ")]. *)
Fixpoint join_commas (l : list string) : string :=
  match l with [] => "" | [x] => x | x :: l => x +:+ ", " +:+ join_commas l end.
(** [Vec<String>] from [[a, b, c].into_iter().flatten()]. *)
Definition flatten (l : list (option string)) : list string := omap id l.
(** [str::replace] of a non-empty pattern; every round consumes it. *)
Fixpoint replace_go (fuel : nat) (pat by_ l : bstr) : bstr :=
  match fuel with
  | O => l
  | S fuel => match split_once_str pat l with
              | Some (a, b) => a ++ by_ ++ replace_go fuel pat by_ b
              | None => l
              end
  end.
Definition replace (pat by_ l : bstr) : bstr := replace_go (S (length l)) pat by_ l.
(** [{label:<13}]. *)
Definition pad_right (width : nat) (s : string) : string :=
  s +:+ string_of_list_ascii (repeat (" "%char) (width - String.length s)).

Definition dec (z : Z) : Piece := Txt (pretty z).
Definition num (n : nat) : Piece := Txt (pretty n).
Definition shown (e : Error) : Piece := Txt (error_to_string e).

Section programs.
Context {S : Type} `{SessionOps S}.
Context `{Message CMsgClientFriendsList, Message CMsgClientAddFriend, Message CMsgClientAddFriendResponse,
          Message CMsgClientRemoveFriend,
          Message CMsgClientRequestFriendData, Message CMsgClientPersonaState,
          Message CMsgClientFriendProfileInfo, Message CMsgClientFriendProfileInfoResponse}.
Context (hmac_sha1 : list byte → list byte → list byte) (b64_decode : bstr → result string (list byte)).
Context (clock : option Z) (url_parse : bstr → result string Url).
Context (vars : gmap string bstr) (st : Steam S).

(** ** Reading the environment

    A variable whose value is not Unicode counts as not set: the programs do not tell the two
    errors of [env::var] apart. *)
Definition var (name : string) : option bstr := vars !! name.
Definition non_empty_var (name : string) : option bstr :=
  opt_filter (λ s, negb (bool_decide (s = []))) (var name).
(** [env::var(name).map_err(|_| message)?]. *)
Definition require (name message : string) : io S bstr := ask FromStr (ok_or (var name) message).
Definition require_set (name : string) : io S bstr := require name (name +:+ " env var not set").
(** [url.map(|u| ProxyConfig::parse(&u)).transpose()?]. *)
Definition parse_proxy (url : option bstr) : io S (option ProxyConfig) :=
  match url with
  | None => mret None
  | Some u => p ← ask FromError (parse url_parse u); mret (Some p)
  end.
Definition parse_id (s : bstr) : io S Z := ask FromParseInt (parse_u64 s).
(** [match env::var("TARGET_STEAMID").ok() { Some(s) => s.parse()?, None => own }]. *)
Definition target_or (own : Z) : io S Z :=
  match var "TARGET_STEAMID" with Some s => parse_id s | None => mret own end.

(** ** Signing in *)
Definition build_sign_in (account pass : bstr) (secret : option bstr) (p : option ProxyConfig) :
    SignInBuilder :=
  let signin := with_password account pass in
  let signin := match secret with Some s => shared_secret signin s | None => signin end in
  match p with Some p => proxy signin p | None => signin end.
Definition announce_proxy (p : option ProxyConfig) : io S unit :=
  match p with
  | Some p => eprintln [Txt "→ routing through proxy: "; Str (display p)]
  | None => mret tt
  end.
(** [signin.execute().await?], and the exit when it is no success. *)
Definition sign_in (signin : SignInBuilder) : io S (Z * bstr) :=
  r ← run (st_execute st signin);
  outcome ← ask FromError r;
  match outcome with
  | Success steam_id token _ => mret (steam_id, token)
  | other =>
      _ ← eprintln [Txt "✗ sign-in did not succeed: "; Dbg (fmt_sign_in_outcome other)];
      exit 1
  end.
Definition session_config (account token : bstr) (p : option ProxyConfig) : SessionConfig :=
  {| sc_account_name := string_of_list_byte account; sc_refresh_token := string_of_list_byte token;
     sc_proxy := p |}.
Definition spawn (config : SessionConfig) : io S unit :=
  r ← open_session (st_spawn st config); ask FromError r.
(** [handle.steam_id()]. *)
Definition handle_steam_id : io S Z :=
  r ← call (λ s, (Ready (Ok (st_steam_id st s)), s)); ask FromError r.
(** [handle.logoff().await?; let _ = join.await; Ok(())]. *)
Definition shut_down : io S unit :=
  r ← call (st_logoff st);
  _ ← ask FromError r;
  _ ← call (st_join st);
  mret tt.

(** ** [examples/01_totp.rs] *)
Definition main_totp : io S unit :=
  secret ← expect (var "SHARED_SECRET");
  r ← run (generate_auth_code hmac_sha1 b64_decode clock secret None);
  match r with
  | Ok code => println [Str code]
  | Err e => _ ← eprintln [Txt "failed to generate code: "; shown e]; exit 1
  end.

(** ** [examples/04_signin_credentials.rs] *)
Definition print_success (steam_id : Z) (token : bstr) (access_token : option bstr) : io S unit :=
  _ ← println [Txt "✓ logged in"];
  _ ← println [Txt "  steam_id      : "; dec steam_id];
  _ ← println [Txt "  refresh_token : "; Str token];
  match access_token with
  | Some at_ => println [Txt "  access_token  : "; Str at_]
  | None => mret tt
  end.
(** [signin = signin.proxy(ProxyConfig::parse(&url)?)]. *)
Definition route_through (signin : SignInBuilder) (url : option bstr) : io S SignInBuilder :=
  match url with
  | None => mret signin
  | Some url =>
      p ← ask FromError (parse url_parse url);
      _ ← eprintln [Txt "→ routing through proxy: "; Str (px_host p)];
      mret (proxy signin p)
  end.
Definition main_signin_credentials : io S unit :=
  account ← require_set "STEAM_ACCOUNT";
  pass ← require_set "STEAM_PASSWORD";
  let secret := non_empty_var "SHARED_SECRET" in
  let proxy_url := non_empty_var "PROXY_URL" in
  let signin := with_password account pass in
  let signin := match secret with Some s => shared_secret signin s | None => signin end in
  signin ← route_through signin proxy_url;
  r ← run (st_execute st signin);
  match r with
  | Ok (Success steam_id token access_token) =>
      _ ← print_success steam_id token access_token;
      _ ← println [];
      println [Txt "Persist refresh_token to reuse via example 05 (no 2FA next time)."]
  | Ok NeedsMobileGuardCode =>
      _ ← eprintln [Txt "✗ 2FA required but no SHARED_SECRET provided"]; exit 2
  | Ok (NeedsEmailGuardCode email_domain) =>
      _ ← eprintln [Txt "✗ email Steam Guard required (sent to …@"; Str email_domain; Txt ")"];
      _ ← eprintln [Txt "  email-Guard handling is not in scope for this example"];
      exit 2
  | Ok InvalidCredentials => _ ← eprintln [Txt "✗ bad username or password"]; exit 1
  | Ok TokenRejected =>
      _ ← eprintln [Txt "✗ token rejected (unexpected for password flow)"]; exit 1
  | Ok (RateLimited retry_hint) =>
      _ ← eprintln [Txt "✗ rate-limited by Steam (retry after "; Dbg (fmt_option FDuration retry_hint);
                    Txt ")"];
      exit 3
  | Ok other =>
      _ ← eprintln [Txt "✗ unhandled sign-in outcome: "; Dbg (fmt_sign_in_outcome other)]; exit 1
  | Err (NotImplemented stage) =>
      _ ← eprintln [Txt "⚠ wired but not yet implemented: "; Txt stage];
      _ ← eprintln [Txt "  (proxy validation + TOTP derivation already ran successfully)"];
      exit 75
  | Err e => _ ← eprintln [Txt "✗ transport / protocol error: "; shown e]; exit 1
  end.

(** ** [examples/05_signin_refresh_token.rs] *)
Definition main_signin_refresh_token : io S unit :=
  token ← require_set "REFRESH_TOKEN";
  let proxy_url := var "PROXY_URL" in
  signin ← route_through (with_refresh_token token) proxy_url;
  r ← run (st_execute st signin);
  match r with
  | Ok (Success steam_id token access_token) => print_success steam_id token access_token
  | Ok TokenRejected =>
      _ ← eprintln [Txt "✗ refresh token rejected — fall back to password flow (example 04)"]; exit 1
  | Ok (RateLimited retry_hint) =>
      _ ← eprintln [Txt "✗ rate-limited by Steam (retry after "; Dbg (fmt_option FDuration retry_hint);
                    Txt ")"];
      exit 3
  | Ok other =>
      _ ← eprintln [Txt "✗ unexpected outcome for refresh-token flow: "; Dbg (fmt_sign_in_outcome other)];
      exit 1
  | Err (NotImplemented stage) =>
      _ ← eprintln [Txt "⚠ wired but not yet implemented: "; Txt stage]; exit 75
  | Err e => _ ← eprintln [Txt "✗ transport / protocol error: "; shown e]; exit 1
  end.

(** ** [examples/07_scan_one_profile.rs] *)
Definition print_competitive (label ranked unranked : string) (p : PlayerProfile) : io S unit :=
  match pf_competitive_rank p, pf_competitive_wins p with
  | Some rank, wins =>
      println [Txt label; Txt ranked; dec rank; Txt " ("; dec (unwrap_or wins 0); Txt " wins)"]
  | None, _ => println [Txt label; Txt unranked]
  end.
Definition main_scan_one_profile : io S unit :=
  account ← require_set "STEAM_ACCOUNT";
  pass ← require_set "STEAM_PASSWORD";
  let secret := var "SHARED_SECRET" in
  p ← parse_proxy (var "PROXY_URL");
  _ ← announce_proxy p;
  '(steam_id, token) ← sign_in (build_sign_in account pass secret p);
  _ ← println [Txt "✓ signed in as "; dec steam_id];
  target ← target_or steam_id;
  let target_id := account_id_from_steam_id target in
  _ ← spawn (session_config account token p);
  id ← handle_steam_id;
  _ ← println [Txt "✓ CM session up (steam_id "; dec id; Txt ")"];
  r ← call (st_attach st);
  _ ← ask FromError r;
  r ← call (st_wait_ready st (from_secs 20));
  _ ← ask FromError r;
  _ ← println [Txt "✓ CS2 Game Coordinator ready"];
  r ← call (st_profile st target_id);
  profile ← ask FromError r;
  _ ← println [];
  _ ← println [Txt "CS2 profile for account "; dec (pf_account_id profile); Txt ":"];
  _ ← println [Txt "  level       : "; dec (pf_level profile)];
  _ ← println [Txt "  current XP  : "; dec (pf_current_xp profile)];
  _ ← print_competitive "  competitive : " "rank " "unranked / not played" profile;
  shut_down.

(** ** [examples/08_profile_details.rs] *)
Definition print_when {A} (o : option A) (line : A → list Piece) : io S unit :=
  match o with Some a => println (line a) | None => mret tt end.
Definition main_profile_details : io S unit :=
  account ← require_set "STEAM_ACCOUNT";
  pass ← require_set "STEAM_PASSWORD";
  let secret := var "SHARED_SECRET" in
  p ← parse_proxy (var "PROXY_URL");
  _ ← announce_proxy p;
  '(own_steam_id, token) ← sign_in (build_sign_in account pass secret p);
  _ ← spawn (session_config account token p);
  target ← target_or own_steam_id;
  r ← call (request_player_summary target);
  summary ← ask FromError r;
  _ ← println [];
  _ ← println [Txt "SteamID     : "; dec (ps_steam_id summary)];
  _ ← println [Txt "Name        : "; Txt (ps_persona_name summary)];
  _ ← println [Txt "Profile URL : "; Txt (ps_profile_url summary)];
  _ ← println [Txt "Avatar      : "; Txt (ps_avatar_url summary)];
  _ ← println [Txt "Status      : "; Dbg (fmt_persona_state (ps_state summary))];
  _ ← print_when (ps_current_game summary) (λ game,
        [Txt "In game     : "; Txt (cg_name game); Txt " (app "; dec (cg_app_id game); Txt ")"]);
  r ← call (request_profile_info target);
  _ ← match r with
      | Ok info =>
          _ ← print_when (pi_real_name info) (λ name, [Txt "Real name   : "; Txt name]);
          let location := flatten [pi_city info; pi_state info; pi_country info] in
          _ ← (if bool_decide (location = []) then mret tt
               else println [Txt "Location    : "; Txt (join_commas location)]);
          print_when (pi_summary info) (λ summary, [Txt "Summary     : "; Txt summary])
      | Err e => eprintln [Txt "(profile info unavailable: "; shown e; Txt ")"]
      end;
  shut_down.

(** ** [examples/09_friends.rs] *)

(** The loop over the first friends of the list, also in 10_account_dump.rs. *)
Fixpoint print_friends (l : list Friend) : io S unit :=
  match l with
  | [] => mret tt
  | friend :: l =>
      r ← call (request_player_summary (fr_steam_id friend));
      let name := match r with Ok s => ps_persona_name s | Err _ => "<name unavailable>"%string end in
      _ ← println [Txt "  "; dec (fr_steam_id friend); Txt " ";
                   Dbg (fmt_relationship (fr_relationship friend)); Txt " — "; Txt name];
      print_friends l
  end.
Definition print_more (limit : nat) (l : list Friend) : io S unit :=
  if decide (limit < length l)%nat
  then println [Txt "  … and "; num (length l - limit); Txt " more"] else mret tt.
Definition main_friends : io S unit :=
  account ← require_set "STEAM_ACCOUNT";
  pass ← require_set "STEAM_PASSWORD";
  let secret := var "SHARED_SECRET" in
  p ← parse_proxy (var "PROXY_URL");
  _ ← match var "RESOLVE_VANITY" with
      | Some vanity =>
          found ← ask FromError (st_vanity st vanity p);
          match found with
          | Some id => println [Txt "vanity '"; Str vanity; Txt "' → SteamID "; dec id; Txt " (";
                                Txt (profile_url id); Txt ")"]
          | None => println [Txt "vanity '"; Str vanity; Txt "' → no such custom URL"]
          end
      | None => mret tt
      end;
  '(_, token) ← sign_in (build_sign_in account pass secret p);
  _ ← spawn (session_config account token p);
  r ← call request_friends_list;
  friends ← ask FromError r;
  _ ← println [];
  _ ← println [num (length friends); Txt " friends:"];
  _ ← print_friends (take 25 friends);
  _ ← print_more 25 friends;
  _ ← match var "ADD_FRIEND" with
      | Some id =>
          id ← parse_id id;
          r ← call (add_friend id);
          added ← ask FromError r;
          _ ← println [];
          println [Txt "+ friend request sent to "; dec (ad_steam_id added); Txt " (";
                   Txt (ad_persona_name added); Txt ")"]
      | None => mret tt
      end;
  _ ← match var "REMOVE_FRIEND" with
      | Some s =>
          id ← parse_id s;
          r ← call (remove_friend id);
          _ ← ask FromError r;
          println [Txt "- removed friend "; Str s]
      | None => mret tt
      end;
  shut_down.

(** ** [examples/10_account_dump.rs] *)
Definition print_opt (label : string) (value : option string) : io S unit :=
  println [Txt (pad_right 13 label); Txt " : "; Txt (unwrap_or value "—"%string)].
(** [println!("\n--- .. ---")]. *)
Definition heading (title : string) : io S unit :=
  _ ← println []; println [Txt title].
Definition RULE : string := "============================================================".

Definition save_avatar (account_id : Z) (url : string) (p : option ProxyConfig) : io S unit :=
  match st_avatar st url p with
  | Ok bytes =>
      let path := "avatar_" +:+ pretty account_id +:+ ".jpg" in
      r ← write (as_bytes path) bytes;
      match r with
      | Err e => println [Txt "avatar image  : ("; num (length bytes); Txt " bytes, but save failed: ";
                          Txt e; Txt ")"]
      | Ok _ => println [Txt "avatar image  : saved "; num (length bytes); Txt " bytes -> "; Txt path]
      end
  | Err e => println [Txt "avatar image  : (download failed: "; shown e; Txt ")"]
  end.
Definition unavailable (e : Error) : io S unit := println [Txt "(unavailable: "; shown e; Txt ")"].

Definition dump_summary (target account_id : Z) (p : option ProxyConfig) : io S unit :=
  r ← call (request_player_summary target);
  match r with
  | Ok s =>
      _ ← println [Txt "name          : "; Txt (ps_persona_name s)];
      _ ← println [Txt "status        : "; Dbg (fmt_persona_state (ps_state s))];
      _ ← println [Txt "avatar (full) : "; Txt (ps_avatar_url s)];
      _ ← println [Txt "avatar (med.) : ";
                   Str (replace (as_bytes "_full.jpg") (as_bytes "_medium.jpg") (as_bytes (ps_avatar_url s)))];
      _ ← println [Txt "avatar hash   : "; Txt (ps_avatar_hash s)];
      _ ← match ps_current_game s with
          | Some g => println [Txt "in game       : "; Txt (cg_name g); Txt " (app "; dec (cg_app_id g); Txt ")"]
          | None => println [Txt "in game       : —"]
          end;
      save_avatar account_id (ps_avatar_url s) p
  | Err e => unavailable e
  end.
Definition dump_profile_info (target : Z) : io S unit :=
  r ← call (request_profile_info target);
  match r with
  | Ok info =>
      _ ← print_opt "real name" (pi_real_name info);
      let location := flatten [pi_city info; pi_state info; pi_country info] in
      _ ← println [Txt "location      : ";
                   Txt (if bool_decide (location = []) then "—"%string else join_commas location)];
      _ ← print_opt "summary" (pi_summary info);
      match pi_created_at info with
      | Some t => println [Txt "created (unix) : "; dec t]
      | None => println [Txt "created (unix) : —"]
      end
  | Err e => unavailable e
  end.
Definition dump_friends (friends_list : Result (list Friend)) : io S unit :=
  match friends_list with
  | Ok list =>
      _ ← println [Txt "count         : "; num (length list)];
      _ ← print_friends (take 15 list);
      print_more 15 list
  | Err e => println [Txt "(unavailable: "; shown e; Txt " — call right after login to catch the pushed list)"]
  end.
Definition dump_cs2 (account_id : Z) : io S unit :=
  r ← call (st_attach st);
  match r with
  | Ok _ =>
      r ← call (st_wait_ready st (from_secs 20));
      match r with
      | Ok _ =>
          r ← call (st_profile st account_id);
          match r with
          | Ok p =>
              _ ← println [Txt "level         : "; dec (pf_level p)];
              _ ← println [Txt "current XP    : "; dec (pf_current_xp p)];
              print_competitive "competitive   : " "rank " "unranked / not played" p
          | Err e => println [Txt "(no profile data: "; shown e; Txt ")"]
          end
      | Err e => println [Txt "(GC not ready: "; shown e; Txt " — account may lack a CS2 license)"]
      end
  | Err e => println [Txt "(GC attach failed: "; shown e; Txt ")"]
  end.

(** Sections 3 to 7 of the program. *)
Definition dump_report (account : bstr) (target : Z) (p : option ProxyConfig)
    (friends_list : Result (list Friend)) : io S unit :=
  let account_id := account_id_from_steam_id target in
  _ ← heading RULE;
  _ ← println [Txt " ACCOUNT DUMP"];
  _ ← println [Txt RULE];
  _ ← println [Txt "login account : "; Str account];
  _ ← println [Txt "SteamID64     : "; dec target];
  _ ← println [Txt "account id     : "; dec account_id];
  _ ← println [Txt "profile URL    : "; Txt (profile_url target)];
  _ ← heading "--- persona summary ---";
  _ ← dump_summary target account_id p;
  _ ← heading "--- profile info ---";
  _ ← dump_profile_info target;
  _ ← heading "--- friends ---";
  _ ← dump_friends friends_list;
  _ ← heading "--- CS2 profile ---";
  _ ← dump_cs2 account_id;
  _ ← heading RULE;
  shut_down.
Definition main_account_dump : io S unit :=
  account ← require_set "STEAM_ACCOUNT";
  pass ← require_set "STEAM_PASSWORD";
  let secret := var "SHARED_SECRET" in
  p ← parse_proxy (non_empty_var "PROXY_URL");
  _ ← announce_proxy p;
  '(steam_id, token) ← sign_in (build_sign_in account pass secret p);
  _ ← spawn (session_config account token p);
  friends_list ← call request_friends_list;
  target ← target_or steam_id;
  dump_report account target p friends_list.

(** ** [examples/11_persist_login.rs] *)
Definition load_token (store : bstr) : io S (option bstr) :=
  s ← read_to_string store;
  mret (opt_filter (λ s, negb (bool_decide (s = []))) (trim <$> s)).
Definition save_token (store token : bstr) : io S (result string unit) := write store token.

(** The token: the saved one, or that of a login whose token is saved first. *)
Definition saved_or_sign_in (account store : bstr) (p : option ProxyConfig) : io S bstr :=
  saved ← load_token store;
  match saved with
  | Some token =>
      _ ← println [Txt "→ found a saved token in '"; Str store;
                   Txt "'; logging in without password / 2FA"];
      mret token
  | None =>
      _ ← println [Txt "→ no saved token; doing the one-time password + 2FA login"];
      pass ← require "STEAM_PASSWORD" "STEAM_PASSWORD needed for the first login";
      '(_, token) ← sign_in (build_sign_in account pass (non_empty_var "SHARED_SECRET") p);
      r ← save_token store token;
      _ ← ask FromIo r;
      _ ← println [Txt "✓ logged in; persisted the refresh token to your store ('"; Str store; Txt "')"];
      mret token
  end.
(** [println!("  persona: ..")], best effort, and the end of the program. *)
Definition use_session : io S unit :=
  id ← handle_steam_id;
  _ ← println [Txt "✓ session up for steam_id "; dec id];
  r ← call (request_player_summary id);
  _ ← match r with
      | Ok me => println [Txt "  persona: "; Txt (ps_persona_name me); Txt " — "; Txt (ps_profile_url me)]
      | Err e => println [Txt "  (persona fetch skipped: "; shown e; Txt ")"]
      end;
  _ ← shut_down;
  _ ← println [];
  println [Txt "Run again — it now logs in straight from the saved token."].
Definition token_file : bstr := unwrap_or (var "TOKEN_FILE") (as_bytes "refresh_token.txt").
Definition main_persist_login : io S unit :=
  account ← require_set "STEAM_ACCOUNT";
  let store := token_file in
  p ← parse_proxy (non_empty_var "PROXY_URL");
  token ← saved_or_sign_in account store p;
  _ ← spawn (session_config account token p);
  use_session.
End programs.

(** ** The terminal keeps secrets *)
Section secrets.
Context {S : Type} `{SessionOps S}.
Context `{Message CMsgClientFriendsList, Message CMsgClientAddFriend, Message CMsgClientAddFriendResponse,
          Message CMsgClientRemoveFriend,
          Message CMsgClientRequestFriendData, Message CMsgClientPersonaState,
          Message CMsgClientFriendProfileInfo, Message CMsgClientFriendProfileInfoResponse}.
Context (url_parse : bstr → result string Url).

(** Two environments that differ in the password and the shared secret only. *)
Definition secret_vars : list string := ["STEAM_PASSWORD"; "SHARED_SECRET"]%string.
Definition vars_public (vars1 vars2 : gmap string bstr) : Prop :=
  (∀ name, name ∉ secret_vars → vars1 !! name = vars2 !! name) ∧
  same_presence (vars1 !! "STEAM_PASSWORD"%string) (vars2 !! "STEAM_PASSWORD"%string) ∧
  same_presence (vars1 !! "SHARED_SECRET"%string) (vars2 !! "SHARED_SECRET"%string) ∧
  same_presence (non_empty_var vars1 "SHARED_SECRET") (non_empty_var vars2 "SHARED_SECRET").

(** What a sign-in comes to, but for the tokens. *)
Definition sign_in_alike (r1 r2 : panicking (Result SignInOutcome)) : Prop :=
  match r1, r2 with
  | Some (Ok o1), Some (Ok o2) => outcome_public o1 o2
  | Some (Err e1), Some (Err e2) => e1 = e2
  | None, None => True
  | _, _ => False
  end.
(** Sessions that look the same to their users; what they keep of a login's token may differ. *)
Context (RS : S → S → Prop) `{!Indistinguishable RS}.
(** The sign-ins the programs build in two environments: one account and proxy, and each
    environment's own password and shared secret. *)
Inductive same_login (vars1 vars2 : gmap string bstr) : SignInBuilder → SignInBuilder → Prop :=
  | login_pair account p pass1 pass2 secret1 secret2 :
      vars1 !! "STEAM_PASSWORD"%string = Some pass1 → vars2 !! "STEAM_PASSWORD"%string = Some pass2 →
      (secret1 = var vars1 "SHARED_SECRET" ∧ secret2 = var vars2 "SHARED_SECRET" ∨
       secret1 = non_empty_var vars1 "SHARED_SECRET" ∧ secret2 = non_empty_var vars2 "SHARED_SECRET") →
      same_login vars1 vars2 (build_sign_in account pass1 secret1 p) (build_sign_in account pass2 secret2 p).
(** Two Steams that answer alike to the logins of the two environments. *)
Record steam_alike (vars1 vars2 : gmap string bstr) (st1 st2 : Steam S) : Prop := {
  alike_execute b1 b2 : same_login vars1 vars2 b1 b2 → sign_in_alike (st_execute st1 b1) (st_execute st2 b2);
  alike_spawn account t1 t2 p :
    spawned_alike RS (st_spawn st1 (session_config account t1 p)) (st_spawn st2 (session_config account t2 p));
  alike_steam_id s1 s2 : RS s1 s2 → st_steam_id st1 s1 = st_steam_id st2 s2;
  alike_vanity : st_vanity st1 = st_vanity st2;
  alike_avatar : st_avatar st1 = st_avatar st2;
  alike_attach : respects RS (st_attach st1) (st_attach st2);
  alike_wait_ready timeout : respects RS (st_wait_ready st1 timeout) (st_wait_ready st2 timeout);
  alike_profile id : respects RS (st_profile st1 id) (st_profile st2 id);
  alike_logoff : respects RS (st_logoff st1) (st_logoff st2);
  alike_join : respects RS (st_join st1) (st_join st2)
}.

Context (vars1 vars2 : gmap string bstr) (st1 st2 : Steam S).
Context (Hvars : vars_public vars1 vars2) (Hst : steam_alike vars1 vars2 st1 st2).

#[local] Hint Extern 1 (respects _ _ _) => first [eapply alike_attach; exact Hst|eapply alike_wait_ready; exact Hst|
  eapply alike_profile; exact Hst|eapply alike_logoff; exact Hst|eapply alike_join; exact Hst] : respects.
Lemma respects_friends_list : respects RS request_friends_list request_friends_list.
Proof.
  intros s1 s2 Hs. unfold request_friends_list, post_login_list.
  apply ind_preempt in Hs as Hp. rewrite (ind_cached _ _ _ Hp), (ind_subscribe s1 s2) by done.
  destruct (so_cached (so_preempt s2) _) as [body|]; [|by apply respects_wait].
  destruct (map_err _ _) as [l|]; [|done]. destruct (is_full_friends l); [done|]. by apply respects_wait.
Qed.
Lemma respects_summary id : respects RS (request_player_summary id) (request_player_summary id).
Proof.
  intros s1 s2 Hs. unfold request_player_summary. rewrite (ind_subscribe s1 s2) by done.
  apply respects_bind; auto with respects.
Qed.
Lemma respects_profile_info id : respects RS (request_profile_info id) (request_profile_info id).
Proof. apply respects_bind; intros; [apply respects_dispatch|apply respects_lift]. Qed.
Lemma respects_add_friend id : respects RS (add_friend id) (add_friend id).
Proof. apply respects_bind; intros; [apply respects_dispatch|apply respects_lift]. Qed.
Lemma respects_remove_friend id : respects RS (remove_friend id) (remove_friend id).
Proof. apply respects_notify. Qed.
#[local] Hint Resolve respects_friends_list respects_summary respects_profile_info respects_add_friend
  respects_remove_friend : respects.

Lemma require_alike name :
  name ∉ secret_vars → same RS eq (require_set (S := S) vars1 name) (require_set vars2 name).
Proof. intros Hn. unfold require_set, require, var. rewrite (proj1 Hvars) by done. apply same_ask. Qed.
Lemma require_password_alike message :
  same RS (λ pass1 pass2, vars1 !! "STEAM_PASSWORD"%string = Some pass1 ∧ vars2 !! "STEAM_PASSWORD"%string = Some pass2)
    (require (S := S) vars1 "STEAM_PASSWORD" message) (require vars2 "STEAM_PASSWORD" message).
Proof.
  destruct Hvars as (_ & Hp & _). unfold require, var. intros m1 m2 Hm. split; [|done].
  unfold same_presence, is_Some in Hp.
  destruct (vars1 !! "STEAM_PASSWORD"%string), (vars2 !! "STEAM_PASSWORD"%string); cbn; try done; naive_solver.
Qed.

Lemma sign_in_same b1 b2 :
  same_login vars1 vars2 b1 b2 → same RS (λ a b, a.1 = b.1) (sign_in st1 b1) (sign_in st2 b2).
Proof.
  intros Hb. apply (alike_execute _ _ _ _ Hst) in Hb. unfold sign_in.
  destruct (st_execute st1 b1) as [[o1|e1]|], (st_execute st2 b2) as [[o2|e2]|]; cbn in Hb; try done;
    cbn [run]; try (by intros m1 m2 Hm; split; [|done]; cbn; subst).
  eapply (same_bind RS (λ a b, a = Ok o1 ∧ b = Ok o2)); [by intros m1 m2 Hm|]. intros a b [-> ->].
  eapply (same_bind RS (λ a b, a = o1 ∧ b = o2)); [by intros m1 m2 Hm|]. intros a b [-> ->].
  destruct o1, o2; cbn in Hb; simplify_eq; try (destruct Hb; by apply same_ret);
    (apply same_bind_eq; [apply same_print|]; intros _; apply same_exit).
Qed.
Lemma spawn_same account t1 t2 p :
  same RS eq (spawn st1 (session_config account t1 p)) (spawn st2 (session_config account t2 p)).
Proof. unfold spawn. same_code. by eapply alike_spawn. Qed.
Lemma shut_down_same : same RS eq (shut_down st1) (shut_down st2).
Proof. unfold shut_down. same_code. Qed.
Lemma handle_steam_id_same : same RS eq (handle_steam_id st1) (handle_steam_id st2).
Proof.
  unfold handle_steam_id. same_code. intros s1 s2 Hs. cbn. by rewrite (alike_steam_id _ _ _ _ Hst s1 s2).
Qed.
Lemma parse_proxy_same url : same RS eq (parse_proxy (S := S) url_parse url) (parse_proxy url_parse url).
Proof. unfold parse_proxy. same_code. Qed.
Lemma print_friends_same (l : list Friend) : same RS eq (print_friends (S := S) l) (print_friends l).
Proof. induction l as [|f l IH]; cbn [print_friends]; same_code. done. Qed.

Lemma var_public name : name ∉ secret_vars → var vars1 name = var vars2 name.
Proof. apply Hvars. Qed.
Lemma target_or_same id : same RS eq (target_or (S := S) vars1 id) (target_or vars2 id).
Proof. unfold target_or. rewrite var_public by set_solver. unfold parse_id. same_code. Qed.
Lemma save_avatar_same account_id url p : same RS eq (save_avatar st1 account_id url p) (save_avatar st2 account_id url p).
Proof. unfold save_avatar. rewrite (alike_avatar _ _ _ _ Hst). same_code. Qed.

(** The steps the programs share. *)
Ltac program_step := lazymatch goal with
  | |- same _ _ (mbind _ (require_set _ "STEAM_PASSWORD")) _ =>
      eapply same_bind; [apply require_password_alike|intros ? ? [? ?]]
  | |- same _ _ (mbind _ (sign_in _ _)) _ =>
      eapply same_bind; [apply sign_in_same; apply login_pair; auto|
                         intros [] [] Heq; cbn in Heq; subst]
  | |- same _ _ (require_set _ _) _ => apply require_alike; set_solver
  | |- same _ _ (parse_proxy _ _) _ => apply parse_proxy_same
  | |- same _ _ (target_or _ _) _ => apply target_or_same
  | |- same _ _ (spawn _ _) _ => apply spawn_same
  | |- same _ _ (handle_steam_id _) _ => apply handle_steam_id_same
  | |- same _ _ (save_avatar _ _ _ _) _ => apply save_avatar_same
  | |- same _ _ (print_friends _) _ => apply print_friends_same
  | |- same _ _ (shut_down _) _ => apply shut_down_same
  | _ => same_step
  end.
Ltac program := repeat (cbn beta iota; program_step).

(** The programs that open a session. *)
Definition session_programs (vars : gmap string bstr) (st : Steam S) : list (io S unit) :=
  [main_scan_one_profile url_parse vars st; main_profile_details url_parse vars st;
   main_friends url_parse vars st; main_account_dump url_parse vars st;
   main_persist_login url_parse vars st].

Lemma scan_same : same RS eq (main_scan_one_profile url_parse vars1 st1) (main_scan_one_profile url_parse vars2 st2).
Proof.
  unfold main_scan_one_profile, announce_proxy, print_competitive. rewrite (var_public "PROXY_URL") by set_solver.
  program.
Qed.
Lemma details_same : same RS eq (main_profile_details url_parse vars1 st1) (main_profile_details url_parse vars2 st2).
Proof.
  unfold main_profile_details, announce_proxy, print_when. rewrite (var_public "PROXY_URL") by set_solver.
  program.
Qed.
Lemma friends_same : same RS eq (main_friends url_parse vars1 st1) (main_friends url_parse vars2 st2).
Proof.
  unfold main_friends, print_more, parse_id. rewrite (alike_vanity _ _ _ _ Hst).
  rewrite (var_public "PROXY_URL"), (var_public "RESOLVE_VANITY"), (var_public "ADD_FRIEND"),
    (var_public "REMOVE_FRIEND") by set_solver.
  program.
Qed.
Lemma non_empty_var_public name : name ∉ secret_vars → non_empty_var vars1 name = non_empty_var vars2 name.
Proof. intros Hn. unfold non_empty_var. by rewrite var_public. Qed.
Lemma dump_summary_same target account_id p :
  same RS eq (dump_summary st1 target account_id p) (dump_summary st2 target account_id p).
Proof. unfold dump_summary, unavailable. program. Qed.
Lemma dump_cs2_same account_id : same RS eq (dump_cs2 st1 account_id) (dump_cs2 st2 account_id).
Proof.
  unfold dump_cs2, print_competitive.
  program.
Qed.
Lemma dump_profile_info_same target : same RS eq (dump_profile_info (S := S) target) (dump_profile_info target).
Proof. unfold dump_profile_info, print_opt, unavailable. program. Qed.
Lemma dump_friends_same l : same RS eq (dump_friends (S := S) l) (dump_friends l).
Proof. unfold dump_friends, print_more. program. Qed.
Lemma dump_same : same RS eq (main_account_dump url_parse vars1 st1) (main_account_dump url_parse vars2 st2).
Proof.
  unfold main_account_dump, dump_report, announce_proxy, heading. rewrite (non_empty_var_public "PROXY_URL") by set_solver.
  program; first [apply dump_summary_same|apply dump_profile_info_same|apply dump_friends_same|apply dump_cs2_same].
Qed.
Lemma parse_proxy_looks url (m : Machine S) : (parse_proxy url_parse url m).2 = m.
Proof. destruct url as [u|]; [|done]. unfold parse_proxy. cbn. by destruct (parse url_parse u). Qed.
Lemma saved_or_sign_in_same account store p m :
  ma_session m = None →
  same_at RS (λ _ _, True) m (saved_or_sign_in vars1 st1 account store p) (saved_or_sign_in vars2 st2 account store p).
Proof.
  intros Hm. apply same_at_look; [by rewrite Hm; constructor|done..|].
  intros [token|]; (apply same_at_intro; [by rewrite Hm; constructor|]).
  { apply same_bind_eq; [apply same_print|]. intros _. by apply same_ret. }
  apply same_bind_eq; [apply same_print|]. intros _.
  eapply same_bind; [apply require_password_alike|]. intros pass1 pass2 [? ?].
  eapply same_bind; [apply sign_in_same; apply login_pair; auto|]. intros [id1 t1] [id2 t2] _.
  apply same_bind_eq; [apply same_write|]. intros r. apply same_bind_eq; [apply same_ask|]. intros _.
  apply same_bind_eq; [apply same_print|]. intros _. by apply same_ret.
Qed.
Lemma persist_same m :
  ma_session m = None →
  same_at RS eq m (main_persist_login url_parse vars1 st1) (main_persist_login url_parse vars2 st2).
Proof.
  intros Hm. unfold main_persist_login, token_file, require_set, require.
  rewrite (var_public "STEAM_ACCOUNT"), (var_public "TOKEN_FILE"), (non_empty_var_public "PROXY_URL")
    by set_solver.
  apply same_at_look; [by rewrite Hm; constructor|done..|]. intros account.
  apply same_at_look; [by rewrite Hm; constructor|done|apply parse_proxy_looks|]. intros p.
  eapply same_at_bind; [by apply saved_or_sign_in_same|]. intros t1 t2 _.
  apply same_bind_eq; [apply spawn_same|]. intros _. unfold use_session. program.
Qed.

(** What the terminal shows of a session program is no secret: run with another password,
    another shared secret and other tokens from Steam, each of the five programs prints the
    same lines, ends the same way and leaves the session in a state its users cannot tell
    apart, as long as Steam and the session answer alike. *)
Theorem terminal_keeps_secrets m :
  ma_session m = None →
  Forall2 (λ p1 p2, (p1 m).1 = (p2 m).1 ∧ ma_lines (p1 m).2 = ma_lines (p2 m).2 ∧
                    option_Forall2 RS (ma_session (p1 m).2) (ma_session (p2 m).2))
    (session_programs vars1 st1) (session_programs vars2 st2).
Proof.
  intros Hm. assert (∀ p1 p2 : io S unit, same_at RS eq m p1 p2 → (p1 m).1 = (p2 m).1 ∧
    ma_lines (p1 m).2 = ma_lines (p2 m).2 ∧ option_Forall2 RS (ma_session (p1 m).2) (ma_session (p2 m).2)) as Hsame.
  { intros p1 p2 [Hr (_ & Hl & Hs)]. split; [by apply ended_alike_eq|done]. }
  assert (option_Forall2 RS (ma_session m) (ma_session m)) as Hrefl by (rewrite Hm; constructor).
  constructor; [apply Hsame, same_at_intro, scan_same; done|].
  constructor; [apply Hsame, same_at_intro, details_same; done|].
  constructor; [apply Hsame, same_at_intro, friends_same; done|].
  constructor; [apply Hsame, same_at_intro, dump_same; done|].
  constructor; [by apply Hsame, persist_same|constructor].
Qed.
End secrets.

(** ** The dump is best effort *)
Section dump.
Context {S : Type} `{SessionOps S}.
Context `{Message CMsgClientFriendsList, Message CMsgClientRequestFriendData,
          Message CMsgClientPersonaState, Message CMsgClientFriendProfileInfo,
          Message CMsgClientFriendProfileInfoResponse}.
Context (url_parse : bstr → result string Url) (vars : gmap string bstr) (st : Steam S).

(** On a machine with a session the program gets to its end, or waits for ever: it never
    fails, exits or panics, and only adds to what was printed. *)
Definition carries_on {A} (p : io S A) : Prop := ∀ m, is_Some (ma_session m) →
  ((∃ a, (p m).1 = Done a) ∨ (p m).1 = Hung) ∧ is_Some (ma_session (p m).2) ∧
  ∃ new, ma_lines (p m).2 = ma_lines m ++ new.

Lemma carries_ret {A} (a : A) : carries_on (mret a).
Proof. intros m Hs. split; [left; by exists a|]. split; [done|]. exists []. by rewrite app_nil_r. Qed.
Lemma carries_bind {A B} (p : io S A) (k : A → io S B) :
  carries_on p → (∀ a, carries_on (k a)) → carries_on (p ≫= k).
Proof.
  intros Hp Hk m Hs. destruct (Hp m Hs) as ([[a Ha]|Hh] & Hs' & new & Hn); unfold mbind, io_bind;
    destruct (p m) as [r m']; cbn in *; subst; [|split_and!; [by right|done|by exists new]].
  destruct (Hk a m' Hs') as (Hr & Hs'' & new' & Hn'). split_and!; [done..|].
  exists (new ++ new'). by rewrite Hn', Hn, (assoc_L (++)).
Qed.
Lemma carries_print l : carries_on (print l).
Proof. intros m Hs. split; [left; by eexists|]. split; [done|]. by eexists. Qed.
Lemma carries_call {A} (op : async S A) : carries_on (call op).
Proof.
  intros m [s Hs]. unfold call. rewrite Hs. destruct (op s) as [[|r] s']; cbn;
    (split; [by eauto|]); (split; [done|]); exists []; by rewrite app_nil_r.
Qed.
Lemma carries_write path contents : carries_on (write path contents).
Proof.
  intros m Hs. unfold write. destruct (ma_deny m path); cbn; (split; [by eauto|]); (split; [done|]);
    exists []; by rewrite app_nil_r.
Qed.

Ltac carries := repeat (cbn beta iota; lazymatch goal with
  | |- carries_on (mbind _ _) => apply carries_bind; [|intros ?]
  | |- carries_on (println _) => apply carries_print
  | |- carries_on (call _) => apply carries_call
  | |- carries_on (write _ _) => apply carries_write
  | |- carries_on (mret _) => apply carries_ret
  | |- carries_on (match _ with _ => _ end) => case_match
  end).

Lemma carries_print_friends l : carries_on (print_friends l).
Proof. induction l as [|f l IH]; cbn [print_friends]; carries. done. Qed.
Lemma carries_summary target account_id p : carries_on (dump_summary st target account_id p).
Proof. unfold dump_summary, save_avatar, unavailable. carries. Qed.
Lemma carries_profile_info target : carries_on (dump_profile_info target).
Proof. unfold dump_profile_info, print_opt, unavailable. carries. Qed.
Lemma carries_friends l : carries_on (dump_friends l).
Proof. unfold dump_friends, print_more. carries. apply carries_print_friends. Qed.
Lemma carries_cs2 account_id : carries_on (dump_cs2 st account_id).
Proof. unfold dump_cs2, print_competitive. carries. Qed.

(** Running a section that carries on. *)
Lemma carried {A B} (p : io S A) (k : A → io S B) m (P : ended B * Machine S → Prop) :
  carries_on p → is_Some (ma_session m) → (∀ m', P (Hung, m')) →
  (∀ a m' new, is_Some (ma_session m') → ma_lines m' = ma_lines m ++ new → P (k a m')) →
  P ((p ≫= k) m).
Proof.
  intros Hp Hs HH Hk. destruct (Hp m Hs) as ([[a Ha]|Hh] & Hs' & new & Hn); unfold mbind, io_bind;
    destruct (p m) as [r m']; cbn in *; subst; [|apply HH]. by eapply Hk.
Qed.

Definition title (t : string) : list Line := [Out []; Out [Txt t]].
Lemma titled {B} t (k : unit → io S B) m (P : ended B * Machine S → Prop) :
  (∀ m', ma_session m' = ma_session m → ma_lines m' = ma_lines m ++ title t → P (k tt m')) →
  P ((heading t ≫= k) m).
Proof. intros Hk. apply Hk; [done|]. cbn. by rewrite <-(assoc_L (++)). Qed.
(** A heading and a section that carries on. *)
Lemma section_run {A B} t (p : io S A) (k : A → io S B) m (P : ended B * Machine S → Prop) :
  carries_on p → is_Some (ma_session m) → (∀ m', P (Hung, m')) →
  (∀ a m' new, is_Some (ma_session m') → ma_lines m' = ma_lines m ++ title t ++ new → P (k a m')) →
  P ((heading t ≫= λ _, p ≫= k) m).
Proof.
  intros Hp Hs HH Hk. apply titled. intros m' Hs' Hl. apply carried; [done|by rewrite Hs'|done|].
  intros a m'' new Hs'' Hn. apply (Hk a m'' new); [done|]. by rewrite Hn, Hl, <-(assoc_L (++)).
Qed.

(** A run from [m] that waits for ever, or prints every heading of the report in order and
    ends with what the shutdown comes to. *)
Definition reported (m : Machine S) (x : ended unit * Machine S) : Prop :=
  x.1 = Hung ∨ ∃ intro summary info friends cs2 m1,
    ma_lines m1 = ma_lines m ++ intro ++ title "--- persona summary ---" ++ summary
      ++ title "--- profile info ---" ++ info ++ title "--- friends ---" ++ friends
      ++ title "--- CS2 profile ---" ++ cs2 ++ title RULE ∧
    x = shut_down st m1.
Lemma reported_after m m0 new x : ma_lines m0 = ma_lines m ++ new → reported m0 x → reported m x.
Proof.
  intros Hl [Hh|(intro & x1 & x2 & x3 & x4 & m1 & Hl1 & Hx)]; [by left|].
  right. exists (new ++ intro), x1, x2, x3, x4, m1. split; [|done]. by rewrite Hl1, Hl, <-!(assoc_L (++)).
Qed.

Lemma report_best_effort account target p friends_list m :
  is_Some (ma_session m) → reported m (dump_report st account target p friends_list m).
Proof.
  intros Hs. assert (∀ m', reported m (Hung, m')) as Hh by (by left). unfold dump_report.
  apply carried; [unfold heading; carries|done..|]. intros _ m1 n1 Hs1 Hn1.
  apply carried; [apply carries_print|done..|]. intros _ m2 n2 Hs2 Hn2.
  apply carried; [apply carries_print|done..|]. intros _ m3 n3 Hs3 Hn3.
  apply carried; [apply carries_print|done..|]. intros _ m4 n4 Hs4 Hn4.
  apply carried; [apply carries_print|done..|]. intros _ m5 n5 Hs5 Hn5.
  apply carried; [apply carries_print|done..|]. intros _ m6 n6 Hs6 Hn6.
  apply carried; [apply carries_print|done..|]. intros _ m7 n7 Hs7 Hn7.
  apply section_run; [apply carries_summary|done..|]. intros _ m8 n8 Hs8 Hn8.
  apply section_run; [apply carries_profile_info|done..|]. intros _ m9 n9 Hs9 Hn9.
  apply section_run; [apply carries_friends|done..|]. intros _ m10 n10 Hs10 Hn10.
  apply section_run; [apply carries_cs2|done..|]. intros _ m11 n11 Hs11 Hn11.
  apply titled. intros m12 _ Hn12. right.
  exists (n1 ++ n2 ++ n3 ++ n4 ++ n5 ++ n6 ++ n7), n8, n9, n10, n11, m12. split; [|done].
  rewrite Hn12, Hn11, Hn10, Hn9, Hn8, Hn7, Hn6, Hn5, Hn4, Hn3, Hn2, Hn1.
  by rewrite <-!(assoc_L (++)).
Qed.

Lemma announce_runs p (m : Machine S) :
  ∃ m' new, announce_proxy p m = (Done tt, m') ∧ ma_lines m' = ma_lines m ++ new.
Proof. destruct p as [p|]; eexists _, _; (split; [done|]); [done|]. by rewrite app_nil_r. Qed.
Lemma target_looks own target (m m' : Machine S) :
  (target_or vars own m).1 = Done target → target_or vars own m' = (Done target, m').
Proof.
  unfold target_or, parse_id, ask. destruct (var _ _) as [s|]; cbn; [|by intros [= ->]].
  by intros ->.
Qed.

(** C31: The account dump is best effort, as its header says: once the account is signed in,
    its session is up and the target reads as a number, no section that fails stops the
    others.  Whatever the list, the persona, the profile, the avatar download and the game
    coordinator come to, the program prints every heading in order and ends with the logoff,
    unless one of its awaits never completes. *)
Theorem dump_is_best_effort m account pass p id token access s0 target :
  var vars "STEAM_ACCOUNT" = Some account → var vars "STEAM_PASSWORD" = Some pass →
  (parse_proxy url_parse (non_empty_var vars "PROXY_URL") m).1 = Done p →
  st_execute st (build_sign_in account pass (var vars "SHARED_SECRET") p) =
    Some (Ok (Success id token access)) →
  st_spawn st (session_config account token p) = Some (Ok s0) →
  (target_or vars id m).1 = Done target →
  reported m (main_account_dump url_parse vars st m).
Proof.
  intros Ha Hw Hp Hx Hspawn Ht. unfold main_account_dump.
  rewrite (io_bind_done _ _ m account m) by (unfold require_set, require; by rewrite Ha).
  rewrite (io_bind_done _ _ m pass m) by (unfold require_set, require; by rewrite Hw).
  rewrite (io_bind_done _ _ m p m)
    by (rewrite <-Hp; rewrite <-(parse_proxy_looks url_parse (non_empty_var vars "PROXY_URL") m) at 3;
        apply surjective_pairing).
  destruct (announce_runs p m) as (m0 & new & Hp0 & Hl0). rewrite (io_bind_done _ _ m tt m0) by done.
  rewrite (io_bind_done _ _ m0 (id, token) m0) by (unfold sign_in; by rewrite Hx).
  rewrite (io_bind_done _ _ m0 tt (with_session m0 s0)) by (unfold spawn; by rewrite Hspawn).
  apply carried; [apply carries_call|done|by left|]. intros friends_list m1 new1 Hs1 Hl1.
  rewrite (io_bind_done _ _ m1 target m1) by (by apply target_looks with m).
  apply (reported_after m m1 (new ++ new1)); [by rewrite Hl1; cbn [ma_lines with_session]; rewrite Hl0, (assoc_L (++))|].
  by apply report_best_effort.
Qed.
End dump.

(** ** A login that is persisted is reused *)
Section persist.
Context {S : Type} `{SessionOps S}.
Context `{Message CMsgClientRequestFriendData, Message CMsgClientPersonaState}.
Context (url_parse : bstr → result string Url).

(** The store holds the token. *)
Definition holds (store token : bstr) (m : Machine S) : Prop := ma_files m !! store = Some token.

Lemma holds_print store token l : preserves (holds store token) (print l : io S unit) (λ _, True).
Proof. by apply preserves_print. Qed.
Lemma holds_call {A} store token (op : async S A) : preserves (holds store token) (call op) (λ _, True).
Proof. apply preserves_session; [done|apply call_session]. Qed.
Lemma holds_open store token r : preserves (holds store token) (open_session r) (λ _, True).
Proof. apply preserves_session; [done|apply open_session_session]. Qed.

Ltac keeps_file := repeat (cbn beta iota; lazymatch goal with
  | |- preserves _ (mbind _ _) _ => apply (preserves_bind _ _ _ (λ _, True)); [|intros ? _]
  | |- preserves _ (println _) _ => apply holds_print
  | |- preserves _ (call _) _ => apply holds_call
  | |- preserves _ (open_session _) _ => apply holds_open
  | |- preserves _ (ask _ _) _ => eapply preserves_weaken, preserves_ask; done
  | |- preserves _ (mret _) _ => eapply preserves_weaken, preserves_ret; done
  | |- preserves _ (match _ with _ => _ end) _ => case_match
  end).

Lemma session_keeps_store st store token config :
  preserves (holds store token) (spawn st config ≫= λ _, use_session st) (λ _, True).
Proof. unfold spawn, use_session, handle_steam_id, shut_down. keeps_file. Qed.

Lemma load_token_saved store token (m : Machine S) :
  holds store token m → token ≠ [] → trim token = token → from_utf8_lossy token = token →
  load_token store m = (Done (Some token), m).
Proof.
  intros Hm Hne Ht Hu. unfold load_token, read_to_string, mbind, io_bind. unfold holds in Hm.
  rewrite Hm. cbn. rewrite bool_decide_true by done. cbn. rewrite Ht. by rewrite bool_decide_false.
Qed.

Lemma proxy_read url p (m : Machine S) :
  (parse_proxy url_parse url m).1 = Done p → parse_proxy url_parse url m = (Done p, m).
Proof.
  intros Hp. rewrite <-Hp. rewrite <-(parse_proxy_looks url_parse url m) at 3. apply surjective_pairing.
Qed.

Definition reuse_line (store : bstr) : list Piece :=
  [Txt "→ found a saved token in '"; Str store; Txt "'; logging in without password / 2FA"].

Lemma saved_or_sign_in_saves vars st account store p (m : Machine S) pass id token access :
  var vars "STEAM_PASSWORD" = Some pass → (load_token store m).1 = Done None → ma_deny m store = None →
  st_execute st (build_sign_in account pass (non_empty_var vars "SHARED_SECRET") p) =
    Some (Ok (Success id token access)) →
  ∃ m', saved_or_sign_in vars st account store p m = (Done token, m') ∧ holds store token m'.
Proof.
  intros Hw Hload Hdeny Hx. unfold saved_or_sign_in.
  rewrite (io_bind_done _ _ m None m) by (rewrite <-Hload; apply surjective_pairing).
  rewrite (io_bind_done _ _ m tt _) by done. rewrite (io_bind_done _ _ _ pass _) by (unfold require; by rewrite Hw).
  rewrite (io_bind_done _ _ _ (id, token) _) by (unfold sign_in; by rewrite Hx).
  rewrite (io_bind_done _ _ _ (Ok tt) _) by (unfold save_token, write; cbn [ma_deny println print snd]; by rewrite Hdeny).
  eexists. split; [done|]. unfold holds. cbn. by rewrite lookup_insert_eq.
Qed.

(** C12: The login of the first run serves the later ones.  When the store has no token and
    Steam accepts the password, the file holds the issued token once the program has ended,
    however the session fares; and a run on that file logs on with the same token, in the
    environment's account, whatever its password variables say and without a sign-in: what
    it does does not depend on what [SignIn::execute] would answer. *)
Theorem persisted_login_round_trip vars st m account pass p id token access :
  var vars "STEAM_ACCOUNT" = Some account → var vars "STEAM_PASSWORD" = Some pass →
  (parse_proxy url_parse (non_empty_var vars "PROXY_URL") m).1 = Done p →
  (load_token (token_file vars) m).1 = Done None → ma_deny m (token_file vars) = None →
  st_execute st (build_sign_in account pass (non_empty_var vars "SHARED_SECRET") p) =
    Some (Ok (Success id token access)) →
  token ≠ [] → trim token = token → from_utf8_lossy token = token →
  let m1 := (main_persist_login url_parse vars st m).2 in
  ma_files m1 !! token_file vars = Some token ∧
  ∀ vars' st' m' account' p',
    ma_files m' = ma_files m1 → token_file vars' = token_file vars →
    var vars' "STEAM_ACCOUNT" = Some account' →
    (parse_proxy url_parse (non_empty_var vars' "PROXY_URL") m').1 = Done p' →
    main_persist_login url_parse vars' st' m' =
    (_ ← println (reuse_line (token_file vars));
     _ ← spawn st' (session_config account' token p');
     use_session st') m'.
Proof.
  intros Ha Hw Hp Hload Hdeny Hx Hne Ht Hu m1.
  assert (ma_files m1 !! token_file vars = Some token) as Hfile.
  { unfold m1, main_persist_login.
    rewrite (io_bind_done _ _ m account m) by (unfold require_set, require; by rewrite Ha).
    rewrite (io_bind_done _ _ m p m) by (by apply proxy_read).
    destruct (saved_or_sign_in_saves vars st account (token_file vars) p m pass id token access) as (m2 & Hm2 & Hh);
      [done..|].
    rewrite (io_bind_done _ _ m token m2) by done. by apply session_keeps_store. }
  split; [done|]. intros vars' st' m' account' p' Hf Hstore Ha' Hp'. unfold main_persist_login.
  rewrite (io_bind_done _ _ m' account' m') by (unfold require_set, require; by rewrite Ha').
  rewrite (io_bind_done _ _ m' p' m') by (by apply proxy_read). rewrite Hstore.
  rewrite (io_bind_done _ _ m' token (println (reuse_line (token_file vars)) m').2); [done|].
  unfold saved_or_sign_in. rewrite (io_bind_done _ _ m' (Some token) m'); [done|].
  apply load_token_saved; [unfold holds; by rewrite Hf|done..].
Qed.
End persist.

(** ** Concrete runs

    On a Steam that signs everyone in, with a token made from the password, and whose
    sessions know their login and have nothing to say. *)
Section witnesses.
Import Wire.Instances.
#[local] Existing Instances friends_list_message add_friend_message add_friend_response_message
  persona_state_message request_data_message.
#[local] Instance remove_friend_message : Message CMsgClientRemoveFriend :=
  wire_message (w_iso Build_CMsgClientRemoveFriend rf_friendid (w_option (w_uint 8))).
#[local] Instance profile_info_message : Message CMsgClientFriendProfileInfo :=
  wire_message (w_iso Build_CMsgClientFriendProfileInfo fpi_steamid_friend (w_option (w_uint 8))).
#[local] Instance profile_info_response_message : Message CMsgClientFriendProfileInfoResponse :=
  wire_message (w_iso
    (λ '(a, b, c, d, e, f, g, h, i), Build_CMsgClientFriendProfileInfoResponse a b c d e f g h i)
    (λ m, (fpr_eresult m, fpr_steamid_friend m, fpr_time_created m, fpr_real_name m, fpr_city_name m,
           fpr_state_name m, fpr_country_name m, fpr_headline m, fpr_summary m))
    (w_pair (w_pair (w_pair (w_pair (w_pair (w_pair (w_pair (w_pair (w_option (w_int 4)) (w_option (w_uint 8)))
       (w_option (w_uint 4))) (w_option w_string)) (w_option w_string)) (w_option w_string))
       (w_option w_string)) (w_option w_string)) (w_option w_string))).
#[local] Instance quiet_ops : SessionOps SessionConfig := {
  so_exchange _ _ _ s := (Ready (Err (Timeout "steam request")), s);
  so_notify _ _ s := (Ready (Ok tt), s);
  so_cached _ _ := None;
  so_subscribe _ := 0%nat;
  so_preempt s := s;
  so_wait _ _ s := (([], true), s)
}.
Definition generous (b : SignInBuilder) : panicking (Result SignInOutcome) :=
  match sb_credentials b with
  | Password c => Some (Ok (Success 76561198000000001 (as_bytes "eyJ." ++ pw_password c) None))
  | RefreshToken _ => Some (Ok TokenRejected)
  end.
Definition quiet_steam : Steam SessionConfig := {|
  st_execute := generous;
  st_spawn config := Some (Ok config);
  st_steam_id _ := 76561198000000001;
  st_vanity _ _ := Ok None;
  st_avatar _ _ := Err (Network "fetch avatar: no route");
  st_attach s := (Ready (Ok tt), s);
  st_wait_ready _ s := (Ready (Err (Timeout "GC welcome")), s);
  st_profile _ s := (Ready (Err (Timeout "GC reply")), s);
  st_logoff s := (Ready (Ok tt), s);
  st_join s := (Ready (Ok tt), s)
|}.
Definition vars_with (pass : string) : gmap string bstr :=
  {["STEAM_ACCOUNT"%string := as_bytes "bot01"; "STEAM_PASSWORD"%string := as_bytes pass]}.
Definition fresh_machine : Machine SessionConfig :=
  {| ma_files := ∅; ma_deny _ := None; ma_lines := []; ma_session := None |}.
Definition no_urls (u : bstr) : result string Url := Err "relative URL without a base"%string.

Lemma quiet_indistinguishable : Indistinguishable (λ _ _ : SessionConfig, True).
Proof. split; by intros. Qed.
Lemma generous_alike vars1 vars2 b1 b2 :
  same_login vars1 vars2 b1 b2 → sign_in_alike (generous b1) (generous b2).
Proof.
  intros [account p pass1 pass2 secret1 secret2 _ _ _]. unfold build_sign_in.
  by destruct secret1, secret2, p.
Qed.
Lemma quiet_alike vars1 vars2 : steam_alike (λ _ _, True) vars1 vars2 quiet_steam quiet_steam.
Proof. split; try (by intros); []. apply generous_alike. Qed.

Lemma vars_with_public pass1 pass2 : vars_public (vars_with pass1) (vars_with pass2).
Proof.
  split.
  - intros name Hn. unfold vars_with. destruct (decide (name = "STEAM_ACCOUNT"%string)) as [->|Ha]; [done|].
    assert (name ≠ "STEAM_PASSWORD"%string) by (intros ->; apply Hn; by left).
    by rewrite !lookup_insert_ne, !lookup_singleton_ne by done.
  - split_and!; [|done|done]. split; intros _; by eexists.
Qed.

Lemma terminal_keeps_secrets_witness :
  let run pass := main_persist_login no_urls (vars_with pass) quiet_steam fresh_machine in
  ma_lines (run "hunter2"%string).2 = ma_lines (run "letmein"%string).2 ∧
  sc_refresh_token <$> ma_session (run "hunter2"%string).2 = Some "eyJ.hunter2"%string ∧
  sc_refresh_token <$> ma_session (run "letmein"%string).2 = Some "eyJ.letmein"%string.
Proof.
  intros run. split; [|by split; vm_compute].
  pose proof (@terminal_keeps_secrets _ _ _ _ _ _ _ _ _ _ no_urls (λ _ _, True) quiet_indistinguishable
    (vars_with "hunter2") (vars_with "letmein") quiet_steam quiet_steam) as Hsame.
  specialize (Hsame (vars_with_public _ _) (quiet_alike _ _) fresh_machine eq_refl).
  do 4 (inversion_clear Hsame as [|? ? ? ? _ Hsame']; rename Hsame' into Hsame).
  by inversion_clear Hsame as [|? ? ? ? (_ & Hl & _)].
Defined.

Lemma dump_is_best_effort_witness :
  let m' := main_account_dump no_urls (vars_with "hunter2") quiet_steam fresh_machine in
  reported quiet_steam fresh_machine m' ∧ m'.1 = Done tt ∧ length (ma_lines m'.2) = 22%nat.
Proof.
  intros m'. split; [|by split; vm_compute].
  eapply dump_is_best_effort; by vm_compute.
Defined.

Lemma persisted_login_round_trip_witness :
  let run pass := main_persist_login no_urls (vars_with pass) quiet_steam in
  let m1 := (run "hunter2"%string fresh_machine).2 in
  ma_files m1 !! as_bytes "refresh_token.txt" = Some (as_bytes "eyJ.hunter2") ∧
  ma_session (run "wrong"%string m1).2 =
    Some (session_config (as_bytes "bot01") (as_bytes "eyJ.hunter2") None).
Proof.
  intros run m1.
  destruct (persisted_login_round_trip no_urls (vars_with "hunter2") quiet_steam fresh_machine
    (as_bytes "bot01") (as_bytes "hunter2") None 76561198000000001 (as_bytes "eyJ.hunter2") None) as [Hf Hr];
    [by vm_compute..|].
  split; [exact Hf|]. unfold run.
  rewrite (Hr (vars_with "wrong") quiet_steam m1 (as_bytes "bot01") None);
    [by vm_compute|reflexivity..].
Defined.
End witnesses.
