(* ===== verification/EndToEnd.v ===== *)
(** * The programs on the driver

    What the programs of Programs.v put on the wire when their sessions are those of
    Driver.v and Session.v.  [drives] is what is asked of a [Steam] whose sessions are
    driver sessions: it spawns them as [spawn_session] does, and its calls run the driver.
    The theorems hold for every program, whatever Steam, the network and the scheduler do. *)
From S2P Require Import Prelude Errors RustStr Proxy Proto Wire Codec Discovery Connection Driver Session Friends Persona.
From S2P Require Import Totp SignIn Redaction Gc GcClock Host Programs Typing.
#[local] Set Default Goal Selector "!".

Create HintDb moves.

Section end_to_end.
Context `{Message CMsgProtoBufHeader, Message CMsgMulti, Message CMsgClientLoggedOff,
          Message CMsgClientLogon, Message CMsgClientLogonResponse}.
Context (GzDecoder : list byte → list byte * option string).

(** ** Logged on as *)

(** The first frame of a connection: the account and the token of the configuration, from
    the placeholder id. *)
Definition logon_frame (config : SessionConfig) : WsMessage :=
  WsBinary (encode EMSG_CLIENT_LOGON (session_header LOGON_HEADER_STEAMID 0 None)
    (logon_request (sc_account_name config) (sc_refresh_token config))).

(** The driver belongs to this login and its current socket was opened with it. *)
Definition logged_on_as (config : SessionConfig) (d : SessionDriver) : Prop :=
  sd_config d = config ∧ ∃ sent, sd_write d = logon_frame config :: sent.

(** A step on one socket: the configuration stays and the wire is only added to. *)
Definition adds (d d' : SessionDriver) : Prop :=
  sd_config d' = sd_config d ∧ ∃ new, sd_write d' = sd_write d ++ new.
#[local] Instance adds_preorder : PreOrder adds.
Proof.
  split; [intros d; split; [done|]; exists []; by rewrite app_nil_r|].
  intros d1 d2 d3 [? [n1 Hn1]] [? [n2 Hn2]]. split; [congruence|]. exists (n1 ++ n2).
  by rewrite Hn2, Hn1, (assoc_L (++)).
Qed.
Lemma adds_intro d d' : sd_config d' = sd_config d → sd_write d' = sd_write d → adds d d'.
Proof. intros Hc Hw. split; [done|]. exists []. by rewrite Hw, app_nil_r. Qed.
Lemma adds_logged config d d' : adds d d' → logged_on_as config d → logged_on_as config d'.
Proof.
  intros [Hc [new Hw]] [Hd [sent Hs]]. split; [congruence|]. exists (sent ++ new). by rewrite Hw, Hs.
Qed.

Lemma send_frame_adds d emsg j body o : adds d (send_frame d emsg j body o).1.
Proof. split; [by destruct o|]. destruct o; [exists []; by rewrite app_nil_r|by eexists]. Qed.
Lemma dispatch_adds d msg : adds d (dispatch d msg).
Proof. unfold dispatch. destruct (_ ≫= _) as [[]|]; by apply adds_intro. Qed.
Lemma foldl_dispatch_adds msgs d : adds d (foldl dispatch d msgs).
Proof.
  revert d. induction msgs as [|m msgs IH]; intros d; [done|]. cbn.
  etransitivity; [apply dispatch_adds|apply IH].
Qed.
Lemma on_command_adds d command o : adds d (on_command d command o).1.
Proof.
  destruct command as [[emsg body dl s|emsg body s|s]|]; [..|done]; unfold on_command.
  - pose proof (send_frame_adds (set_next_jobid d (unwrap_or (checked_add 64 (sd_next_jobid d) 1) 1)) emsg
      (Some (sd_next_jobid d)) body o) as Hs.
    destruct (send_frame _ _ _ _ _) as [d' [r|e]]; cbn in *; (etransitivity; [|apply adds_intro; reflexivity]);
      (etransitivity; [|exact Hs]); by apply adds_intro.
  - pose proof (send_frame_adds d emsg None body o) as Hs. destruct (send_frame _ _ _ _ _) as [d' r].
    cbn in *. etransitivity; [exact Hs|by apply adds_intro].
  - pose proof (send_frame_adds d EMSG_CLIENT_LOGOFF None [] o) as Hs.
    destruct (send_frame _ _ _ _ _) as [d' r]. cbn in *. etransitivity; [exact Hs|by apply adds_intro].
Qed.
Lemma on_read_adds now d r : on_read GzDecoder now d = Some r → adds d r.1.
Proof.
  unfold on_read. destruct (read_message _ _ _ _ _) as [[[[res rd] ib] lv]|]; cbn [mbind option_bind]; [|done].
  assert (adds d (set_reader d rd ib lv)) as Hr by by apply adds_intro.
  destruct res as [|[msg|e]]; [by intros [= <-]| |by intros [= <-]].
  case_decide; intros [= <-]; [done|]. cbn. etransitivity; [exact Hr|apply dispatch_adds].
Qed.
Lemma on_heartbeat_adds d o1 o2 : adds d (on_heartbeat d o1 o2).1.
Proof.
  unfold on_heartbeat. pose proof (send_frame_adds d EMSG_CLIENT_HEARTBEAT None [] o1) as Hs.
  destruct (send_frame _ _ _ _ _) as [d' [r|e]]; cbn in *; [|done].
  etransitivity; [exact Hs|]. destruct o2; (split; [done|]); [by exists []; rewrite app_nil_r|by eexists].
Qed.
Lemma on_sweep_adds now d : adds d (on_sweep now d).1.
Proof. unfold on_sweep. by destruct (read_idle_expired _ _ _); apply adds_intro. Qed.
Lemma on_exit_adds now handles d exit : adds d (w_driver (on_exit now handles d exit)).
Proof.
  destruct exit; [by apply adds_intro..|]. cbn.
  etransitivity; [apply (foldl_dispatch_adds (sd_inbox d))|by apply adds_intro].
Qed.
Lemma after_arm_adds now handles nh ns d r :
  adds d r.1 → adds d (w_driver (after_arm now handles nh ns r)).
Proof. intros Hr. destruct r as [d' [exit|]]; [|done]. etransitivity; [exact Hr|apply on_exit_adds]. Qed.
Lemma recv_command_adds handles d command d' : recv_command handles d = Some (command, d') → adds d d'.
Proof.
  unfold recv_command. destruct (sd_commands d); [destruct handles; [done|]|]; intros [= <- <-]; by apply adds_intro.
Qed.
Lemma take_command_adds w o w' : take_command w o = Some w' → adds (w_driver w) (w_driver w').
Proof.
  unfold take_command. destruct (recv_command _ _) as [[command d]|] eqn:Hr; cbn [mbind option_bind]; [|done].
  apply recv_command_adds in Hr. destruct (w_phase w); try done.
  { intros [= <-]. etransitivity; [exact Hr|]. apply after_arm_adds, on_command_adds. }
  all: destruct (answer_while_down _ _) as [slots stop]; intros [= <-]; (etransitivity; [exact Hr|]);
    destruct stop; by apply adds_intro.
Qed.
Lemma submit_adds w s call w' : submit w s call = Some w' → adds (w_driver w) (w_driver w').
Proof.
  unfold submit. case_decide; [|done]. destruct (w_phase w); repeat case_decide; intros [= <-]; by apply adds_intro.
Qed.

(** ** What a connect puts on the wire *)
Lemma logon_on_message_wire c msg r c' : logon_on_message c msg = Some (r, c') → cc_wire c' = cc_wire c.
Proof.
  unfold logon_on_message. case_decide; [|case_decide; [|done]]; [|by intros [= _ <-]].
  destruct (map_err _ _) as [resp|e]; [|by intros [= _ <-]]. by case_decide; intros [= _ <-].
Qed.
Lemma logon_loop_wire fuel now c r c' : logon_loop GzDecoder fuel now c = Some (r, c') → cc_wire c' = cc_wire c.
Proof.
  revert c. induction fuel as [|fuel IH]; intros c; cbn [logon_loop]; [done|].
  unfold recv. intros ([r1 c1] & Hr & Hl)%bind_Some.
  apply bind_Some in Hr as ([[[r2 read] inbox] lv] & _ & Hr). simplify_eq.
  destruct r1 as [|[msg|e]]; [by simplify_eq| |by simplify_eq].
  destruct (logon_on_message _ _) as [[r3 c3]|] eqn:Ho; [|by apply IH in Hl].
  apply logon_on_message_wire in Ho. by simplify_eq.
Qed.

(** The outcome of a connect that, if it succeeds, has sent the logon and nothing else. *)
Definition opened_as (config : SessionConfig) (outcome : Result (CmConnection * LoggedOn)) : Prop :=
  ∀ conn logged, outcome = Ok (conn, logged) → cc_wire conn = [logon_frame config].

Lemma server_attempt_opened now config env server r :
  server_attempt GzDecoder now (sc_account_name config) (sc_refresh_token config) env server = Some (Some r) →
  opened_as config r.
Proof.
  unfold server_attempt. destruct (sa_timeout env); [done|].
  destruct (connect _ _) as [conn|e] eqn:Hc; [|by intros [= <-]].
  unfold connect in Hc. apply bind_ok in Hc as (ws & _ & Hc). simplify_eq.
  intros ([r' conn] & Hl & Hr)%bind_Some. unfold logon, send, write_frame in Hl.
  destruct (sa_write env); [by simplify_eq|]. apply logon_loop_wire in Hl.
  destruct r' as [|[ln|e]]; simplify_eq; [|done]. by intros c' ln' [= <- <-].
Qed.
Lemma establish_opened now config env discovered r :
  establish GzDecoder now (sc_account_name config) (sc_refresh_token config) env discovered = Some r →
  opened_as config r.
Proof.
  unfold establish. destruct discovered as [servers|e]; [|by intros [= <-]].
  generalize (take MAX_CONNECT_ATTEMPTS servers), 0%nat, (@None Error). clear servers.
  intros servers. induction servers as [|server servers IH]; intros i last; cbn [establish_loop]; [by intros [= <-]|].
  intros (r1 & Ha & Hr)%bind_Some. destruct r1 as [[ok|e]|]; [|destruct e; by eauto; by simplify_eq|by eapply IH].
  apply server_attempt_opened in Ha. by simplify_eq.
Qed.

(** ** The driver keeps its login *)
Lemma step_logged config w ev w' :
  logged_on_as config (w_driver w) → step GzDecoder w ev = Some w' → logged_on_as config (w_driver w').
Proof.
  intros Hw Hstep. destruct (step_cases _ _ _ _ Hstep) as
    [| |s call w' Hs| | |o w' Hc|nh ns r _ Hr| | | |b env disc out _ He|]; try (by destruct Hw).
  - by eapply adds_logged, Hw; eapply submit_adds.
  - by eapply adds_logged, Hw; eapply take_command_adds.
  - by eapply adds_logged, Hw; eapply after_arm_adds, on_read_adds.
  - eapply adds_logged, Hw. apply after_arm_adds, on_heartbeat_adds.
  - eapply adds_logged, Hw. apply after_arm_adds, on_sweep_adds.
  - destruct out as [[conn logged]|e]; [|by destruct e; destruct Hw].
    destruct Hw as [<- _]. apply establish_opened in He. split; [done|]. exists [].
    by rewrite <-(He conn logged).
Qed.

(** ** Calls run the driver *)
Definition runs : World → World → Prop := rtc (λ w w', ∃ ev, step GzDecoder w ev = Some w').
(** All a call does to the session's task is to let it run. *)
Definition moves {A} (op : async DriverSession A) : Prop :=
  ∀ s, runs (ds_world s) (ds_world (op s).2).

Lemma runs_logged config w w' : runs w w' → logged_on_as config (w_driver w) → logged_on_as config (w_driver w').
Proof.
  induction 1 as [|w1 w2 w3 [ev Hev] _ IH]; [done|]. intros Hw. by eapply IH, step_logged.
Qed.
Lemma runs_step w ev w' w'' : step GzDecoder w ev = Some w' → runs w' w'' → runs w w''.
Proof. intros Hs Hr. eapply rtc_l; [by exists ev|done]. Qed.
Lemma play_runs evs w n at_ w' n' at_' : play GzDecoder w n at_ evs = Some (w', n', at_') → runs w w'.
Proof.
  revert w n at_. induction evs as [|ev evs IH]; intros w n at_; cbn [play]; [by intros [= <- <- <-]|].
  intros (w1 & Hs & Hp)%bind_Some. eapply runs_step; [exact Hs|]. case_match; by eapply IH.
Qed.
Lemma enqueue_runs call evs w n at_ r w' n' at_' evs' :
  enqueue GzDecoder w n at_ call evs = Some (r, w', n', at_', evs') → runs w w'.
Proof.
  assert (∀ w w1, submit w (free_slot w) (call (w_now w)) = Some w1 → runs w w1) as Hsub.
  { intros w1 w2 Hs. by apply (runs_step w1 (Submit (free_slot w1) (call (w_now w1))) w2). }
  revert w n at_. induction evs as [|ev evs IH]; intros w n at_; cbn [enqueue];
    (destruct (send_error w); [by intros [= <- <- <- <- <-]|]); destruct (submit _ _ _) as [w1|] eqn:Hs;
    [intros [= <- <- <- <- <-]; by apply Hsub|done|intros [= <- <- <- <- <-]; by apply Hsub|].
  intros (w1 & Hs1 & Hp)%bind_Some. eapply runs_step; [exact Hs1|]. case_match; by eapply IH.
Qed.
Lemma perform_runs s call q w' n' at_' script :
  perform GzDecoder s call = Some (q, w', n', at_', script) → runs (ds_world s) w'.
Proof.
  unfold perform. destruct (match ds_script s with [] => _ | evs :: script => _ end) as [evs script'].
  intros ([[[[queued w1] n1] at1] evs'] & He & Hq)%bind_Some. apply enqueue_runs in He.
  destruct queued as [k|e]; [|by simplify_eq].
  apply bind_Some in Hq as ([[w2 n2] at2] & Hp & Hq). apply bind_Some in Hq as (slot & _ & Hq). simplify_eq.
  etransitivity; [exact He|by eapply play_runs].
Qed.

#[local] Instance driven : SessionOps DriverSession := driver_session GzDecoder.

Lemma moves_exchange emsg body timeout : moves (so_exchange emsg body timeout).
Proof.
  intros s. cbn. unfold driver_exchange. destruct (perform _ _ _) as [[[[[q w'] n'] at_'] script]|] eqn:Hp.
  - by eapply perform_runs.
  - apply rtc_refl.
Qed.
Lemma moves_notify emsg body : moves (so_notify emsg body).
Proof.
  intros s. cbn. unfold driver_notify. destruct (perform _ _ _) as [[[[[q w'] n'] at_'] script]|] eqn:Hp.
  - by eapply perform_runs.
  - apply rtc_refl.
Qed.
Lemma moves_logoff : moves (driver_logoff GzDecoder).
Proof.
  intros s. unfold driver_logoff. destruct (perform _ _ _) as [[[[[q w'] n'] at_'] script]|] eqn:Hp.
  - by eapply perform_runs.
  - apply rtc_refl.
Qed.
Lemma driver_wait_runs pos timeout s : runs (ds_world s) (ds_world (driver_wait GzDecoder pos timeout s).2).
Proof.
  unfold driver_wait. cbn [snd]. destruct (ds_script s) as [|evs script]; [apply rtc_refl|].
  destruct (play _ _ _ _ _) as [[[w' n'] at_']|] eqn:Hp; [by eapply play_runs|apply rtc_refl].
Qed.
Lemma preempt_runs s : runs (ds_world s) (ds_world (so_preempt s)).
Proof.
  cbn. unfold driver_preempt. destruct (ds_preempt s) as [|evs rest]; [apply rtc_refl|].
  destruct (play _ _ _ _ _) as [[[w' n'] at_']|] eqn:Hp; [by eapply play_runs|apply rtc_refl].
Qed.
Lemma moves_wait {A} pos timeout (on_msg : SteamMessage → Result (option A)) late :
  moves (wait_event pos timeout on_msg late).
Proof.
  intros s. pose proof (driver_wait_runs pos timeout s) as Hw. unfold wait_event.
  exact Hw.
Qed.
Lemma moves_ret {A} (a : A) : moves (mret a).
Proof. intros s. apply rtc_refl. Qed.
Lemma moves_lift {A} (r : Result A) : moves (lift r).
Proof. intros s. apply rtc_refl. Qed.
Lemma moves_bind {A B} (op : async DriverSession A) (k : A → async DriverSession B) :
  moves op → (∀ a, moves (k a)) → moves (op ≫= k).
Proof.
  intros Hop Hk s. specialize (Hop s). unfold mbind, async_bind.
  destruct (op s) as [[|[a|e]] s']; [done| |done]. etransitivity; [exact Hop|apply Hk].
Qed.
Lemma moves_dispatch {Req Resp} `{Message Req, Message Resp} emsg (req : Req) timeout check :
  moves (dispatch_request (Resp := Resp) emsg req timeout check).
Proof.
  intros s. pose proof (moves_exchange emsg (encode_to_vec req) timeout s) as Hs. unfold dispatch_request.
  by destruct (so_exchange emsg (encode_to_vec req) timeout s) as [[|r] s'].
Qed.

(** ** A Steam whose sessions are driver sessions *)
Record drives (st : Steam DriverSession) : Prop := {
  (** [spawn_session], each of its attempts [CmConnection::establish] with the
      configuration's login. *)
  drives_spawn config s : st_spawn st config = Some (Ok s) →
    ∃ now attempt, spawn_session now config attempt = Ok (ds_world s) ∧
      ∀ n, ∃ at_ env discovered, establish GzDecoder at_ (sc_account_name config) (sc_refresh_token config)
        env discovered = Some (attempt n);
  drives_logoff : st_logoff st = driver_logoff GzDecoder;
  drives_attach : moves (st_attach st);
  drives_wait_ready timeout : moves (st_wait_ready st timeout);
  drives_profile id : moves (st_profile st id);
  drives_join : moves (st_join st);
  (** The join handle resolves when the task has ended. *)
  drives_joined s r s' : st_join st s = (Ready r, s') → ∃ result, w_phase (ds_world s') = Stopped result
}.

Lemma spawn_session_wire now config attempt w :
  spawn_session now config attempt = Ok w →
  ∃ n conn logged, attempt n = Ok (conn, logged) ∧ sd_write (w_driver w) = cc_wire conn ∧
    sd_config (w_driver w) = config.
Proof.
  unfold spawn_session. destruct (establish_resilient_spec attempt) as (k & _ & -> & _). cbn [fst].
  destruct (attempt (S k)) as [[conn logged]|e] eqn:Hc; [|done]. intros [= <-]. by exists (S k), conn, logged.
Qed.
Lemma spawn_session_logged now config attempt w :
  (∀ n, opened_as config (attempt n)) → spawn_session now config attempt = Ok w →
  logged_on_as config (w_driver w).
Proof.
  intros Ha (n & conn & logged & Hc & Hw & Hconf)%spawn_session_wire. split; [done|]. exists [].
  rewrite Hw. by apply (Ha n conn logged).
Qed.
Lemma spawned_logged st config s :
  drives st → st_spawn st config = Some (Ok s) → logged_on_as config (w_driver (ds_world s)).
Proof.
  intros Hst Hs. destruct (drives_spawn _ Hst _ _ Hs) as (now & attempt & Hw & Ha).
  apply (spawn_session_logged now config attempt); [|done].
  intros n. destruct (Ha n) as (at_ & env & disc & Hest). by eapply establish_opened.
Qed.

Context `{Message CMsgClientFriendsList, Message CMsgClientAddFriend, Message CMsgClientAddFriendResponse,
          Message CMsgClientRemoveFriend,
          Message CMsgClientRequestFriendData, Message CMsgClientPersonaState,
          Message CMsgClientFriendProfileInfo, Message CMsgClientFriendProfileInfoResponse}.
Context (url_parse : bstr → result string Url) (vars : gmap string bstr) (st : Steam DriverSession).
Context (Hst : drives st).

Lemma moves_friends_list : moves request_friends_list.
Proof.
  intros s. unfold request_friends_list, post_login_list.
  etransitivity; [apply preempt_runs|].
  destruct (so_cached (so_preempt s) _) as [body|]; [|apply moves_wait].
  destruct (map_err _ _) as [l|]; [|apply rtc_refl]. destruct (is_full_friends l); [apply rtc_refl|apply moves_wait].
Qed.
Lemma moves_summary id : moves (request_player_summary id).
Proof. intros s. apply (moves_bind _ _ (moves_notify _ _) (λ _, moves_wait _ _ _ _)). Qed.
Lemma moves_profile_info id : moves (request_profile_info id).
Proof. apply moves_bind; intros; [apply moves_dispatch|apply moves_lift]. Qed.
Lemma moves_add_friend id : moves (add_friend id).
Proof. apply moves_bind; intros; [apply moves_dispatch|apply moves_lift]. Qed.
Lemma moves_remove_friend id : moves (remove_friend id).
Proof. apply moves_notify. Qed.
Lemma moves_st_logoff : moves (st_logoff st).
Proof. rewrite (drives_logoff _ Hst). apply moves_logoff. Qed.
Lemma moves_steam_id : moves (λ s, (Ready (Ok (st_steam_id st s)), s)).
Proof. intros s. apply rtc_refl. Qed.
#[local] Hint Resolve moves_friends_list moves_summary moves_profile_info moves_add_friend moves_remove_friend
  moves_st_logoff moves_steam_id drives_attach drives_wait_ready drives_profile drives_join : moves.

(** ** Whose session a program has *)

(** What an optional proxy URL comes to when it is accepted. *)
Definition proxy_of (url : option bstr) (p : option ProxyConfig) : Prop :=
  match url with
  | None => p = None
  | Some u => ∃ c, parse url_parse u = Ok c ∧ p = Some c
  end.
Section login.
(** [F account token p]: the program may log on with these. *)
Context (F : bstr → bstr → option ProxyConfig → Prop).

(** If there is a session, it is logged on with such a login. *)
Definition session_of (m : Machine DriverSession) : Prop := ∀ s, ma_session m = Some s →
  ∃ account token p, F account token p ∧ logged_on_as (session_config account token p) (w_driver (ds_world s)).

Lemma login_print l : preserves session_of (print l) (λ _, True).
Proof. by apply preserves_print. Qed.
Lemma login_call {A} (op : async DriverSession A) : moves op → preserves session_of (call op) (λ _, True).
Proof.
  intros Hop m Hm. split; [|done]. unfold call. destruct (ma_session m) as [s|] eqn:Hs; [|done].
  destruct (Hm s Hs) as (account & token & p & HF & Hl). specialize (Hop s).
  destruct (op s) as [[|r] s']; intros s'' [= <-]; exists account, token, p; (split; [done|]);
    by eapply runs_logged.
Qed.
Lemma login_spawn account token p :
  F account token p → preserves session_of (spawn st (session_config account token p)) (λ _, True).
Proof.
  intros HF. unfold spawn. eapply (preserves_bind _ _ _ (λ _, True)).
  - intros m Hm. split; [|done]. unfold open_session.
    destruct (st_spawn st _) as [[s|e]|] eqn:Hs; [|done|done]. intros s' [= <-].
    exists account, token, p. split; [done|by eapply spawned_logged].
  - intros r _. eapply preserves_weaken, preserves_ask. done.
Qed.
Lemma login_write path contents : preserves session_of (write path contents) (λ _, True).
Proof. intros m Hm. split; [|done]. unfold write. by destruct (ma_deny m path). Qed.
Lemma login_exit {A} code (Q : A → Prop) : preserves session_of (exit code) Q.
Proof. apply preserves_exit. Qed.
Lemma login_require_as name message :
  preserves session_of (require vars name message) (λ a, var vars name = Some a).
Proof.
  intros m Hm. split; [done|]. unfold require, ask. destruct (var vars name); cbn; [by intros a [= ->]|done].
Qed.
Lemma login_require name : preserves session_of (require_set vars name) (λ a, var vars name = Some a).
Proof. apply login_require_as. Qed.
Lemma login_proxy url : preserves session_of (parse_proxy url_parse url) (proxy_of url).
Proof.
  destruct url as [u|]; [|by eapply preserves_weaken, preserves_ret; intros p ->].
  eapply preserves_bind; [apply preserves_ask|]. intros p Hp. eapply preserves_weaken, preserves_ret.
  intros ? ->. by exists p.
Qed.
Lemma login_sign_in b :
  preserves session_of (sign_in st b) (λ '(id, token), ∃ access, st_execute st b = Some (Ok (Success id token access))).
Proof.
  eapply preserves_bind; [apply preserves_run|]. intros r Hr.
  eapply preserves_bind; [apply preserves_ask|]. intros outcome ->.
  destruct outcome as [id token access| | | | | |];
    [eapply preserves_weaken, preserves_ret; intros ? ->; by exists access|..];
    (eapply preserves_bind; [apply login_print|intros _ _; apply preserves_exit]).
Qed.
End login.

(** Signed in now, with the account, the password and the proxy of the environment. *)
Definition signed_in (secret url : option bstr) (account token : bstr) (p : option ProxyConfig) : Prop :=
  var vars "STEAM_ACCOUNT" = Some account ∧ proxy_of url p ∧
  ∃ pass id access, var vars "STEAM_PASSWORD" = Some pass ∧
    st_execute st (build_sign_in account pass secret p) = Some (Ok (Success id token access)).
Lemma signed_in_intro secret url account pass id token access p :
  var vars "STEAM_ACCOUNT" = Some account → var vars "STEAM_PASSWORD" = Some pass → proxy_of url p →
  st_execute st (build_sign_in account pass secret p) = Some (Ok (Success id token access)) →
  signed_in secret url account token p.
Proof. intros ? ? ? ?. split_and!; [done..|]. by exists pass, id, access. Qed.

(** The login of each of the session programs: signed in now, or, for the persisted login,
    with the token its file held at the start. *)
Definition saved (m : Machine DriverSession) (account token : bstr) (p : option ProxyConfig) : Prop :=
  var vars "STEAM_ACCOUNT" = Some account ∧ proxy_of (non_empty_var vars "PROXY_URL") p ∧
  (load_token (token_file vars) m).1 = Done (Some token).
Definition logins (m : Machine DriverSession) : list (bstr → bstr → option ProxyConfig → Prop) :=
  let secret := var vars "SHARED_SECRET" in
  let url := var vars "PROXY_URL" in
  [signed_in secret url; signed_in secret url; signed_in secret url;
   signed_in secret (non_empty_var vars "PROXY_URL");
   λ account token p, saved m account token p ∨
     signed_in (non_empty_var vars "SHARED_SECRET") (non_empty_var vars "PROXY_URL") account token p].

Ltac login_step := lazymatch goal with
  | |- preserves _ (mbind _ (require_set _ _)) _ => eapply preserves_bind; [apply login_require|let Hr := fresh in intros ? Hr; cbn beta in Hr]
  | |- preserves _ (mbind _ (parse_proxy _ _)) _ => eapply preserves_bind; [apply login_proxy|intros ? ?]
  | |- preserves _ (mbind _ (sign_in _ _)) _ => eapply preserves_bind; [apply login_sign_in|intros [? ?] [? ?]]
  | |- preserves _ (mbind _ _) _ => apply (preserves_bind _ _ _ (λ _, True)); [|intros ? _]
  | |- preserves _ (println _) _ => apply login_print
  | |- preserves _ (eprintln _) _ => apply login_print
  | |- preserves _ (spawn _ _) _ => apply login_spawn; eapply signed_in_intro; eassumption
  | |- preserves _ (call _) _ => apply login_call; by eauto using moves_ret with moves
  | |- preserves _ (write _ _) _ => apply login_write
  | |- preserves _ (ask _ _) _ => eapply preserves_weaken, preserves_ask; done
  | |- preserves _ (mret _) _ => eapply preserves_weaken, preserves_ret; done
  | |- preserves _ (match _ with _ => _ end) _ => case_match
  end.
Ltac login := repeat (cbn beta iota; login_step).

Lemma login_scan :
  preserves (session_of (signed_in (var vars "SHARED_SECRET") (var vars "PROXY_URL")))
    (main_scan_one_profile url_parse vars st) (λ _, True).
Proof.
  unfold main_scan_one_profile, announce_proxy, target_or, parse_id, handle_steam_id, print_competitive, shut_down.
  login.
Qed.
Lemma login_details :
  preserves (session_of (signed_in (var vars "SHARED_SECRET") (var vars "PROXY_URL")))
    (main_profile_details url_parse vars st) (λ _, True).
Proof. unfold main_profile_details, announce_proxy, target_or, parse_id, print_when, shut_down. login. Qed.
Lemma login_print_friends F l : preserves (session_of F) (print_friends l) (λ _, True).
Proof. induction l as [|f l IH]; cbn [print_friends]; login. done. Qed.
Lemma login_friends :
  preserves (session_of (signed_in (var vars "SHARED_SECRET") (var vars "PROXY_URL")))
    (main_friends url_parse vars st) (λ _, True).
Proof. unfold main_friends, print_more, parse_id, shut_down. login; apply login_print_friends. Qed.
Lemma login_report F account target p l :
  preserves (session_of F) (dump_report st account target p l) (λ _, True).
Proof.
  unfold dump_report, dump_summary, save_avatar, dump_profile_info, print_opt, dump_friends, print_more, dump_cs2,
    print_competitive, unavailable, heading, shut_down.
  login. apply login_print_friends.
Qed.
Lemma login_dump :
  preserves (session_of (signed_in (var vars "SHARED_SECRET") (non_empty_var vars "PROXY_URL")))
    (main_account_dump url_parse vars st) (λ _, True).
Proof. unfold main_account_dump, announce_proxy, target_or, parse_id. login. apply login_report. Qed.

(** A step that only looks at the machine. *)
Lemma looks_bind {A B} (p : io DriverSession A) (k : A → io DriverSession B) m (P : Machine DriverSession → Prop) :
  (p m).2 = m → P m → (∀ a, (p m).1 = Done a → P (k a m).2) → P ((p ≫= k) m).2.
Proof.
  intros Hp HP Hk. unfold mbind, io_bind. destruct (p m) as [[a|e|c| |] m']; cbn in *; subst; try done. by apply Hk.
Qed.
Lemma load_token_looks store (m : Machine DriverSession) : ∃ o, load_token store m = (Done o, m).
Proof. by eexists. Qed.

Lemma login_use F account token p :
  F account token p →
  preserves (session_of F) (spawn st (session_config account token p) ≫= λ _, use_session st) (λ _, True).
Proof.
  intros HF. apply (preserves_bind _ _ _ (λ _, True)); [by apply login_spawn|]. intros _ _.
  unfold use_session, handle_steam_id, shut_down. login.
Qed.
Lemma login_saved F account store p m o :
  var vars "STEAM_ACCOUNT" = Some account → proxy_of (non_empty_var vars "PROXY_URL") p →
  load_token store m = (Done o, m) → session_of F m → (∀ token, o = Some token → F account token p) →
  (∀ token, signed_in (non_empty_var vars "SHARED_SECRET") (non_empty_var vars "PROXY_URL") account token p →
            F account token p) →
  let '(r, m') := saved_or_sign_in vars st account store p m in
  session_of F m' ∧ ∀ token, r = Done token → F account token p.
Proof.
  intros Ha Hp Ho HI Hsaved Hsigned. unfold saved_or_sign_in. rewrite (io_bind_done _ _ m o m) by done.
  lazymatch goal with |- let '(_, _) := ?q m in _ =>
    assert (preserves (session_of F) q (λ token, F account token p)) as Hq;
      [|by specialize (Hq m HI); destruct (q m)] end.
  destruct o as [token|].
  - eapply preserves_bind; [apply login_print|]. intros _ _. eapply preserves_weaken, preserves_ret.
    intros ? ->. by apply Hsaved.
  - eapply preserves_bind; [apply login_print|]. intros _ _.
    eapply preserves_bind; [apply login_require_as|]. intros pass Hw. cbn beta in Hw.
    eapply preserves_bind; [apply login_sign_in|]. intros [id token] [access Hx].
    eapply preserves_bind; [apply login_write|]. intros r _.
    eapply preserves_bind; [apply preserves_ask|]. intros _ _.
    eapply preserves_bind; [apply login_print|]. intros _ _. eapply preserves_weaken, preserves_ret.
    intros ? ->. by eapply Hsigned, signed_in_intro.
Qed.
Lemma login_persist m :
  ma_session m = None →
  session_of (λ account token p, saved m account token p ∨
      signed_in (non_empty_var vars "SHARED_SECRET") (non_empty_var vars "PROXY_URL") account token p)
    (main_persist_login url_parse vars st m).2.
Proof.
  intros Hm. set (F := λ account token p, _ ∨ _).
  assert (session_of F m) as HI by (intros s; by rewrite Hm). unfold main_persist_login.
  apply looks_bind; [done|done|]. intros account Ha.
  apply looks_bind; [apply parse_proxy_looks|done|]. intros p Hp.
  pose proof (proj2 (login_require F _ m HI) account Ha) as Hacc.
  pose proof (proj2 (login_proxy F _ m HI) p Hp) as Hpx. cbn beta in Hacc.
  destruct (load_token_looks (token_file vars) m) as [o Ho].
  pose proof (login_saved F account (token_file vars) p m o Hacc Hpx Ho HI) as Hs.
  unfold mbind, io_bind at 1. destruct (saved_or_sign_in _ _ _ _ _ _) as [r m'].
  destruct Hs as [HI' Htok]; [|by intros token; right|].
  - intros token ->. left. split_and!; [done..|by rewrite Ho].
  - destruct r as [token|e|c| |]; try done. apply (login_use F account token p (Htok _ eq_refl) m' HI').
Qed.

(** Every session belongs to the login the program made.  Started without a session, each
    of the five programs has, whenever it has a session at all and however it ends, one whose
    driver is configured with the account of the environment, with the very token Steam
    issued for that account's password (or, for the persisted login, the token its file
    held at the start) and with the proxy of the environment; and the current socket of that
    driver, the first or one of a reconnect, was opened with the logon frame of exactly this
    login, whatever the network and the scheduler did. *)
Theorem sessions_log_on_as_signed_in m :
  ma_session m = None →
  Forall2 (λ program F, session_of F (program m).2) (session_programs url_parse vars st) (logins m).
Proof.
  intros Hm. assert (∀ F, session_of F m) as HI by (intros F s; by rewrite Hm).
  constructor; [by apply login_scan|]. constructor; [by apply login_details|].
  constructor; [by apply login_friends|]. constructor; [by apply login_dump|].
  constructor; [by apply login_persist|constructor].
Qed.

(** ** What success leaves behind *)
Definition stopped (m : Machine DriverSession) : Prop :=
  ∃ s result, ma_session m = Some s ∧ w_phase (ds_world s) = Stopped result.
(** A run that ends normally leaves its session stopped. *)
Definition closes {A} (p : io DriverSession A) : Prop := ∀ m a, (p m).1 = Done a → stopped (p m).2.

Lemma closes_bind {A B} (p : io DriverSession A) (k : A → io DriverSession B) :
  (∀ a, closes (k a)) → closes (p ≫= k).
Proof.
  intros Hk m b. unfold mbind, io_bind. destruct (p m) as [[a|e|c| |] m']; cbn; try done. apply Hk.
Qed.
Lemma closes_then {A B} (p : io DriverSession A) (k : A → io DriverSession B) :
  closes p → (∀ a, preserves stopped (k a) (λ _, True)) → closes (p ≫= k).
Proof.
  intros Hp Hk m b. specialize (Hp m). unfold mbind, io_bind.
  destruct (p m) as [[a|e|c| |] m']; cbn in *; try done. intros _. by apply Hk, (Hp a).
Qed.
Lemma closes_join : closes (call (st_join st)).
Proof.
  intros m r. unfold call. destruct (ma_session m) as [s|]; [|done].
  destruct (st_join st s) as [[|r'] s'] eqn:Hj; [done|]. intros _.
  destruct (drives_joined _ Hst _ _ _ Hj) as [result Hr]. by exists s', result.
Qed.
Lemma closes_shut_down : closes (shut_down st).
Proof.
  apply closes_bind. intros r. apply closes_bind. intros _. apply closes_then; [apply closes_join|].
  intros r'. eapply preserves_weaken, preserves_ret. done.
Qed.
Lemma closes_report account target p l : closes (dump_report st account target p l).
Proof. unfold dump_report. repeat first [apply closes_shut_down|apply closes_bind; intros ?]. Qed.
Lemma closes_use : closes (use_session st).
Proof.
  unfold use_session. do 4 (apply closes_bind; intros ?). apply closes_then; [apply closes_shut_down|].
  intros _. apply (preserves_bind _ _ _ (λ _, True)); [|intros ? _]; by apply preserves_print.
Qed.
Ltac closing := repeat (cbn beta iota; lazymatch goal with
  | |- closes (shut_down _) => apply closes_shut_down
  | |- closes (dump_report _ _ _ _ _) => apply closes_report
  | |- closes (use_session _) => apply closes_use
  | |- closes (mbind _ _) => apply closes_bind; intros ?
  | |- closes (match _ with _ => _ end) => case_match
  end).

(** Success leaves no session behind: each of the five programs that ends without an
    error has logged off and seen its driver task end. *)
Theorem success_leaves_no_session m :
  Forall (λ program, (program m).1 = Done tt → stopped (program m).2) (session_programs url_parse vars st).
Proof.
  assert (∀ p : io DriverSession unit, closes p → (p m).1 = Done tt → stopped (p m).2) as Hc by eauto.
  repeat constructor; apply Hc;
    unfold main_scan_one_profile, main_profile_details, main_friends, main_account_dump, main_persist_login; closing.
Qed.
End end_to_end.

(** ** Such a Steam

    The coordinator's calls are those of GcClock.v on this session, under the session's
    clock; what its pump (GcSystem.v) makes of a run of the driver, the readiness it publishes
    and the messages it relays, with their times since the call (since the timer was armed,
    for the messages), are parameters, like the outcome of signing in and what the network
    does. *)
Section instance.
Context `{Message CMsgProtoBufHeader, Message CMsgMulti, Message CMsgClientLoggedOff,
          Message CMsgClientLogon, Message CMsgClientLogonResponse}.
Context `{Message GcHeader, Message CMsgGcClient, Message ClientHello, Message GamesPlayed,
          Message ProfileRequest, Message PlayersProfile}.
Context (GzDecoder : list byte → list byte * option string).
Context (execute : SignInBuilder → panicking (Result SignInOutcome)).
Context (vanity : bstr → option ProxyConfig → Result (option Z)).
Context (avatar : string → option ProxyConfig → Result (list byte)).
Context (start : nat → Instant) (network : nat → (nat → ServerAttempt) * Result (list CmServer)).
Context (script : list (list Event)).
(** The pump reads the session's broadcasts and its state. *)
Definition view : Type := list SteamMessage * SessionState.
Definition view_of (s : DriverSession) : view := (sd_events (w_driver (ds_world s)), sd_state (w_driver (ds_world s))).
Context (gc_ready : view → bool) (gc_changes : view → view → list (Z * option bool))
        (gc_arrivals : view → view → list (Z * GcRecv)).

#[local] Instance driven_ops : SessionOps DriverSession := driver_session GzDecoder.

(** [spawn_session]: attempt [n] is made at [start n]; it always comes to something. *)
Definition connect_attempt (config : SessionConfig) (n : nat) : Result (CmConnection * LoggedOn) :=
  default (Err (Network "")) (establish GzDecoder (start n) (sc_account_name config)
    (sc_refresh_token config) (network n).1 (network n).2).
Definition driver_spawn (config : SessionConfig) : Result DriverSession :=
  w ← spawn_session (start 0) config (connect_attempt config);
  Ok {| ds_world := w; ds_logons := 1; ds_logon_at := 0; ds_script := script; ds_preempt := []; ds_transcript := [] |}.
(** [SessionHandle::steam_id]: the handle keeps the id of the first logon, that of a spawn
    with this configuration; the driver's own id is the current connection's. *)
Definition handle_id (s : DriverSession) : Z :=
  match driver_spawn (sd_config (w_driver (ds_world s))) with
  | Ok s0 => sd_steam_id (w_driver (ds_world s0))
  | Err _ => 0
  end.
(** The next part of the script. *)
Definition pass_time (s : DriverSession) : DriverSession := (driver_wait GzDecoder 0 0 s).2.

(** [attach] announces the game and says hello. *)
Definition driver_attach : async DriverSession unit :=
  _ ← notify EMSG_CLIENT_GAMES_PLAYED {| gp_game_ids := [Some APP_ID] |};
  notify EMSG_CLIENT_TO_GC (hello_envelope APP_ID GC_HELLO_VERSION).
(** How long the part of the script between two points took. *)
Definition elapsed (s s' : DriverSession) : Z := w_now (ds_world s') - w_now (ds_world s).
(** A call decided at [t]: it returns if that is not after the end of this part of the
    script, else it is still waiting. *)
Definition decided {A} (took : Z) (answer : Result A * Z) : poll (Result A) :=
  if decide (answer.2 ≤ took) then Ready answer.1 else Pending.
Definition driver_wait_ready (deadline : Z) : async DriverSession unit := λ s,
  let s' := pass_time s in
  (decided (elapsed s s')
     (clocked_wait_ready deadline 0 (gc_ready (view_of s)) (gc_changes (view_of s) (view_of s'))), s').
Definition profile_request (account_id : Z) : CMsgGcClient :=
  wrap APP_ID GC_CLIENT_REQUEST_PLAYERS_PROFILE gc_header_default
    (encode_to_vec {| prq_account_id := Some account_id; prq_request_level := Some REQUEST_LEVEL |}).
(** The send, and the wait for the reply with the budget that is left: the subscription is
    taken before the send, the timer armed after it. *)
Definition profile_exchange (budget : Z) (account_id : Z) : async DriverSession PlayersProfile := λ s,
  match notify EMSG_CLIENT_TO_GC (profile_request account_id) s with
  | (Pending, s1) => (Pending, s1)
  | (Ready (Err e), s1) => (Ready (Err e), s1)
  | (Ready (Ok _), s1) =>
      let s2 := pass_time s1 in
      (decided (elapsed s1 s2)
         (clocked_await_matching GC_PLAYERS_PROFILE
            (λ r, existsb (profile_of account_id) (pp_account_profiles r)) budget 0
            (gc_arrivals (view_of s) (view_of s2))), s2)
  end.
Definition driver_profile (account_id : Z) : async DriverSession PlayerProfile := λ s,
  match driver_wait_ready PROFILE_TIMEOUT s with
  | (Pending, s') => (Pending, s')
  | (Ready (Err e), s') => (Ready (Err e), s')
  | (Ready (Ok _), s') =>
      let budget := Z.max 0 (PROFILE_TIMEOUT - elapsed s s') in
      (response ← profile_exchange budget account_id;
       profile ← lift (ok_or (find_profile account_id response)
         (Network ("GC PlayersProfile carried no profile for account " +:+ pretty account_id)));
       mret (to_profile account_id profile)) s'
  end.
Definition driver_join : async DriverSession unit := λ s,
  let s' := pass_time s in
  (match w_phase (ds_world s') with Stopped result => Ready result | _ => Pending end, s').

Definition driver_steam : Steam DriverSession := {|
  st_execute := execute;
  st_spawn config := Some (driver_spawn config);
  st_steam_id := handle_id;
  st_vanity := vanity;
  st_avatar := avatar;
  st_attach := driver_attach;
  st_wait_ready := driver_wait_ready;
  st_profile := driver_profile;
  st_logoff := driver_logoff GzDecoder;
  st_join := driver_join
|}.

Lemma runs_pass s : runs GzDecoder (ds_world s) (ds_world (pass_time s)).
Proof. apply driver_wait_runs. Qed.

Lemma driver_spawn_ok config s :
  driver_spawn config = Ok s → spawn_session (start 0) config (connect_attempt config) = Ok (ds_world s).
Proof. unfold driver_spawn. destruct (spawn_session _ _ _) as [w|e]; [|done]. by intros [= <-]. Qed.
Lemma connect_attempt_establish config n : ∃ at_ env discovered,
  establish GzDecoder at_ (sc_account_name config) (sc_refresh_token config) env discovered =
    Some (connect_attempt config n).
Proof.
  exists (start n), (network n).1, (network n).2. unfold connect_attempt.
  by destruct (establish_total GzDecoder (start n) (sc_account_name config) (sc_refresh_token config)
    (network n).1 (network n).2) as [r ->].
Qed.
Lemma moves_profile_exchange budget id : moves GzDecoder (profile_exchange budget id).
Proof.
  intros s. unfold profile_exchange.
  pose proof (moves_notify GzDecoder EMSG_CLIENT_TO_GC (encode_to_vec (profile_request id)) s) as Hn.
  unfold notify. destruct (so_notify _ _ s) as [[|[sent|e]] s1]; [exact Hn| |exact Hn].
  etransitivity; [exact Hn|apply runs_pass].
Qed.
Lemma moves_profile id : moves GzDecoder (driver_profile id).
Proof.
  intros s. pose proof (runs_pass s) as Hw. unfold driver_profile, driver_wait_ready.
  destruct (decided _ _) as [|[[]|e]]; [exact Hw| |exact Hw]. etransitivity; [exact Hw|].
  apply moves_bind; [apply moves_profile_exchange|]. intros response.
  apply moves_bind; intros; [apply moves_lift|apply moves_ret].
Qed.
Lemma driver_steam_drives : drives GzDecoder driver_steam.
Proof.
  split.
  - intros config s Hs. apply (inj Some (driver_spawn config)) in Hs. exists (start 0), (connect_attempt config).
    split; [by apply driver_spawn_ok|apply connect_attempt_establish].
  - done.
  - apply moves_bind; intros; apply moves_notify.
  - intros timeout s. apply runs_pass.
  - apply moves_profile.
  - intros s. apply runs_pass.
  - intros s r s'. cbn. unfold driver_join.
    destruct (w_phase (ds_world (pass_time s))) as [| | | |result] eqn:Hp; intros [= _ <-]. by exists result.
Qed.
End instance.

(** ** A persisted login over a lost connection *)
Section witnesses.
Import Wire.Instances.
#[local] Existing Instances friends_list_message add_friend_message add_friend_response_message
  remove_friend_message persona_state_message request_data_message profile_info_message
  profile_info_response_message.
#[local] Instance silent_hello : Message ClientHello :=
  {| encode_to_vec := λ _, [x01]; encoded_len := λ _, 1; msg_decode := λ _, Err "unused"%string |}.
#[local] Instance silent_games : Message GamesPlayed :=
  {| encode_to_vec := λ _, [x02]; encoded_len := λ _, 1; msg_decode := λ _, Err "unused"%string |}.
#[local] Instance silent_request : Message ProfileRequest :=
  {| encode_to_vec := λ _, [x03]; encoded_len := λ _, 1; msg_decode := λ _, Err "unused"%string |}.
#[local] Instance silent_profile : Message PlayersProfile :=
  {| encode_to_vec := λ _, []; encoded_len := λ _, 0; msg_decode := λ _, Err "unused"%string |}.

(** The persona request goes out, the socket closes, the driver reconnects and logs on again
    while the reply is awaited in vain; then the logoff. *)
Definition lossy_script : list (list Event) :=
  [[OnCommand None];
   [Arrive None; OnRead; Advance 10000; OnBackoff; OnAttempt busy_then_ok (Ok (repeat sample_server 9))];
   [OnCommand None]; [OnClosed true]].
Definition lossy_steam : Steam DriverSession :=
  driver_steam stored generous (λ _ _, Ok None) (λ _ _, Err (Network "fetch avatar: no route")) (λ _, 0)
    (λ _, (busy_then_ok, Ok (repeat sample_server 9))) lossy_script (λ _, false) (λ _ _, []) (λ _ _, []).
Definition driver_machine : Machine DriverSession :=
  {| ma_files := ∅; ma_deny _ := None; ma_lines := []; ma_session := None |}.
#[local] Instance lossy_ops : SessionOps DriverSession := driver_session stored.
Definition lossy_run : ended unit * Machine DriverSession :=
  main_persist_login no_urls (vars_with "hunter2") lossy_steam driver_machine.

Lemma vars_with_account pass v : var (vars_with pass) "STEAM_ACCOUNT" = Some v → v = as_bytes "bot01".
Proof. unfold var, vars_with. rewrite lookup_insert_eq. by intros [= <-]. Qed.
Lemma vars_with_password pass v : var (vars_with pass) "STEAM_PASSWORD" = Some v → v = as_bytes pass.
Proof. unfold var, vars_with. rewrite lookup_insert_ne, lookup_singleton_eq by done. by intros [= <-]. Qed.

Lemma generous_token account pass secret p id token access :
  generous (build_sign_in account pass secret p) = Some (Ok (Success id token access)) →
  token = as_bytes "eyJ." ++ pass.
Proof. unfold build_sign_in. by destruct secret, p; intros [= _ <- _]. Qed.

(** One logon frame, then the logoff: the second connection is the session's, and it is the
    first run's login. *)
Lemma sessions_log_on_as_signed_in_witness :
  lossy_run.1 = Done tt ∧
  ∃ s account token p, ma_session lossy_run.2 = Some s ∧
    logged_on_as (session_config account token p) (w_driver (ds_world s)) ∧
    account = as_bytes "bot01" ∧ token = as_bytes "eyJ.hunter2".
Proof.
  split; [by vm_compute|].
  assert (∃ s, ma_session lossy_run.2 = Some s) as [s Hs] by (vm_compute; by eexists).
  pose proof (sessions_log_on_as_signed_in stored no_urls (vars_with "hunter2") lossy_steam
    (driver_steam_drives _ _ _ _ _ _ _ _ _ _) driver_machine eq_refl) as Hall.
  do 4 (inversion_clear Hall as [|? ? ? ? _ Hrest]; rename Hrest into Hall).
  inversion_clear Hall as [|? ? ? ? Hp _].
  destruct (Hp s Hs) as (account & token & p & HF & Hl). exists s, account, token, p.
  destruct HF as [(_ & _ & Ht)|(Ha & _ & pass & id & access & Hw & Hx)]; [by vm_compute in Ht|].
  apply vars_with_account in Ha as ->. apply vars_with_password in Hw as ->. split_and!; [done..|].
  by apply generous_token in Hx.
Defined.

Lemma success_leaves_no_session_witness : stopped lossy_run.2.
Proof.
  pose proof (success_leaves_no_session stored no_urls (vars_with "hunter2") lossy_steam
    (driver_steam_drives _ _ _ _ _ _ _ _ _ _) driver_machine) as Hall.
  do 4 (inversion_clear Hall as [|? ? _ Hrest]; rename Hrest into Hall).
  inversion_clear Hall as [|? ? Hp _]. apply Hp. by vm_compute.
Defined.
End witnesses.
