(* ===== verification/Login.v ===== *)
(** * From the password to the logon frame

    Sign-in and session as one run: the programs of Programs.v over driver sessions whose
    sign-in is the one of SignIn.v.  The token on the wire is the one Steam's Web API sent. *)
From S2P Require Import Prelude Errors RustStr Proxy Proto Wire Codec Discovery Connection Driver Session Friends Persona.
From S2P Require Import Totp SignIn Redaction Gc GcClock Host Programs EndToEnd Typing.
#[local] Set Default Goal Selector "!".

Section login.
Context `{Message CMsgProtoBufHeader, Message CMsgMulti, Message CMsgClientLoggedOff,
          Message CMsgClientLogon, Message CMsgClientLogonResponse}.
Context `{Message RsaKeyRequest, Message RsaKeyReply, Message BeginRequest, Message BeginReply,
          Message GuardRequest, Message GuardReply, Message PollRequest, Message PollReply}.
Context `{Message CMsgClientFriendsList, Message CMsgClientAddFriend, Message CMsgClientAddFriendResponse,
          Message CMsgClientRemoveFriend,
          Message CMsgClientRequestFriendData, Message CMsgClientPersonaState,
          Message CMsgClientFriendProfileInfo, Message CMsgClientFriendProfileInfoResponse}.
Context (GzDecoder : list byte → list byte * option string).
Context (b64 : list byte → bstr) (b64_decode : bstr → result string (list byte))
        (b64url_decode : bstr → result string bstr)
        (json_from_slice : bstr → result string JwtJson)
        (hmac_sha1 : list byte → list byte → list byte)
        (url_ok : string → option string)
        (encrypt : bstr → bstr → bstr → Result bstr).
Context (proxy_all : bstr → result string unit) (build : result string unit).
Context (env : WebEnv).

(** [SignIn::execute] on what was built. *)
Definition execute_built (b : SignInBuilder) : panicking (Result SignInOutcome) :=
  execute b64 b64_decode b64url_decode json_from_slice hmac_sha1 url_ok encrypt env
    (web_api_client proxy_all build (sb_proxy b)) (sb_credentials b).

Lemma build_sign_in_credentials account pass secret p :
  ∃ creds, sb_credentials (build_sign_in account pass secret p) = Password creds ∧
    pw_account_name creds = account ∧ pw_password creds = pass.
Proof. unfold build_sign_in. destruct secret, p; by eexists. Qed.
Lemma execute_built_issued account pass secret p id token access :
  execute_built (build_sign_in account pass secret p) = Some (Ok (Success id token access)) →
  issued b64 url_ok env token.
Proof.
  unfold execute_built. destruct (build_sign_in_credentials account pass secret p) as (creds & -> & _).
  apply password_flow_issued.
Qed.

Context (url_parse : bstr → result string Url) (vars : gmap string bstr) (st : Steam DriverSession).
Context (Hst : drives GzDecoder st) (Hexecute : st_execute st = execute_built).
#[local] Instance login_ops : SessionOps DriverSession := driver_session GzDecoder.

(** Whose token a session has: one Steam issued in this run, or the saved one. *)
Definition steams_token (m : Machine DriverSession) (token : bstr) : Prop :=
  issued b64 url_ok env token ∨ (load_token (token_file vars) m).1 = Done (Some token).

Lemma signed_in_issued secret url account token p :
  signed_in url_parse vars st secret url account token p → issued b64 url_ok env token.
Proof.
  intros (_ & _ & pass & id & access & _ & Hx). rewrite Hexecute in Hx. by eapply execute_built_issued.
Qed.

(** C4: The token on the wire is Steam's.  Started without a session, each of the five
    programs has, whenever it has a session at all and however it ends, one whose driver is
    configured with the account of the environment and whose current socket, the first or
    one of a reconnect, was opened with a logon frame for exactly this account and a
    non-empty refresh token that Steam itself sent in an OK answer to this run's sign-in
    poll; only the persisted login may carry the token its file held at the start instead.
    This holds whatever the Web API, the network and the scheduler do. *)
Theorem session_token_is_steams m :
  ma_session m = None →
  (∀ program, program ∈ take 4 (session_programs url_parse vars st) →
   ∀ s, ma_session (program m).2 = Some s →
   ∃ account token p, var vars "STEAM_ACCOUNT" = Some account ∧ issued b64 url_ok env token ∧
     logged_on_as (session_config account token p) (w_driver (ds_world s))) ∧
  ∀ s, ma_session (main_persist_login url_parse vars st m).2 = Some s →
   ∃ account token p, var vars "STEAM_ACCOUNT" = Some account ∧ steams_token m token ∧
     logged_on_as (session_config account token p) (w_driver (ds_world s)).
Proof.
  intros Hm. pose proof (sessions_log_on_as_signed_in GzDecoder url_parse vars st Hst m Hm) as Hall.
  assert (∀ (program : io DriverSession unit) secret url s,
    session_of (signed_in url_parse vars st secret url) (program m).2 →
    ma_session (program m).2 = Some s → ∃ account token p, var vars "STEAM_ACCOUNT" = Some account ∧
      issued b64 url_ok env token ∧ logged_on_as (session_config account token p) (w_driver (ds_world s))) as Hin.
  { intros program secret url s Hp Hs. destruct (Hp s Hs) as (account & token & p & Hsig & Hl).
    exists account, token, p. split; [apply Hsig|]. split; [by eapply signed_in_issued|done]. }
  apply list.Forall2_cons in Hall as [Hs1 Hall]. apply list.Forall2_cons in Hall as [Hs2 Hall].
  apply list.Forall2_cons in Hall as [Hs3 Hall]. apply list.Forall2_cons in Hall as [Hs4 Hall].
  apply list.Forall2_cons in Hall as [Hp _]. split.
  - cbn [take session_programs]. intros program Hprogram s Hs.
    apply list.elem_of_cons in Hprogram as [->|Hprogram]; [by apply (Hin _ _ _ s Hs1)|].
    apply list.elem_of_cons in Hprogram as [->|Hprogram]; [by apply (Hin _ _ _ s Hs2)|].
    apply list.elem_of_cons in Hprogram as [->|Hprogram]; [by apply (Hin _ _ _ s Hs3)|].
    apply list.elem_of_cons in Hprogram as [->|Hprogram]; [by apply (Hin _ _ _ s Hs4)|].
    by apply list.not_elem_of_nil in Hprogram.
  - intros s Hs. destruct (Hp s Hs) as (account & token & p & [(Ha & _ & Ht)|Hsig] & Hl);
      exists account, token, p; (split; [done || apply Hsig|]); (split; [|done]); [by right|left].
    by eapply signed_in_issued.
Qed.
End login.

(** ** A first login over a lost connection *)
Section witnesses.
Import Wire.Instances.
#[local] Existing Instances friends_list_message add_friend_message add_friend_response_message
  remove_friend_message persona_state_message request_data_message profile_info_message
  profile_info_response_message silent_hello silent_games silent_request silent_profile
  rq_canned rs_canned bq_canned br_canned gq_canned gr_canned pq_canned pr_canned.
#[local] Instance first_ops : SessionOps DriverSession := driver_session stored.

Definition first_execute : SignInBuilder → panicking (Result SignInOutcome) :=
  execute_built id Ok Ok sample_json zero_hmac (λ _, None) sample_encrypt (λ _, Ok tt) (Ok tt) ok_env.
Definition first_steam : Steam DriverSession :=
  driver_steam stored first_execute (λ _ _, Ok None) (λ _ _, Err (Network "fetch avatar: no route")) (λ _, 0)
    (λ _, (busy_then_ok, Ok (repeat sample_server 9))) lossy_script (λ _, false) (λ _ _, []) (λ _ _, []).
Definition first_vars : gmap string bstr := <["SHARED_SECRET"%string := as_bytes "c2VjcmV0"]> (vars_with "hunter2").
Definition first_login : ended unit * Machine DriverSession :=
  main_persist_login no_urls first_vars first_steam driver_machine.

(** The program ends well, and the token of its session came from the poll, not from the file. *)
Lemma session_token_is_steams_witness :
  first_login.1 = Done tt ∧
  ∃ s account token p, ma_session first_login.2 = Some s ∧ issued id (λ _, None) ok_env token ∧
    logged_on_as (session_config account token p) (w_driver (ds_world s)) ∧
    sc_refresh_token (sd_config (w_driver (ds_world s))) = "h.p.s"%string.
Proof.
  split; [by vm_compute|].
  assert (∃ s, ma_session first_login.2 = Some s ∧
    sc_refresh_token (sd_config (w_driver (ds_world s))) = "h.p.s"%string) as (s & Hs & Ht)
    by (vm_compute; by eexists).
  destruct (session_token_is_steams stored id Ok Ok sample_json zero_hmac (λ _, None) sample_encrypt (λ _, Ok tt)
    (Ok tt) ok_env no_urls first_vars first_steam (driver_steam_drives _ _ _ _ _ _ _ _ _ _) eq_refl driver_machine
    eq_refl) as [_ Hp].
  destruct (Hp s Hs) as (account & token & p & _ & [Hi|Hsaved] & Hl); [|by vm_compute in Hsaved].
  exists s, account, token, p. split; [exact Hs|]. split; [exact Hi|]. split; [exact Hl|exact Ht].
Defined.
End witnesses.
