(* ===== verification/Secrecy.v ===== *)
(** * Sessions that differ in their token

    A refresh token reaches the driver twice, in its configuration and in the logon frames on
    its wire, and nothing a session answers depends on it: two sessions that differ in these
    only run in lockstep and answer every call alike.  Two sign-ins with different secrets come
    to the same but for the tokens, as long as Steam answers them alike and the libraries accept
    or refuse the secrets alike.  With Programs.v this makes what the programs print independent
    of the secrets.  The last condition is needed, and [malformed_secret_shows] shows where it
    fails: the text of a base64 error. *)
From S2P Require Import Prelude Errors RustStr Proxy Proto Wire Codec Discovery Connection Driver Session Friends Persona.
From S2P Require Import Totp SignIn Redaction Gc GcClock Host Programs EndToEnd Login Typing.
#[local] Set Default Goal Selector "!".

Create HintDb veil.

(** ** The veil *)

(** The driver with another token and another wire. *)
Definition with_secret (wire : list WsMessage) (token : string) (d : SessionDriver) : SessionDriver :=
  {| sd_write := wire; sd_read := sd_read d; sd_inbox := sd_inbox d; sd_liveness := sd_liveness d;
     sd_steam_id := sd_steam_id d; sd_session_id := sd_session_id d; sd_heartbeat := sd_heartbeat d;
     sd_next_jobid := sd_next_jobid d; sd_pending := sd_pending d; sd_commands := sd_commands d;
     sd_events := sd_events d; sd_state := sd_state d; sd_snapshots := sd_snapshots d;
     sd_slots := sd_slots d;
     sd_config := {| sc_account_name := sc_account_name (sd_config d); sc_refresh_token := token;
                     sc_proxy := sc_proxy (sd_config d) |} |}.
(** Alike but for the token and the wire. *)
Definition veiled (d1 d2 : SessionDriver) : Prop := ∃ wire token, d2 = with_secret wire token d1.
#[export] Instance veiled_equivalence : Equivalence veiled.
Proof.
  split.
  - intros d. exists (sd_write d), (sc_refresh_token (sd_config d)). by destruct d as [????????????? ? []].
  - intros d1 d2 (wire & token & ->). exists (sd_write d1), (sc_refresh_token (sd_config d1)).
    by destruct d1 as [????????????? ? []].
  - intros d1 d2 d3 (wire & token & ->) (wire' & token' & ->). by exists wire', token'.
Qed.

(** The wire after a call, whatever it is. *)
Definition veiled_arm (r1 r2 : SessionDriver * option LoopExit) : Prop := veiled r1.1 r2.1 ∧ r1.2 = r2.2.
Record veiled_world (w1 w2 : World) : Prop := {
  veiled_now : w_now w1 = w_now w2;
  veiled_phase : w_phase w1 = w_phase w2;
  veiled_handles : w_handles w1 = w_handles w2;
  veiled_driver : veiled (w_driver w1) (w_driver w2)
}.

Section secrecy.
Context `{Message CMsgProtoBufHeader, Message CMsgMulti, Message CMsgClientLoggedOff,
          Message CMsgClientLogon, Message CMsgClientLogonResponse}.
Context (GzDecoder : list byte → list byte * option string).

(** ** The arms *)
Lemma send_frame_veiled d1 d2 emsg j body o :
  veiled d1 d2 →
  veiled (send_frame d1 emsg j body o).1 (send_frame d2 emsg j body o).1 ∧
  (send_frame d1 emsg j body o).2 = (send_frame d2 emsg j body o).2.
Proof.
  intros (wire & token & ->). unfold send_frame, write_frame. destruct o; (split; [|done]); by do 2 eexists.
Qed.
Lemma dispatch_veiled d1 d2 msg : veiled d1 d2 → veiled (dispatch d1 msg) (dispatch d2 msg).
Proof.
  intros (wire & token & ->). unfold dispatch. cbn [with_secret sd_pending].
  destruct (_ ≫= _) as [[]|]; by exists wire, token.
Qed.
Lemma foldl_dispatch_veiled msgs d1 d2 : veiled d1 d2 → veiled (foldl dispatch d1 msgs) (foldl dispatch d2 msgs).
Proof.
  revert d1 d2. induction msgs as [|m msgs IH]; intros d1 d2 Hd; [done|]. by apply IH, dispatch_veiled.
Qed.
Lemma on_command_veiled d1 d2 command o :
  veiled d1 d2 → veiled_arm (on_command d1 command o) (on_command d2 command o).
Proof.
  intros (wire & token & ->). unfold on_command, send_frame, write_frame.
  destruct command as [[emsg body dl s|emsg body s|s]|]; [destruct o..|]; cbn;
    (split; [|done]); by do 2 eexists.
Qed.
Lemma on_read_veiled now d1 d2 :
  veiled d1 d2 → option_Forall2 veiled_arm (on_read GzDecoder now d1) (on_read GzDecoder now d2).
Proof.
  intros (wire & token & ->). unfold on_read. cbn [with_secret sd_read sd_inbox sd_liveness].
  destruct (read_message _ _ _ _ _) as [[[[res rd] ib] lv]|]; cbn [mbind option_bind]; [|constructor].
  assert (veiled (set_reader d1 rd ib lv) (set_reader (with_secret wire token d1) rd ib lv)) as Hr
    by by exists wire, token.
  destruct res as [|[msg|e]]; [by constructor| |by constructor].
  case_decide; constructor; (split; [|done]); [done|]. by apply dispatch_veiled.
Qed.
Lemma on_heartbeat_veiled d1 d2 o1 o2 :
  veiled d1 d2 → veiled_arm (on_heartbeat d1 o1 o2) (on_heartbeat d2 o1 o2).
Proof.
  intros (wire & token & ->). unfold on_heartbeat, send_frame, write_frame, write_ping.
  destruct o1, o2; cbn; (split; [|done]); by do 2 eexists.
Qed.
Lemma on_sweep_veiled now d1 d2 : veiled d1 d2 → veiled_arm (on_sweep now d1) (on_sweep now d2).
Proof.
  intros (wire & token & ->). unfold on_sweep. cbn [with_secret sd_liveness sd_heartbeat sd_pending sd_slots].
  destruct (read_idle_expired _ _ _); [by split; [exists wire, token|]|].
  destruct (sweep_pending _ _ _) as [pending slots]. split; [|done]. by exists wire, token.
Qed.

(** ** Leaving and entering the loop *)
Lemma veiled_world_intro now phase handles d1 d2 :
  veiled d1 d2 →
  veiled_world {| w_now := now; w_phase := phase; w_handles := handles; w_driver := d1 |}
               {| w_now := now; w_phase := phase; w_handles := handles; w_driver := d2 |}.
Proof. by split. Qed.
Lemma leave_veiled now handles d1 d2 r : veiled d1 d2 → veiled_world (leave now handles d1 r) (leave now handles d2 r).
Proof. intros (wire & token & ->). apply veiled_world_intro. by exists wire, token. Qed.
Lemma on_exit_veiled now handles d1 d2 exit :
  veiled d1 d2 → veiled_world (on_exit now handles d1 exit) (on_exit now handles d2 exit).
Proof.
  intros Hd. destruct exit; [by apply leave_veiled..|]. cbn. apply veiled_world_intro.
  pose proof Hd as (wire & token & ->). unfold drain_inbox. cbn [with_secret sd_inbox].
  destruct (foldl_dispatch_veiled (sd_inbox d1) _ _ Hd) as (wire' & token' & ->). by exists wire', token'.
Qed.
Lemma after_arm_veiled now handles nh ns r1 r2 :
  veiled_arm r1 r2 → veiled_world (after_arm now handles nh ns r1) (after_arm now handles nh ns r2).
Proof.
  destruct r1 as [d1 exit], r2 as [d2 exit']. intros [Hd He]. cbn in *. subst exit'.
  destruct exit; [by apply on_exit_veiled|by apply veiled_world_intro].
Qed.
Lemma on_closed_veiled now handles d1 d2 r :
  veiled d1 d2 → veiled_world (on_closed now handles d1 r) (on_closed now handles d2 r).
Proof. intros (wire & token & ->). apply veiled_world_intro. by exists wire, token. Qed.

(** ** Connecting *)
Definition with_wire (wire : list WsMessage) (c : CmConnection) : CmConnection :=
  {| cc_read := cc_read c; cc_wire := wire; cc_steam_id := cc_steam_id c; cc_session_id := cc_session_id c;
     cc_inbox := cc_inbox c; cc_liveness := cc_liveness c |}.
Definition veiled_conn (c1 c2 : CmConnection) : Prop := ∃ wire, c2 = with_wire wire c1.
(** What a connect comes to, but for what it wrote. *)
Definition veiled_outcome (r1 r2 : Result (CmConnection * LoggedOn)) : Prop :=
  match r1, r2 with
  | Ok (c1, logged1), Ok (c2, logged2) => veiled_conn c1 c2 ∧ logged1 = logged2
  | Err e1, Err e2 => e1 = e2
  | _, _ => False
  end.

Lemma logon_on_message_veiled c1 c2 msg :
  veiled_conn c1 c2 →
  option_Forall2 (λ a b, a.1 = b.1 ∧ veiled_conn a.2 b.2) (logon_on_message c1 msg) (logon_on_message c2 msg).
Proof.
  intros [wire ->]. unfold logon_on_message. cbn [with_wire cc_steam_id cc_session_id].
  case_decide; [|case_decide; [|constructor]]; [|by constructor; split; [|exists wire]].
  destruct (map_err _ _) as [resp|e]; [|by constructor; split; [|exists wire]].
  case_decide; constructor; (split; [done|by exists wire]).
Qed.
Lemma logon_loop_veiled fuel now c1 c2 :
  veiled_conn c1 c2 →
  option_Forall2 (λ a b, a.1 = b.1 ∧ veiled_conn a.2 b.2)
    (logon_loop GzDecoder fuel now c1) (logon_loop GzDecoder fuel now c2).
Proof.
  revert c1 c2. induction fuel as [|fuel IH]; intros c1 c2 Hc; [constructor|]. cbn [logon_loop].
  pose proof Hc as [wire ->]. unfold recv. cbn [with_wire cc_read cc_inbox cc_liveness].
  destruct (read_message _ _ _ _ _) as [[[[r read] inbox] lv]|]; cbn [mbind option_bind]; [|constructor].
  lazymatch goal with |- option_Forall2 _ match r with Pending => Some (_, ?c1') | _ => _ end
                         match r with Pending => Some (_, ?c2') | _ => _ end =>
    assert (veiled_conn c1' c2') as Hc' by by exists wire end.
  destruct r as [|[msg|e]]; [by constructor| |by constructor].
  destruct (logon_on_message_veiled _ _ msg Hc') as [[r1 c1'] [r2 c2'] [Hr Hc'']|]; [|by apply IH].
  cbn in Hr. subst. by constructor.
Qed.
Lemma server_attempt_veiled now account t1 t2 env server :
  option_Forall2 (option_Forall2 veiled_outcome)
    (server_attempt GzDecoder now account t1 env server) (server_attempt GzDecoder now account t2 env server).
Proof.
  unfold server_attempt. destruct (sa_timeout env); [by repeat constructor|].
  destruct (connect _ _) as [conn|e]; [|by repeat constructor]. unfold logon, send, write_frame.
  destruct (sa_write env) as [e|]; [by repeat constructor|]. cbn [cc_inbox cc_read].
  lazymatch goal with |- context [logon_loop GzDecoder ?f now ?c1] =>
    lazymatch goal with |- option_Forall2 _ _ (logon_loop GzDecoder f now ?c2 ≫= _) =>
      assert (veiled_conn c1 c2) as Hc by (by eexists);
      destruct (logon_loop_veiled f now c1 c2 Hc) as [[r c1'] [r' c2'] [Hr Hc']|] end end; cbn; [|constructor].
  cbn in Hr. subst r'. destruct r as [|[logged|e]]; by repeat constructor.
Qed.
Lemma establish_veiled now account t1 t2 env discovered :
  option_Forall2 veiled_outcome
    (establish GzDecoder now account t1 env discovered) (establish GzDecoder now account t2 env discovered).
Proof.
  unfold establish. destruct discovered as [servers|e]; [|by repeat constructor].
  generalize (take MAX_CONNECT_ATTEMPTS servers), 0%nat, (@None Error). clear servers.
  intros servers. induction servers as [|server servers IH]; intros i last; cbn [establish_loop]; [by constructor|].
  destruct (server_attempt_veiled now account t1 t2 (env i) server) as [r1 r2 Hr|]; cbn; [|constructor].
  destruct Hr as [o1 o2 Ho|]; [|apply IH].
  destruct o1 as [[c1 l1]|e1], o2 as [[c2 l2]|e2]; cbn in Ho; try done; [by constructor|].
  subst. destruct e2; try apply IH. by constructor.
Qed.
Lemma on_attempt_veiled now handles d1 d2 backoff r1 r2 :
  veiled d1 d2 → veiled_outcome r1 r2 →
  veiled_world (on_attempt now handles d1 backoff r1) (on_attempt now handles d2 backoff r2).
Proof.
  intros Hd Hr. destruct r1 as [[c1 l1]|e1], r2 as [[c2 l2]|e2]; cbn in Hr; try done.
  - destruct Hr as [[wire ->] ->], Hd as (wire' & token & ->). split; [done..|].
    by exists wire, token.
  - subst. destruct e2; try by apply veiled_world_intro. by apply leave_veiled.
Qed.

(** ** Lockstep *)
Lemma with_driver_veiled w1 w2 d1 d2 :
  veiled_world w1 w2 → veiled d1 d2 → veiled_world (with_driver w1 d1) (with_driver w2 d2).
Proof. intros [Hn Hp Hh _] Hd. by split. Qed.
Lemma take_command_veiled w1 w2 o :
  veiled_world w1 w2 → option_Forall2 veiled_world (take_command w1 o) (take_command w2 o).
Proof.
  intros Hw. pose proof Hw as [Hn Hp Hh (wire & token & Hd)]. unfold take_command, recv_command. rewrite Hn, Hp, Hh, Hd.
  cbn [with_secret sd_commands].
  assert (∀ command d1 d2, veiled d1 d2 → option_Forall2 veiled_world
    (match w_phase w2 with
     | Connected nh ns => Some (after_arm (w_now w2) (w_handles w2) nh ns (on_command d1 command o))
     | Backoff _ _ | Attempting _ =>
         let '(slots, stop) := answer_while_down (sd_slots d1) command in
         let d := set_slots d1 slots in
         Some (if stop then leave (w_now w2) (w_handles w2) d (Ok "session closed"%string) else with_driver w1 d)
     | _ => None
     end)
    (match w_phase w2 with
     | Connected nh ns => Some (after_arm (w_now w2) (w_handles w2) nh ns (on_command d2 command o))
     | Backoff _ _ | Attempting _ =>
         let '(slots, stop) := answer_while_down (sd_slots d2) command in
         let d := set_slots d2 slots in
         Some (if stop then leave (w_now w2) (w_handles w2) d (Ok "session closed"%string) else with_driver w2 d)
     | _ => None
     end)) as Hall.
  { intros command d1 d2 Hd12. destruct (w_phase w2); try constructor;
      [by apply after_arm_veiled, on_command_veiled|..];
      destruct Hd12 as (wire' & token' & ->); cbn [with_secret sd_slots];
      destruct (answer_while_down _ _) as [slots stop]; constructor;
      (destruct stop; [apply leave_veiled|apply with_driver_veiled; [done|]]); by exists wire', token'. }
  destruct (sd_commands (w_driver w1)) as [|c rest]; [destruct (w_handles w2); [constructor|]|];
    cbn [mbind option_bind]; apply Hall; by exists wire, token.
Qed.
Lemma submit_veiled w1 w2 k call :
  veiled_world w1 w2 → option_Forall2 veiled_world (submit w1 k call) (submit w2 k call).
Proof.
  intros [Hn Hp Hh (wire & token & Hd)]. unfold submit. rewrite Hn, Hp, Hh, Hd. cbn [with_secret sd_slots sd_commands].
  case_decide; [|constructor]. destruct (w_phase w2); repeat case_decide; constructor;
    apply veiled_world_intro; by exists wire, token.
Qed.

(** One event: both runs can take it or neither, and they stay alike. *)
Lemma step_veiled w1 w2 ev :
  veiled_world w1 w2 → option_Forall2 veiled_world (step GzDecoder w1 ev) (step GzDecoder w2 ev).
Proof.
  intros Hw. pose proof Hw as [Hn Hp Hh Hd]. destruct ev; cbn [step];
    try (by apply take_command_veiled || by apply submit_veiled); rewrite ?Hn, ?Hp, ?Hh.
  - constructor. apply with_driver_veiled; [done|]. destruct Hd as (wire & token & ->). by exists wire, token.
  - case_decide; constructor. by apply veiled_world_intro.
  - pose proof Hd as (wire & token & Hd2). rewrite Hd2. cbn [with_secret sd_slots].
    case_decide; constructor. apply with_driver_veiled; [done|]. by exists wire, token.
  - constructor. by apply veiled_world_intro.
  - destruct (w_phase w2); try constructor.
    destruct (on_read_veiled (w_now w2) _ _ Hd); cbn; constructor. by apply after_arm_veiled.
  - destruct (w_phase w2); try constructor. case_decide; constructor.
    assert (sd_heartbeat (w_driver w2) = sd_heartbeat (w_driver w1)) as -> by (by destruct Hd as (wire & token & ->)).
    by apply after_arm_veiled, on_heartbeat_veiled.
  - destruct (w_phase w2); try constructor. case_decide; constructor. by apply after_arm_veiled, on_sweep_veiled.
  - destruct (w_phase w2); try constructor. case_decide; constructor. by apply veiled_world_intro.
  - destruct (w_phase w2) as [| |backoff| |]; try constructor.
    assert (sc_account_name (sd_config (w_driver w2)) = sc_account_name (sd_config (w_driver w1))) as ->
      by (by destruct Hd as (wire & token & ->)).
    destruct (establish_veiled (w_now w2) (sc_account_name (sd_config (w_driver w1)))
      (sc_refresh_token (sd_config (w_driver w1))) (sc_refresh_token (sd_config (w_driver w2))) env discovered);
      cbn; constructor.
    by apply on_attempt_veiled.
  - destruct (w_phase w2); try constructor. case_decide; constructor. by apply on_closed_veiled.
Qed.

(** ** Sessions *)
Record veiled_session (s1 s2 : DriverSession) : Prop := {
  veiled_of_world : veiled_world (ds_world s1) (ds_world s2);
  veiled_logons : ds_logons s1 = ds_logons s2;
  veiled_logon_at : ds_logon_at s1 = ds_logon_at s2;
  veiled_script : ds_script s1 = ds_script s2;
  veiled_preempt : ds_preempt s1 = ds_preempt s2;
  veiled_transcript : ds_transcript s1 = ds_transcript s2
}.

(** What a run comes to: alike worlds, the same otherwise. *)
Definition veiled_run {X} (r1 r2 : World * X) : Prop := veiled_world r1.1 r2.1 ∧ r1.2 = r2.2.

Lemma new_logon_veiled w1 w2 w1' w2' :
  veiled_world w1 w2 → veiled_world w1' w2' → new_logon w1 w1' = new_logon w2 w2'.
Proof. intros [_ Hp _ _] [_ Hp' _ _]. unfold new_logon. by rewrite Hp, Hp'. Qed.
Lemma events_veiled w1 w2 : veiled_world w1 w2 → sd_events (w_driver w1) = sd_events (w_driver w2).
Proof. by intros [_ _ _ (wire & token & ->)]. Qed.
Lemma slots_veiled w1 w2 : veiled_world w1 w2 → sd_slots (w_driver w1) = sd_slots (w_driver w2).
Proof. by intros [_ _ _ (wire & token & ->)]. Qed.
Lemma state_veiled w1 w2 : veiled_world w1 w2 → sd_state (w_driver w1) = sd_state (w_driver w2).
Proof. by intros [_ _ _ (wire & token & ->)]. Qed.

Lemma play_veiled evs w1 w2 n at_ :
  veiled_world w1 w2 →
  option_Forall2 (λ a b, veiled_world a.1.1 b.1.1 ∧ a.1.2 = b.1.2 ∧ a.2 = b.2)
    (play GzDecoder w1 n at_ evs) (play GzDecoder w2 n at_ evs).
Proof.
  revert w1 w2 n at_. induction evs as [|ev evs IH]; intros w1 w2 n at_ Hw; cbn [play]; [by constructor|].
  destruct (step_veiled _ _ ev Hw) as [w1' w2' Hw'|]; cbn; [|constructor].
  rewrite (new_logon_veiled _ _ _ _ Hw Hw'), (events_veiled _ _ Hw'). destruct (new_logon _ _); by apply IH.
Qed.
Lemma enqueue_veiled call evs w1 w2 n at_ :
  veiled_world w1 w2 →
  option_Forall2 (λ '(r1, w1, n1, at1, evs1) '(r2, w2, n2, at2, evs2),
      veiled_world w1 w2 ∧ r1 = r2 ∧ n1 = n2 ∧ at1 = at2 ∧ evs1 = evs2)
    (enqueue GzDecoder w1 n at_ call evs) (enqueue GzDecoder w2 n at_ call evs).
Proof.
  revert w1 w2 n at_. induction evs as [|ev evs IH]; intros w1 w2 n at_ Hw; cbn [enqueue];
    (assert (send_error w1 = send_error w2) as -> by (unfold send_error; by destruct Hw as [_ -> _ _]));
    (destruct (send_error w2); [by constructor|]);
    (assert (free_slot w1 = free_slot w2) as -> by (unfold free_slot; by rewrite (slots_veiled _ _ Hw)));
    (assert (w_now w1 = w_now w2) as -> by by destruct Hw);
    destruct (submit_veiled _ _ (free_slot w2) (call (w_now w2)) Hw) as [w1' w2' Hw'|]; try (by constructor).
  destruct (step_veiled _ _ ev Hw) as [w1' w2' Hw'|]; cbn; [|constructor].
  rewrite (new_logon_veiled _ _ _ _ Hw Hw'), (events_veiled _ _ Hw'). destruct (new_logon _ _); by apply IH.
Qed.
Lemma perform_veiled s1 s2 call :
  veiled_session s1 s2 →
  option_Forall2 (λ '(q1, w1, n1, at1, sc1) '(q2, w2, n2, at2, sc2),
      veiled_world w1 w2 ∧ q1 = q2 ∧ n1 = n2 ∧ at1 = at2 ∧ sc1 = sc2)
    (perform GzDecoder s1 call) (perform GzDecoder s2 call).
Proof.
  intros [Hw Hn Hat Hsc _ Htr]. unfold perform. rewrite Hn, Hat, Hsc.
  destruct (match ds_script s2 with [] => _ | evs :: script => _ end) as [evs script].
  destruct (enqueue_veiled call evs _ _ (ds_logons s2) (ds_logon_at s2) Hw)
    as [[[[[q1 w1] n1] at1] evs1] [[[[q2 w2] n2] at2] evs2] (Hw' & -> & -> & -> & ->)|]; cbn; [|constructor].
  destruct q2 as [k|e]; [|by constructor].
  destruct (play_veiled evs2 _ _ n2 at2 Hw') as [[[w1' n1'] at1'] [[w2' n2'] at2'] (Hw'' & Hn'' & Hat'')|];
    cbn in *; [|constructor]. subst.
  rewrite (slots_veiled _ _ Hw''). assert (w_now w1 = w_now w2) as -> by by destruct Hw'.
  destruct (sd_slots (w_driver w2') !! k); cbn; by constructor.
Qed.

#[local] Instance secret_ops : SessionOps DriverSession := driver_session GzDecoder.

Lemma driver_logoff_veiled : respects veiled_session (driver_logoff GzDecoder) (driver_logoff GzDecoder).
Proof.
  intros s1 s2 Hs. unfold driver_logoff.
  destruct (perform_veiled s1 s2 (λ _, CallLogoff) Hs)
    as [[[[[q1 w1] n1] at1] sc1] [[[[q2 w2] n2] at2] sc2] (Hw & -> & -> & -> & ->)|]; [|done].
  split; [done|]. destruct Hs as [_ _ _ _ Hpr Ht]. unfold after_run. rewrite Hpr, Ht. by split.
Qed.
Lemma driver_wait_veiled pos timeout s1 s2 :
  veiled_session s1 s2 →
  (driver_wait GzDecoder pos timeout s1).1 = (driver_wait GzDecoder pos timeout s2).1 ∧
  veiled_session (driver_wait GzDecoder pos timeout s1).2 (driver_wait GzDecoder pos timeout s2).2.
Proof.
  intros Hs.
  assert (∀ s, (driver_wait GzDecoder pos timeout s).1 =
    (unread pos (ds_world (driver_wait GzDecoder pos timeout s).2),
     bool_decide (w_now (ds_world s) + timeout ≤ w_now (ds_world (driver_wait GzDecoder pos timeout s).2))))
    as Hfst by done.
  assert (veiled_session (driver_wait GzDecoder pos timeout s1).2 (driver_wait GzDecoder pos timeout s2).2) as Hnext.
  { unfold driver_wait. cbn [snd]. pose proof Hs as [Hw Hn Hat Hsc Hpr Htr]. rewrite Hn, Hat, Hsc.
    destruct (ds_script s2) as [|evs script]; [done|].
    destruct (play_veiled evs _ _ (ds_logons s2) (ds_logon_at s2) Hw)
      as [[[w1 n1] at1] [[w2 n2] at2] (Hw' & Hn' & Hat')|]; cbn in *; [|done].
    subst. unfold after_run. rewrite Hpr, Htr. by split. }
  split; [|exact Hnext]. rewrite !Hfst.
  revert Hnext. generalize (driver_wait GzDecoder pos timeout s1).2, (driver_wait GzDecoder pos timeout s2).2.
  intros s1' s2' Hnext. destruct Hs as [[Hnow _ _ _] _ _ _ _ _], Hnext as [Hw' _ _ _ _ _].
  pose proof Hw' as [Hnow' Hp' Hh' _].
  unfold unread. by rewrite Hnow, Hnow', Hp', Hh', (events_veiled _ _ Hw').
Qed.
Lemma driver_preempt_veiled s1 s2 :
  veiled_session s1 s2 → veiled_session (driver_preempt GzDecoder s1) (driver_preempt GzDecoder s2).
Proof.
  intros Hs. pose proof Hs as [Hw Hn Hat Hsc Hpr Htr]. unfold driver_preempt. rewrite Hn, Hat, Hpr.
  destruct (ds_preempt s2) as [|evs rest]; [done|].
  destruct (play_veiled evs _ _ (ds_logons s2) (ds_logon_at s2) Hw)
    as [[[w1 n1] at1] [[w2 n2] at2] (Hw' & Hn' & Hat')|]; cbn in *; [|done].
  subst. by split.
Qed.

(** Nothing a client can do tells the two sessions apart. *)
Lemma driver_indistinguishable : Indistinguishable veiled_session.
Proof.
  split.
  - intros emsg body timeout s1 s2 Hs. cbn. unfold driver_exchange.
    assert (w_now (ds_world s1) = w_now (ds_world s2)) as -> by by destruct Hs as [[]].
    destruct (perform_veiled s1 s2 (λ now, CallRequest emsg body (w_now (ds_world s2) + timeout - now)) Hs)
      as [[[[[q1 w1] n1] at1] sc1] [[[[q2 w2] n2] at2] sc2] (Hw & -> & -> & -> & ->)|].
    + assert (w_now w1 = w_now w2) as -> by by destruct Hw. destruct Hs as [_ _ _ _ Hpr Ht].
      unfold after_run. rewrite Hpr, Ht. by split.
    + destruct Hs as [? ? ? ? ? Ht]. split; [done|]. split; cbn; by rewrite ?Ht.
  - intros emsg body s1 s2 Hs. cbn. unfold driver_notify.
    destruct (perform_veiled s1 s2 (λ _, CallNotify emsg body) Hs)
      as [[[[[q1 w1] n1] at1] sc1] [[[[q2 w2] n2] at2] sc2] (Hw & -> & -> & -> & ->)|].
    + destruct Hs as [_ _ _ _ Hpr Ht]. unfold after_run. rewrite Hpr, Ht. by split.
    + destruct Hs as [? ? ? ? ? Ht]. split; [done|]. split; cbn; by rewrite ?Ht.
  - intros s1 s2 emsg [[_ _ _ (wire & token & Hd)] _ _ _ _ _]. cbn. by rewrite Hd.
  - intros s1 s2 [Hw _ _ _ _ _]. cbn. by rewrite (events_veiled _ _ Hw).
  - intros s1 s2 Hs. by apply driver_preempt_veiled.
  - intros pos timeout s1 s2 Hs. by apply driver_wait_veiled.
Qed.
End secrecy.

(** ** Signing in with other secrets

    Two runs of [SignIn::execute]: each with its own password and shared secret, and each with
    its own answers from Steam. *)
Section signing_in.
Context `{Message RsaKeyRequest, Message RsaKeyReply, Message BeginRequest, Message BeginReply,
          Message GuardRequest, Message GuardReply, Message PollRequest, Message PollReply}.
Context (b64 : list byte → bstr) (b64_decode : bstr → result string (list byte))
        (b64url_decode : bstr → result string bstr)
        (json_from_slice : bstr → result string JwtJson)
        (hmac_sha1 : list byte → list byte → list byte)
        (url_ok : string → option string)
        (encrypt : bstr → bstr → bstr → Result bstr).
Context (proxy_all : bstr → result string unit) (build : result string unit).

(** Both succeed, or both fail with the same error. *)
Definition fails_alike {E A} (r1 r2 : result E A) : Prop :=
  match r1, r2 with Ok _, Ok _ => True | Err e1, Err e2 => e1 = e2 | _, _ => False end.

(** What the libraries make of the secrets: both passwords are encrypted, and both shared
    secrets decode, or they are refused alike. *)
Record secrets_alike (vars1 vars2 : gmap string bstr) : Prop := {
  alike_encrypt pass1 pass2 mod_hex exp_hex :
    vars1 !! "STEAM_PASSWORD"%string = Some pass1 → vars2 !! "STEAM_PASSWORD"%string = Some pass2 →
    fails_alike (encrypt pass1 mod_hex exp_hex) (encrypt pass2 mod_hex exp_hex);
  alike_decode secret1 secret2 :
    vars1 !! "SHARED_SECRET"%string = Some secret1 → vars2 !! "SHARED_SECRET"%string = Some secret2 →
    fails_alike (b64_decode (trim secret1)) (b64_decode (trim secret2))
}.

(** Two refresh tokens that name the same account, or neither names one. *)
Definition same_subject (t1 t2 : bstr) : Prop :=
  match steam_id_from_refresh_token b64url_decode json_from_slice t1,
        steam_id_from_refresh_token b64url_decode json_from_slice t2 with
  | Ok id1, Ok id2 => id1 = id2
  | Err _, Err _ => True
  | _, _ => False
  end.
(** Two answers to a poll: the same but for the tokens in them. *)
Definition poll_alike (r1 r2 : Result (Z * PollReply)) : Prop :=
  match r1, r2 with
  | Ok (er1, p1), Ok (er2, p2) =>
      er1 = er2 ∧ pr_new_client_id p1 = pr_new_client_id p2 ∧
      option_Forall2 same_subject (non_empty (pr_refresh_token p1)) (non_empty (pr_refresh_token p2)) ∧
      same_presence (non_empty (pr_access_token p1)) (non_empty (pr_access_token p2))
  | Err e1, Err e2 => e1 = e2
  | _, _ => False
  end.
(** Steam answers the two runs alike, whatever the encrypted password and the guard code in
    them are, and in the same time; the tokens it issues are each run's own. *)
Record answers_alike (env1 env2 : WebEnv) : Prop := {
  alike_clock : we_clock env1 = we_clock env2;
  alike_call_time i : we_call_time env1 i = we_call_time env2 i;
  alike_oversleep i : we_oversleep env1 i = we_oversleep env2 i;
  alike_key q : we_send env1 0 q = we_send env2 0 q;
  alike_begin i q1 q2 : i = 1%nat ∨ i = 2%nat → wq_method q1 = wq_method q2 → wq_url q1 = wq_url q2 →
    we_send env1 i q1 = we_send env2 i q2;
  alike_poll i (q : PollRequest) :
    poll_alike (SignIn.call b64 url_ok (we_send env1 (3 + i)) "PollAuthSessionStatus" Post q)
               (SignIn.call b64 url_ok (we_send env2 (3 + i)) "PollAuthSessionStatus" Post q)
}.

Context (hmac_sha1_length : ∀ key msg, length (hmac_sha1 key msg) = 20%nat).
Context (env1 env2 : WebEnv) (Hanswers : answers_alike env1 env2).

(** A call whose answer does not depend on what was sent. *)
Lemma call_same {Req Resp} `{Message Req, Message Resp} send1 send2 method verb (req1 req2 : Req) :
  (∀ p1 p2, send1 {| wq_method := verb; wq_url := raw_url_for method; wq_payload := p1 |} =
            send2 {| wq_method := verb; wq_url := raw_url_for method; wq_payload := p2 |}) →
  SignIn.call (Resp := Resp) b64 url_ok send1 method verb req1 = SignIn.call b64 url_ok send2 method verb req2.
Proof. intros Hs. unfold SignIn.call. by rewrite (Hs _ (b64 (encode_to_vec req2))). Qed.

Lemma fetch_rsa_key_alike account :
  fetch_rsa_key b64 url_ok env1 account = fetch_rsa_key b64 url_ok env2 account.
Proof. unfold fetch_rsa_key, SignIn.call. by rewrite (alike_key _ _ Hanswers). Qed.
Lemma begin_session_alike account enc1 enc2 ts :
  begin_session b64 url_ok env1 account enc1 ts = begin_session b64 url_ok env2 account enc2 ts.
Proof.
  unfold begin_session. erewrite call_same; [done|]. intros p1 p2. apply (alike_begin _ _ Hanswers); auto.
Qed.

Lemma guard_code_alike secret1 secret2 :
  fails_alike (b64_decode (trim secret1)) (b64_decode (trim secret2)) →
  ∃ r1 r2, fails_alike r1 r2 ∧
    generate_auth_code hmac_sha1 b64_decode (we_clock env1) secret1 None = Some r1 ∧
    generate_auth_code hmac_sha1 b64_decode (we_clock env2) secret2 None = Some r2.
Proof.
  intros Hd.
  destruct (generate_auth_code_total b64_decode hmac_sha1 hmac_sha1_length (we_clock env1) secret1 None)
    as [r1 H1'].
  destruct (generate_auth_code_total b64_decode hmac_sha1 hmac_sha1_length (we_clock env2) secret2 None)
    as [r2 H2'].
  exists r1, r2. split; [|done]. rewrite <-(alike_clock _ _ Hanswers) in H2'.
  unfold generate_auth_code in H1', H2'.
  destruct (b64_decode (trim secret1)) as [sec1|e1], (b64_decode (trim secret2)) as [sec2|e2];
    cbn in Hd, H1', H2'; try done; [|by simplify_eq].
  destruct (we_clock env1) as [now|]; cbn in H1', H2'; [|by simplify_eq].
  destruct (generate_with_step hmac_sha1 sec1 _), (generate_with_step hmac_sha1 sec2 _); cbn in H1', H2';
    by simplify_eq.
Qed.

Lemma resolve_guard_alike begin secret1 secret2 :
  option_Forall2 (λ s1 s2, fails_alike (b64_decode (trim s1)) (b64_decode (trim s2))) secret1 secret2 →
  resolve_guard b64 b64_decode hmac_sha1 url_ok env1 begin secret1 =
    resolve_guard b64 b64_decode hmac_sha1 url_ok env2 begin secret2.
Proof.
  intros Hs. unfold resolve_guard. case_decide; [|done]. destruct Hs as [s1 s2 Hs|]; [|done].
  destruct (guard_code_alike s1 s2 Hs) as (r1 & r2 & Hr & -> & ->).
  destruct r1 as [code1|e1], r2 as [code2|e2]; cbn in Hr; try done; cbn [pbind]; [|by subst].
  f_equal. erewrite call_same; [done|]. intros p1 p2. apply (alike_begin _ _ Hanswers); auto.
Qed.

Lemma on_poll_alike begin q r1 r2 :
  poll_alike r1 r2 →
  match on_poll b64url_decode json_from_slice begin q r1,
        on_poll b64url_decode json_from_slice begin q r2 with
  | inl o1, inl o2 => sign_in_alike (Some o1) (Some o2)
  | inr q1, inr q2 => q1 = q2
  | _, _ => False
  end.
Proof.
  destruct r1 as [[er1 p1]|e1], r2 as [[er2 p2]|e2]; cbn; try done.
  intros (-> & Hid & Ht & Ha). case_decide.
  { destruct (map_non_ok_eresult er2) as [[]|]; cbn; done. }
  rewrite Hid. destruct Ht as [t1 t2 Ht|]; [|done]. cbn. split; [|exact Ha].
  unfold same_subject in Ht. destruct (steam_id_from_refresh_token _ _ t1), (steam_id_from_refresh_token _ _ t2);
    done.
Qed.
Lemma poll_loop_alike fuel i now deadline begin q :
  sign_in_alike (poll_loop b64 b64url_decode json_from_slice url_ok env1 fuel i now deadline begin q)
                (poll_loop b64 b64url_decode json_from_slice url_ok env2 fuel i now deadline begin q).
Proof.
  revert i now q. induction fuel as [|fuel IH]; intros i now q; [done|]. cbn [poll_loop].
  rewrite (alike_oversleep _ _ Hanswers). case_decide; [done|].
  pose proof (on_poll_alike begin q _ _ (alike_poll _ _ Hanswers i q)) as Hp.
  destruct (on_poll _ _ _ _ _) as [o1|q1], (on_poll _ _ _ _ _) as [o2|q2] in Hp |- *; try done.
  subst q2. rewrite (alike_call_time _ _ Hanswers). apply IH.
Qed.

Definition execute_in (env : WebEnv) : SignInBuilder → panicking (Result SignInOutcome) :=
  execute_built b64 b64_decode b64url_decode json_from_slice hmac_sha1 url_ok encrypt proxy_all build env.

Lemma secrets_paired vars1 vars2 secret1 secret2 :
  vars_public vars1 vars2 → secrets_alike vars1 vars2 →
  (secret1 = var vars1 "SHARED_SECRET" ∧ secret2 = var vars2 "SHARED_SECRET" ∨
   secret1 = non_empty_var vars1 "SHARED_SECRET" ∧ secret2 = non_empty_var vars2 "SHARED_SECRET") →
  option_Forall2 (λ s1 s2, fails_alike (b64_decode (trim s1)) (b64_decode (trim s2))) secret1 secret2.
Proof.
  intros (_ & _ & Hp & Hn) Hs. pose proof (alike_decode _ _ Hs) as Hd.
  assert (∀ o1 o2 : option bstr, same_presence o1 o2 →
    (∀ s1, o1 = Some s1 → vars1 !! "SHARED_SECRET"%string = Some s1) →
    (∀ s2, o2 = Some s2 → vars2 !! "SHARED_SECRET"%string = Some s2) →
    option_Forall2 (λ s1 s2, fails_alike (b64_decode (trim s1)) (b64_decode (trim s2))) o1 o2) as Hpair.
  { intros o1 o2 [H12 H21] Hv1 Hv2. destruct o1 as [s1|], o2 as [s2|]; [|by destruct H12|by destruct H21|constructor].
    constructor. apply Hd; auto. }
  assert (∀ (vars : gmap string bstr) s, non_empty_var vars "SHARED_SECRET" = Some s →
    vars !! "SHARED_SECRET"%string = Some s) as Hne.
  { intros vars s. unfold non_empty_var, var, opt_filter.
    destruct (vars !! "SHARED_SECRET"%string); [by case_match|done]. }
  intros [[-> ->]|[-> ->]]; apply Hpair; auto.
Qed.

Lemma password_flow_alike http creds1 creds2 :
  pw_account_name creds1 = pw_account_name creds2 →
  (∀ mod_hex exp_hex, fails_alike (encrypt (pw_password creds1) mod_hex exp_hex)
                                  (encrypt (pw_password creds2) mod_hex exp_hex)) →
  option_Forall2 (λ s1 s2, fails_alike (b64_decode (trim s1)) (b64_decode (trim s2)))
    (pw_shared_secret creds1) (pw_shared_secret creds2) →
  sign_in_alike
    (execute_password_flow b64 b64_decode b64url_decode json_from_slice hmac_sha1 url_ok encrypt env1 http creds1)
    (execute_password_flow b64 b64_decode b64url_decode json_from_slice hmac_sha1 url_ok encrypt env2 http creds2).
Proof.
  intros Hacc Henc Hguard. unfold execute_password_flow. rewrite Hacc, fetch_rsa_key_alike.
  destruct http as [[]|]; cbn [pbind]; [|done].
  destruct (fetch_rsa_key _ _ _ _) as [[key|o]|]; cbn [pbind]; [|by destruct o|done].
  specialize (Henc (rk_mod_hex key) (rk_exp_hex key)).
  destruct (encrypt (pw_password creds1) _ _) as [enc1|e1], (encrypt (pw_password creds2) _ _) as [enc2|e2];
    cbn in Henc; try done; cbn [pbind].
  rewrite (begin_session_alike _ enc1 enc2).
  destruct (begin_session _ _ _ _ _ _) as [[begin|o]|]; cbn [pbind]; [|by destruct o|done].
  rewrite (resolve_guard_alike begin _ _ Hguard).
  destruct (resolve_guard _ _ _ _ _ _ _) as [[[[]|o]|]|]; cbn [pbind]; [|by destruct o|done|done].
  apply poll_loop_alike.
Qed.

(** The two runs come to the same but for the tokens. *)
Lemma execute_alike vars1 vars2 b1 b2 :
  vars_public vars1 vars2 → secrets_alike vars1 vars2 → same_login vars1 vars2 b1 b2 →
  sign_in_alike (execute_in env1 b1) (execute_in env2 b2).
Proof.
  intros Hvars Hsecrets [account p pass1 pass2 secret1 secret2 Hp1 Hp2 Hs].
  pose proof (secrets_paired _ _ _ _ Hvars Hsecrets Hs) as Hguard.
  assert (∀ m e, fails_alike (encrypt pass1 m e) (encrypt pass2 m e)) as Henc
    by (intros m e; by apply (alike_encrypt _ _ Hsecrets)).
  unfold execute_in, execute_built, build_sign_in.
  destruct Hguard, p; by apply password_flow_alike; try constructor.
Qed.
End signing_in.

(** ** The programs over driver sessions *)
Section programs.
Context `{Message CMsgProtoBufHeader, Message CMsgMulti, Message CMsgClientLoggedOff,
          Message CMsgClientLogon, Message CMsgClientLogonResponse}.
Context `{Message GcHeader, Message CMsgGcClient, Message ClientHello, Message GamesPlayed,
          Message ProfileRequest, Message PlayersProfile}.
Context `{Message CMsgClientFriendsList, Message CMsgClientAddFriend, Message CMsgClientAddFriendResponse,
          Message CMsgClientRemoveFriend,
          Message CMsgClientRequestFriendData, Message CMsgClientPersonaState,
          Message CMsgClientFriendProfileInfo, Message CMsgClientFriendProfileInfoResponse}.
Context (GzDecoder : list byte → list byte * option string) (url_parse : bstr → result string Url).
Context (vanity : bstr → option ProxyConfig → Result (option Z)).
Context (avatar : string → option ProxyConfig → Result (list byte)).
Context (start : nat → Instant) (network : nat → (nat → ServerAttempt) * Result (list CmServer)).
Context (script : list (list Event)).
Context (gc_ready : view → bool) (gc_changes : view → view → list (Z * option bool))
        (gc_arrivals : view → view → list (Z * GcRecv)).

#[local] Instance program_ops : SessionOps DriverSession := driver_session GzDecoder.
Definition steam_with (execute : SignInBuilder → panicking (Result SignInOutcome)) : Steam DriverSession :=
  driver_steam GzDecoder execute vanity avatar start network script gc_ready gc_changes gc_arrivals.

Lemma establish_resilient_veiled (a1 a2 : nat → Result (CmConnection * LoggedOn)) :
  (∀ n, veiled_outcome (a1 n) (a2 n)) →
  veiled_outcome (establish_resilient a1).1 (establish_resilient a2).1.
Proof.
  intros Ha. unfold establish_resilient.
  generalize INITIAL_CONNECT_ATTEMPTS at 1 2, 1%nat, INITIAL_BACKOFF, (Network "no connect attempt ran").
  intros remaining. induction remaining as [|remaining IH]; intros n b e; cbn [establish_resilient_loop]; [done|].
  specialize (Ha n). destruct (a1 n) as [[c1 l1]|e1], (a2 n) as [[c2 l2]|e2]; cbn in Ha; try done. subst e1.
  destruct e2; try done; (case_decide; [|apply IH]);
    lazymatch goal with |- context [establish_resilient_loop remaining ?n' ?b' ?e' a1] =>
      specialize (IH n' b' e');
      destruct (establish_resilient_loop remaining n' b' e' a1), (establish_resilient_loop remaining n' b' e' a2)
    end; exact IH.
Qed.
Lemma driver_spawn_veiled config1 config2 :
  sc_account_name config1 = sc_account_name config2 → sc_proxy config1 = sc_proxy config2 →
  spawned_alike veiled_session (Some (driver_spawn GzDecoder start network script config1))
    (Some (driver_spawn GzDecoder start network script config2)).
Proof.
  intros Hacc Hpx. unfold driver_spawn, spawn_session.
  assert (∀ n, veiled_outcome (connect_attempt GzDecoder start network config1 n)
                              (connect_attempt GzDecoder start network config2 n)) as Ha.
  { intros n. unfold connect_attempt. rewrite Hacc.
    by destruct (establish_veiled GzDecoder (start n) (sc_account_name config2) (sc_refresh_token config1)
      (sc_refresh_token config2) (network n).1 (network n).2) as [r1 r2 Hr|]. }
  apply establish_resilient_veiled in Ha.
  destruct (establish_resilient (connect_attempt GzDecoder start network config1)).1 as [[c1 l1]|e1],
    (establish_resilient (connect_attempt GzDecoder start network config2)).1 as [[c2 l2]|e2]; cbn in Ha; try done.
  destruct Ha as [[wire ->] ->]. split; [|done..]. apply veiled_world_intro.
  exists wire, (sc_refresh_token config2). destruct config1, config2; cbn in *. by subst.
Qed.

Lemma handle_id_veiled s1 s2 :
  veiled_session s1 s2 → handle_id GzDecoder start network script s1 = handle_id GzDecoder start network script s2.
Proof.
  intros [[_ _ _ (wire & token & Hd)] _ _ _ _ _]. unfold handle_id. rewrite Hd.
  pose proof (driver_spawn_veiled (sd_config (w_driver (ds_world s1)))
    (sd_config (with_secret wire token (w_driver (ds_world s1)))) eq_refl eq_refl) as Hs.
  destruct (driver_spawn _ _ _ _ _) as [s1'|e1], (driver_spawn _ _ _ _ _) as [s2'|e2]; cbn in Hs; try done.
  by destruct Hs as [[_ _ _ (wire' & token' & ->)] _ _ _ _ _].
Qed.
Lemma view_veiled s1 s2 : veiled_session s1 s2 → view_of s1 = view_of s2.
Proof. intros [Hw _ _ _ _ _]. unfold view_of. by rewrite (events_veiled _ _ Hw), (state_veiled _ _ Hw). Qed.
Lemma pass_time_veiled s1 s2 : veiled_session s1 s2 → veiled_session (pass_time GzDecoder s1) (pass_time GzDecoder s2).
Proof. intros Hs. by apply driver_wait_veiled. Qed.

Lemma elapsed_veiled s1 s1' s2 s2' :
  veiled_session s1 s2 → veiled_session s1' s2' → elapsed s1 s1' = elapsed s2 s2'.
Proof. intros [[Hn _ _ _] _ _ _ _ _] [[Hn' _ _ _] _ _ _ _ _]. unfold elapsed. by rewrite Hn, Hn'. Qed.
Lemma wait_ready_veiled deadline :
  respects veiled_session (driver_wait_ready GzDecoder gc_ready gc_changes deadline)
                          (driver_wait_ready GzDecoder gc_ready gc_changes deadline).
Proof.
  intros s1 s2 Hs. unfold driver_wait_ready. pose proof (pass_time_veiled _ _ Hs) as Hs'.
  by rewrite (view_veiled _ _ Hs), (view_veiled _ _ Hs'), (elapsed_veiled _ _ _ _ Hs Hs').
Qed.
Lemma profile_exchange_veiled budget id :
  respects veiled_session (profile_exchange GzDecoder gc_arrivals budget id)
                          (profile_exchange GzDecoder gc_arrivals budget id).
Proof.
  pose proof (driver_indistinguishable GzDecoder) as Hind. intros s1 s2 Hs. unfold profile_exchange.
  destruct (respects_notify EMSG_CLIENT_TO_GC (profile_request id) s1 s2 Hs) as [Hr Hs'].
  destruct (notify EMSG_CLIENT_TO_GC (profile_request id) s1) as [[|[r1|e1]] s1'],
    (notify EMSG_CLIENT_TO_GC (profile_request id) s2) as [[|[r2|e2]] s2']; cbn in Hr, Hs'; simplify_eq; try done.
  pose proof (pass_time_veiled _ _ Hs') as Hs''.
  by rewrite (view_veiled _ _ Hs), (view_veiled _ _ Hs''), (elapsed_veiled _ _ _ _ Hs' Hs'').
Qed.
Lemma driver_profile_veiled id :
  respects veiled_session (driver_profile GzDecoder gc_ready gc_changes gc_arrivals id)
                          (driver_profile GzDecoder gc_ready gc_changes gc_arrivals id).
Proof.
  intros s1 s2 Hs. destruct (wait_ready_veiled PROFILE_TIMEOUT s1 s2 Hs) as [Hr Hs'].
  unfold driver_profile.
  destruct (driver_wait_ready GzDecoder gc_ready gc_changes PROFILE_TIMEOUT s1) as [[|[[]|e1]] s1'],
    (driver_wait_ready GzDecoder gc_ready gc_changes PROFILE_TIMEOUT s2) as [[|[[]|e2]] s2'];
    cbn in Hr, Hs'; simplify_eq; try done.
  rewrite (elapsed_veiled _ _ _ _ Hs Hs'). pose proof (driver_indistinguishable GzDecoder) as Hind.
  apply respects_bind; [apply profile_exchange_veiled| |exact Hs'].
  intros response. apply respects_bind; intros; [apply respects_lift|]. by intros ? ? ?.
Qed.

Lemma driver_steam_alike vars1 vars2 execute1 execute2 :
  (∀ b1 b2, same_login vars1 vars2 b1 b2 → sign_in_alike (execute1 b1) (execute2 b2)) →
  steam_alike veiled_session vars1 vars2 (steam_with execute1) (steam_with execute2).
Proof.
  intros Hexecute. pose proof (driver_indistinguishable GzDecoder) as Hind. split; try done.
  - intros account t1 t2 p. by apply driver_spawn_veiled.
  - intros s1 s2. apply handle_id_veiled.
  - apply respects_bind; intros; apply respects_notify.
  - apply wait_ready_veiled.
  - apply driver_profile_veiled.
  - apply driver_logoff_veiled.
  - intros s1 s2 Hs. unfold steam_with, driver_steam. cbn [st_join]. unfold driver_join. pose proof (pass_time_veiled _ _ Hs) as Hs'.
    pose proof Hs' as [[_ -> _ _] _ _ _ _ _]. done.
Qed.

Context `{Message RsaKeyRequest, Message RsaKeyReply, Message BeginRequest, Message BeginReply,
          Message GuardRequest, Message GuardReply, Message PollRequest, Message PollReply}.
Context (b64 : list byte → bstr) (b64_decode : bstr → result string (list byte))
        (b64url_decode : bstr → result string bstr)
        (json_from_slice : bstr → result string JwtJson)
        (hmac_sha1 : list byte → list byte → list byte)
        (url_ok : string → option string)
        (encrypt : bstr → bstr → bstr → Result bstr).
Context (proxy_all : bstr → result string unit) (build : result string unit).
Definition steam_in (env : WebEnv) : Steam DriverSession :=
  steam_with (execute_in b64 b64_decode b64url_decode json_from_slice hmac_sha1 url_ok encrypt proxy_all build env).

(** C17: What the programs print does not depend on a secret.  Each of the five programs that
    open a session, signing in as [SignIn::execute] does and running over driver sessions, is
    run twice: with another password, another shared secret, and other tokens from Steam.
    Provided that Steam answers both runs alike, that both passwords are encrypted and both
    shared secrets decode (or the library refuses them alike: the text of a base64 error is
    printed, and it is not the same for two malformed secrets), the program prints the same
    lines and ends the same way, whatever the network, the scheduler and the game coordinator
    do; the two sessions differ in their token and in what was written to the socket, and in
    nothing else.  The lines are those of [println!] and [eprintln!]; what the library logs
    through [tracing] is not modelled. *)
Theorem programs_never_show_secrets vars1 vars2 env1 env2 m :
  (∀ key msg, length (hmac_sha1 key msg) = 20%nat) →
  vars_public vars1 vars2 → secrets_alike b64_decode encrypt vars1 vars2 →
  answers_alike b64 b64url_decode json_from_slice url_ok env1 env2 → ma_session m = None →
  Forall2 (λ p1 p2, (p1 m).1 = (p2 m).1 ∧ ma_lines (p1 m).2 = ma_lines (p2 m).2 ∧
                    option_Forall2 veiled_session (ma_session (p1 m).2) (ma_session (p2 m).2))
    (session_programs url_parse vars1 (steam_in env1)) (session_programs url_parse vars2 (steam_in env2)).
Proof.
  intros Hmac Hvars Hsecrets Hanswers Hm. pose proof (driver_indistinguishable GzDecoder).
  apply (terminal_keeps_secrets url_parse veiled_session vars1 vars2); [done| |done].
  apply driver_steam_alike. intros b1 b2 Hb. by eapply execute_alike.
Qed.
End programs.

(** ** Two passwords, two tokens, one screen *)
Section witnesses.
Import Wire.Instances.
#[local] Existing Instances friends_list_message add_friend_message add_friend_response_message
  remove_friend_message persona_state_message request_data_message profile_info_message
  profile_info_response_message silent_hello silent_games silent_request silent_profile.

#[local] Existing Instances rq_canned rs_canned bq_canned br_canned gq_canned gr_canned pq_canned.
(** A poll whose token is the answer's body. *)
#[local] Instance pr_body : Message PollReply :=
  {| encode_to_vec := λ _, []; encoded_len := λ _, 0;
     msg_decode := λ body, Ok {| pr_new_client_id := None; pr_refresh_token := Some body;
                                 pr_access_token := None |} |}.

(** Steam asks for the guard code and issues this token. *)
Definition issuing (token : string) : WebEnv :=
  {| we_send := λ i _, Ok {| wr_eresult := Some (Ok (as_bytes "1"));
                            wr_body := Ok (match i with S (S (S _)) => as_bytes token | _ => [] end) |};
     we_clock := Some 1000; we_call_time := λ _, 5; we_oversleep := λ _, 1 |}.
Definition vars_secret (pass secret : string) : gmap string bstr :=
  <["SHARED_SECRET"%string := as_bytes secret]> (vars_with pass).
Definition plain_encrypt (pass _ _ : bstr) : Result bstr := Ok pass.

(** The persisted login over the lost connection of EndToEnd.v, and how the library decodes a
    shared secret. *)
Definition lossy_login (b64_decode : bstr → result string (list byte)) (pass secret token : string) :
    ended unit * Machine DriverSession :=
  @main_persist_login _ (driver_session stored) _ _ no_urls (vars_secret pass secret)
    (steam_in stored (λ _ _, Ok None) (λ _ _, Err (Network "fetch avatar: no route")) (λ _, 0)
       (λ _, (busy_then_ok, Ok (repeat sample_server 9))) lossy_script (λ _, false) (λ _ _, []) (λ _ _, [])
       id b64_decode Ok sample_json zero_hmac (λ _, None) plain_encrypt (λ _, Ok tt) (Ok tt) (issuing token))
    driver_machine.

Lemma vars_secret_public pass1 pass2 secret1 secret2 :
  as_bytes secret1 ≠ [] → as_bytes secret2 ≠ [] →
  vars_public (vars_secret pass1 secret1) (vars_secret pass2 secret2).
Proof.
  intros H1 H2. unfold vars_secret. destruct (vars_with_public pass1 pass2) as (Hn & Hp & _ & _).
  split_and!.
  - intros name Hname. assert (name ≠ "SHARED_SECRET"%string).
    { intros ->. apply Hname. apply list.elem_of_cons. right. by apply list.elem_of_cons; left. }
    rewrite !lookup_insert_ne by done. by apply Hn.
  - by rewrite !lookup_insert_ne by done.
  - rewrite !lookup_insert_eq. by split; intros; eexists.
  - unfold non_empty_var, var. rewrite !lookup_insert_eq. cbn [opt_filter].
    rewrite !bool_decide_false by done. by split; intros; eexists.
Qed.

Lemma issuing_alike token1 token2 :
  same_subject Ok sample_json (as_bytes token1) (as_bytes token2) →
  as_bytes token1 ≠ [] → as_bytes token2 ≠ [] →
  answers_alike id Ok sample_json (λ _, None) (issuing token1) (issuing token2).
Proof.
  intros Hs H1 H2. split; try done; [by intros i q1 q2 [-> | ->]|]. intros i q.
  assert (∀ token, SignIn.call (Resp := PollReply) id (λ _, None) (we_send (issuing token) (3 + i))
    "PollAuthSessionStatus" Post q =
    Ok (1, {| pr_new_client_id := None; pr_refresh_token := Some (as_bytes token); pr_access_token := None |}))
    as Hcall by done.
  rewrite !Hcall. split; [done|]. split; [done|]. split; [|done]. unfold non_empty. cbn [pr_refresh_token opt_filter].
  rewrite !bool_decide_false by done. by constructor.
Qed.

Definition token_of (m : Machine DriverSession) : option string :=
  (λ s, sc_refresh_token (sd_config (w_driver (ds_world s)))) <$> ma_session m.

(** Two runs that differ in every secret: the first signs in, loses its connection and logs on
    again. *)
Lemma programs_never_show_secrets_witness :
  let run := lossy_login Ok in
  ma_lines (run "hunter2" "c2VjcmV0" "h.p.s").2 = ma_lines (run "letmein" "aGlkZGVu" "h.p.t").2 ∧
  (run "hunter2" "c2VjcmV0" "h.p.s").1 = Done tt ∧
  token_of (run "hunter2" "c2VjcmV0" "h.p.s").2 = Some "h.p.s"%string ∧
  token_of (run "letmein" "aGlkZGVu" "h.p.t").2 = Some "h.p.t"%string.
Proof.
  intros run. split; [|by split_and!; vm_compute].
  pose proof (programs_never_show_secrets stored no_urls (λ _ _, Ok None)
    (λ _ _, Err (Network "fetch avatar: no route")) (λ _, 0) (λ _, (busy_then_ok, Ok (repeat sample_server 9)))
    lossy_script (λ _, false) (λ _ _, []) (λ _ _, []) id Ok Ok sample_json zero_hmac (λ _, None) plain_encrypt
    (λ _, Ok tt) (Ok tt) (vars_secret "hunter2" "c2VjcmV0") (vars_secret "letmein" "aGlkZGVu")
    (issuing "h.p.s") (issuing "h.p.t") driver_machine) as Hall.
  specialize (Hall (λ _ _, eq_refl)).
  assert (vars_public (vars_secret "hunter2" "c2VjcmV0") (vars_secret "letmein" "aGlkZGVu")) as Hvars
    by by apply vars_secret_public.
  assert (secrets_alike Ok plain_encrypt (vars_secret "hunter2" "c2VjcmV0") (vars_secret "letmein" "aGlkZGVu"))
    as Hsecrets by by split.
  assert (answers_alike id Ok sample_json (λ _, None) (issuing "h.p.s") (issuing "h.p.t")) as Hanswers
    by (apply issuing_alike; [vm_compute; reflexivity|done|done]).
  specialize (Hall Hvars Hsecrets Hanswers eq_refl).
  do 4 (inversion_clear Hall as [|? ? ? ? _ Hrest]; rename Hrest into Hall).
  by inversion_clear Hall as [|? ? ? ? (_ & Hl & _) _].
Defined.

(** The condition on the shared secrets is needed.  A base64 error names the first character
    that is not in the alphabet, and the program ends with its text: two runs that differ in a
    malformed shared secret only do not end alike. *)
Definition strict_decode (s : bstr) : result string (list byte) :=
  match s with
  | x2a :: _ => Err "Invalid symbol 42, offset 0."%string
  | x21 :: _ => Err "Invalid symbol 33, offset 0."%string
  | _ => Ok s
  end.
Lemma malformed_secret_shows :
  (lossy_login strict_decode "hunter2" "*secret" "h.p.s").1 ≠
  (lossy_login strict_decode "hunter2" "!secret" "h.p.s").1.
Proof.
  assert ((lossy_login strict_decode "hunter2" "*secret" "h.p.s").1 =
    Host.Failed (FromError (Base64 "Invalid symbol 42, offset 0."))) as -> by by vm_compute.
  assert ((lossy_login strict_decode "hunter2" "!secret" "h.p.s").1 =
    Host.Failed (FromError (Base64 "Invalid symbol 33, offset 0."))) as -> by by vm_compute.
  done.
Qed.
End witnesses.
