(* ===== verification/Crates.v ===== *)
(** * Concrete stand-ins for the crates the code calls

    The model takes [base64], [sha1]/[hmac], [url], [serde_json], [hex] parsing and the rest
    as parameters.  To run the repository's own tests on the model they are instantiated here
    from the public standards those crates implement: RFC 4648, FIPS 180-4 with RFC 2104,
    the URL shapes of RFC 3986 with an authority, and RFC 8259. *)
From S2P Require Import Prelude Errors RustStr Proxy.
#[local] Set Default Goal Selector "!".

(** ** SHA-1 and HMAC *)
Definition w32 (z : Z) : Z := z mod 2 ^ 32.
Definition rotl (n x : Z) : Z := Z.lor (w32 (Z.shiftl x n)) (Z.shiftr x (32 - n)).

Definition sha1_pad (msg : list byte) : list byte :=
  let zeros := (Z.to_nat ((55 - len msg) mod 64))%nat in
  msg ++ x80 :: repeat x00 zeros ++ to_be_bytes 8 (8 * len msg).

(** The first [n] big-endian words, and blocks of [k] bytes. *)
Fixpoint words (n : nat) (bs : list byte) : list Z :=
  match n with O => [] | S n => from_be_bytes (take 4 bs) :: words n (drop 4 bs) end.
Fixpoint blocks (n k : nat) (bs : list byte) : list (list byte) :=
  match n with O => [] | S n => take k bs :: blocks n k (drop k bs) end.

(** The message schedule, latest word first. *)
Fixpoint schedule (n : nat) (ws : list Z) : list Z :=
  match n with
  | O => ws
  | S n =>
      let w := rotl 1 (Z.lxor (Z.lxor (nth 2 ws 0) (nth 7 ws 0)) (Z.lxor (nth 13 ws 0) (nth 15 ws 0))) in
      schedule n (w :: ws)
  end.

Record Sha1 := { s_a : Z; s_b : Z; s_c : Z; s_d : Z; s_e : Z }.
Definition sha1_round (i : Z) (w : Z) (s : Sha1) : Sha1 :=
  let '(f, k) :=
    if i <? 20 then (Z.lor (Z.land (s_b s) (s_c s)) (Z.land (not_u 32 (s_b s)) (s_d s)), 0x5A827999)
    else if i <? 40 then (Z.lxor (Z.lxor (s_b s) (s_c s)) (s_d s), 0x6ED9EBA1)
    else if i <? 60 then
      (Z.lor (Z.lor (Z.land (s_b s) (s_c s)) (Z.land (s_b s) (s_d s))) (Z.land (s_c s) (s_d s)), 0x8F1BBCDC)
    else (Z.lxor (Z.lxor (s_b s) (s_c s)) (s_d s), 0xCA62C1D6) in
  {| s_a := w32 (rotl 5 (s_a s) + f + s_e s + k + w); s_b := s_a s; s_c := rotl 30 (s_b s);
     s_d := s_c s; s_e := s_d s |}.
Fixpoint sha1_rounds (i : Z) (ws : list Z) (s : Sha1) : Sha1 :=
  match ws with [] => s | w :: ws => sha1_rounds (i + 1) ws (sha1_round i w s) end.
Definition sha1_block (s : Sha1) (block : list byte) : Sha1 :=
  let ws := rev (schedule 64 (rev (words 16 block))) in
  let s' := sha1_rounds 0 ws s in
  {| s_a := w32 (s_a s + s_a s'); s_b := w32 (s_b s + s_b s'); s_c := w32 (s_c s + s_c s');
     s_d := w32 (s_d s + s_d s'); s_e := w32 (s_e s + s_e s') |}.
Definition sha1 (msg : list byte) : list byte :=
  let padded := sha1_pad msg in
  let s := foldl sha1_block
    {| s_a := 0x67452301; s_b := 0xEFCDAB89; s_c := 0x98BADCFE; s_d := 0x10325476; s_e := 0xC3D2E1F0 |}
    (blocks (length padded / 64) 64 padded) in
  to_be_bytes 4 (s_a s) ++ to_be_bytes 4 (s_b s) ++ to_be_bytes 4 (s_c s) ++ to_be_bytes 4 (s_d s)
  ++ to_be_bytes 4 (s_e s).

Definition xor_pad (pad : Z) (key : list byte) : list byte :=
  (λ b, Z_byte (Z.lxor (byte_Z b) pad)) <$> key.
Definition hmac_sha1 (key msg : list byte) : list byte :=
  let key := if decide (64 < len key) then sha1 key else key in
  let key := key ++ repeat x00 (64 - length key) in
  sha1 (xor_pad 0x5c key ++ sha1 (xor_pad 0x36 key ++ msg)).

(** RFC 2202, test cases 1 and 2. *)
Lemma hmac_sha1_rfc2202 :
  hmac_sha1 (repeat x0b 20) (as_bytes "Hi There") = to_be_bytes 20 0xb617318655057264e28bc0b6fb378c8ef146be00 ∧
  hmac_sha1 (as_bytes "Jefe") (as_bytes "what do ya want for nothing?") =
    to_be_bytes 20 0xeffcdf6ae5eb2fa2d27416d5f184df9c259a7c79.
Proof. split; by vm_compute. Qed.

(** ** Base 64 *)
Definition b64_std : bstr := as_bytes "ABCDEFGHIJKLMNOPQRSTUVWXYZabcdefghijklmnopqrstuvwxyz0123456789+/".
Definition b64_url : bstr := as_bytes "ABCDEFGHIJKLMNOPQRSTUVWXYZabcdefghijklmnopqrstuvwxyz0123456789-_".

Section base64.
Context (alphabet : bstr) (padded : bool).

Definition b64_char (v : Z) : byte := nth (Z.to_nat v) alphabet x00.
Definition b64_val (c : byte) : option Z := (λ p, Z.of_nat p.1) <$> list_find (λ x, x = c) alphabet.
Definition b64_fill (n : nat) : bstr := if padded then repeat x3d n else [].

Fixpoint b64_encode (bs : list byte) : bstr :=
  match bs with
  | b0 :: b1 :: b2 :: rest =>
      let n := byte_Z b0 * 65536 + byte_Z b1 * 256 + byte_Z b2 in
      b64_char (n / 262144) :: b64_char (n / 4096 mod 64) :: b64_char (n / 64 mod 64)
      :: b64_char (n mod 64) :: b64_encode rest
  | [b0; b1] =>
      let n := byte_Z b0 * 65536 + byte_Z b1 * 256 in
      b64_char (n / 262144) :: b64_char (n / 4096 mod 64) :: b64_char (n / 64 mod 64) :: b64_fill 1
  | [b0] =>
      let n := byte_Z b0 * 65536 in
      b64_char (n / 262144) :: b64_char (n / 4096 mod 64) :: b64_fill 2
  | [] => []
  end.

(** Full groups of four characters. *)
Fixpoint b64_groups (cs : bstr) : option (list byte) :=
  match cs with
  | [] => Some []
  | [c0; c1] =>
      v0 ← b64_val c0; v1 ← b64_val c1;
      if decide (v1 mod 16 = 0) then Some [Z_byte (v0 * 4 + v1 / 16)] else None
  | [c0; c1; c2] =>
      v0 ← b64_val c0; v1 ← b64_val c1; v2 ← b64_val c2;
      if decide (v2 mod 4 = 0) then
        let n := v0 * 1024 + v1 * 16 + v2 / 4 in Some [Z_byte (n / 256); Z_byte (n mod 256)]
      else None
  | c0 :: c1 :: c2 :: c3 :: rest =>
      v0 ← b64_val c0; v1 ← b64_val c1; v2 ← b64_val c2; v3 ← b64_val c3;
      let n := v0 * 262144 + v1 * 4096 + v2 * 64 + v3 in
      tl ← b64_groups rest;
      Some (Z_byte (n / 65536) :: Z_byte (n / 256 mod 256) :: Z_byte (n mod 256) :: tl)
  | _ => None
  end.
(** Padding is required with [padded] and refused without it. *)
Definition b64_unfill (cs : bstr) : option bstr :=
  if padded then
    if decide (length cs mod 4 ≠ 0)%nat then None
    else match strip_suffix [x3d; x3d] cs with
         | Some c => Some c
         | None => Some (unwrap_or (strip_suffix [x3d] cs) cs)
         end
  else Some cs.
Definition b64_decode (cs : bstr) : result string (list byte) :=
  match b64_unfill cs ≫= b64_groups with
  | Some bs => Ok bs
  | None => Err "Invalid input."%string
  end.
End base64.
Abbreviation B64_encode := (b64_encode b64_std true).
Abbreviation B64_decode := (b64_decode b64_std true).
Abbreviation B64URL_encode := (b64_encode b64_url false).
Abbreviation B64URL_decode := (b64_decode b64_url false).

(** RFC 4648, section 10. *)
Lemma base64_rfc4648 :
  B64_encode <$> (as_bytes <$> [""; "f"; "fo"; "foo"; "foob"; "fooba"; "foobar"]%string) =
    as_bytes <$> [""; "Zg=="; "Zm8="; "Zm9v"; "Zm9vYg=="; "Zm9vYmE="; "Zm9vYmFy"]%string ∧
  B64_decode <$> (as_bytes <$> [""; "Zg=="; "Zm8="; "Zm9v"; "Zm9vYg=="; "Zm9vYmE="; "Zm9vYmFy"]%string) =
    Ok <$> (as_bytes <$> [""; "f"; "fo"; "foo"; "foob"; "fooba"; "foobar"]%string).
Proof. split; by vm_compute. Qed.

(** ** Hexadecimal ([BigUint::parse_bytes(.., 16)]) *)
Definition parse_hex (s : bstr) : option Z :=
  match s with
  | [] => None
  | _ => foldl (λ acc b, a ← acc; d ← hex_nibble b; Some (16 * a + d)) (Some 0) s
  end.

(** ** URLs with an authority *)
Definition known_port (scheme : string) : option Z :=
  if bool_decide (scheme ∈ ["http"; "ws"]%string) then Some 80
  else if bool_decide (scheme ∈ ["https"; "wss"]%string) then Some 443
  else if bool_decide (scheme = "ftp"%string) then Some 21
  else None.
(** [host[:port]]; an IPv6 literal keeps its brackets. *)
Definition split_host (s : bstr) : bstr * option bstr :=
  match s with
  | x5b :: _ =>
      match split_once x5d s with
      | Some (h, x3a :: p) => (h ++ [x5d], Some p)
      | Some (h, _) => (h ++ [x5d], None)
      | None => (s, None)
      end
  | _ => match split_once x3a s with Some (h, p) => (h, Some p) | None => (s, None) end
  end.
Definition url_parse (raw : bstr) : result string Url :=
  match split_once_str (as_bytes "://") raw with
  | None => Err "relative URL without a base"%string
  | Some (scheme, rest) =>
      let scheme := string_of_list_byte scheme in
      let authority := before_any (as_bytes "/?#") rest in
      let '(userinfo, host_port) :=
        match rsplit_once x40 authority with Some (u, h) => (u, h) | None => ([], authority) end in
      let '(username, password) :=
        match split_once x3a userinfo with Some (u, p) => (u, Some p) | None => (userinfo, None) end in
      let '(host, port) := split_host host_port in
      match (match port with
             | None | Some [] => Ok None
             | Some p => n ← map_err (λ _, "invalid port number"%string) (parse_u64 p); Ok (Some n)
             end) with
      | Err e => Err e
      | Ok port =>
          (** A port equal to the scheme's default is not reported. *)
          let port := opt_filter (λ p, negb (bool_decide (known_port scheme = Some p))) port in
          Ok {| u_scheme := scheme; u_host_str := (if decide (host = []) then None else Some host);
                u_port := port;
                u_port_or_known_default := (match port with Some p => Some p | None => known_port scheme end);
                u_username := username; u_password := password |}
      end
  end.

(** ** JSON *)
Inductive Json :=
  | JNull
  | JBool (b : bool)
  | JNum (text : bstr)
  | JStr (s : bstr)
  | JArr (l : list Json)
  | JObj (l : list (bstr * Json)).

Definition is_json_ws (b : byte) : bool := bool_decide (b ∈ [x20; x09; x0a; x0d]).
Fixpoint skip_ws (s : bstr) : bstr :=
  match s with b :: s' => if is_json_ws b then skip_ws s' else s | [] => [] end.
Definition num_byte (b : byte) : bool := is_ascii_digit b || bool_decide (b ∈ as_bytes "+-.eE").
Fixpoint span (p : byte → bool) (s : bstr) : bstr * bstr :=
  match s with
  | b :: s' => if p b then let '(x, y) := span p s' in (b :: x, y) else ([], s)
  | [] => ([], [])
  end.
(** A string without escapes, after its opening quote. *)
Definition json_string (s : bstr) : option (bstr * bstr) :=
  '(text, rest) ← split_once x22 s; if decide (x5c ∈ text) then None else Some (text, rest).

Fixpoint json_value (fuel : nat) (s : bstr) : option (Json * bstr) :=
  match fuel with
  | O => None
  | S fuel =>
      match skip_ws s with
      | x22 :: s => '(t, s) ← json_string s; Some (JStr t, s)
      | x7b :: s =>
          match skip_ws s with
          | x7d :: s => Some (JObj [], s)
          | s => '(l, s) ← json_members fuel s; Some (JObj l, s)
          end
      | x5b :: s =>
          match skip_ws s with
          | x5d :: s => Some (JArr [], s)
          | s => '(l, s) ← json_elements fuel s; Some (JArr l, s)
          end
      | s =>
          match strip_prefix (as_bytes "true") s, strip_prefix (as_bytes "false") s,
                strip_prefix (as_bytes "null") s, span num_byte s with
          | Some s, _, _, _ => Some (JBool true, s)
          | _, Some s, _, _ => Some (JBool false, s)
          | _, _, Some s, _ => Some (JNull, s)
          | _, _, _, (b :: t, s) => Some (JNum (b :: t), s)
          | _, _, _, _ => None
          end
      end
  end
with json_elements (fuel : nat) (s : bstr) : option (list Json * bstr) :=
  match fuel with
  | O => None
  | S fuel =>
      '(v, s) ← json_value fuel s;
      match skip_ws s with
      | x2c :: s => '(l, s) ← json_elements fuel s; Some (v :: l, s)
      | x5d :: s => Some ([v], s)
      | _ => None
      end
  end
with json_members (fuel : nat) (s : bstr) : option (list (bstr * Json) * bstr) :=
  match fuel with
  | O => None
  | S fuel =>
      match skip_ws s with
      | x22 :: s =>
          '(k, s) ← json_string s;
          match skip_ws s with
          | x3a :: s =>
              '(v, s) ← json_value fuel s;
              match skip_ws s with
              | x2c :: s => '(l, s) ← json_members fuel s; Some ((k, v) :: l, s)
              | x7d :: s => Some ([(k, v)], s)
              | _ => None
              end
          | _ => None
          end
      | _ => None
      end
  end.
Definition json_parse (s : bstr) : result string Json :=
  match json_value (2 * S (length s)) s with
  | Some (v, rest) => match skip_ws rest with [] => Ok v | _ => Err "trailing characters"%string end
  | None => Err "expected value"%string
  end.

(** [Value::get], [as_str], [as_u64]. *)
Definition json_get (key : string) (v : Json) : option Json :=
  match v with
  | JObj l => snd <$> List.find (λ kv, bool_decide (kv.1 = as_bytes key)) l
  | _ => None
  end.
Definition json_str (v : Json) : option bstr := match v with JStr s => Some s | _ => None end.
Definition json_u64 (v : Json) : option Z :=
  match v with JNum t => result_ok (parse_u64 t) | _ => None end.

(** JSON text written with single quotes. *)
Definition json_text (s : string) : bstr := (λ b, if decide (b = x27) then x22 else b) <$> as_bytes s.
