(* ===== verification/TestsSession.v ===== *)
(** * The repository's unit tests, run on the model: connection and driver

    The [#[cfg(test)]] functions of src/session/connection.rs and src/session/driver.rs.
    gzip is a container that stores its data behind the magic number. *)
From S2P Require Import Prelude Errors RustStr Proto Wire Codec Discovery Connection Driver TestsCore.
#[local] Set Default Goal Selector "!".
Import Wire.Instances.

#[local] Instance header_or_default : Message CMsgProtoBufHeader :=
  with_default header_default header_message.

(** ** [connection.rs] *)
Definition gzip (data : list byte) : list byte := x1f :: x8b :: data.
Definition gz_decoder (data : list byte) : list byte * option string :=
  match data with
  | x1f :: x8b :: data => (data, None)
  | _ => ([], Some "invalid gzip header"%string)
  end.
Abbreviation multi_decode := (decode_multi gz_decoder).

Definition header_from (steamid : Z) : CMsgProtoBufHeader :=
  {| h_steamid := Some steamid; h_client_sessionid := None; h_jobid_source := None;
     h_jobid_target := None; h_eresult := None; h_error_message := None; h_rest := [] |}.
Definition framed (emsg steamid : Z) : list byte := encode emsg (header_from steamid) header_default.
Definition pack (messages : list (list byte)) : list byte :=
  concat ((λ m, to_le_bytes 4 (len m) ++ m) <$> messages).
Definition multi_body (messages : list (list byte)) : list byte :=
  encode_to_vec {| mu_size_unzipped := Some 0; mu_message_body := Some (pack messages) |}.
Fixpoint wrap_multi (levels : nat) (body : list byte) : list byte :=
  match levels with
  | O => body
  | S levels => wrap_multi levels (multi_body [encode_raw EMSG_MULTI header_default body])
  end.
Definition nest_multi (levels : Z) : list byte :=
  wrap_multi (Z.to_nat levels) (multi_body [framed 703 1]).
(** [(msgs[i].emsg, msgs[i].header.steamid)]. *)
Definition ids (msgs : list SteamMessage) : list (Z * option Z) :=
  (λ m, (sm_emsg m, h_steamid (sm_header m))) <$> msgs.
Definition unpacks (body : list byte) (k : list SteamMessage → bool) : bool :=
  on_some (multi_decode body) (λ r, on_ok r k).
Definition refuses (body : list byte) : bool :=
  on_some (multi_decode body) (λ r, on_err r is_codec).

Definition decode_multi_splits_embedded_messages : bool :=
  unpacks (multi_body [framed 703 1; framed 751 2]) (λ msgs,
    assert_eq (ids msgs) [(703, Some 1); (751, Some 2)]).
Definition decode_multi_flattens_nested_multi : bool :=
  let inner := multi_body [framed 751 9] in
  on_ok (msg_decode inner) (λ m : CMsgMulti,
    unpacks (multi_body [framed 703 1; encode EMSG_MULTI header_default m]) (λ msgs,
      assert_eq (length msgs) 2%nat && assert_eq (ids msgs !! 1%nat) (Some (751, Some 9)))).
Definition decode_multi_handles_gzip : bool :=
  let payload := pack [framed 703 1; framed 751 2] in
  let body := encode_to_vec {| mu_size_unzipped := Some (len payload);
                               mu_message_body := Some (gzip payload) |} in
  unpacks body (λ msgs, assert_eq (sm_emsg <$> msgs) [703; 751]).
Definition decode_multi_rejects_invalid_gzip : bool :=
  refuses (encode_to_vec {| mu_size_unzipped := Some 4096; mu_message_body := Some [x01; x02; x03] |}).
Definition decode_multi_rejects_truncated_embedded_message : bool :=
  refuses (encode_to_vec {| mu_size_unzipped := Some 0;
                            mu_message_body := Some (to_le_bytes 4 100 ++ repeat x00 10) |}).
Definition decode_multi_rejects_absurd_size_unzipped : bool :=
  refuses (encode_to_vec {| mu_size_unzipped := Some (2 ^ 32 - 1);
                            mu_message_body := Some [x01; x02; x03] |}).
Definition decode_multi_rejects_deep_nesting : bool := refuses (nest_multi (MAX_MULTI_DEPTH + 2)).
Definition decode_multi_allows_nesting_within_the_cap : bool :=
  unpacks (nest_multi (MAX_MULTI_DEPTH - 1)) (λ msgs, assert_eq (sm_emsg <$> msgs) [703]).
Definition decode_multi_allows_exactly_the_cap : bool :=
  unpacks (nest_multi MAX_MULTI_DEPTH) (λ msgs, assert_eq (sm_emsg <$> msgs) [703]).
Definition decode_multi_rejects_one_past_the_cap : bool := refuses (nest_multi (MAX_MULTI_DEPTH + 1)).

(** The bomb is too large to evaluate, so its test is proved: whatever inflates past the cap
    is refused, though [size_unzipped] announced a single byte. *)
Definition decode_multi_rejects_decompression_bomb : Prop :=
  ∀ (bomb inflated : list byte) (stream_err : option string),
    len inflated = MAX_MULTI_UNZIPPED + 4096 →
    ∃ s, decode_multi (λ _, (inflated, stream_err))
           (encode_to_vec {| mu_size_unzipped := Some 1; mu_message_body := Some bomb |}) =
         Some (Err (Codec s)).

Definition read_frame_records_control_frames_as_activity : bool :=
  let liveness := 0 in
  let now := from_secs 300 in
  let frames := [Some (Ok (WsPong [])); Some (Ok (WsPing [])); Some (Ok (WsBinary [x01; x02; x03]))] in
  match read_frame now frames liveness with
  | (Ready (Ok frame), _, liveness) =>
      assert_eq frame [x01; x02; x03] && assert_eq (idle_for liveness now) 0
  | _ => false
  end.
Definition read_frame_touches_liveness_on_a_pong_alone : bool :=
  let liveness := 0 in
  let now := from_secs 120 in
  bool_decide (from_secs 120 ≤ idle_for liveness now) &&
  match read_frame now [Some (Ok (WsPong [])); None] liveness with
  | (Ready (Err _), _, liveness) => assert_eq (idle_for liveness now) 0
  | _ => false
  end.
Definition transient_logon_eresults_are_retryable : bool :=
  for_all [eresult.NO_CONNECTION; eresult.BUSY; eresult.TIMEOUT; eresult.SERVICE_UNAVAILABLE;
           eresult.TRY_ANOTHER_CM; eresult.RATE_LIMIT_EXCEEDED] (λ er,
    is_logon_retryable (logon_rejection er "")).
Definition try_another_cm_is_forty_eight : bool :=
  assert_eq eresult.TRY_ANOTHER_CM 48 && logon_eresult_retryable 48 && negb (logon_eresult_retryable 42).
Definition terminal_logon_eresults_are_auth_rejected : bool :=
  for_all [5; 63; 85; 88; eresult.FAIL; 9999] (λ er, is_auth_rejected (logon_rejection er "")).

(** ** [driver.rs] *)

Definition msg (emsg : Z) (jobid_target : option Z) (body : list byte) : SteamMessage :=
  {| sm_emsg := emsg;
     sm_header := {| h_steamid := None; h_client_sessionid := None; h_jobid_source := None;
                     h_jobid_target := jobid_target; h_eresult := None; h_error_message := None;
                     h_rest := [] |};
     sm_body := body |}.
Definition pending_entry (slot : nat) (deadline : Instant) : PendingEntry :=
  {| p_reply := slot; p_deadline := deadline |}.
(** A driver with the given requests pending, the channel of each being a slot. *)
Definition open_slots (l : list nat) : Slots := list_to_map ((λ s, (s, SlotOpen)) <$> l).
Definition test_driver (pending : gmap Z PendingEntry) (slots : Slots) : SessionDriver :=
  {| sd_write := []; sd_read := []; sd_inbox := []; sd_liveness := 0; sd_steam_id := 7;
     sd_session_id := 0; sd_heartbeat := from_secs 9; sd_next_jobid := 1; sd_pending := pending;
     sd_commands := []; sd_events := []; sd_state := StLoggedOn 7; sd_snapshots := ∅;
     sd_slots := slots;
     sd_config := {| sc_account_name := ""; sc_refresh_token := ""; sc_proxy := None |} |}.
Definition test_now : Instant := from_secs 1000.
(** What the receiving end finds: [rx.await]. *)
Definition received (slots : Slots) (s : nat) (k : Answer → bool) : bool :=
  match slots !! s with Some (SlotFull v) => k v | _ => false end.

Definition dispatch_routes_reply_by_jobid : bool :=
  let d := test_driver {[42 := pending_entry 0 (test_now + from_secs 60)]} (open_slots [0%nat]) in
  let d := dispatch d (msg 751 (Some 42) [x09]) in
  bool_decide (sd_pending d = ∅) &&
  received (sd_slots d) 0 (λ v, match v with
    | ARequest (Ok routed) => assert_eq (sm_body routed) [x09] | _ => false end).
Definition dispatch_broadcasts_unsolicited : bool :=
  let d := dispatch (test_driver ∅ ∅) (msg 5 None [x01; x02]) in
  assert_eq (sm_body <$> sd_events d) [[x01; x02]].
Definition dispatch_unmatched_jobid_is_broadcast : bool :=
  let d := dispatch (test_driver ∅ ∅) (msg 751 (Some 7) [x03]) in
  assert_eq (sm_body <$> sd_events d) [[x03]].
Definition dispatch_caches_first_snapshot_per_emsg : bool :=
  on_some (POST_LOGIN_SNAPSHOT_EMSGS !! 0%nat) (λ friends_list,
    let d := dispatch (test_driver ∅ ∅) (msg friends_list None [x01; x01]) in
    let d := dispatch d (msg friends_list None [x02; x02]) in
    assert_eq (cached_snapshot d friends_list) (Some [x01; x01])).
Definition dispatch_does_not_cache_unlisted_emsg : bool :=
  bool_decide (sd_snapshots (dispatch (test_driver ∅ ∅) (msg 766 None [x07])) = ∅).

Definition logged_off (er : option Z) : SteamMessage :=
  msg EMSG_CLIENT_LOGGED_OFF None (encode_to_vec {| lo_eresult := er |}).
Definition reconnects (exit : LoopExit) : bool := match exit with DisconnectedExit => true | _ => false end.
Definition ends_with (exit : LoopExit) (k : string → bool) : bool :=
  match exit with LoggedOffExit reason => k reason | _ => false end.
Definition mentions (text part : string) : bool := contains (as_bytes part) (as_bytes text).

Definition classify_logoff_treats_transient_eresults_as_disconnect : bool :=
  for_all [eresult.NO_CONNECTION; eresult.SERVICE_UNAVAILABLE; eresult.TRY_ANOTHER_CM] (λ er,
    reconnects (classify_logoff (logged_off (Some er)))).
Definition classify_logoff_heals_the_load_balancing_logoff : bool :=
  reconnects (classify_logoff (logged_off (Some 48))) &&
  ends_with (classify_logoff (logged_off (Some 42))) (λ _, true).
Definition classify_logoff_treats_other_eresults_as_terminal : bool :=
  for_all [1; 6; 34; eresult.FAIL] (λ er, ends_with (classify_logoff (logged_off (Some er))) (λ _, true)).
Definition classify_logoff_defaults_missing_eresult_to_fail : bool :=
  ends_with (classify_logoff (logged_off None)) (λ reason, mentions reason "2").
Definition classify_logoff_reports_an_undecodable_body : bool :=
  ends_with (classify_logoff (msg EMSG_CLIENT_LOGGED_OFF None [xff; xff])) (λ reason,
    mentions reason "undecodable").

Definition reply_with (er : option Z) (error_message : option string) : SteamMessage :=
  {| sm_emsg := 751;
     sm_header := {| h_steamid := None; h_client_sessionid := None; h_jobid_source := None;
                     h_jobid_target := None; h_eresult := er; h_error_message := error_message;
                     h_rest := [] |};
     sm_body := [] |}.
Definition remote_text (e : Error) (k : string → bool) : bool :=
  match e with Remote text => k text | _ => false end.
Definition reply_without_eresult_is_ok : bool :=
  is_ok (check_reply_eresult (reply_with None None)) &&
  is_ok (check_reply_eresult (reply_with (Some eresult.OK) None)).
Definition reply_with_non_ok_eresult_is_remote_error : bool :=
  on_err (check_reply_eresult (reply_with (Some eresult.FAIL) None)) (λ e,
    remote_text e (λ text, mentions text "751" && mentions text "eresult 2")).
Definition reply_error_message_is_folded_in : bool :=
  on_err (check_reply_eresult (reply_with (Some 15) (Some "access denied"%string))) (λ e,
    remote_text e (λ text, mentions text "access denied")).

Definition is_timeout (e : Error) : bool := match e with Timeout _ => true | _ => false end.
Definition sweep_fails_timed_out_requests : bool :=
  let pending := <[1 := pending_entry 1 (test_now - from_secs 1)]>
                   {[2 := pending_entry 2 (test_now + from_secs 60)]} in
  let '(pending, slots) := sweep_pending test_now pending (open_slots [1%nat; 2%nat]) in
  is_none (pending !! 1) && negb (is_none (pending !! 2)) &&
  received slots 1 (λ v, match v with ARequest (Err e) => is_timeout e | _ => false end).
Definition sweep_drops_abandoned_requests : bool :=
  let slots : Slots := {[1%nat := SlotClosed]} in
  let '(pending, _) := sweep_pending test_now {[1 := pending_entry 1 (test_now + from_secs 60)]} slots in
  bool_decide (pending = ∅).
Definition commands_during_reconnect_are_answered_not_dropped : bool :=
  let '(slots, stop) := answer_while_down (open_slots [0%nat]) (Some (Request 1 [] (test_now + from_secs 60) 0)) in
  let '(slots', stop') := answer_while_down (open_slots [0%nat]) (Some (Notify 1 [] 0)) in
  negb stop && received slots 0 (λ v, match v with ARequest (Err _) => true | _ => false end) &&
  negb stop' && received slots' 0 (λ v, match v with ANotify (Err _) => true | _ => false end).
Definition logoff_and_dropped_handles_stop_the_reconnect_loop : bool :=
  let '(slots, stop) := answer_while_down (open_slots [0%nat]) (Some (Logoff 0)) in
  stop && received slots 0 (λ v, match v with ALogoff => true | _ => false end) &&
  (answer_while_down ∅ None).2.
Definition fail_all_pending_frees_callers_on_a_terminal_exit : bool :=
  let slots := fail_all_pending {[1 := pending_entry 1 (test_now + from_secs 60)]} (open_slots [1%nat])
                 "session driver stopped" in
  received slots 1 (λ v, match v with
    | ARequest (Err (WebSocket text)) => mentions text "driver stopped" | _ => false end).

Definition idle_timeout_follows_the_probe_interval_with_a_floor : bool :=
  assert_eq (idle_timeout (from_secs 30)) (from_secs 30 * IDLE_PROBE_MISSES) &&
  assert_eq (idle_timeout (from_secs 1)) MIN_IDLE_TIMEOUT.
(** Twenty probe intervals, a pong in each. *)
Fixpoint answered_probes (n : nat) (now liveness : Instant) : bool :=
  match n with
  | O => true
  | S n =>
      let heartbeat := from_secs 9 in
      let now := now + heartbeat in
      let '(_, _, liveness) := read_frame now [Some (Ok (WsPong [])); None] liveness in
      negb (read_idle_expired now liveness heartbeat) && answered_probes n now liveness
  end.
Definition watchdog_does_not_trip_while_probes_are_answered : bool := answered_probes 20 0 0.
Definition watchdog_trips_when_no_frame_arrives_at_all : bool :=
  let heartbeat := from_secs 9 in
  let now := idle_timeout heartbeat - 1 in
  negb (read_idle_expired now 0 heartbeat) && read_idle_expired (now + 1) 0 heartbeat.

(** [SessionHandle::for_test]: a handle whose commands nobody takes unless the test does. *)
Definition for_test (steam_id : Z) : World :=
  {| w_now := 0; w_phase := Connected (from_secs 9) (from_secs 1); w_handles := true;
     w_driver := {| sd_write := []; sd_read := []; sd_inbox := []; sd_liveness := 0;
       sd_steam_id := steam_id; sd_session_id := 0; sd_heartbeat := from_secs 9; sd_next_jobid := 1;
       sd_pending := ∅; sd_commands := []; sd_events := []; sd_state := StLoggedOn steam_id;
       sd_snapshots := ∅; sd_slots := ∅;
       sd_config := {| sc_account_name := ""; sc_refresh_token := ""; sc_proxy := None |} |} |}.
Definition slot_of (w : World) (s : nat) : Slot := default SlotDropped (sd_slots (w_driver w) !! s).

Definition request_deadline_is_enforced_caller_side : bool :=
  on_some (submit (for_test 7) 0 (CallRequest 123 (encode_to_vec header_default) 50)) (λ w,
    match await_reply (slot_of w 0) true with
    | Ready r => on_err (finish_request (Resp := CMsgProtoBufHeader) true r) is_timeout
    | Pending => false
    end).

(** A fake driver that answers the queued request with [DuplicateRequest] in its header. *)
Definition fake_answer (w : World) : option World :=
  '(command, d) ← recv_command (w_handles w) (w_driver w);
  match command with
  | Some (Request _ _ _ reply) =>
      Some (with_driver w (set_slots d
        (oneshot_send (sd_slots d) reply (ARequest (Ok (reply_with (Some 29) None))))))
  | _ => None
  end.
Definition ask (check_eresult : bool) (k : Result CMsgProtoBufHeader → bool) : bool :=
  on_some (submit (for_test 7) 0 (CallRequest 1 (encode_to_vec header_default) DEFAULT_REQUEST_TIMEOUT)) (λ w,
  on_some (fake_answer w) (λ w,
    match await_reply (slot_of w 0) false with Ready r => k (finish_request check_eresult r) | Pending => false end)).
Definition request_ignoring_eresult_leaves_the_result_to_the_caller : bool :=
  ask true (λ checked, on_err checked (λ e, remote_text e (λ _, true))) &&
  ask false (λ unchecked, assert_eq unchecked (Ok header_default)).
Definition for_test_handle_queues_commands : bool :=
  assert_eq (sd_steam_id (w_driver (for_test 7))) 7 &&
  on_some (submit (for_test 7) 0 (CallNotify 123 (encode_to_vec header_default))) (λ w,
  on_some (recv_command (w_handles w) (w_driver w)) (λ '(command, d),
    match command with
    | Some (Notify emsg _ ack) =>
        let slots := oneshot_send (sd_slots d) ack (ANotify (Ok tt)) in
        assert_eq emsg 123 &&
        match await_notify (default SlotDropped (slots !! 0%nat)) with
        | Ready r => is_ok r
        | Pending => false
        end
    | _ => false
    end) && bool_decide (sd_snapshots (w_driver w) = ∅)).

(** ** The suites *)
Definition driver_tests : list bool :=
  [dispatch_routes_reply_by_jobid; dispatch_broadcasts_unsolicited;
   dispatch_unmatched_jobid_is_broadcast; dispatch_caches_first_snapshot_per_emsg;
   dispatch_does_not_cache_unlisted_emsg; classify_logoff_treats_transient_eresults_as_disconnect;
   classify_logoff_heals_the_load_balancing_logoff; classify_logoff_treats_other_eresults_as_terminal;
   classify_logoff_defaults_missing_eresult_to_fail; classify_logoff_reports_an_undecodable_body;
   reply_without_eresult_is_ok; reply_with_non_ok_eresult_is_remote_error;
   reply_error_message_is_folded_in; sweep_fails_timed_out_requests; sweep_drops_abandoned_requests;
   commands_during_reconnect_are_answered_not_dropped;
   logoff_and_dropped_handles_stop_the_reconnect_loop;
   fail_all_pending_frees_callers_on_a_terminal_exit;
   idle_timeout_follows_the_probe_interval_with_a_floor;
   watchdog_does_not_trip_while_probes_are_answered; watchdog_trips_when_no_frame_arrives_at_all;
   request_deadline_is_enforced_caller_side;
   request_ignoring_eresult_leaves_the_result_to_the_caller; for_test_handle_queues_commands].
Definition connection_tests : list bool :=
  [decode_multi_splits_embedded_messages; decode_multi_flattens_nested_multi;
   decode_multi_handles_gzip; decode_multi_rejects_invalid_gzip;
   decode_multi_rejects_truncated_embedded_message; decode_multi_rejects_absurd_size_unzipped;
   decode_multi_rejects_deep_nesting; decode_multi_allows_nesting_within_the_cap;
   decode_multi_allows_exactly_the_cap; decode_multi_rejects_one_past_the_cap;
   read_frame_records_control_frames_as_activity; read_frame_touches_liveness_on_a_pong_alone;
   transient_logon_eresults_are_retryable; try_another_cm_is_forty_eight;
   terminal_logon_eresults_are_auth_rejected].

Lemma bomb_is_refused : decode_multi_rejects_decompression_bomb.
Proof.
  intros bomb inflated stream_err Hlen. unfold decode_multi. cbn [decode_multi_fuel].
  rewrite decide_False by done. rewrite (@decode_encode _ _ _ multi_message_laws) by done. cbn [map_err].
  unfold multi_payload. cbn [mu_size_unzipped mu_message_body unwrap_or].
  rewrite decide_False by done. rewrite decide_False by done.
  unfold gunzip. rewrite decide_True by (unfold MAX_MULTI_UNZIPPED in *; lia). cbn [mbind result_bind].
  rewrite decide_True; [by eexists|]. unfold len in *. rewrite length_take. unfold MAX_MULTI_UNZIPPED in *. lia.
Qed.
