(* ===== verification/TestsClients.v ===== *)
(** * The repository's unit tests, run on the model: friends and personas

    The [#[cfg(test)]] functions of src/friends.rs and src/persona.rs.  Where the tests drive
    a handle with no driver behind it ([SessionHandle::for_test]), so does [TestSession]: an
    instance of the session interface that answers a request with what the test queued and
    records what was sent. *)
From S2P Require Import Prelude Errors RustStr Proto Wire Codec Connection Driver Session Friends Persona.
From S2P Require Import TestsCore.
#[local] Set Default Goal Selector "!".
Import Wire.Instances.

(** ** Message formats *)
#[local] Existing Instances friends_list_message nickname_list_message groups_list_message
  add_to_group_message remove_from_group_message am_response_message add_friend_message
  add_friend_response_message persona_state_message set_nickname_message create_group_message
  create_group_response_message delete_group_message manage_group_message.
#[local] Instance hide_friend_message : Message CMsgClientHideFriend :=
  wire_message (w_iso (λ '(a, b), Build_CMsgClientHideFriend a b)
    (λ m, (hf_friendid m, hf_hide m)) (w_pair (w_option (w_uint 8)) (w_option w_bool))).
#[local] Instance friend_msg_message : Message CMsgClientFriendMsg :=
  wire_message (w_iso (λ '(a, b, c, d), Build_CMsgClientFriendMsg a b c d)
    (λ m, (fm_steamid m, fm_chat_entry_type m, fm_message m, fm_rest m))
    (w_pair (w_pair (w_pair (w_option (w_uint 8)) (w_option (w_int 4))) (w_option w_bytes)) w_bytes)).

(** ** Equality of what is asserted *)
#[export] Instance relationship_eq_dec : EqDecision FriendRelationship.
Proof. solve_decision. Defined.
#[export] Instance friend_eq_dec : EqDecision Friend.
Proof. solve_decision. Defined.
#[export] Instance nickname_eq_dec : EqDecision Nickname.
Proof. solve_decision. Defined.
#[export] Instance friends_group_eq_dec : EqDecision FriendsGroup.
Proof. solve_decision. Defined.
#[export] Instance chat_entry_type_eq_dec : EqDecision ChatEntryType.
Proof. solve_decision. Defined.
#[export] Instance persona_state_eq_dec : EqDecision PersonaState.
Proof. solve_decision. Defined.

(** [T::decode(m.encode_to_vec())]. *)
Definition reread {M} `{Message M} (m : M) : result string M := msg_decode (encode_to_vec m).

(** ** [friends.rs]: lists *)
Definition relationship_maps_known_values : bool :=
  assert_eq (relationship_from_raw 0) RelNone && assert_eq (relationship_from_raw 3) RelFriend &&
  assert_eq (relationship_from_raw 4) RequestInitiator &&
  assert_eq (relationship_from_raw 42) (RelUnknown 42).
Definition friends_from_maps_entries_and_skips_idless : bool :=
  let list := {| fl_bincremental := Some false;
    fl_friends := [{| lf_ulfriendid := Some 111; lf_efriendrelationship := Some 3 |};
                   {| lf_ulfriendid := Some 222; lf_efriendrelationship := Some 2 |};
                   {| lf_ulfriendid := None; lf_efriendrelationship := Some 3 |}];
    fl_rest := [] |} in
  let friends := friends_from list in
  assert_eq (length friends) 2%nat &&
  on_some (friends !! 0%nat) (λ f, assert_eq (fr_steam_id f) 111 && assert_eq (fr_relationship f) RelFriend) &&
  on_some (friends !! 1%nat) (λ f, assert_eq (fr_relationship f) RequestRecipient).
Definition friends_list_round_trips_through_a_frame : bool :=
  let body := encode_to_vec {| fl_bincremental := Some false;
    fl_friends := [{| lf_ulfriendid := Some 76561198000000000; lf_efriendrelationship := Some 3 |}];
    fl_rest := [] |} in
  let msg := {| sm_emsg := EMSG_CLIENT_FRIENDS_LIST; sm_header := header_default; sm_body := body |} in
  on_ok (msg_decode (sm_body msg)) (λ decoded : CMsgClientFriendsList,
    let friends := friends_from decoded in
    assert_eq (length friends) 1%nat &&
    on_some (friends !! 0%nat) (λ f, assert_eq (fr_steam_id f) 76561198000000000)).
Definition nicknames_from_maps_entries_and_skips_idless : bool :=
  let list := {| nl_removal := Some false; nl_incremental := Some false;
    nl_nicknames := [{| pn_steamid := Some 111; pn_nickname := Some "rival"%string |};
                     {| pn_steamid := Some 222; pn_nickname := Some ""%string |};
                     {| pn_steamid := None; pn_nickname := Some "ghost"%string |}] |} in
  let nicks := nicknames_from list in
  assert_eq (length nicks) 2%nat &&
  on_some (nicks !! 0%nat) (λ n, assert_eq (nn_steam_id n) 111 && assert_eq (nn_nickname n) "rival"%string) &&
  on_some (nicks !! 1%nat) (λ n, assert_eq (nn_steam_id n) 222 && assert_eq (nn_nickname n) ""%string).
Definition nicknames_list_round_trips_through_a_frame : bool :=
  on_ok (reread {| nl_removal := Some false; nl_incremental := Some false;
    nl_nicknames := [{| pn_steamid := Some 76561198000000000; pn_nickname := Some "old buddy"%string |}] |})
  (λ decoded,
    let msg := {| sm_emsg := EMSG_CLIENT_PLAYER_NICKNAME_LIST; sm_header := header_default;
                  sm_body := encode_to_vec decoded |} in
    on_ok (msg_decode (sm_body msg)) (λ list : CMsgClientPlayerNicknameList,
      assert_eq (nn_nickname <$> nicknames_from list) ["old buddy"%string])).

Definition set_nickname_request_round_trips : bool :=
  on_ok (reread {| sn_steamid := Some 76561198000000000; sn_nickname := Some "bestie"%string |}) (λ back,
    assert_eq (sn_steamid back) (Some 76561198000000000) && assert_eq (sn_nickname back) (Some "bestie"%string)).
Definition set_nickname_response_eresult_ok_decodes : bool :=
  on_ok (reread {| am_eresult := Some 1 |}) (λ back, assert_eq (am_eresult back) (Some ERESULT_OK_U32)).
Definition hide_friend_request_round_trips : bool :=
  on_ok (reread {| hf_friendid := Some 76561198000000000; hf_hide := Some true |}) (λ back,
    assert_eq (hf_friendid back) (Some 76561198000000000) && assert_eq (hf_hide back) (Some true)).
Definition unhide_request_round_trips : bool :=
  on_ok (reread {| hf_friendid := Some 99; hf_hide := Some false |}) (λ back,
    assert_eq (hf_hide back) (Some false)).
Definition send_message_request_round_trips : bool :=
  let text := as_bytes "hello, world" in
  on_ok (reread {| fm_steamid := Some 76561198000000000; fm_chat_entry_type := Some 1;
                   fm_message := Some text; fm_rest := [] |}) (λ back,
    assert_eq (fm_steamid back) (Some 76561198000000000) && assert_eq (fm_chat_entry_type back) (Some 1) &&
    assert_eq (fm_message back) (Some text)).
Definition send_typing_request_round_trips : bool :=
  on_ok (reread {| fm_steamid := Some 76561198000000000; fm_chat_entry_type := Some 2;
                   fm_message := None; fm_rest := [] |}) (λ back,
    assert_eq (fm_chat_entry_type back) (Some 2) && is_none (fm_message back)).
Definition create_friends_group_request_round_trips : bool :=
  on_ok (reread {| cg_steamid := None; cg_groupname := Some "cs2 duo partners"%string;
                   cg_steamid_friends := [11; 22; 33] |}) (λ back,
    assert_eq (cg_groupname back) (Some "cs2 duo partners"%string) &&
    assert_eq (cg_steamid_friends back) [11; 22; 33]).
Definition create_friends_group_response_with_eresult_decodes : bool :=
  on_ok (reread {| cgr_eresult := Some 1; cgr_groupid := Some 7 |}) (λ back,
    assert_eq (cgr_eresult back) (Some ERESULT_OK_U32) && assert_eq (cgr_groupid back) (Some 7)).
Definition delete_friends_group_request_round_trips : bool :=
  on_ok (reread {| dg_steamid := None; dg_groupid := Some 42 |}) (λ back,
    assert_eq (dg_groupid back) (Some 42)).
Definition rename_via_manage_request_round_trips : bool :=
  on_ok (reread {| mg_groupid := Some 7; mg_groupname := Some "new name"%string;
                   mg_steamid_friends_added := []; mg_steamid_friends_removed := [] |}) (λ back,
    assert_eq (mg_groupid back) (Some 7) && assert_eq (mg_groupname back) (Some "new name"%string)).
Definition add_friend_to_group_request_round_trips : bool :=
  on_ok (reread {| ag_groupid := Some 7; ag_steamiduser := Some 76561198000000000 |}) (λ back,
    assert_eq (ag_groupid back) (Some 7) && assert_eq (ag_steamiduser back) (Some 76561198000000000)).
Definition remove_friend_from_group_request_round_trips : bool :=
  on_ok (reread {| rg_groupid := Some 7; rg_steamiduser := Some 76561198000000000 |}) (λ back,
    assert_eq (rg_groupid back) (Some 7) && assert_eq (rg_steamiduser back) (Some 76561198000000000)).

Definition groups_from_maps_entries_to_memberships : bool :=
  let list := {| gl_bremoval := Some false; gl_bincremental := Some false;
    gl_friend_groups := [{| pg_n_group_id := Some 1; pg_str_group_name := Some "cs2 duo partners"%string |};
                         {| pg_n_group_id := Some 2; pg_str_group_name := Some "work friends"%string |};
                         {| pg_n_group_id := None; pg_str_group_name := Some "ghost"%string |}];
    gl_memberships := [{| pm_ul_steam_id := Some 11; pm_n_group_id := Some 1 |};
                       {| pm_ul_steam_id := Some 22; pm_n_group_id := Some 1 |};
                       {| pm_ul_steam_id := Some 33; pm_n_group_id := Some 2 |}] |} in
  let groups := groups_from list in
  assert_eq (length groups) 2%nat &&
  on_some (groups !! 0%nat) (λ g, assert_eq (fg_group_id g) 1 &&
    assert_eq (fg_name g) "cs2 duo partners"%string && assert_eq (fg_members g) [11; 22]) &&
  on_some (groups !! 1%nat) (λ g, assert_eq (fg_group_id g) 2 && assert_eq (fg_members g) [33]).
Definition groups_list_round_trips_through_a_frame : bool :=
  let body := encode_to_vec {| gl_bremoval := Some false; gl_bincremental := Some false;
    gl_friend_groups := [{| pg_n_group_id := Some 99; pg_str_group_name := Some "squad"%string |}];
    gl_memberships := [{| pm_ul_steam_id := Some 76561198000000000; pm_n_group_id := Some 99 |}] |} in
  let msg := {| sm_emsg := EMSG_CLIENT_FRIENDS_GROUPS_LIST; sm_header := header_default; sm_body := body |} in
  on_ok (msg_decode (sm_body msg)) (λ decoded : CMsgClientFriendsGroupsList,
    let groups := groups_from decoded in
    assert_eq (length groups) 1%nat &&
    on_some (groups !! 0%nat) (λ g, assert_eq (fg_name g) "squad"%string &&
      assert_eq (fg_members g) [76561198000000000])).
Definition emsg_constants_match_upstream_proto : bool :=
  assert_eq EMSG_CLIENT_FRIEND_MSG 718 && assert_eq EMSG_CLIENT_HIDE_FRIEND 5552 &&
  assert_eq EMSG_CLIENT_FRIENDS_GROUPS_LIST 5553 && assert_eq EMSG_CLIENT_PLAYER_NICKNAME_LIST 5587 &&
  assert_eq EMSG_AM_CLIENT_SET_PLAYER_NICKNAME 5588 && assert_eq EMSG_AM_CLIENT_CREATE_FRIENDS_GROUP 5560 &&
  assert_eq EMSG_AM_CLIENT_DELETE_FRIENDS_GROUP 5562 && assert_eq EMSG_AM_CLIENT_MANAGE_FRIENDS_GROUP 5564 &&
  assert_eq EMSG_AM_CLIENT_ADD_FRIEND_TO_GROUP 5566 && assert_eq EMSG_AM_CLIENT_REMOVE_FRIEND_FROM_GROUP 5568.

(** ** [friends.rs]: calls on a handle with no driver *)

(** [SessionHandle::for_test] and the fake driver: the answers queued for the requests, the
    pushes sent to a waiting call, the snapshot cache, whether the test still holds the
    command receiver, and the commands that came. *)
Inductive Sent := SentRequest (emsg : Z) (body : list byte) | SentNotify (emsg : Z) (body : list byte).
Record TestSession := {
  ts_answers : list SteamMessage;
  ts_pushes : list SteamMessage;
  ts_snapshots : gmap Z (list byte);
  ts_dropped : bool;
  ts_sent : list Sent
}.
Definition test_handle (answers pushes : list SteamMessage) (snapshots : gmap Z (list byte)) : TestSession :=
  {| ts_answers := answers; ts_pushes := pushes; ts_snapshots := snapshots; ts_dropped := false;
     ts_sent := [] |}.
Definition record_sent (s : TestSession) (answers : list SteamMessage) (c : Sent) : TestSession :=
  {| ts_answers := answers; ts_pushes := ts_pushes s; ts_snapshots := ts_snapshots s;
     ts_dropped := ts_dropped s; ts_sent := ts_sent s ++ [c] |}.
Definition stopped_error : Error := WebSocket "session driver stopped".
#[export] Instance test_session : SessionOps TestSession := {|
  so_exchange := λ emsg body _ s,
    if ts_dropped s then (Ready (Err stopped_error), s)
    else match ts_answers s with
         | a :: rest => (Ready (Ok a), record_sent s rest (SentRequest emsg body))
         | [] => (Pending, record_sent s [] (SentRequest emsg body))
         end;
  so_notify := λ emsg body s,
    if ts_dropped s then (Ready (Err stopped_error), s)
    else (Ready (Ok tt), record_sent s (ts_answers s) (SentNotify emsg body));
  so_cached := λ s emsg, ts_snapshots s !! emsg;
  so_subscribe := λ _, 0%nat;
  so_preempt := id;
  so_wait := λ _ _ s, (RecvMsg <$> ts_pushes s, false, s) |}.

Definition answer_one_with_header {A} (body : list byte) (header : CMsgProtoBufHeader) (expect_emsg : Z)
    (op : async TestSession A) (k : Result A → bool) : bool :=
  let answer := {| sm_emsg := expect_emsg; sm_header := header; sm_body := body |} in
  match op (test_handle [answer] [] ∅) with
  | (Ready r, s) =>
      match ts_sent s with [SentRequest emsg _] => assert_eq emsg expect_emsg && k r | _ => false end
  | (Pending, _) => false
  end.
Definition answer_one {A} (body : list byte) (expect_emsg : Z) (op : async TestSession A)
    (k : Result A → bool) : bool :=
  answer_one_with_header body header_default expect_emsg op k.
Definition remote_mentions (e : Error) (part : string) : bool :=
  match e with Remote text => contains (as_bytes part) (as_bytes text) | _ => false end.

Definition add_friend_answered (response : CMsgClientAddFriendResponse) : (Result AddedFriend → bool) → bool :=
  answer_one (encode_to_vec response) EMSG_CLIENT_ADD_FRIEND (add_friend 76561198000000001).
Definition add_friend_accepts_ok : bool :=
  add_friend_answered {| afr_eresult := Some eresult.OK; afr_steam_id_added := Some 111;
                         afr_persona_name_added := Some "mate"%string |} (λ r, on_ok r (λ added,
    assert_eq (ad_steam_id added) 111 && assert_eq (ad_persona_name added) "mate"%string &&
    assert_eq (ad_eresult added) eresult.OK)).
Definition add_friend_accepts_duplicate_request : bool :=
  add_friend_answered {| afr_eresult := Some eresult.DUPLICATE_REQUEST; afr_steam_id_added := Some 222;
                         afr_persona_name_added := None |} (λ r, on_ok r (λ added,
    assert_eq (ad_steam_id added) 222 && assert_eq (ad_eresult added) eresult.DUPLICATE_REQUEST)).
Definition add_friend_ignores_a_non_ok_header_eresult : bool :=
  let response := {| afr_eresult := Some eresult.DUPLICATE_REQUEST; afr_steam_id_added := Some 555;
                     afr_persona_name_added := Some "old mate"%string |} in
  let header := {| h_steamid := None; h_client_sessionid := None; h_jobid_source := None;
                   h_jobid_target := None; h_eresult := Some eresult.DUPLICATE_REQUEST;
                   h_error_message := None; h_rest := [] |} in
  answer_one_with_header (encode_to_vec response) header EMSG_CLIENT_ADD_FRIEND
    (add_friend 76561198000000001) (λ r, on_ok r (λ added,
    assert_eq (ad_steam_id added) 555 && assert_eq (ad_eresult added) eresult.DUPLICATE_REQUEST)).
Definition add_friend_rejects_non_ok_eresult_carrying_a_steam_id : bool :=
  add_friend_answered {| afr_eresult := Some 25; afr_steam_id_added := Some 333;
                         afr_persona_name_added := Some "stranger"%string |} (λ r,
    on_err r (λ e, remote_mentions e "eresult 25")).
Definition add_friend_rejects_ok_without_a_steam_id : bool :=
  add_friend_answered {| afr_eresult := Some eresult.OK; afr_steam_id_added := None;
                         afr_persona_name_added := None |} (λ r,
    on_err r (λ e, match e with Remote _ => true | _ => false end)).
Definition add_friend_defaults_a_missing_eresult_to_fail : bool :=
  add_friend_answered {| afr_eresult := None; afr_steam_id_added := Some 444;
                         afr_persona_name_added := None |} (λ r,
    on_err r (λ e, remote_mentions e "eresult 2")).

Definition create_group_answered (response : CMsgClientCreateFriendsGroupResponse) :
    (Result NewFriendsGroup → bool) → bool :=
  answer_one (encode_to_vec response) EMSG_AM_CLIENT_CREATE_FRIENDS_GROUP (create_friends_group "squad" []).
Definition create_friends_group_keeps_a_zero_group_id : bool :=
  create_group_answered {| cgr_eresult := Some 1; cgr_groupid := Some 0 |} (λ r, on_ok r (λ group,
    assert_eq (ng_group_id group) 0 && assert_eq (ng_name group) "squad"%string)).
Definition create_friends_group_rejects_a_missing_group_id : bool :=
  create_group_answered {| cgr_eresult := Some 1; cgr_groupid := None |} (λ r,
    on_err r (λ e, match e with Remote _ => true | _ => false end)).

(** The one notification a call sends. *)
Definition notified (op : async TestSession unit) (k : Z → list byte → bool) : bool :=
  match op (test_handle [] [] ∅) with
  | (Ready r, s) => is_ok r && match ts_sent s with [SentNotify emsg body] => k emsg body | _ => false end
  | (Pending, _) => false
  end.
Definition send_message_tags_the_frame_from_chat_entry_type : bool :=
  notified (send_message 111 "gg") (λ emsg body,
    assert_eq emsg EMSG_CLIENT_FRIEND_MSG &&
    on_ok (msg_decode body) (λ sent : CMsgClientFriendMsg,
      assert_eq (fm_chat_entry_type sent) (Some (chat_raw Text)) &&
      assert_eq (fm_message sent) (Some (as_bytes "gg")))).
Definition send_typing_tags_the_frame_from_chat_entry_type : bool :=
  notified (send_typing 111) (λ _ body,
    on_ok (msg_decode body) (λ sent : CMsgClientFriendMsg,
      assert_eq (fm_chat_entry_type sent) (Some (chat_raw Typing)) && is_none (fm_message sent))).
Definition chat_entry_type_round_trips_wire_values : bool :=
  assert_eq (chat_raw Text) 1 && assert_eq (chat_raw Typing) 2 && assert_eq (chat_raw InviteGame) 3 &&
  for_all [Text; Typing; InviteGame; ChatUnknown 11] (λ entry,
    assert_eq (chat_from_raw (chat_raw entry)) entry).

Definition nickname_list (removal incremental : option bool) : CMsgClientPlayerNicknameList :=
  {| nl_removal := removal; nl_incremental := incremental; nl_nicknames := [] |}.
Definition full_nickname_list_excludes_deltas_and_removals : bool :=
  is_full_nicknames (nickname_list (Some false) (Some false)) &&
  is_full_nicknames (nickname_list None None) &&
  negb (is_full_nicknames (nickname_list (Some true) (Some false))) &&
  negb (is_full_nicknames (nickname_list (Some false) (Some true))).
Definition groups_list (bremoval bincremental : option bool) : CMsgClientFriendsGroupsList :=
  {| gl_bremoval := bremoval; gl_bincremental := bincremental; gl_friend_groups := []; gl_memberships := [] |}.
Definition full_groups_list_excludes_deltas_and_removals : bool :=
  is_full_groups (groups_list (Some false) (Some false)) && is_full_groups (groups_list None None) &&
  negb (is_full_groups (groups_list (Some true) (Some false))) &&
  negb (is_full_groups (groups_list (Some false) (Some true))).

(** ** [persona.rs] *)
Definition STEAM_ID : Z := 76561198702770421.
Definition profile_url_uses_profiles_path : bool :=
  assert_eq (profile_url STEAM_ID) "https://steamcommunity.com/profiles/76561198702770421"%string.
Definition avatar_url_hex_encodes_hash : bool :=
  let hash := [x01; xab; xff; x00] in
  assert_eq (avatar_url hash) "https://avatars.steamstatic.com/01abff00_full.jpg"%string &&
  assert_eq (avatar_url_sized hash Medium) "https://avatars.steamstatic.com/01abff00_medium.jpg"%string &&
  assert_eq (avatar_url_sized hash Small) "https://avatars.steamstatic.com/01abff00.jpg"%string.
Definition empty_or_zero_hash_uses_default_avatar : bool :=
  let expected := AVATAR_HOST +:+ DEFAULT_AVATAR_HASH +:+ "_full.jpg" in
  assert_eq (avatar_url []) expected && assert_eq (avatar_url (repeat x00 5)) expected.
Definition persona_state_maps_known_values : bool :=
  assert_eq (persona_from_raw 0) Offline && assert_eq (persona_from_raw 1) Online &&
  assert_eq (persona_from_raw 7) Invisible && assert_eq (persona_from_raw 99) (PersonaUnknown 99).

Definition persona_friend (id : Z) (state : option Z) (app : option Z) (name : option string)
    (avatar : option (list byte)) (game : option string) : PersonaFriend :=
  {| pf_friendid := Some id; pf_persona_state := state; pf_game_played_app_id := app;
     pf_player_name := name; pf_avatar_hash := avatar; pf_game_name := game; pf_gameid := None;
     pf_rest := [] |}.
Definition persona_push (flags : Z) (friends : list PersonaFriend) : SteamMessage :=
  {| sm_emsg := EMSG_CLIENT_PERSONA_STATE; sm_header := header_default;
     sm_body := encode_to_vec {| pst_status_flags := Some flags; pst_friends := friends |} |}.
Definition deadbeef : list byte := [xde; xad; xbe; xef].

Definition summary_extracts_the_requested_friend : bool :=
  let msg := persona_push PERSONA_FLAGS
    [persona_friend 999 None None (Some "someone else"%string) None None;
     persona_friend STEAM_ID (Some 1) (Some 730) (Some "roidbot"%string) (Some deadbeef)
       (Some "Counter-Strike 2"%string)] in
  on_ok (summary_from_persona_state msg STEAM_ID) (λ o, on_some o (λ summary,
    assert_eq (ps_persona_name summary) "roidbot"%string && assert_eq (ps_state summary) Online &&
    assert_eq (ps_avatar_hash summary) "deadbeef"%string &&
    negb (is_none (strip_suffix (as_bytes "deadbeef_full.jpg") (as_bytes (ps_avatar_url summary)))) &&
    on_some (ps_current_game summary) (λ game,
      assert_eq (cg_app_id game) 730 && assert_eq (cg_name game) "Counter-Strike 2"%string))).
Definition extract_steam_id64_parses_community_xml : bool :=
  assert_eq (extract_steam_id64 (as_bytes
    "<?xml version='1.0'?><profile><steamID64>76561197960287930</steamID64><steamID><![CDATA[Rabscuttle]]></steamID></profile>"))
    (Some 76561197960287930).
Definition extract_steam_id64_none_when_absent : bool :=
  is_none (extract_steam_id64 (as_bytes "<response><error>No match</error></response>")).
Definition summary_absent_when_the_player_name_bit_is_missing : bool :=
  on_ok (summary_from_persona_state
    (persona_push 1 [persona_friend STEAM_ID (Some 1) None None None None]) STEAM_ID) is_none.
Definition summary_accepts_a_player_name_only_reply : bool :=
  let msg := persona_push 2 [persona_friend STEAM_ID None None (Some "stranger"%string) (Some deadbeef) None] in
  on_ok (summary_from_persona_state msg STEAM_ID) (λ o, on_some o (λ summary,
    assert_eq (ps_persona_name summary) "stranger"%string &&
    assert_eq (ps_avatar_hash summary) "deadbeef"%string && assert_eq (ps_state summary) Offline &&
    is_none (ps_current_game summary))).

Definition profile_response (code time : option Z) (real city : option string) :
    CMsgClientFriendProfileInfoResponse :=
  {| fpr_eresult := code; fpr_steamid_friend := None; fpr_time_created := time; fpr_real_name := real;
     fpr_city_name := city; fpr_state_name := None; fpr_country_name := None; fpr_headline := None;
     fpr_summary := None |}.
Definition profile_info_rejects_non_ok_eresult : bool :=
  on_err (profile_info_from_response (profile_response (Some 40) None None None) STEAM_ID) (λ e,
    remote_mentions e "eresult 40").
Definition profile_info_missing_eresult_is_the_proto2_fail_default : bool :=
  on_err (profile_info_from_response (profile_response None None None None) STEAM_ID) (λ e,
    remote_mentions e "eresult 2").
Definition profile_info_normalizes_empty_strings : bool :=
  let response := profile_response (Some eresult.OK) (Some 0) (Some "Gabe"%string) (Some ""%string) in
  on_ok (profile_info_from_response response STEAM_ID) (λ info,
    assert_eq (pi_steam_id info) STEAM_ID && assert_eq (pi_real_name info) (Some "Gabe"%string) &&
    is_none (pi_city info) && is_none (pi_created_at info)).
Definition summary_absent_when_friend_missing : bool :=
  on_ok (summary_from_persona_state (persona_push PERSONA_FLAGS []) STEAM_ID) is_none.

(** ** The suites *)
Definition friends_tests : list bool :=
  [relationship_maps_known_values; friends_from_maps_entries_and_skips_idless;
   friends_list_round_trips_through_a_frame; nicknames_from_maps_entries_and_skips_idless;
   nicknames_list_round_trips_through_a_frame; set_nickname_request_round_trips;
   set_nickname_response_eresult_ok_decodes; hide_friend_request_round_trips;
   unhide_request_round_trips; send_message_request_round_trips; send_typing_request_round_trips;
   create_friends_group_request_round_trips; create_friends_group_response_with_eresult_decodes;
   delete_friends_group_request_round_trips; rename_via_manage_request_round_trips;
   add_friend_to_group_request_round_trips; remove_friend_from_group_request_round_trips;
   groups_from_maps_entries_to_memberships; groups_list_round_trips_through_a_frame;
   emsg_constants_match_upstream_proto; add_friend_accepts_ok; add_friend_accepts_duplicate_request;
   add_friend_ignores_a_non_ok_header_eresult; add_friend_rejects_non_ok_eresult_carrying_a_steam_id;
   add_friend_rejects_ok_without_a_steam_id; add_friend_defaults_a_missing_eresult_to_fail;
   create_friends_group_keeps_a_zero_group_id; create_friends_group_rejects_a_missing_group_id;
   send_message_tags_the_frame_from_chat_entry_type; send_typing_tags_the_frame_from_chat_entry_type;
   chat_entry_type_round_trips_wire_values; full_nickname_list_excludes_deltas_and_removals;
   full_groups_list_excludes_deltas_and_removals].
Definition persona_tests : list bool :=
  [profile_url_uses_profiles_path; avatar_url_hex_encodes_hash; empty_or_zero_hash_uses_default_avatar;
   persona_state_maps_known_values; summary_extracts_the_requested_friend;
   extract_steam_id64_parses_community_xml; extract_steam_id64_none_when_absent;
   summary_absent_when_the_player_name_bit_is_missing; summary_accepts_a_player_name_only_reply;
   profile_info_rejects_non_ok_eresult; profile_info_missing_eresult_is_the_proto2_fail_default;
   profile_info_normalizes_empty_strings; summary_absent_when_friend_missing].
