(* ===== verification/TestsOffline.v ===== *)
(** * The repository's offline integration tests, run on the model

    tests/session_handlers.rs (the friends and persona handlers on a handle with no
    driver), tests/proxy_handshake.rs (the proxy handshakes against a proxy spoken by hand)
    and tests/smoke.rs.  In the SOCKS5 tests the fake server's side of the protocol is
    replaced by what [tokio_socks] makes of it: the address, the target and the credentials
    this code passes on, and success or an error.  Left out of tests/smoke.rs are the two
    tests of the generated message types. *)
From S2P Require Import Prelude Errors RustStr Proxy Proto Wire Codec Connection Driver Session Friends.
From S2P Require Import Persona Budget Dial Totp SignIn Redaction Crates TestsCore TestsClients.
#[local] Set Default Goal Selector "!".
Import Wire.Instances.

(** ** Message formats *)
#[local] Existing Instances friends_list_message add_to_group_message remove_from_group_message
  persona_state_message request_data_message set_nickname_message delete_group_message
  manage_group_message.
#[local] Instance am_or_default : Message AmResponse :=
  with_default {| am_eresult := None |} am_response_message.
Definition w_profile_info : wire CMsgClientFriendProfileInfoResponse :=
  w_iso (λ '(a, b, c, d, e, f, g, h, i), Build_CMsgClientFriendProfileInfoResponse a b c d e f g h i)
    (λ p, (fpr_eresult p, fpr_steamid_friend p, fpr_time_created p, fpr_real_name p, fpr_city_name p,
           fpr_state_name p, fpr_country_name p, fpr_headline p, fpr_summary p))
    (w_pair (w_pair (w_pair (w_pair (w_pair (w_pair (w_pair (w_pair
      (w_option (w_int 4)) (w_option (w_uint 8))) (w_option (w_uint 4))) (w_option w_string))
      (w_option w_string)) (w_option w_string)) (w_option w_string)) (w_option w_string))
      (w_option w_string)).
#[local] Instance profile_info_message : Message CMsgClientFriendProfileInfoResponse :=
  wire_message w_profile_info.
#[local] Instance profile_request_message : Message CMsgClientFriendProfileInfo :=
  wire_message (w_iso Build_CMsgClientFriendProfileInfo fpi_steamid_friend (w_option (w_uint 8))).

(** ** [tests/session_handlers.rs] *)
Definition SELF_ID : Z := 76561198000000000.
Definition OTHER_ID : Z := 76561198000000001.
Definition ERESULT_LIMIT_EXCEEDED : Z := 25.

Definition answer_request {A} (expect_emsg : Z) (body : list byte) (header_eresult : option Z)
    (op : async TestSession A) (k : Result A → bool) : bool :=
  answer_one_with_header body
    {| h_steamid := None; h_client_sessionid := None; h_jobid_source := None; h_jobid_target := None;
       h_eresult := header_eresult; h_error_message := None; h_rest := [] |} expect_emsg op k.
Definition assert_remote {A} (needle : string) (r : Result A) : bool :=
  on_err r (λ e, remote_mentions e needle).
Definition refusal : list byte := encode_to_vec {| am_eresult := Some ERESULT_LIMIT_EXCEEDED |}.

Definition set_nickname_accepts_ok : bool :=
  answer_request EMSG_AM_CLIENT_SET_PLAYER_NICKNAME (encode_to_vec {| am_eresult := Some 1 |}) None
    (set_nickname OTHER_ID "rival") is_ok.
Definition set_nickname_rejects_a_non_ok_eresult : bool :=
  answer_request EMSG_AM_CLIENT_SET_PLAYER_NICKNAME refusal None
    (set_nickname OTHER_ID "rival") (assert_remote "eresult 25").
Definition clear_nickname_rejects_a_non_ok_eresult : bool :=
  answer_request EMSG_AM_CLIENT_SET_PLAYER_NICKNAME refusal None
    (clear_nickname OTHER_ID) (assert_remote "eresult 25").
Definition an_empty_reply_body_is_the_proto2_fail_default : bool :=
  answer_request EMSG_AM_CLIENT_SET_PLAYER_NICKNAME [] None
    (set_nickname OTHER_ID "rival") (assert_remote "eresult 2").
Definition delete_friends_group_rejects_a_non_ok_eresult : bool :=
  answer_request EMSG_AM_CLIENT_DELETE_FRIENDS_GROUP refusal None
    (delete_friends_group 7) (assert_remote "eresult 25").
Definition rename_friends_group_rejects_a_non_ok_eresult : bool :=
  answer_request EMSG_AM_CLIENT_MANAGE_FRIENDS_GROUP refusal None
    (rename_friends_group 7 "squad") (assert_remote "eresult 25").
Definition remove_friends_from_group_rejects_a_non_ok_eresult : bool :=
  answer_request EMSG_AM_CLIENT_REMOVE_FRIEND_FROM_GROUP refusal None
    (remove_friends_from_group 7 [OTHER_ID]) (assert_remote "eresult 25").
Definition add_friends_to_group_stops_at_the_first_rejection : bool :=
  answer_request EMSG_AM_CLIENT_ADD_FRIEND_TO_GROUP refusal None
    (add_friends_to_group 7 [OTHER_ID; OTHER_ID + 1]) (assert_remote "eresult 25").
Definition a_non_ok_header_eresult_fails_the_request : bool :=
  answer_request EMSG_AM_CLIENT_SET_PLAYER_NICKNAME (encode_to_vec {| am_eresult := Some 1 |}) (Some 15)
    (set_nickname OTHER_ID "rival") (assert_remote "eresult 15").

Definition friends_body (incremental : bool) (id : Z) : list byte :=
  encode_to_vec {| fl_bincremental := Some incremental;
                   fl_friends := [{| lf_ulfriendid := Some id; lf_efriendrelationship := Some 3 |}];
                   fl_rest := [] |}.
Definition one_friend (r : poll (Result (list Friend))) : bool :=
  match r with
  | Ready (Ok [f]) => assert_eq (fr_steam_id f) OTHER_ID && assert_eq (fr_relationship f) RelFriend
  | _ => false
  end.
Definition request_friends_list_reads_the_cached_snapshot : bool :=
  one_friend (request_friends_list
    (test_handle [] [] {[ EMSG_CLIENT_FRIENDS_LIST := friends_body false OTHER_ID ]})).1.
Definition request_friends_list_skips_an_incremental_cached_delta : bool :=
  let full := {| sm_emsg := EMSG_CLIENT_FRIENDS_LIST; sm_header := header_default;
                 sm_body := friends_body false OTHER_ID |} in
  one_friend (request_friends_list
    (test_handle [] [full] {[ EMSG_CLIENT_FRIENDS_LIST := friends_body true 999 ]})).1.

(** The call has sent its one notification and still waits, or has come to an end. *)
Definition start_player_summary (pushes : list SteamMessage)
    (k : poll (Result PlayerSummary) → bool) : bool :=
  let '(r, s) := request_player_summary OTHER_ID (test_handle [] pushes ∅) in
  k r && match ts_sent s with
         | [SentNotify emsg body] =>
             assert_eq emsg EMSG_CLIENT_REQUEST_FRIEND_DATA &&
             on_ok (msg_decode body) (λ sent : CMsgClientRequestFriendData,
               assert_eq (rd_friends sent) [OTHER_ID] &&
               on_some (rd_persona_state_requested sent) (λ flags,
                 assert_eq (Z.land flags 1) 1 && assert_eq (Z.land flags 2) 2))
         | _ => false
         end.
Definition request_player_summary_ignores_a_partial_persona_state : bool :=
  let partial := persona_push 1 [persona_friend OTHER_ID (Some 1) None None None None] in
  let other := persona_push 3 [persona_friend SELF_ID None None (Some "someone else"%string) None None] in
  let full := persona_push 3 [persona_friend OTHER_ID (Some 1) None (Some "roidbot"%string)
                                (Some deadbeef) None] in
  start_player_summary [partial; other] (λ r, match r with Pending => true | Ready _ => false end) &&
  start_player_summary [partial; other; full] (λ r,
    match r with
    | Ready (Ok summary) =>
        assert_eq (ps_steam_id summary) OTHER_ID && assert_eq (ps_persona_name summary) "roidbot"%string &&
        assert_eq (ps_avatar_hash summary) "deadbeef"%string && is_none (ps_current_game summary)
    | _ => false
    end).
Definition request_profile_info_rejects_a_non_ok_eresult : bool :=
  answer_request EMSG_CLIENT_FRIEND_PROFILE_INFO
    (encode_to_vec (profile_response (Some 15) None (Some "Gabe"%string) None)) None
    (request_profile_info OTHER_ID) (assert_remote "eresult 15").
Definition request_profile_info_maps_an_ok_response : bool :=
  answer_request EMSG_CLIENT_FRIEND_PROFILE_INFO
    (encode_to_vec {| fpr_eresult := Some 1; fpr_steamid_friend := Some OTHER_ID;
                      fpr_time_created := Some 1234; fpr_real_name := Some "Gabe"%string;
                      fpr_city_name := Some ""%string; fpr_state_name := None; fpr_country_name := None;
                      fpr_headline := None; fpr_summary := None |}) None
    (request_profile_info OTHER_ID) (λ r, on_ok r (λ info,
      assert_eq (pi_steam_id info) OTHER_ID && assert_eq (pi_real_name info) (Some "Gabe"%string) &&
      is_none (pi_city info) && assert_eq (pi_created_at info) (Some 1234))).
Definition a_stopped_driver_fails_the_request : bool :=
  let handle := {| ts_answers := []; ts_pushes := []; ts_snapshots := ∅; ts_dropped := true;
                   ts_sent := [] |} in
  match (set_nickname OTHER_ID "rival" handle).1 with
  | Ready (Err (WebSocket _)) => true
  | _ => false
  end.

(** ** [tests/proxy_handshake.rs] *)
Definition TARGET_HOST : bstr := as_bytes "cm.steampowered.com".
Definition TARGET_PORT : Z := 27017.
Definition TARGET : bstr := as_bytes "cm.steampowered.com:27017".
Definition creds : ProxyCredentials :=
  {| pc_username := as_bytes "bot01"; pc_password := as_bytes "hunter2" |}.
Definition EXPECTED_BASIC : bstr := as_bytes "Ym90MDE6aHVudGVyMg==".
Definition loopback : bstr := as_bytes "127.0.0.1".
Definition local_proxy (kind : ProxyKind) (credentials : option ProxyCredentials) : ProxyConfig :=
  {| px_kind := kind; px_host := loopback; px_port := 1080; px_credentials := credentials;
     px_tls_to_proxy := false |}.

(** The lines of a request up to its blank line; [None] if it ends before one. *)
Fixpoint read_request (fuel : nat) (stream : bstr) : option (list bstr) :=
  match fuel with
  | O => None
  | S fuel =>
      match read_line stream with
      | Ok ([], _) | Err _ => None
      | Ok (line, rest) =>
          if bool_decide (line = crlf) then Some []
          else lines ← read_request fuel rest; Some (unwrap_or (strip_suffix crlf line) line :: lines)
      end
  end.

(** A listener that takes a request [accepts] agrees with and writes [reply]; the [stall]-th
    read of it never ends. *)
Definition fake_proxy (accepts : list bstr → bool) (reply : bstr) (stall : option nat) : Dial :=
  {| dl_tcp := λ addr, {| op_result := if bool_decide (addr = authority loopback 1080) then Ok tt
                                       else Err "connection refused"%string; op_took := 0 |};
     dl_proxy_sni := λ _, Ok tt; dl_proxy_tls := op_ok 0;
     dl_write := λ bytes,
       {| op_result := match read_request (length bytes) bytes with
                       | Some lines => if accepts lines then Ok tt else Err "unexpected request"%string
                       | None => Err "request ended without a blank line"%string
                       end; op_took := 0 |};
     dl_response := reply;
     dl_line := λ i, if bool_decide (Some i = stall) then from_secs 86400 else 0;
     dl_socks5 := λ _ _ _, {| op_result := Err "not a socks proxy"%string; op_took := 0 |};
     dl_sni := λ _, Ok tt; dl_tls := op_ok 0; dl_request := Ok tt; dl_handshake := op_ok 0 |}.
Definition socks_server (reply : bstr * Z → bstr → option ProxyCredentials → result string unit) : Dial :=
  {| dl_tcp := λ _, op_ok 0; dl_proxy_sni := λ _, Ok tt; dl_proxy_tls := op_ok 0;
     dl_write := λ _, op_ok 0; dl_response := as_bytes "TUNNELLED"; dl_line := λ _, 0;
     dl_socks5 := λ addr target c, {| op_result := reply addr target c; op_took := 0 |};
     dl_sni := λ _, Ok tt; dl_tls := op_ok 0; dl_request := Ok tt; dl_handshake := op_ok 0 |}.
Definition dial (d : Dial) (p : ProxyConfig) : clocked bstr :=
  clocked_connect_via_proxy B64_encode d p TARGET_HOST TARGET_PORT.
Definition http_error (e : Error) (part : string) : bool :=
  match e with HttpConnect text => contains (as_bytes part) (as_bytes text) | _ => false end.

Definition connect_writes_the_request_line_and_host_header : bool :=
  let reply := as_bytes "HTTP/1.1 200 Connection established" ++ crlf ++ crlf ++ as_bytes "TUNNELLED" in
  let accepts lines :=
    assert_eq (lines !! 0%nat) (Some (as_bytes "CONNECT " ++ TARGET ++ as_bytes " HTTP/1.1")) &&
    assert_eq (lines !! 1%nat) (Some (as_bytes "Host: " ++ TARGET)) &&
    forallb (λ l, is_none (strip_prefix (as_bytes "Proxy-Authorization:") l)) lines in
  on_ok (dial (fake_proxy accepts reply None) (local_proxy HttpConnectProxy None)).1 (λ stream,
    assert_eq stream (as_bytes "TUNNELLED")).
Definition connect_sends_base64_basic_proxy_authorization : bool :=
  let accepts lines :=
    bool_decide ((as_bytes "Proxy-Authorization: Basic " ++ EXPECTED_BASIC) ∈ lines) in
  is_ok (dial (fake_proxy accepts (as_bytes "HTTP/1.1 200 OK" ++ crlf ++ crlf) None)
           (local_proxy HttpConnectProxy (Some creds))).1.
Definition connect_rejects_a_407_challenge : bool :=
  let reply := as_bytes "HTTP/1.1 407 Proxy Authentication Required" ++ crlf ++
               as_bytes "Proxy-Authenticate: Basic" ++ crlf ++ crlf in
  on_err (dial (fake_proxy (λ _, true) reply None) (local_proxy HttpConnectProxy None)).1 (λ e,
    http_error e "407").
Definition connect_rejects_an_endless_header_block : bool :=
  let reply := as_bytes "HTTP/1.1 200 OK" ++ crlf ++
               concat (repeat (as_bytes "X-Pad: 1" ++ crlf) 200) in
  on_err (dial (fake_proxy (λ _, true) reply (Some 201%nat)) (local_proxy HttpConnectProxy None)).1 (λ e,
    http_error e "too many").
Definition connect_times_out_on_a_proxy_that_stalls_mid_headers : bool :=
  on_err (dial (fake_proxy (λ _, true) (as_bytes "HTTP/1.1 200 OK" ++ crlf) (Some 1%nat))
            (local_proxy HttpConnectProxy None)).1 (λ e,
    match e with Timeout what => assert_eq what "http connect read headers"%string | _ => false end).

Definition socks5_negotiates_unauthenticated_and_tunnels : bool :=
  let reply '(host, port) target c :=
    if bool_decide (host = loopback ∧ port = 1080 ∧ target = TARGET ∧ is_none c = true)
    then Ok tt else Err "unexpected request"%string in
  on_ok (dial (socks_server reply) (local_proxy Socks5Proxy None)).1 (λ stream,
    assert_eq stream (as_bytes "TUNNELLED")).
Definition socks5_sends_the_configured_username_and_password : bool :=
  let reply (_ : bstr * Z) (_ : bstr) c :=
    match c with
    | Some c => if bool_decide (pc_username c = as_bytes "bot01" ∧ pc_password c = as_bytes "hunter2")
                then Ok tt else Err "bad credentials"%string
    | None => Err "no credentials"%string
    end in
  is_ok (dial (socks_server reply) (local_proxy Socks5Proxy (Some creds))).1.
Definition socks_refused (what : string) : bool :=
  on_err (dial (socks_server (λ _ _ _, Err what)) (local_proxy Socks5Proxy None)).1 (λ e,
    match e with Socks5 _ => true | _ => false end).
Definition socks5_surfaces_a_refused_connect : bool :=
  socks_refused "Connection not allowed by ruleset".
Definition socks5_rejects_an_unoffered_auth_method : bool :=
  socks_refused "No acceptable auth methods".
Definition connect_fails_fast_when_nothing_is_listening : bool :=
  let closed := {| px_kind := HttpConnectProxy; px_host := loopback; px_port := 9;
                   px_credentials := None; px_tls_to_proxy := false |} in
  let '(r, took) := dial (fake_proxy (λ _, true) [] None) closed in
  (took <=? from_secs 5) && on_err r (λ e, match e with Io _ => true | _ => false end).

(** ** [tests/smoke.rs] *)
Definition credentials_constructors_work : bool :=
  match password (as_bytes "bot01") (as_bytes "secret") (Some (as_bytes "ABCD")) with
  | Password _ => true | RefreshToken _ => false
  end &&
  match refresh_token (as_bytes "eyJ...") with
  | RefreshToken _ => true | Password _ => false
  end.
Definition proxy_url_parses_with_creds : bool :=
  on_ok (parse_str "socks5://u:p@host:1080") (λ cfg,
    assert_eq (px_host cfg) (as_bytes "host") && negb (is_none (px_credentials cfg))).
Definition session_state_label_is_consistent : bool :=
  assert_eq (label Connecting) "connecting"%string && assert_eq (label (StLoggedOn 1)) "logged_on"%string.
Definition totp_produces_steam_alphabet : bool :=
  match generate_auth_code hmac_sha1 B64_decode None (as_bytes "AAAAAAAAAAAAAAAAAAAAAAAAAAA=") (Some 0) with
  | Some (Ok code) => assert_eq (length code) 5%nat
  | _ => false
  end.

(** ** The suites *)
Definition session_handlers_tests : list bool :=
  [set_nickname_accepts_ok; set_nickname_rejects_a_non_ok_eresult;
   clear_nickname_rejects_a_non_ok_eresult; an_empty_reply_body_is_the_proto2_fail_default;
   delete_friends_group_rejects_a_non_ok_eresult; rename_friends_group_rejects_a_non_ok_eresult;
   remove_friends_from_group_rejects_a_non_ok_eresult;
   add_friends_to_group_stops_at_the_first_rejection; a_non_ok_header_eresult_fails_the_request;
   request_friends_list_reads_the_cached_snapshot;
   request_friends_list_skips_an_incremental_cached_delta;
   request_player_summary_ignores_a_partial_persona_state;
   request_profile_info_rejects_a_non_ok_eresult; request_profile_info_maps_an_ok_response;
   a_stopped_driver_fails_the_request].
Definition proxy_handshake_tests : list bool :=
  [connect_writes_the_request_line_and_host_header; connect_sends_base64_basic_proxy_authorization;
   connect_rejects_a_407_challenge; connect_rejects_an_endless_header_block;
   connect_times_out_on_a_proxy_that_stalls_mid_headers; socks5_negotiates_unauthenticated_and_tunnels;
   socks5_sends_the_configured_username_and_password; socks5_surfaces_a_refused_connect;
   socks5_rejects_an_unoffered_auth_method; connect_fails_fast_when_nothing_is_listening].
Definition smoke_tests : list bool :=
  [credentials_constructors_work; proxy_url_parses_with_creds; session_state_label_is_consistent;
   totp_produces_steam_alphabet].
