(* ===== verification/TestsGc.v ===== *)
(** * The repository's unit tests, run on the model: the game coordinator

    The [#[cfg(test)]] functions of src/gc/envelope.rs, src/gc/coordinator.rs and
    src/cs2.rs.  [GameCoordinator::for_test] has no pump: the test supplies the readiness
    values and the GC messages a request sees. *)
From S2P Require Import Prelude Errors RustStr Proto Wire Codec Connection Driver Gc GcSystem TestsCore.
From S2P Require Import TestsSession.
#[local] Set Default Goal Selector "!".
Import Wire.Instances.

(** ** Message formats *)
#[local] Instance status_or_default : Message ConnectionStatus :=
  with_default {| cst_status := None |}
    (wire_message (w_iso Build_ConnectionStatus cst_status (w_option (w_int 4)))).
Definition hello_default : ClientHello :=
  {| ch_version := None; ch_client_session_need := None; ch_client_launcher := None;
     ch_steam_launcher := None |}.
#[local] Instance hello_or_default : Message ClientHello :=
  with_default hello_default (wire_message
    (w_iso (λ '(a, b, c, d), Build_ClientHello a b c d)
      (λ h, (ch_version h, ch_client_session_need h, ch_client_launcher h, ch_steam_launcher h))
      (w_pair (w_pair (w_pair (w_option (w_uint 4)) (w_option (w_uint 4))) (w_option (w_int 4)))
        (w_option (w_int 4))))).
#[local] Instance games_played_message : Message GamesPlayed :=
  wire_message (w_iso Build_GamesPlayed gp_game_ids (w_list (w_option (w_uint 8)))).
#[local] Instance profile_request_message : Message ProfileRequest :=
  wire_message (w_iso (λ '(a, b), Build_ProfileRequest a b)
    (λ m, (prq_account_id m, prq_request_level m)) (w_pair (w_option (w_uint 4)) (w_option (w_uint 4)))).
Definition w_account_profile : wire AccountProfile :=
  w_iso (λ '(a, b, c, d, e), Build_AccountProfile a b c d e)
    (λ p, (ap_account_id p, ap_ranking p, ap_player_level p, ap_player_cur_xp p, ap_medals p))
    (w_pair (w_pair (w_pair (w_pair (w_option (w_uint 4))
      (w_option (w_iso (λ '(a, b), Build_Ranking a b) (λ r, (rk_rank_id r, rk_wins r))
         (w_pair (w_option (w_uint 4)) (w_option (w_uint 4))))))
      (w_option (w_int 4))) (w_option (w_int 4)))
      (w_option (w_iso (λ '(a, b), Build_Medals a b) (λ m, (md_display_items m, md_featured m))
         (w_pair (w_list (w_uint 4)) (w_option (w_uint 4)))))).
#[local] Instance players_profile_message : Message PlayersProfile :=
  wire_message (w_iso Build_PlayersProfile pp_account_profiles (w_list w_account_profile)).

(** ** [envelope.rs] *)
Definition APPID : Z := 730.
Definition SOME_GC_MSG : Z := 9128.
Definition client_from_gc (client : CMsgGcClient) : SteamMessage :=
  {| sm_emsg := EMSG_CLIENT_FROM_GC; sm_header := header_default; sm_body := encode_to_vec client |}.
Definition gc_header_to (target : option Z) : GcHeader :=
  {| gh_job_id_source := None; gh_job_id_target := target; gh_rest := [] |}.
Definition unwraps (msg : SteamMessage) (k : Result (option GcMessage) → bool) : bool :=
  on_some (unwrap msg) k.

Definition wrap_then_unwrap_round_trips : bool :=
  let body := [x01; x02; x03; x04] in
  let client := wrap APPID SOME_GC_MSG (gc_header_to (Some 99)) body in
  assert_eq (gcc_msgtype client) (Some (Z.lor SOME_GC_MSG PROTO_MASK)) &&
  assert_eq (gcc_appid client) (Some APPID) &&
  unwraps (client_from_gc client) (λ r, on_ok r (λ o, on_some o (λ gc,
    assert_eq (gm_appid gc) APPID && assert_eq (gm_msgtype gc) SOME_GC_MSG &&
    assert_eq (gm_body gc) body && assert_eq (jobid_target gc) (Some 99)))).
Definition jobid_target_normalizes_sentinels : bool :=
  for_all [0; u64_max] (λ sentinel,
    unwraps (client_from_gc (wrap APPID SOME_GC_MSG (gc_header_to (Some sentinel)) [])) (λ r,
      on_ok r (λ o, on_some o (λ gc, is_none (jobid_target gc))))).
Definition unwrap_skips_non_protobuf_payload : bool :=
  let client := {| gcc_appid := Some APPID; gcc_msgtype := Some 123;
                   gcc_payload := Some (to_le_bytes 4 123 ++ to_le_bytes 4 0); gcc_rest := [] |} in
  unwraps (client_from_gc client) (λ r, on_ok r is_none).
Definition unwrap_rejects_garbage_envelope : bool :=
  let client := {| gcc_appid := Some APPID; gcc_msgtype := Some 1; gcc_payload := Some [xff; x00];
                   gcc_rest := [] |} in
  unwraps (client_from_gc client) (λ r, on_err r is_codec).

(** ** [coordinator.rs] *)
Definition SEND_TYPE : Z := 9127.
Definition RESPONSE_TYPE : Z := 9128.
(** [GcConnectionStatus]: [HaveSession], [GcGoingDown], [NoSession],
    [NoSessionInLogonQueue] and [NoSteam] are 0 to 4. *)
Definition status_body (status : Z) : list byte := encode_to_vec {| cst_status := Some status |}.
Definition reply (version : Z) : GcMessage :=
  {| gm_appid := APPID; gm_msgtype := RESPONSE_TYPE; gm_header := gc_header_default;
     gm_body := encode_to_vec {| ch_version := Some version; ch_client_session_need := None;
                                 ch_client_launcher := None; ch_steam_launcher := None |} |}.

Definition connection_status_without_a_session_is_not_ready : bool :=
  for_all [1; 2; 3; 4] (λ status, negb (has_gc_session (status_body status))).
Definition connection_status_with_a_session_stays_ready : bool :=
  has_gc_session (status_body HAVE_SESSION) && has_gc_session [].
Definition undecodable_connection_status_is_not_a_session : bool := negb (has_gc_session [xff; xff]).

Definition request_matching_skips_replies_the_predicate_rejects : bool :=
  let '(got, _) := request_matching (Resp := ClientHello) APPID SEND_TYPE hello_default RESPONSE_TYPE
    (λ r, bool_decide (ch_version r = Some 2)) true [] (Ok tt) [RMsg (reply 1); RMsg (reply 2)] in
  on_ok got (λ got, assert_eq (ch_version got) (Some 2)).
Definition request_is_gated_on_readiness : bool :=
  let '(r, sent) := gc_request (Resp := ClientHello) APPID SEND_TYPE hello_default RESPONSE_TYPE
    false [] (Ok tt) [] in
  on_err r (λ e, match e with Timeout "GC welcome" => true | _ => false end) &&
  match sent with [] => true | _ => false end.
Definition wait_ready_returns_on_a_welcome_that_landed_before_the_call : bool :=
  is_ok (wait_ready true []).
Definition wait_ready_catches_a_welcome_that_lands_after_the_first_borrow : bool :=
  is_ok (wait_ready false [Some true]).
Definition wait_ready_errors_when_the_pump_is_gone : bool :=
  on_err (wait_ready false [None]) (λ e, match e with WebSocket _ => true | _ => false end).

(** The pump runs beside a session nobody else drives; its last coordinator is dropped. *)
Definition attached : System :=
  {| sy_world := for_test 7; sy_version := 0; sy_pump := pump_start 0; sy_pos := 0; sy_seen := 0;
     sy_sending := Launched (Ok tt); sy_caller := Launched (Ok tt); sy_clones := true |}.
Definition pump_releases_the_session_when_the_last_coordinator_drops : bool :=
  on_some (sys_step gz_decoder APPID 1 attached SDropClones) (λ sy,
  on_some (sys_step gz_decoder APPID 1 sy SDropped) (λ sy, negb (pu_running (sy_pump sy)))).

(** ** [cs2.rs] *)
Definition profiles_reply (account_ids : list Z) : GcMessage :=
  {| gm_appid := APP_ID; gm_msgtype := GC_PLAYERS_PROFILE; gm_header := gc_header_default;
     gm_body := encode_to_vec {| pp_account_profiles :=
       (λ id, {| ap_account_id := Some id; ap_ranking := None; ap_player_level := Some 40;
                 ap_player_cur_xp := None; ap_medals := None |}) <$> account_ids |} |}.
Definition profile_request_picks_the_requested_account : bool :=
  let wanted := 742504693 in
  let '(r, _) := request_player_profile APP_ID wanted true [] (Ok tt)
    [RMsg (profiles_reply [1]); RMsg (profiles_reply [2; wanted])] in
  on_ok r (λ profile, assert_eq (pf_account_id profile) wanted && assert_eq (pf_level profile) 40).
Definition profile_request_never_returns_another_account_as_ours : bool :=
  let '(r, _) := request_player_profile APP_ID 5 true [] (Ok tt) [RMsg (profiles_reply [9])] in
  on_err r is_timeout.
Definition profile_request_rejects_a_non_cs2_coordinator : bool :=
  let '(r, _) := request_player_profile 570 1 true [] (Ok tt) [] in on_err r is_invalid_config.
Definition account_id_takes_low_32_bits : bool :=
  let steam_id := 76561198702770421 in
  assert_eq (account_id_from_steam_id steam_id) (steam_id - 0x0110000100000000) &&
  assert_eq (account_id_from_steam_id steam_id) 742504693.
Definition message_types_match_the_proto : bool :=
  assert_eq GC_CLIENT_REQUEST_PLAYERS_PROFILE 9127 && assert_eq GC_PLAYERS_PROFILE 9128.

(** ** The suites *)
Definition envelope_tests : list bool :=
  [wrap_then_unwrap_round_trips; jobid_target_normalizes_sentinels; unwrap_skips_non_protobuf_payload;
   unwrap_rejects_garbage_envelope].
Definition coordinator_tests : list bool :=
  [connection_status_without_a_session_is_not_ready; connection_status_with_a_session_stays_ready;
   undecodable_connection_status_is_not_a_session;
   request_matching_skips_replies_the_predicate_rejects; request_is_gated_on_readiness;
   wait_ready_returns_on_a_welcome_that_landed_before_the_call;
   wait_ready_catches_a_welcome_that_lands_after_the_first_borrow;
   wait_ready_errors_when_the_pump_is_gone;
   pump_releases_the_session_when_the_last_coordinator_drops].
Definition cs2_tests : list bool :=
  [profile_request_picks_the_requested_account; profile_request_never_returns_another_account_as_ours;
   profile_request_rejects_a_non_cs2_coordinator; account_id_takes_low_32_bits;
   message_types_match_the_proto].
