(* ===== verification/Conformance.v ===== *)
(** * The model passes the repository's tests

    The suites of TestsCore.v, TestsAuth.v, TestsSession.v, TestsClients.v, TestsOffline.v
    and TestsGc.v, one per file of tests.  Left out are the three unit tests that are about other code only:
    [state.rs]'s serde round trip, [proxy.rs]'s resolver test and [rsa_pw.rs]'s decryption
    with a generated key.  The decompression bomb of [connection.rs] is proved instead of
    run. *)
From S2P Require Import Prelude Errors Connection TestsCore TestsAuth TestsSession TestsClients TestsOffline TestsGc.
#[local] Set Default Goal Selector "!".

Definition suites : list (string * list bool) :=
  [("codec.rs", codec_tests); ("session/state.rs", state_tests); ("session/discovery.rs", discovery_tests);
   ("transport/mod.rs", transport_tests); ("transport/proxy.rs", proxy_tests); ("http.rs", http_tests);
   ("pool.rs", pool_tests); ("auth/totp.rs", totp_tests); ("auth/jwt.rs", jwt_tests);
   ("auth/rsa_pw.rs", rsa_tests); ("auth/webapi.rs", webapi_tests);
   ("auth/credentials.rs", credentials_tests); ("auth/signin.rs", signin_tests);
   ("session/connection.rs", connection_tests); ("session/driver.rs", driver_tests);
   ("friends.rs", friends_tests); ("persona.rs", persona_tests); ("gc/envelope.rs", envelope_tests);
   ("gc/coordinator.rs", coordinator_tests); ("cs2.rs", cs2_tests);
   ("tests/session_handlers.rs", session_handlers_tests);
   ("tests/proxy_handshake.rs", proxy_handshake_tests); ("tests/smoke.rs", smoke_tests)]%string.

(** The suites that fail, by name. *)
Definition failures : list string :=
  fst <$> List.filter (λ s, negb (forallb id s.2)) suites.

(** The model is the program its authors test: every assertion of the 195 unit tests and
    29 offline integration tests the repository runs on its own code, from the frame codec
    and the proxy URL rules over the known-answer Steam Guard codes to the driver's routing,
    the sign-in flows and the coordinator, holds of these definitions; and a batch that
    inflates past the cap is refused, whatever it inflates to. *)
Theorem unit_tests_hold :
  failures = [] ∧ length (concat (snd <$> suites)) = 224%nat ∧ decode_multi_rejects_decompression_bomb.
Proof. split; [by vm_compute|]. split; [by vm_compute|]. apply bomb_is_refused. Qed.
